(** * transformo / sppd: a shallow embedding of the demo parser core

    The development follows the TypeScript sources under
    [src/handlers/sppd/sppd]: the bitstream buffer ([DemoBuffer.ts]), the
    schema resolver ([DataTable.ts]), the property codec and the entity
    store ([Entity.ts]) and the two stateful sub-protocol messages
    [SvcUpdateStringTable] and [SvcPacketEntities] ([NetSvcMessage.ts]).

    Conventions.
    - A JavaScript number holding an integer is a [Z]; the 32-bit operators
      ([<<], [>>], [>>>], [&], [|], [~]) are written out with their
      wrap-around in module [JS].  A number holding a fraction is a binary64
      [float].
    - A [Uint8Array] is a [list Z] of bytes; reading outside it gives
      [undefined] ([None]), writing outside it is dropped, and allocating
      one of negative length throws a [RangeError].
    - An integer kept in a number is exact up to 53 bits; a wider result
      is rounded as binary64 does ([JSNumber.nearest]).
    - Mutation is explicit state passing; a [throw] is the [Throw] outcome
      of the result type [res], a [console.warn] appends to a log. *)

From Stdlib Require Import ZArith Lia Bool Ascii String Floats.
From stdpp Require Import base list strings sorting gmap pretty.

Open Scope Z_scope.

(** ** JavaScript's 32-bit integer operators *)

Module JS.

Definition ToInt32 (x : Z) : Z := (x + 2 ^ 31) mod 2 ^ 32 - 2 ^ 31.
Definition ToUint32 (x : Z) : Z := x mod 2 ^ 32.

(** The shift count of [<<], [>>] and [>>>] is taken modulo 32. *)
Definition shcount (b : Z) : Z := ToUint32 b mod 32.

(** [a << b] *)
Definition shl (a b : Z) : Z := ToInt32 (Z.shiftl (ToInt32 a) (shcount b)).
(** [a >> b] *)
Definition sar (a b : Z) : Z := Z.shiftr (ToInt32 a) (shcount b).
(** [a >>> b] *)
Definition shr (a b : Z) : Z := Z.shiftr (ToUint32 a) (shcount b).
(** [a & b] *)
Definition and (a b : Z) : Z := Z.land (ToInt32 a) (ToInt32 b).
(** [a | b] *)
Definition or (a b : Z) : Z := Z.lor (ToInt32 a) (ToInt32 b).
(** [~a] *)
Definition not (a : Z) : Z := Z.lnot (ToInt32 a).
(** [a % b] on integers: the sign follows the dividend. *)
Definition rem (a b : Z) : Z := Z.rem a b.
(** [Math.floor(a / b)] for integers [a] and a positive integer [b]. *)
Definition floordiv (a b : Z) : Z := a / b.
(** [Math.ceil(a / b)] for integers [a] and a positive integer [b]. *)
Definition ceildiv (a b : Z) : Z := - ((- a) / b).
(** Truthiness of a number. *)
Definition truthy (a : Z) : bool := negb (a =? 0).

(** [arr[i]] on an array or typed array: [undefined] outside it. *)
Definition index {A} (l : list A) (i : Z) : option A :=
  if i <? 0 then None else l !! Z.to_nat i.

(** [arr[i] = v] on an array, for an index below its length: a negative
    index names a property of the object and leaves the elements alone. *)
Definition store {A} (l : list A) (i : Z) (v : A) : list A :=
  if i <? 0 then l else <[Z.to_nat i := v]> l.

(** [x || 0] where [x] is a number or [undefined]. *)
Definition orZero (o : option Z) : Z := default 0 o.

(** Arrays with holes: [arr[i]], [arr[i] = v] (which extends the array
    when [i] is at or beyond its length) and [delete arr[i]]. *)
Definition arrayGet {A} (l : list (option A)) (i : Z) : option A :=
  mjoin (index l i).

Definition arrayStore {A} (l : list (option A)) (i : Z) (v : A) : list (option A) :=
  if i <? 0 then l
  else if (Z.to_nat i <? length l)%nat then <[Z.to_nat i := Some v]> l
  else l ++ replicate (Z.to_nat i - length l) None ++ [Some v].

Definition arrayDelete {A} (l : list (option A)) (i : Z) : list (option A) :=
  if i <? 0 then l else <[Z.to_nat i := None]> l.

(** [u8[i] = v] on a [Uint8Array]: the value is reduced modulo 256 and a
    write outside the array is dropped. *)
Definition u8store (l : list Z) (i v : Z) : list Z :=
  if i <? 0 then l else <[Z.to_nat i := v mod 256]> l.

End JS.

(** ** JavaScript numbers that hold fractions

    A [float] is a binary64 number, as a JavaScript number is.  The
    functions below are the library calls the sources use on them,
    computed exactly through [Prim2SF]. *)

Module JSNumber.

(** The number an integer literal or an integer result denotes. *)
Definition ofZ (z : Z) : float := SF2Prim (binary_normalize 53 1024 z 0 false).

(** The integer a number holds once the integer result [z] of an addition
    or a subtraction is stored in it: [z] itself while it fits the 53 bits
    of a binary64 significand, otherwise the nearest integer that does, a tie
    going to the even significand.  (From [2 ^ 1024] on a binary64 is
    [Infinity]; no field of fewer than 1024 bits gets there.) *)
Definition nearest (z : Z) : Z :=
  let a := Z.abs z in
  if a <? 2 ^ 53 then z
  else
    let e := Z.log2 a - 52 in
    let q := a / 2 ^ e in
    let r := a mod 2 ^ e in
    let up := (2 ^ (e - 1) <? r) || ((2 ^ (e - 1) =? r) && Z.odd q) in
    Z.sgn z * ((if up then q + 1 else q) * 2 ^ e).

(** The integer part of a finite number, rounded toward zero; [0] for
    [NaN] and the infinities. *)
Definition truncZ (f : float) : Z :=
  match Prim2SF f with
  | S754_finite s m e =>
      let v := if 0 <=? e then Z.pos m * 2 ^ e else Z.pos m / 2 ^ (- e) in
      if s then - v else v
  | _ => 0
  end.

(** [ToInt32] of a number, as the operands of [&] and [<<] undergo it. *)
Definition toInt32 (f : float) : Z := JS.ToInt32 (truncZ f).

(** [Math.floor]. *)
Definition floorZ (f : float) : Z :=
  match Prim2SF f with
  | S754_finite s m e =>
      if 0 <=? e then (if s then - (Z.pos m * 2 ^ e) else Z.pos m * 2 ^ e)
      else (if s then (- Z.pos m) / 2 ^ (- e) else Z.pos m / 2 ^ (- e))
  | _ => 0
  end.

Definition floor (f : float) : float :=
  match Prim2SF f with
  | S754_finite _ _ _ => ofZ (floorZ f)
  | _ => f
  end.

(** [Math.round]: the nearest integer, a tie going up. *)
Definition roundZ (f : float) : Z :=
  match Prim2SF f with
  | S754_finite s m e =>
      let m := if s then - Z.pos m else Z.pos m in
      if 0 <=? e then m * 2 ^ e
      else (2 * m + 2 ^ (- e)) / 2 ^ (- e + 1)
  | _ => 0
  end.

Definition round (f : float) : float :=
  match Prim2SF f with
  | S754_finite _ _ _ => ofZ (roundZ f)
  | _ => f
  end.

(** [Math.max] of two numbers. *)
Definition max (a b : float) : float :=
  if PrimFloat.is_nan a then a
  else if PrimFloat.is_nan b then b
  else if PrimFloat.ltb a b then b
  else if PrimFloat.ltb b a then a
  else if PrimFloat.is_zero a && PrimFloat.is_zero b
  then (if PrimFloat.get_sign a then b else a)
  else a.

(** [x % 1]: what is left of [x] after its integer part. *)
Definition mod1 (f : float) : float :=
  match Prim2SF f with
  | S754_finite _ _ _ =>
      let r := (f - ofZ (truncZ f))%float in
      if PrimFloat.is_zero r then (if PrimFloat.get_sign f then (- 0)%float else 0%float)
      else r
  | S754_zero _ => f
  | _ => PrimFloat.nan
  end.

(** [DataView.getFloat32]: the number denoted by a binary32 bit pattern. *)
Definition float32OfBits (u : Z) : float :=
  let s := Z.testbit u 31 in
  let e := Z.land (Z.shiftr u 23) 255 in
  let m := Z.land u (2 ^ 23 - 1) in
  if e =? 255 then
    if m =? 0 then (if s then PrimFloat.neg_infinity else PrimFloat.infinity)
    else PrimFloat.nan
  else if e =? 0 then
    match m with
    | Zpos p => SF2Prim (S754_finite s p (-149))
    | _ => if s then PrimFloat.neg_zero else PrimFloat.zero
    end
  else SF2Prim (S754_finite s (Z.to_pos (2 ^ 23 + m)) (e - 150)).

(** [DataView.setFloat32] followed by [getUint32]: the binary32 bit
    pattern of the nearest binary32 number. *)
Definition float32Bits (f : float) : Z :=
  let sign (s : bool) := if s then 2 ^ 31 else 0 in
  let encode (x : spec_float) :=
    match x with
    | S754_zero s => sign s
    | S754_infinity s => sign s + 255 * 2 ^ 23
    | S754_nan => 255 * 2 ^ 23 + 2 ^ 22
    | S754_finite s m e =>
        if Z.pos m <? 2 ^ 23 then sign s + Z.pos m
        else sign s + (e + 150) * 2 ^ 23 + (Z.pos m - 2 ^ 23)
    end in
  match Prim2SF f with
  | S754_finite s m e => encode (binary_round 24 128 s m e)
  | x => encode x
  end.

End JSNumber.

(** ** DemoBuffer.ts: the bitstream buffer *)

Module DemoBuffer.

Record t := mk { bytes : list Z; cursor : Z }.

Definition getBit (buf : t) (at_ : Z) : Z :=
  let bitOffset := JS.rem at_ 8 in
  let byteOffset := JS.floordiv at_ 8 in
  let byte := JS.orZero (JS.index (bytes buf) byteOffset) in
  JS.and (JS.sar byte bitOffset) 1.

Definition getByte (buf : t) (at_ : Z) : Z :=
  let bitOffset := JS.rem at_ 8 in
  let byteOffset := JS.floordiv at_ 8 in
  let left := JS.orZero (JS.index (bytes buf) byteOffset) in
  if bitOffset =? 0 then left
  else
    let right := JS.orZero (JS.index (bytes buf) (byteOffset + 1)) in
    JS.or (JS.shr left bitOffset) (JS.and (JS.shl right (8 - bitOffset)) 255).

(** The [for (let i = from; i < to; i += 8)] loop of [getBitSlice]; [n]
    bounds the number of iterations left. *)
Fixpoint getBitSlice_loop (buf : t) (from to : Z) (n : nat) (i : Z)
    (output : list Z) : list Z :=
  match n with
  | O => output
  | S n' =>
      if i <? to then
        let byteIndex := JS.floordiv (i - from) 8 in
        getBitSlice_loop buf from to n' (i + 8)
          (JS.u8store output byteIndex (getByte buf i))
      else output
  end.

(** The array [getBitSlice] returns once [new Uint8Array] has accepted the
    length [Math.ceil((to - from) / 8)]: the bytes the loop stores, the last
    one masked. *)
Definition getBitSlice_filled (buf : t) (from to : Z) : list Z :=
  let bitOffset := JS.rem (to - from) 8 in
  let len := Z.to_nat (JS.ceildiv (to - from) 8) in
  let output := getBitSlice_loop buf from to len from (replicate len 0) in
  if negb (bitOffset =? 0) then
    let lastByte :=
      JS.and (JS.orZero (last output)) (JS.shl 1 bitOffset - 1) in
    JS.u8store output (Z.of_nat (length output) - 1) lastByte
  else output.

(** [new Uint8Array(length)] throws a [RangeError] when the length is
    negative, that is when [to <= from - 8]: [None], here and in every
    reader built on [getBitSlice]. *)
Definition getBitSlice (buf : t) (from to : Z) : option (list Z) :=
  if JS.ceildiv (to - from) 8 <? 0 then None
  else Some (getBitSlice_filled buf from to).

(** [for (let i = bytes.length - 1; i >= 0; i --) output = output * 256 + bytes[i]],
    the sum being a number: exact up to 53 bits, rounded beyond. *)
Definition getInt (buf : t) (from size : Z) : option Z :=
  bytes ← getBitSlice buf from (from + size);
  Some (foldr (fun b output => JSNumber.nearest (output * 256 + b)) 0 bytes).

Definition getSignedInt (buf : t) (from size : Z) : option Z :=
  value ← getInt buf from size;
  let signBit := JS.shl 1 (size - 1) in
  if JS.truthy (JS.and value signBit)
  then Some (JSNumber.nearest (value - JS.shl 1 size))
  else Some value.

(** [String.fromCharCode] of a byte. *)
Definition fromCharCode (c : Z) : ascii := ascii_of_nat (Z.to_nat c).

(** [getBitSlice(from, from + size).reduce((a, c) => a + String.fromCharCode(c), "")] *)
Definition getString (buf : t) (from size : Z) : option string :=
  bytes ← getBitSlice buf from (from + size);
  Some (string_of_list_ascii (map fromCharCode bytes)).

(** The loop of [getNullTerminatedString]: at most [bytes.length]
    iterations, after which the string read so far is returned. *)
Fixpoint getNullTerminatedString_loop (buf : t) (from : Z) (n : nat) (i : Z)
    : string :=
  match n with
  | O => EmptyString
  | S n' =>
      let byte := getByte buf (from + i) in
      if byte =? 0 then EmptyString
      else String (fromCharCode byte)
             (getNullTerminatedString_loop buf from n' (i + 8))
  end.

Definition getNullTerminatedString (buf : t) (from : Z) : string :=
  getNullTerminatedString_loop buf from (length (bytes buf)) 0.

(** The loop of [getNullTerminatedString] ran to its end without meeting
    a zero byte, and the warning after it is issued: the string then has
    as many characters as the blob has bytes. *)
Definition getNullTerminatedString_warns (buf : t) (from : Z) : bool :=
  (String.length (getNullTerminatedString buf from) =? length (bytes buf))%nat.

(** [new DataView(getBitSlice(from, from + 32).buffer).getFloat32(0, true)] *)
Definition getFloat (buf : t) (from : Z) : option float :=
  bytes ← getBitSlice buf from (from + 32);
  Some (JSNumber.float32OfBits (foldr (fun b u => u * 256 + b) 0 bytes)).

(** *** The cursor-based readers: the value read and the buffer with its
    cursor advanced; a reader that throws leaves the cursor where it
    was. *)

Definition advance (buf : t) (n : Z) : t := mk (bytes buf) (cursor buf + n).
Definition seek (buf : t) (c : Z) : t := mk (bytes buf) c.

Definition nextBit (buf : t) : Z * t :=
  (getBit buf (cursor buf), advance buf 1).
Definition nextByte (buf : t) : Z * t :=
  (getByte buf (cursor buf), advance buf 8).
Definition nextBytes (buf : t) (size : Z) : option (list Z * t) :=
  output ← getBitSlice buf (cursor buf) (cursor buf + size);
  Some (output, advance buf size).
Definition nextString (buf : t) (size : Z) : option (string * t) :=
  output ← getString buf (cursor buf) size;
  Some (output, advance buf size).
Definition nextNullTerminatedString (buf : t) : string * t :=
  let s := getNullTerminatedString buf (cursor buf) in
  (s, advance buf (Z.of_nat (String.length s) * 8 + 8)).
Definition nextInt (buf : t) (size : Z) : option (Z * t) :=
  output ← getInt buf (cursor buf) size;
  Some (output, advance buf size).
Definition nextSignedInt (buf : t) (size : Z) : option (Z * t) :=
  output ← getSignedInt buf (cursor buf) size;
  Some (output, advance buf size).

Definition nextFloat (buf : t) : option (float * t) :=
  output ← getFloat buf (cursor buf);
  Some (output, advance buf 32).

Definition nextBitInt (buf : t) : option (Z * t) :=
  '(ret, buf) ← nextInt buf 4;
  '(sel, buf) ← nextInt buf 2;
  if sel =? 1 then
    '(x, buf) ← nextInt buf 4; Some (JS.or ret (JS.shl x 4), buf)
  else if sel =? 2 then
    let '(x, buf) := nextByte buf in Some (JS.or ret (JS.shl x 4), buf)
  else if sel =? 3 then
    '(x, buf) ← nextInt buf 28;
    Some (JS.or ret (JS.shr (JS.shl x 4) 0), buf)
  else Some (ret, buf).

Definition nextPropertyIndex (buf : t) (lastIndex : Z) (newScheme : bool)
    : option (Z * t) :=
  let '(b1, buf1) := nextBit buf in
  if newScheme && JS.truthy b1 then Some (lastIndex + 1, buf1)
  else
    let buf := if newScheme then buf1 else buf in
    let '(b2, buf2) := nextBit buf in
    '(ret, buf) ←
      (if newScheme && JS.truthy b2 then nextInt buf2 3
       else
         let buf := if newScheme then buf2 else buf in
         '(ret, buf) ← nextInt buf 5;
         '(sel, buf) ← nextInt buf 2;
         if sel =? 0 then Some (ret, buf)
         else if sel =? 1 then
           '(x, buf) ← nextInt buf 2; Some (JS.or ret (JS.shl x 5), buf)
         else if sel =? 2 then
           '(x, buf) ← nextInt buf 4; Some (JS.or ret (JS.shl x 5), buf)
         else
           '(x, buf) ← nextInt buf 7; Some (JS.or ret (JS.shl x 5), buf));
    if ret =? 4095 then Some (-1, buf) else Some (lastIndex + 1 + ret, buf).

(** [for (j = 31; j >= 0 && (i & (1 << j)) === 0; j --);] *)
Fixpoint highestBitIndex_loop (i : Z) (n : nat) (j : Z) : Z :=
  match n with
  | O => j
  | S n' =>
      if (0 <=? j) && (JS.and i (JS.shl 1 j) =? 0)
      then highestBitIndex_loop i n' (j - 1)
      else j
  end.

Definition highestBitIndex (i : Z) : Z := highestBitIndex_loop i 32 31.

(** *** The writers: they patch the byte blob in place and never grow it. *)

Definition setBit (buf : t) (at_ : Z) (value : bool) : t :=
  let byteIndex := JS.floordiv at_ 8 in
  let bitIndex := JS.rem at_ 8 in
  let byte := JS.orZero (JS.index (bytes buf) byteIndex) in
  let bit := JS.shl 1 bitIndex in
  if value then mk (JS.u8store (bytes buf) byteIndex (JS.or byte bit)) (cursor buf)
  else mk (JS.u8store (bytes buf) byteIndex (JS.and byte (JS.not bit))) (cursor buf).

(** [for (let i = 0; i < size; i ++) this.setBit(from + i, value & (1 << i))] *)
Fixpoint setInt_loop (from value : Z) (n : nat) (i : Z) (buf : t) : t :=
  match n with
  | O => buf
  | S n' =>
      setInt_loop from value n' (i + 1)
        (setBit buf (from + i) (JS.truthy (JS.and value (JS.shl 1 i))))
  end.

Definition setInt (buf : t) (from size value : Z) : t :=
  setInt_loop from value (Z.to_nat size) 0 buf.

Definition setSignedInt (buf : t) (from size value : Z) : t :=
  let value := if value <? 0 then JS.shl 1 size + value else value in
  setInt buf from size value.

(** [dataView.setFloat32(0, value); this.setInt(from, 32, dataView.getUint32(0))] *)
Definition setFloat (buf : t) (from : Z) (value : float) : t :=
  setInt buf from 32 (JSNumber.float32Bits value).

(** *** Vocabulary of the statements about the buffer *)

(** Every stored byte is a byte: what a [Uint8Array] guarantees. *)
Definition wf (buf : t) : Prop := Forall (fun b => 0 <= b < 256) (bytes buf).

(** [bytes.length * 8], the number of addressable bits. *)
Definition bitLength (buf : t) : Z := 8 * Z.of_nat (length (bytes buf)).

(** The number that the [size] bits from address [from] spell, lowest
    bit first; [getInt] returns it for a field of up to 53 bits. *)
Definition field (buf : t) (from size : Z) : Z :=
  foldr (fun b output => output * 256 + b) 0 (getBitSlice_filled buf from (from + size)).

(** The bit stored at absolute address [k]; [false] beyond the blob. *)
Definition bitAt (buf : t) (k : Z) : bool :=
  Z.testbit (default 0 (bytes buf !! Z.to_nat (k / 8))) (k mod 8).

End DemoBuffer.

(** ** DataTable.ts: property definitions and the schema resolver *)

Module DataTablePropertyType.
Definition Int : Z := 0.
Definition Float : Z := 1.
Definition Vector3 : Z := 2.
Definition Vector2 : Z := 3.
Definition String : Z := 4.
Definition Array : Z := 5.
Definition DataTable : Z := 6.
End DataTablePropertyType.

Module DataTablePropertyFlag.
Definition Unsigned : Z := 0.
Definition Coord : Z := 1.
Definition NoScale : Z := 2.
Definition RoundDown : Z := 3.
Definition RoundUp : Z := 4.
Definition Normal : Z := 5.
Definition Exclude : Z := 6.
Definition Xyze : Z := 7.
Definition InsideArray : Z := 8.
Definition ProxyAlwaysYes : Z := 9.
Definition IsVectorElem : Z := 10.
Definition Collapsible : Z := 11.
Definition CoordMp : Z := 12.
Definition CoordMpLp : Z := 13.
Definition CoordMpInt : Z := 14.
Definition CellCoord : Z := 15.
Definition CellCoordLp : Z := 16.
Definition CellCoordInt : Z := 17.
Definition ChangesOften : Z := 18.
End DataTablePropertyFlag.

Module DataTableProperty.

(** The [value] field: [{low, high, bits}]. *)
Record range := mkRange { low : float; high : float; bits : Z }.

Record t := mk {
  type : Z;
  name : string;
  flags : Z;
  priority : Z;
  excludeName : option string;
  value : option range;
  arrayElements : option Z
}.

(** [(this.flags & (1 << flag)) !== 0] *)
Definition hasFlag (p : t) (flag : Z) : bool :=
  negb (JS.and (flags p) (JS.shl 1 flag) =? 0).

End DataTableProperty.

Module FlatProperty.
Record t := mk {
  name : string;
  baseProperty : DataTableProperty.t;
  baseArrayProperty : option DataTableProperty.t
}.
End FlatProperty.

Module DataTable.
Record t := mk {
  needsDecoder : bool;
  name : string;
  properties : list DataTableProperty.t
}.
End DataTable.

Module ServerClass.
Record t := mk { tableID : Z; className : string; tableName : string }.
End ServerClass.

(** [ExcludePair] and [ExcludePairSet]: the set is its [elements] array. *)
Module ExcludePairSet.

Record ExcludePair := mkPair { from : string; exclude : string }.

Definition samePair (curr element : ExcludePair) : bool :=
  bool_decide (from curr = from element)
  && bool_decide (exclude curr = exclude element).

(** [has (element, max?)]: [if (!max) max = this.elements.length], so an
    absent [max] and a [max] of zero both mean the whole array. *)
Definition has (elements : list ExcludePair) (element : ExcludePair)
    (max : option Z) : bool :=
  let max :=
    match max with
    | None => Z.of_nat (length elements)
    | Some m => if m =? 0 then Z.of_nat (length elements) else m
    end in
  existsb (fun curr => samePair curr element) (take (Z.to_nat max) elements).

Definition add (elements : list ExcludePair) (newElement : ExcludePair)
    : list ExcludePair :=
  if has elements newElement None then elements else elements ++ [newElement].

(** [union]: [max] is the length on entry; the array grows in the loop. *)
Definition union (elements other : list ExcludePair) : list ExcludePair :=
  let max := Z.of_nat (length elements) in
  foldl (fun elements element =>
           if has elements element (Some max) then elements
           else elements ++ [element])
        elements other.

End ExcludePairSet.

Module ParserClass.

Record t := mk {
  serverClass : ServerClass.t;
  flatProperties : list FlatProperty.t
}.

(** [demo.dataTables], a [Map] from table name to table. *)
Abbreviation tables := (gmap string DataTable.t).

(** *** [gatherExcludes]

    The recursion follows the table references of the schema and need not
    end on a cyclic schema; [fuel] bounds its depth and [None] stands for
    the recursion that does not return. *)
Fixpoint gatherExcludes (fuel : nat) (dataTables : tables) (table : DataTable.t)
    : option (list ExcludePairSet.ExcludePair) :=
  match fuel with
  | O => None
  | S fuel' =>
      foldl
        (fun acc property =>
           match acc with
           | None => None
           | Some excludes =>
               match DataTableProperty.excludeName property with
               | None => Some excludes
               | Some excludeName =>
                   if DataTableProperty.type property =? DataTablePropertyType.DataTable
                   then
                     match dataTables !! excludeName with
                     | None => Some excludes
                     | Some excludeTable =>
                         match gatherExcludes fuel' dataTables excludeTable with
                         | None => None
                         | Some other => Some (ExcludePairSet.union excludes other)
                         end
                     end
                   else if DataTableProperty.hasFlag property DataTablePropertyFlag.Exclude
                   then Some (ExcludePairSet.add excludes
                                (ExcludePairSet.mkPair excludeName
                                   (DataTableProperty.name property)))
                   else Some excludes
               end
           end)
        (Some []) (DataTable.properties table)
  end.

(** *** [iterateProperties] and [gatherProperties] *)

(** Lines 284-295 of [iterateProperties]: the flattened property emitted
    for the leaf [property] found at index [i] of [properties], or [None]
    when an array has nothing before it. *)
Definition flatLeaf (prefix : string) (properties : list DataTableProperty.t)
    (i : Z) (property : DataTableProperty.t) : option FlatProperty.t :=
  let prefixedName := (prefix ++ DataTableProperty.name property)%string in
  if negb (DataTableProperty.type property =? DataTablePropertyType.Array) then
    Some (FlatProperty.mk prefixedName property None)
  else
    match JS.index properties (i - 1) with
    | None => None
    | Some element => Some (FlatProperty.mk prefixedName property (Some element))
    end.

(** The guard at the head of the loop body. *)
Definition skipped (excludes : list ExcludePairSet.ExcludePair)
    (table : DataTable.t) (property : DataTableProperty.t) : bool :=
  DataTableProperty.hasFlag property DataTablePropertyFlag.Exclude
  || DataTableProperty.hasFlag property DataTablePropertyFlag.InsideArray
  || ExcludePairSet.has excludes
       (ExcludePairSet.mkPair (DataTable.name table) (DataTableProperty.name property))
       None.

(** The state the two functions mutate: [parsedTable] and the
    [flatProperties] array of the caller. *)
Abbreviation resolverState := (list t * list FlatProperty.t)%type.

(** [gatherProperties], given the function it calls on the table. *)
Definition gatherProperties_with
    (iterate : list t -> DataTable.t -> list FlatProperty.t -> string ->
               option resolverState)
    (parsedTable : list t) (table : DataTable.t) (serverClass : ServerClass.t)
    (prefix : string) : option (list t) :=
  match iterate parsedTable table [] prefix with
  | None => None
  | Some (parsedTable, flatProperties) =>
      let parsedTable :=
        if ServerClass.tableID serverClass =? Z.of_nat (length parsedTable)
        then parsedTable ++ [mk serverClass []] else parsedTable in
      match JS.index parsedTable (ServerClass.tableID serverClass) with
      | None => Some parsedTable
      | Some parserClass =>
          Some (<[Z.to_nat (ServerClass.tableID serverClass) :=
                    mk (ParserClass.serverClass parserClass)
                       (ParserClass.flatProperties parserClass ++ flatProperties)]>
                  parsedTable)
      end
  end.

(** The loop of [iterateProperties] over [table.properties], given the
    function [iterate] it calls on a nested table; [n] bounds the
    iterations left and [i] is the loop index. *)
Fixpoint iterateProperties_loop
    (iterate : list t -> DataTable.t -> list FlatProperty.t -> string ->
               option resolverState)
    (dataTables : tables) (excludes : list ExcludePairSet.ExcludePair)
    (serverClass : ServerClass.t) (table : DataTable.t) (prefix : string)
    (n : nat) (i : Z) (st : resolverState) : option resolverState :=
  match n with
  | O => Some st
  | S n' =>
      let continue := iterateProperties_loop iterate dataTables excludes serverClass
                        table prefix n' (i + 1) in
      let '(parsedTable, flatProperties) := st in
      match JS.index (DataTable.properties table) i with
      | None => continue st
      | Some property =>
          if skipped excludes table property then continue st
          else if DataTableProperty.type property =? DataTablePropertyType.DataTable
          then
            match DataTableProperty.excludeName property with
            | None => continue st
            | Some excludeName =>
                if (String.length excludeName =? 0)%nat then continue st
                else
                  match dataTables !! excludeName with
                  | None => continue st
                  | Some excludeTable =>
                      if DataTableProperty.hasFlag property
                           DataTablePropertyFlag.Collapsible
                      then
                        match iterate parsedTable excludeTable flatProperties prefix with
                        | None => None
                        | Some st' => continue st'
                        end
                      else
                        let newPrefix :=
                          if (0 <? String.length (DataTableProperty.name property))%nat
                          then (DataTableProperty.name property ++ ".")%string
                          else ""%string in
                        match gatherProperties_with iterate parsedTable excludeTable
                                serverClass newPrefix with
                        | None => None
                        | Some parsedTable' => continue (parsedTable', flatProperties)
                        end
                  end
            end
          else
            match flatLeaf prefix (DataTable.properties table) i property with
            | None => continue st
            | Some newProperty =>
                continue (parsedTable, flatProperties ++ [newProperty])
            end
      end
  end.

(** The recursion through nested tables need not end on a cyclic schema;
    [fuel] bounds its depth and [None] stands for the call that does not
    return. *)
Fixpoint iterateProperties (fuel : nat) (dataTables : tables)
    (excludes : list ExcludePairSet.ExcludePair) (serverClass : ServerClass.t)
    (parsedTable : list t) (table : DataTable.t)
    (flatProperties : list FlatProperty.t) (prefix : string)
    : option resolverState :=
  match fuel with
  | O => None
  | S fuel' =>
      iterateProperties_loop (iterateProperties fuel' dataTables excludes serverClass)
        dataTables excludes serverClass table prefix
        (length (DataTable.properties table)) 0 (parsedTable, flatProperties)
  end.

Definition gatherProperties (fuel : nat) (dataTables : tables)
    (parsedTable : list t) (excludes : list ExcludePairSet.ExcludePair)
    (table : DataTable.t) (serverClass : ServerClass.t) (prefix : string)
    : option (list t) :=
  gatherProperties_with (iterateProperties fuel dataTables excludes serverClass)
    parsedTable table serverClass prefix.

(** *** [sortProperties] *)

(** [priorities.sort((a, b) => a - b)]: the numbers in ascending order. *)
Fixpoint insertSorted (x : Z) (l : list Z) : list Z :=
  match l with
  | [] => [x]
  | y :: l' => if x <=? y then x :: l else y :: insertSorted x l'
  end.

Definition sortNumeric (l : list Z) : list Z := foldr insertSorted [] l.

(** [new Set(priorities)], iterated: the distinct values in the order of
    their first occurrence. *)
Definition setOfArray (l : list Z) : list Z :=
  foldl (fun seen x => if bool_decide (x ∈ seen) then seen else seen ++ [x]) [] l.

Definition prioritySet (flatProperties : list FlatProperty.t) : list Z :=
  let priorities :=
    map (fun entry => DataTableProperty.priority (FlatProperty.baseProperty entry))
        flatProperties in
  setOfArray (sortNumeric (priorities ++ [64])).

(** The test that sends a property to the bucket being filled:
    [baseProperty.priority === priority ||
     (baseProperty.hasFlag(ChangesOften) && priority === 64)]. *)
Definition inBucket (priority : Z) (flatProperty : FlatProperty.t) : bool :=
  let baseProperty := FlatProperty.baseProperty flatProperty in
  (DataTableProperty.priority baseProperty =? priority)
  || (DataTableProperty.hasFlag baseProperty DataTablePropertyFlag.ChangesOften
      && (priority =? 64)).

(** The inner loop [for (let i = start; i < flatProperties.length; i ++)];
    the state is the array and [start], [n] bounds the iterations left. *)
Fixpoint sortProperties_scan (priority : Z) (n : nat) (i : nat)
    (st : list FlatProperty.t * nat) : list FlatProperty.t * nat :=
  match n with
  | O => st
  | S n' =>
      let '(flatProperties, start) := st in
      if (i <? length flatProperties)%nat then
        match flatProperties !! i with
        | None => sortProperties_scan priority n' (S i) st
        | Some flatProperty =>
            if negb (inBucket priority flatProperty) then
              sortProperties_scan priority n' (S i) st
            else if negb (start =? i)%nat then
              match flatProperties !! start with
              | None => sortProperties_scan priority n' (S i) st
              | Some other =>
                  sortProperties_scan priority n' (S i)
                    (<[start := flatProperty]> (<[i := other]> flatProperties),
                     S start)
              end
            else sortProperties_scan priority n' (S i) (flatProperties, S start)
        end
      else st
  end.

(** [for (const priority of prioritySet)]: [start] is kept from one bucket
    to the next. *)
Definition sortProperties (flatProperties : list FlatProperty.t)
    : list FlatProperty.t :=
  fst (foldl
         (fun st priority =>
            sortProperties_scan priority (length flatProperties) (snd st) st)
         (flatProperties, O)
         (prioritySet flatProperties)).

(** *** [fromDemo]: one parser class per server class *)

Definition fromDemo (fuel : nat) (dataTables : tables)
    (serverClasses : list ServerClass.t) : option (list t) :=
  foldl
    (fun acc serverClass =>
       match acc with
       | None => None
       | Some parsedTable =>
           let tableID := ServerClass.tableID serverClass in
           match dataTables !! ServerClass.tableName serverClass with
           | None => Some parsedTable
           | Some table =>
               match gatherExcludes fuel dataTables table with
               | None => None
               | Some excludes =>
                   match gatherProperties fuel dataTables parsedTable excludes table
                           serverClass "" with
                   | None => None
                   | Some parsedTable =>
                       match JS.index parsedTable tableID with
                       | None => Some parsedTable
                       | Some parserClass =>
                           Some (<[Z.to_nat tableID :=
                                     mk (ParserClass.serverClass parserClass)
                                        (sortProperties
                                           (ParserClass.flatProperties parserClass))]>
                                   parsedTable)
                       end
                   end
               end
           end
       end)
    (Some []) serverClasses.

(** *** Vocabulary of the statements about the flattening *)

(** An array-typed flattened property is paired with the definition that
    stands just before its own in a table of the schema; any other
    flattened property has no companion. *)
Definition pairedByPosition (dataTables : tables) (fp : FlatProperty.t) : Prop :=
  let property := FlatProperty.baseProperty fp in
  if DataTableProperty.type property =? DataTablePropertyType.Array then
    exists (tableName : string) (table : DataTable.t) (i : nat)
           (element : DataTableProperty.t),
      dataTables !! tableName = Some table /\
      DataTable.properties table !! S i = Some property /\
      DataTable.properties table !! i = Some element /\
      FlatProperty.baseArrayProperty fp = Some element
  else FlatProperty.baseArrayProperty fp = None.

(** A flattened property stands for a leaf of the schema: its definition
    is not a reference to a table and is neither excluded nor the element
    of an array. *)
Definition leafDefinition (fp : FlatProperty.t) : Prop :=
  let property := FlatProperty.baseProperty fp in
  DataTableProperty.type property <> DataTablePropertyType.DataTable /\
  DataTableProperty.hasFlag property DataTablePropertyFlag.Exclude = false /\
  DataTableProperty.hasFlag property DataTablePropertyFlag.InsideArray = false.

(** *** Vocabulary of the statements about [sortProperties] *)

(** The bucket a property ends in: its declared priority, or 64 when it
    changes often and its declared priority is above 64. *)
Definition bucket (flatProperty : FlatProperty.t) : Z :=
  let baseProperty := FlatProperty.baseProperty flatProperty in
  if DataTableProperty.hasFlag baseProperty DataTablePropertyFlag.ChangesOften
     && (64 <? DataTableProperty.priority baseProperty)
  then 64 else DataTableProperty.priority baseProperty.

(** The loop invariant between two buckets, [ps] being the buckets still
    to fill: the first [start] properties are placed, in ascending bucket
    order and below every bucket to come, and every other property waits
    for one of the buckets to come. *)
Definition placed (ps : list Z) (flatProperties : list FlatProperty.t)
    (start : nat) : Prop :=
  (start <= length flatProperties)%nat /\
  StronglySorted Z.le (map bucket (take start flatProperties)) /\
  (forall x q, x ∈ take start flatProperties -> q ∈ ps -> bucket x < q) /\
  (forall x, x ∈ drop start flatProperties -> bucket x ∈ ps).

(** The ordering as the specification words it: every changes-often
    property belongs to bucket 64 whatever its priority, buckets come in
    ascending order, and each bucket keeps the input order. *)
Definition specBucket (flatProperty : FlatProperty.t) : Z :=
  let baseProperty := FlatProperty.baseProperty flatProperty in
  if DataTableProperty.hasFlag baseProperty DataTablePropertyFlag.ChangesOften
  then 64 else DataTableProperty.priority baseProperty.

Definition specSortProperties (flatProperties : list FlatProperty.t)
    : list FlatProperty.t :=
  let buckets := setOfArray (sortNumeric (map specBucket flatProperties)) in
  concat (map (fun b => filter (fun fp => specBucket fp = b) flatProperties) buckets).

End ParserClass.

(** ** Entity.ts, StringTable.ts: the data the session holds *)

Module Vector.
Record t := mk { x : float; y : float; z : float }.

(** [Number(x) || 0]: [NaN] and zero of either sign become [0]. *)
Definition orZero (f : float) : float :=
  if PrimFloat.is_nan f || PrimFloat.is_zero f then 0%float else f.

(** [new Vector(x, y, z)], absent arguments being [0]. *)
Definition make (x y z : float) : t := mk (orZero x) (orZero y) (orZero z).
End Vector.

Module EntityProperty.

(** [EntityPropertyValueType]:
    [number | string | Vector | number[] | string[] | Vector[]]. *)
Inductive value :=
| VNumber (n : float)
| VString (s : string)
| VVector (v : Vector.t)
| VNumbers (l : list float)
| VStrings (l : list string)
| VVectors (l : list Vector.t).

(** [Array.isArray(value)] *)
Definition isArray (v : value) : bool :=
  match v with
  | VNumbers _ | VStrings _ | VVectors _ => true
  | _ => false
  end.

Record t := mk {
  index : Z;
  property : FlatProperty.t;
  bufferFrom : Z;
  bufferSize : Z;
  value_ : value
}.

End EntityProperty.

Module StaticBaseline.
(** [entityProperties] is an array with holes: a slot never set is [None]. *)
Record t := mk {
  serverClass : ServerClass.t;
  entityProperties : list (option EntityProperty.t)
}.
End StaticBaseline.

Module Entity.
(** [source] is the demo the entity was read from; the session has one
    demo, so the field only records whether it is set. *)
Record t := mk {
  serverClass : ServerClass.t;
  properties : list (option EntityProperty.t);
  serial : Z;
  index : Z;
  inPVS : bool;
  source : bool
}.
End Entity.

Module StringTableEntry.

(** The variants [fromDemo] selects by table name. *)
Inductive data :=
| Plain
| PlayerInfo (steamID : Z) (name : string) (userID : Z) (GUID : string)
    (friendsID : Z) (friendsName : string) (fakePlayer isHLTV : bool)
    (customFilesCRC : list Z) (filesDownloaded : Z)
| QueryPort (port : Z)
| InstanceBaseline (serverClass : option ServerClass.t)
    (entityProperties : option (list EntityProperty.t))
| StringEntryData (string_ : string)
| LightStyle (pattern : string)
| PrecacheData (flags : Z).

Record t := mk { tableName : string; entryName : string; data_ : data }.

End StringTableEntry.

Module StringTableClass.
Record t := mk { name : string; data_ : option string }.
End StringTableClass.

Module StringTable.
Record t := mk {
  name : string;
  entries : list StringTableEntry.t;
  classes : list StringTableClass.t;
  maxEntries : option Z;
  userDataSize : Z;
  userDataSizeBits : Z
}.

(** [new StringTable(name)] *)
Definition new (name : string) : t := mk name [] [] None 0 0.
End StringTable.

(** ** Demo.ts: the session state

    Objects that the sources mutate through a reference are kept in a
    store: an [Entity] lives in [heap] and the entity table [entities]
    holds, for each slot, the address of its occupant; [stringTables] is
    the [Map] in insertion order.  [log] collects the [console.warn]
    messages. *)

Module Demo.
Record t := mk {
  buf : DemoBuffer.t;
  dataTables : option ParserClass.tables;
  serverClasses : option (list ServerClass.t);
  stringTables : list (string * StringTable.t);
  parserClasses : option (list ParserClass.t);
  baselines : list (option StaticBaseline.t);
  tick : Z;
  heap : list Entity.t;
  entities : option (list (option nat));
  log : list string
}.

Definition setBuf (d : t) (b : DemoBuffer.t) : t :=
  mk b (dataTables d) (serverClasses d) (stringTables d) (parserClasses d)
     (baselines d) (tick d) (heap d) (entities d) (log d).
Definition setStringTables (d : t) (st : list (string * StringTable.t)) : t :=
  mk (buf d) (dataTables d) (serverClasses d) st (parserClasses d)
     (baselines d) (tick d) (heap d) (entities d) (log d).
Definition setBaselines (d : t) (b : list (option StaticBaseline.t)) : t :=
  mk (buf d) (dataTables d) (serverClasses d) (stringTables d) (parserClasses d)
     b (tick d) (heap d) (entities d) (log d).
Definition setHeap (d : t) (h : list Entity.t) : t :=
  mk (buf d) (dataTables d) (serverClasses d) (stringTables d) (parserClasses d)
     (baselines d) (tick d) h (entities d) (log d).
Definition setEntities (d : t) (e : option (list (option nat))) : t :=
  mk (buf d) (dataTables d) (serverClasses d) (stringTables d) (parserClasses d)
     (baselines d) (tick d) (heap d) e (log d).
(** [console.warn(msg)] *)
Definition warn (d : t) (msg : string) : t :=
  mk (buf d) (dataTables d) (serverClasses d) (stringTables d) (parserClasses d)
     (baselines d) (tick d) (heap d) (entities d) (log d ++ [msg]).
(** [demo.buf.cursor = c] *)
Definition seek (d : t) (c : Z) : t := setBuf d (DemoBuffer.seek (buf d) c).
End Demo.

(** ** Outcomes and the monad of the parsing code

    A call either returns, with a value and the state it leaves, or
    throws. *)

(** What is thrown: a message, or the message of [setValue] which is made
    of the rejected value and the name of the property. *)
Inductive thrown :=
| Message (msg : string)
| ValueNotSupported (value : EntityProperty.value) (propertyName : string).
Coercion Message : string >-> thrown.

Inductive res (A : Type) : Type :=
| Ok (a : A)
| Throw (e : thrown).
Arguments Ok {A} a.
Arguments Throw {A} e.

Definition M (A : Type) : Type := Demo.t -> res (A * Demo.t).

Definition ret {A} (a : A) : M A := fun d => Ok (a, d).
Definition throw {A} (e : thrown) : M A := fun _ => Throw e.
(** A computation that does not touch the session. *)
Definition lift {A} (r : res A) : M A :=
  fun d => match r with Ok a => Ok (a, d) | Throw e => Throw e end.
Definition bind {A B} (m : M A) (k : A -> M B) : M B :=
  fun d => match m d with
           | Ok (a, d') => k a d'
           | Throw e => Throw e
           end.

Declare Scope js_scope.
Delimit Scope js_scope with js.
Notation "x <- m ;; k" := (bind m (fun x => k))
  (at level 100, m at next level, right associativity) : js_scope.
Notation "m ;;; k" := (bind m (fun _ => k))
  (at level 100, right associativity) : js_scope.

(** A reader of the buffer, run at the cursor of the demo. *)
Definition onBuf {A} (f : DemoBuffer.t -> A * DemoBuffer.t) : M A :=
  fun d => let '(a, b) := f (Demo.buf d) in Ok (a, Demo.setBuf d b).
Definition warn (msg : string) : M unit := fun d => Ok (tt, Demo.warn d msg).
Definition getCursor : M Z := fun d => Ok (DemoBuffer.cursor (Demo.buf d), d).
Definition setCursor (c : Z) : M unit := fun d => Ok (tt, Demo.seek d c).
Definition get : M Demo.t := fun d => Ok (d, d).
Definition put (d : Demo.t) : M unit := fun _ => Ok (tt, d).


(** What a reader built on [getBitSlice] throws for a negative length. *)
Definition rangeError : thrown := Message "RangeError: Invalid typed array length".

(** A reader of the buffer that can throw, run at the cursor of the demo;
    when it throws the session is as it was. *)
Definition tryBuf {A} (f : DemoBuffer.t -> option (A * DemoBuffer.t)) : M A :=
  fun d => match f (Demo.buf d) with
           | Some (a, b) => Ok (a, Demo.setBuf d b)
           | None => Throw rangeError
           end.

Definition nextBit : M Z := onBuf DemoBuffer.nextBit.
Definition nextByte : M Z := onBuf DemoBuffer.nextByte.
Definition nextInt (size : Z) : M Z := tryBuf (fun b => DemoBuffer.nextInt b size).
Definition nextSignedInt (size : Z) : M Z :=
  tryBuf (fun b => DemoBuffer.nextSignedInt b size).
Definition nextFloat : M float := tryBuf DemoBuffer.nextFloat.
Definition nextBytes (size : Z) : M (list Z) :=
  tryBuf (fun b => DemoBuffer.nextBytes b size).
Definition nextString (size : Z) : M string :=
  tryBuf (fun b => DemoBuffer.nextString b size).
Definition nextNullTerminatedString : M string :=
  fun d =>
    let buf := Demo.buf d in
    let '(s, b) := DemoBuffer.nextNullTerminatedString buf in
    let d := if DemoBuffer.getNullTerminatedString_warns buf (DemoBuffer.cursor buf)
             then Demo.warn d "Reached end of buffer when parsing string."
             else d in
    Ok (s, Demo.setBuf d b).
Definition nextBitInt : M Z := tryBuf DemoBuffer.nextBitInt.
Definition nextPropertyIndex (lastIndex : Z) (newScheme : bool) : M Z :=
  tryBuf (fun b => DemoBuffer.nextPropertyIndex b lastIndex newScheme).

(** *** Vocabulary of the statements about what a call leaves alone *)

(** Every return of [m] relates the state before to the state after. *)
Definition preserves {A} (R : Demo.t -> Demo.t -> Prop) (m : M A) : Prop :=
  forall d a d', m d = Ok (a, d') -> R d d'.

(** What reading the blob, warning and storing a baseline leave alone. *)
Definition sameTables (d d' : Demo.t) : Prop :=
  Demo.stringTables d' = Demo.stringTables d.

Definition sameEntities (d d' : Demo.t) : Prop :=
  Demo.heap d' = Demo.heap d /\ Demo.entities d' = Demo.entities d.

Definition sameSchema (d d' : Demo.t) : Prop :=
  Demo.dataTables d' = Demo.dataTables d /\
  Demo.serverClasses d' = Demo.serverClasses d /\
  Demo.parserClasses d' = Demo.parserClasses d /\
  Demo.tick d' = Demo.tick d.

(** The state differs at most in the cursor, the log and the baselines. *)
Definition frame (d d' : Demo.t) : Prop :=
  sameTables d d' /\ sameEntities d d' /\ sameSchema d d' /\
  DemoBuffer.bytes (Demo.buf d') = DemoBuffer.bytes (Demo.buf d).

(** The state differs at most in the cursor. *)
Definition quiet (d d' : Demo.t) : Prop :=
  frame d d' /\ Demo.baselines d' = Demo.baselines d /\ Demo.log d' = Demo.log d.

(** A handler gave up on its message: a warning, the cursor at the end
    of the message, and the rest as in [frame] with the baselines kept. *)
Definition gaveUp (dataEnd : Z) (d d' : Demo.t) : Prop :=
  frame d d' /\ Demo.baselines d' = Demo.baselines d /\
  DemoBuffer.cursor (Demo.buf d') = dataEnd /\
  exists msg, Demo.log d' = Demo.log d ++ [msg].

(** [m] returns from every state: it neither throws nor gives up. *)
Definition returns {A} (m : M A) : Prop := forall d, exists a d', m d = Ok (a, d').

(** ** Entity.ts: the property codec (the static methods of
    [EntityProperty]) *)

Module PropertyCodec.
Import DataTablePropertyFlag.
Local Open Scope js_scope.

Abbreviation hasFlag := DataTableProperty.hasFlag.
Abbreviation ofZ := JSNumber.ofZ.

(** [if (sign) value = -value] *)
Definition negateIf (sign : Z) (value : float) : float :=
  if JS.truthy sign then (- value)%float else value.

Definition decodeInt (baseProperty : DataTableProperty.t) : M float :=
  match DataTableProperty.value baseProperty with
  | None => throw "Invalid property definition."
  | Some v =>
      if hasFlag baseProperty Unsigned
      then n <- nextInt (DataTableProperty.bits v) ;; ret (ofZ n)
      else n <- nextSignedInt (DataTableProperty.bits v) ;; ret (ofZ n)
  end.

Definition decodeFloat (baseProperty : DataTableProperty.t) : M float :=
  match DataTableProperty.value baseProperty with
  | None => throw "Invalid property definition."
  | Some v =>
      if hasFlag baseProperty Coord then
        hasInt <- nextBit ;;
        hasFrac <- nextBit ;;
        if JS.truthy hasInt || JS.truthy hasFrac then
          sign <- nextBit ;;
          value <- (if JS.truthy hasInt
                    then n <- nextInt 14 ;; ret (0 + ofZ (n + 1))%float
                    else ret 0%float) ;;
          value <- (if JS.truthy hasFrac
                    then n <- nextInt 5 ;;
                         ret (value + ofZ n * (1 / ofZ (JS.shl 1 5)))%float
                    else ret value) ;;
          ret (negateIf sign value)
        else ret 0%float
      else if hasFlag baseProperty CoordMp || hasFlag baseProperty CoordMpLp
              || hasFlag baseProperty CoordMpInt then
        inBounds <- nextBit ;;
        if hasFlag baseProperty CoordMpInt then
          present <- nextBit ;;
          if JS.truthy present then
            sign <- nextBit ;;
            n <- (if JS.truthy inBounds then nextInt 11 else nextInt 14) ;;
            ret (negateIf sign (ofZ (n + 1)))
          else ret 0%float
        else
          intVal <- nextBit ;;
          sign <- nextBit ;;
          intVal <- (if JS.truthy intVal
                     then n <- (if JS.truthy inBounds then nextInt 11 else nextInt 14) ;;
                          ret (n + 1)
                     else ret intVal) ;;
          let lp := hasFlag baseProperty CoordMpLp in
          fractVal <- nextInt (if lp then 3 else 5) ;;
          ret (negateIf sign
                 (ofZ intVal
                  + ofZ fractVal * (1 / ofZ (JS.shl 1 (if lp then 3 else 5))))%float)
      else if hasFlag baseProperty NoScale then nextFloat
      else if hasFlag baseProperty Normal then
        sign <- nextBit ;;
        n <- nextInt 11 ;;
        ret (negateIf sign (ofZ n * (1 / ofZ (JS.shl 1 11 - 1)))%float)
      else if hasFlag baseProperty CellCoord || hasFlag baseProperty CellCoordLp
              || hasFlag baseProperty CellCoordInt then
        integer <- nextInt (DataTableProperty.bits v) ;;
        if hasFlag baseProperty CellCoordInt then ret (ofZ integer)
        else
          let lp := hasFlag baseProperty CellCoordLp in
          fraction <- nextInt (if lp then 3 else 5) ;;
          ret (ofZ integer
               + ofZ fraction * (1 / ofZ (JS.shl 1 (if lp then 3 else 5))))%float
      else
        dwInterp <- nextInt (DataTableProperty.bits v) ;;
        let value := (ofZ dwInterp / ofZ (JS.shl 1 (DataTableProperty.bits v) - 1))%float in
        ret (DataTableProperty.low v
             + (DataTableProperty.high v - DataTableProperty.low v) * value)%float
  end.

Definition decodeVector3 (baseProperty : DataTableProperty.t) : M Vector.t :=
  x <- decodeFloat baseProperty ;;
  y <- decodeFloat baseProperty ;;
  let vector := Vector.make x y 0 in
  if hasFlag baseProperty Normal then
    sign <- nextBit ;;
    let distSqr := (Vector.x vector * Vector.x vector
                    + Vector.y vector * Vector.y vector)%float in
    let z := if PrimFloat.ltb distSqr 1 then PrimFloat.sqrt (1 - distSqr)%float
             else 0%float in
    ret (Vector.mk (Vector.x vector) (Vector.y vector) (negateIf sign z))
  else
    z <- decodeFloat baseProperty ;;
    ret (Vector.mk (Vector.x vector) (Vector.y vector) z).

Definition decodeVector2 (baseProperty : DataTableProperty.t) : M Vector.t :=
  x <- decodeFloat baseProperty ;;
  y <- decodeFloat baseProperty ;;
  ret (Vector.make x y 0).

Definition decodeString (baseProperty : DataTableProperty.t) : M string :=
  length <- nextInt 9 ;;
  nextString (length * 8).

(** [for (let i = 0; i < count; i ++) array.push(decode(...))] *)
Fixpoint repeatM {A} (n : nat) (m : M A) : M (list A) :=
  match n with
  | O => ret []
  | S n' => a <- m ;; l <- repeatM n' m ;; ret (a :: l)
  end.

Definition decodeArray (baseProperty : DataTableProperty.t)
    (baseArrayProperty : option DataTableProperty.t) : M EntityProperty.value :=
  match baseArrayProperty with
  | None => throw "Invalid array property definition."
  | Some baseArrayProperty =>
      match DataTableProperty.arrayElements baseProperty with
      | None => throw "Array property definition missing element count."
      | Some arrayElements =>
          let countBits := DemoBuffer.highestBitIndex arrayElements + 1 in
          count <- nextInt countBits ;;
          let ty := DataTableProperty.type baseArrayProperty in
          if ty =? DataTablePropertyType.Int then
            l <- repeatM (Z.to_nat count) (decodeInt baseArrayProperty) ;;
            ret (EntityProperty.VNumbers l)
          else if ty =? DataTablePropertyType.Float then
            l <- repeatM (Z.to_nat count) (decodeFloat baseArrayProperty) ;;
            ret (EntityProperty.VNumbers l)
          else if ty =? DataTablePropertyType.String then
            l <- repeatM (Z.to_nat count) (decodeString baseArrayProperty) ;;
            ret (EntityProperty.VStrings l)
          else if ty =? DataTablePropertyType.Vector3 then
            l <- repeatM (Z.to_nat count) (decodeVector3 baseArrayProperty) ;;
            ret (EntityProperty.VVectors l)
          else if ty =? DataTablePropertyType.Vector2 then
            l <- repeatM (Z.to_nat count) (decodeVector2 baseArrayProperty) ;;
            ret (EntityProperty.VVectors l)
          else throw ("Unknown array property type " ++ pretty ty ++ ".")%string
      end
  end.

(** [EntityProperty.fromDemo] *)
Definition fromDemo (index : Z) (flatProperty : FlatProperty.t) : M EntityProperty.t :=
  bufferFrom <- getCursor ;;
  let baseProperty := FlatProperty.baseProperty flatProperty in
  let baseArrayProperty := FlatProperty.baseArrayProperty flatProperty in
  let ty := DataTableProperty.type baseProperty in
  value <- (if ty =? DataTablePropertyType.Int then
              n <- decodeInt baseProperty ;; ret (EntityProperty.VNumber n)
            else if ty =? DataTablePropertyType.Float then
              n <- decodeFloat baseProperty ;; ret (EntityProperty.VNumber n)
            else if ty =? DataTablePropertyType.Vector3 then
              v <- decodeVector3 baseProperty ;; ret (EntityProperty.VVector v)
            else if ty =? DataTablePropertyType.Vector2 then
              v <- decodeVector2 baseProperty ;; ret (EntityProperty.VVector v)
            else if ty =? DataTablePropertyType.String then
              s <- decodeString baseProperty ;; ret (EntityProperty.VString s)
            else if ty =? DataTablePropertyType.Array then
              decodeArray baseProperty baseArrayProperty
            else throw ("Unknown property type " ++ pretty ty ++ ".")%string) ;;
  cursor <- getCursor ;;
  let bufferSize := cursor - bufferFrom in
  ret (EntityProperty.mk index flatProperty bufferFrom bufferSize value).

(** The [while] loop of [readProperties].  The index read grows at each
    turn and the loop leaves once it passes [flatProperties.length], so
    [length flatProperties + 1] turns are enough; [n] counts them. *)
Fixpoint readProperties_loop (flatProperties : list FlatProperty.t) (newScheme : bool)
    (n : nat) (i : Z) (properties : list EntityProperty.t)
    : M (list EntityProperty.t) :=
  match n with
  | O => ret properties
  | S n' =>
      i <- nextPropertyIndex i newScheme ;;
      if i =? -1 then ret properties
      else if (i <? 0) || (Z.of_nat (length flatProperties) <=? i) then
        warn "Overflowed expected entity property count." ;;;
        ret properties
      else
        match JS.index flatProperties i with
        | None =>
            warn "Expected property for entity not found." ;;;
            ret properties
        | Some flatProperty =>
            p <- fromDemo i flatProperty ;;
            readProperties_loop flatProperties newScheme n' i (properties ++ [p])
        end
  end.

Definition readProperties (flatProperties : list FlatProperty.t)
    : M (list EntityProperty.t) :=
  b <- nextBit ;;
  let newScheme := JS.truthy b in
  readProperties_loop flatProperties newScheme (S (length flatProperties)) (-1) [].

(** *** Vocabulary of the statements about [decodeFloat] *)

(** The definition carries none of the flags that select a special
    encoding of a float. *)
Definition plainFloat (p : DataTableProperty.t) : Prop :=
  hasFlag p Coord = false /\
  hasFlag p CoordMp = false /\ hasFlag p CoordMpLp = false /\
  hasFlag p CoordMpInt = false /\
  hasFlag p NoScale = false /\ hasFlag p Normal = false /\
  hasFlag p CellCoord = false /\ hasFlag p CellCoordLp = false /\
  hasFlag p CellCoordInt = false.

(** The range interpolation as the specification words it: the raw value
    divided by [2^bits - 1], taken between [low] and [high]. *)
Definition interpolate (v : DataTableProperty.range) (r : Z) : float :=
  (DataTableProperty.low v
   + (DataTableProperty.high v - DataTableProperty.low v)
     * (ofZ r / ofZ (2 ^ DataTableProperty.bits v - 1)))%float.

(** *** Vocabulary of the statements about [readProperties] *)

(** The properties gathered so far: their indices grow, none is above
    [i], and each bears the definition found at its index. *)
Definition gathered (flatProperties : list FlatProperty.t) (i : Z)
    (properties : list EntityProperty.t) : Prop :=
  StronglySorted Z.lt (map EntityProperty.index properties) /\
  Forall (fun p => 0 <= EntityProperty.index p <= i /\
                   JS.index flatProperties (EntityProperty.index p)
                     = Some (EntityProperty.property p)) properties.

End PropertyCodec.

(** ** DataTable.ts: reading the schema from the demo *)

Module DataTableCodec.
Local Open Scope js_scope.

(** The types of the first arm of the [switch]: those that carry a
    range. *)
Definition scalar (type : Z) : bool :=
  (type =? DataTablePropertyType.Int) || (type =? DataTablePropertyType.Float)
  || (type =? DataTablePropertyType.Vector2) || (type =? DataTablePropertyType.Vector3)
  || (type =? DataTablePropertyType.String).

(** The constructor of [DataTableProperty]. *)
Definition property : M DataTableProperty.t :=
  type <- nextInt 5 ;;
  name <- nextNullTerminatedString ;;
  flags <- nextInt 19 ;;
  priority <- nextByte ;;
  let this := DataTableProperty.mk type name flags priority in
  let exclude :=
    DataTableProperty.hasFlag (this None None None) DataTablePropertyFlag.Exclude in
  if (type =? DataTablePropertyType.DataTable) || exclude then
    excludeName <- nextNullTerminatedString ;;
    ret (this (Some excludeName) None None)
  else if scalar type then
    low <- nextFloat ;;
    high <- nextFloat ;;
    bits <- nextInt 7 ;;
    ret (this None (Some (DataTableProperty.mkRange low high bits)) None)
  else if type =? DataTablePropertyType.Array then
    arrayElements <- nextInt 10 ;;
    ret (this None None (Some arrayElements))
  else
    throw ("Unsupported DataTable property type: " ++ pretty type ++ ".")%string.

(** The constructor of [DataTable]. *)
Definition table : M DataTable.t :=
  needsDecoder <- nextBit ;;
  name <- nextNullTerminatedString ;;
  propertiesCount <- nextInt 10 ;;
  properties <- PropertyCodec.repeatM (Z.to_nat propertiesCount) property ;;
  ret (DataTable.mk (JS.truthy needsDecoder) name properties).

(** *** Vocabulary of the statements about the schema read *)

(** A definition as the constructor leaves it: the name of a table for a
    table reference or an excluded property, a range for a scalar, a
    count for an array, and never two of them. *)
Definition wellShaped (p : DataTableProperty.t) : Prop :=
  0 <= DataTableProperty.type p < 2 ^ 5 /\
  0 <= DataTableProperty.flags p < 2 ^ 19 /\
  if (DataTableProperty.type p =? DataTablePropertyType.DataTable)
     || DataTableProperty.hasFlag p DataTablePropertyFlag.Exclude
  then DataTableProperty.excludeName p <> None /\ DataTableProperty.value p = None /\
       DataTableProperty.arrayElements p = None
  else if scalar (DataTableProperty.type p)
  then DataTableProperty.excludeName p = None /\ DataTableProperty.arrayElements p = None /\
       exists v, DataTableProperty.value p = Some v /\ 0 <= DataTableProperty.bits v < 2 ^ 7
  else DataTableProperty.type p = DataTablePropertyType.Array /\
       DataTableProperty.excludeName p = None /\ DataTableProperty.value p = None /\
       exists n, DataTableProperty.arrayElements p = Some n /\ 0 <= n < 2 ^ 10.

End DataTableCodec.

(** ** Entity.ts: baselines and the entity store *)

Module EntityStore.
Local Open Scope js_scope.

Definition quote : string := String (ascii_of_nat 34) EmptyString.

(** [EntityUpdate] and its subclasses. *)
Inductive EntityUpdate :=
| EntityDelta (serverClass : ServerClass.t) (index : Z)
    (properties : list EntityProperty.t)
| EntityEnterPVS (serverClass : ServerClass.t) (index : Z)
    (properties : list EntityProperty.t) (serial : Z) (isNew : bool)
| EntityLeavePVS (serverClass : ServerClass.t) (index : Z) (doDelete : bool).

(** [copyArrayProperty]: the copy holds [this.value.slice()]. *)
Definition copyArrayProperty (this : EntityProperty.t) : res EntityProperty.t :=
  if negb (EntityProperty.isArray (EntityProperty.value_ this))
  then Throw "Tried to copy array of non-array property."
  else Ok (EntityProperty.mk (EntityProperty.index this) (EntityProperty.property this)
             (EntityProperty.bufferFrom this) (EntityProperty.bufferSize this)
             (EntityProperty.value_ this)).

(** [this.updateArrayProperty(other)]: [other] as the call leaves it. *)
Definition updateArrayProperty (this other : EntityProperty.t) : res EntityProperty.t :=
  if negb (EntityProperty.isArray (EntityProperty.value_ this))
  then Throw "Tried to update array from non-array property."
  else if negb (EntityProperty.isArray (EntityProperty.value_ other))
  then Throw "Tried to update array of non-array property."
  else Ok (EntityProperty.mk (EntityProperty.index other) (EntityProperty.property other)
             (EntityProperty.bufferFrom this) (EntityProperty.bufferSize this)
             (EntityProperty.value_ this)).

(** The body shared by [updateBaseline] and [applyDelta]: the property
    array after one incoming property has been merged in. *)
Definition isArrayProperty (p : EntityProperty.t) : bool :=
  EntityProperty.isArray (EntityProperty.value_ p).

(** [StaticBaseline.updateBaseline]; table ids are not negative. *)
Definition updateBaseline (serverClass : ServerClass.t)
    (entityProperties : list EntityProperty.t) (flatPropertyCount : Z) : M unit :=
  fun d =>
    let id := ServerClass.tableID serverClass in
    let baseLine :=
      match JS.arrayGet (Demo.baselines d) id with
      | Some baseLine => baseLine
      | None =>
          StaticBaseline.mk serverClass (replicate (Z.to_nat flatPropertyCount) None)
      end in
    let step (acc : res (list (option EntityProperty.t))) (from : EntityProperty.t) :=
      match acc with
      | Throw e => Throw e
      | Ok props =>
          let to := JS.arrayGet props (EntityProperty.index from) in
          if match to with Some to => isArrayProperty to | None => false end then
            match to with
            | Some to =>
                match updateArrayProperty from to with
                | Ok to' => Ok (JS.arrayStore props (EntityProperty.index from) to')
                | Throw e => Throw e
                end
            | None => Ok props
            end
          else if isArrayProperty from then
            match copyArrayProperty from with
            | Ok c => Ok (JS.arrayStore props (EntityProperty.index from) c)
            | Throw e => Throw e
            end
          else Ok (JS.arrayStore props (EntityProperty.index from) from)
      end in
    match foldl step (Ok (StaticBaseline.entityProperties baseLine)) entityProperties with
    | Throw e => Throw e
    | Ok props =>
        Ok (tt, Demo.setBaselines d
                  (JS.arrayStore (Demo.baselines d) id
                     (StaticBaseline.mk (StaticBaseline.serverClass baseLine) props)))
    end.

(** [Entity.fromBaseline]: the new entity, not yet stored anywhere. *)
Definition fromBaseline (serverClass : ServerClass.t) (serial index : Z) : M Entity.t :=
  fun d =>
    let tableID := ServerClass.tableID serverClass in
    let '(baseline, d) :=
      match JS.arrayGet (Demo.baselines d) tableID with
      | Some baseline => (baseline, d)
      | None =>
          let baseline := StaticBaseline.mk serverClass [] in
          (baseline,
           Demo.setBaselines
             (Demo.warn d ("Missing baseline for " ++ quote
                           ++ ServerClass.className serverClass ++ quote
                           ++ ", creating blank.")%string)
             (JS.arrayStore (Demo.baselines d) tableID baseline))
      end in
    let entityProperties := StaticBaseline.entityProperties baseline in
    let copy (acc : res (list (option EntityProperty.t))) (property : option EntityProperty.t) :=
      match acc with
      | Throw e => Throw e
      | Ok newProperties =>
          match property with
          | Some p =>
              if isArrayProperty p then
                match copyArrayProperty p with
                | Ok c => Ok (newProperties ++ [Some c])
                | Throw e => Throw e
                end
              else Ok (newProperties ++ [property])
          | None => Ok (newProperties ++ [property])
          end
      end in
    match foldl copy (Ok []) entityProperties with
    | Throw e => Throw e
    | Ok newProperties =>
        Ok (Entity.mk serverClass newProperties serial index true true, d)
    end.

(** The loop of [applyDelta] over [delta.properties], on the property
    array of the entity. *)
Definition applyDelta_properties (properties : list (option EntityProperty.t))
    (delta : list EntityProperty.t) : res (list (option EntityProperty.t)) :=
  foldl
    (fun acc property =>
       match acc with
       | Throw e => Throw e
       | Ok props =>
           if isArrayProperty property then
             match JS.arrayGet props (EntityProperty.index property) with
             | None =>
                 match copyArrayProperty property with
                 | Ok c => Ok (JS.arrayStore props (EntityProperty.index property) c)
                 | Throw e => Throw e
                 end
             | Some oldProperty =>
                 match updateArrayProperty property oldProperty with
                 | Ok o => Ok (JS.arrayStore props (EntityProperty.index property) o)
                 | Throw e => Throw e
                 end
             end
           else Ok (JS.arrayStore props (EntityProperty.index property) property)
       end)
    (Ok properties) delta.

Definition withProperties (e : Entity.t) (properties : list (option EntityProperty.t))
    : Entity.t :=
  Entity.mk (Entity.serverClass e) properties (Entity.serial e) (Entity.index e)
    (Entity.inPVS e) (Entity.source e).
Definition withInPVS (e : Entity.t) (inPVS : bool) : Entity.t :=
  Entity.mk (Entity.serverClass e) (Entity.properties e) (Entity.serial e)
    (Entity.index e) inPVS (Entity.source e).

(** [demo.state.entities[index]]: the address of the occupant and the
    occupant. *)
Definition occupant (d : Demo.t) (entities : list (option nat)) (index : Z)
    : option (nat * Entity.t) :=
  match JS.arrayGet entities index with
  | None => None
  | Some loc =>
      match Demo.heap d !! loc with
      | None => None
      | Some e => Some (loc, e)
      end
  end.

(** [Entity.applyDelta] *)
Definition applyDelta (index : Z) (properties : list EntityProperty.t) : M unit :=
  fun d =>
    match Demo.entities d with
    | None => Throw "Tried to parse entity update without entities."
    | Some entities =>
        match occupant d entities index with
        | None => Throw "Tried to apply delta to non-existent entity."
        | Some (loc, entity) =>
            match applyDelta_properties (Entity.properties entity) properties with
            | Throw e => Throw e
            | Ok props =>
                Ok (tt, Demo.setHeap d (<[loc := withProperties entity props]> (Demo.heap d)))
            end
        end
    end.

(** [Entity.enterPVS] on the fields of an [EntityEnterPVS] update. *)
Definition enterPVS (serverClass : ServerClass.t) (index : Z)
    (properties : list EntityProperty.t) (serial : Z) (isNew : bool) : M unit :=
  d <- get ;;
  if (length (Demo.baselines d) =? 0)%nat
  then throw "Tried to parse entity update without baselines."
  else
    match Demo.entities d with
    | None => throw "Tried to parse entity update without entities."
    | Some entities =>
        entity <-
          (if isNew then
             entity <- fromBaseline serverClass serial index ;;
             d <- get ;;
             let loc := length (Demo.heap d) in
             put (Demo.setEntities (Demo.setHeap d (Demo.heap d ++ [entity]))
                    (Some (JS.arrayStore entities index loc))) ;;;
             ret (Some (loc, entity))
           else ret (occupant d entities index)) ;;
        match entity with
        | None =>
            warn ("Untracked entity " ++ quote ++ ServerClass.className serverClass
                  ++ quote ++ " entered PVS, index " ++ pretty index ++ ".")%string
        | Some (loc, e) =>
            d <- get ;;
            put (Demo.setHeap d (<[loc := withInPVS e true]> (Demo.heap d))) ;;;
            applyDelta index properties
        end
    end.

(** [Entity.leavePVS] on the fields of an [EntityLeavePVS] update. *)
Definition leavePVS (index : Z) (doDelete : bool) : M unit :=
  d <- get ;;
  match Demo.entities d with
  | None => throw "Tried to parse entity update without entities."
  | Some entities =>
      if doDelete then put (Demo.setEntities d (Some (JS.arrayDelete entities index)))
      else
        match occupant d entities index with
        | None => ret tt
        | Some (loc, e) =>
            put (Demo.setHeap d (<[loc := withInPVS e false]> (Demo.heap d)))
        end
  end.

End EntityStore.

(** ** Entity.ts: writing a property back into the blob *)

Module PropertyWriter.
Import DataTablePropertyFlag.

Abbreviation hasFlag := DataTableProperty.hasFlag.
Abbreviation ofZ := JSNumber.ofZ.

(** [setInt] and [setSignedInt] called with a number: the test
    [value & (1 << i)] takes the number through [ToInt32]. *)
Definition setInt (buf : DemoBuffer.t) (from size : Z) (value : float) : DemoBuffer.t :=
  DemoBuffer.setInt buf from size (JSNumber.toInt32 value).

Definition setSignedInt (buf : DemoBuffer.t) (from size : Z) (value : float)
    : DemoBuffer.t :=
  let value := if PrimFloat.ltb value 0 then (ofZ (JS.shl 1 size) + value)%float
               else value in
  setInt buf from size value.

(** [value < 0] as the bit [setBit] stores. *)
Definition negative (value : float) : bool := PrimFloat.ltb value 0.

(** Each [setFrom*] returns the number of bits of the field and the
    patched buffer. *)
Definition setFromInt (this : EntityProperty.t) (buf : DemoBuffer.t) (value : float)
    (localOffset : Z) : Z * DemoBuffer.t :=
  let baseProperty := FlatProperty.baseProperty (EntityProperty.property this) in
  let from := EntityProperty.bufferFrom this + localOffset in
  let size := EntityProperty.bufferSize this in
  if hasFlag baseProperty Unsigned then (size, setInt buf from size value)
  else (size, setSignedInt buf from size value).

Definition setFromFloat (this : EntityProperty.t) (buf : DemoBuffer.t) (value : float)
    (localOffset : Z) : res (Z * DemoBuffer.t) :=
  let baseProperty := FlatProperty.baseProperty (EntityProperty.property this) in
  match DataTableProperty.value baseProperty with
  | None => Throw "Invalid property definition."
  | Some v =>
      let absValue := PrimFloat.abs value in
      let cursorStart := EntityProperty.bufferFrom this + localOffset in
      let cursor := cursorStart in
      if hasFlag baseProperty Coord then
        let hasInt := JS.truthy (DemoBuffer.getBit buf cursor) in
        let hasFrac := JS.truthy (DemoBuffer.getBit buf (cursor + 1)) in
        let cursor := cursor + 2 in
        if negb hasInt && negb hasFrac then Ok (2, buf)
        else
          let buf := DemoBuffer.setBit buf cursor (negative value) in
          let cursor := cursor + 1 in
          let '(buf, cursor) :=
            if hasInt then
              (setInt buf cursor 14
                 (JSNumber.floor (JSNumber.max (absValue - 1) 0)), cursor + 14)
            else (buf, cursor) in
          let '(buf, cursor) :=
            if hasFrac then
              (setInt buf cursor 5
                 (JSNumber.round (absValue / (1 / ofZ (JS.shl 1 5)))), cursor + 5)
            else (buf, cursor) in
          Ok (cursor - cursorStart, buf)
      else if hasFlag baseProperty CoordMp || hasFlag baseProperty CoordMpLp
              || hasFlag baseProperty CoordMpInt then
        let isInt := hasFlag baseProperty CoordMpInt in
        let isLP := hasFlag baseProperty CoordMpLp in
        let precision := if isLP then 3 else 5 in
        let intBits := if JS.truthy (DemoBuffer.getBit buf cursor) then 11 else 14 in
        let cursor := cursor + 1 in
        if isInt then
          if JS.truthy (DemoBuffer.getBit buf cursor) then
            let buf := DemoBuffer.setBit buf (cursor + 1) (negative value) in
            let buf := setInt buf (cursor + 2) intBits (JSNumber.max 0 (absValue - 1)) in
            Ok (cursor + 2 + intBits - cursorStart, buf)
          else Ok (cursor + 1 - cursorStart, buf)
        else
          let hasInt := JS.truthy (DemoBuffer.getBit buf cursor) in
          let buf := DemoBuffer.setBit buf (cursor + 1) (negative value) in
          let cursor := cursor + 2 in
          let '(buf, cursor) :=
            if hasInt then
              (setInt buf cursor intBits (JSNumber.max 0 (absValue - 1)), cursor + intBits)
            else (buf, cursor) in
          let fraction := (JSNumber.mod1 absValue / ofZ (JS.shl 1 precision))%float in
          let buf := setInt buf cursor precision (JSNumber.round fraction) in
          Ok (cursor + precision - cursorStart, buf)
      else if hasFlag baseProperty NoScale then
        Ok (32, DemoBuffer.setFloat buf cursor value)
      else if hasFlag baseProperty Normal then
        let buf := DemoBuffer.setBit buf cursor (negative value) in
        let buf := setInt buf (cursor + 1) 11
                     (JSNumber.round (absValue * ofZ (JS.shl 1 11 - 1))) in
        Ok (12, buf)
      else if hasFlag baseProperty CellCoord || hasFlag baseProperty CellCoordLp
              || hasFlag baseProperty CellCoordInt then
        let isInt := hasFlag baseProperty CellCoordInt in
        let isLP := hasFlag baseProperty CellCoordLp in
        let precision := if isLP then 3 else 5 in
        let bits := DataTableProperty.bits v in
        let buf := setInt buf cursor bits (JSNumber.floor absValue) in
        if isInt then Ok (bits, buf)
        else
          let cursor := cursor + bits in
          let fraction := (JSNumber.mod1 absValue / ofZ (JS.shl 1 precision))%float in
          let buf := setInt buf cursor precision (JSNumber.round fraction) in
          Ok (bits + precision, buf)
      else
        let high := DataTableProperty.high v in
        let low := DataTableProperty.low v in
        let bits := DataTableProperty.bits v in
        let interp := JSNumber.max 0 ((value - low) / (high - low)) in
        let dwInterp := (interp * ofZ (JS.shl 1 bits - 1))%float in
        Ok (bits, setInt buf cursor bits dwInterp)
  end.

Definition setFromVector (this : EntityProperty.t) (buf : DemoBuffer.t)
    (vector : Vector.t) (localOffset : Z) : res (Z * DemoBuffer.t) :=
  let baseProperty := FlatProperty.baseProperty (EntityProperty.property this) in
  let cursorStart := EntityProperty.bufferFrom this + localOffset in
  let cursor := cursorStart in
  match setFromFloat this buf (Vector.x vector) 0 with
  | Throw e => Throw e
  | Ok (n, buf) =>
      let cursor := cursor + n in
      match setFromFloat this buf (Vector.y vector) (cursor - cursorStart) with
      | Throw e => Throw e
      | Ok (n, buf) =>
          let cursor := cursor + n in
          if DataTableProperty.type baseProperty =? DataTablePropertyType.Vector2
          then Ok (cursor - cursorStart, buf)
          else if hasFlag baseProperty Normal then
            Ok (cursor + 1 - cursorStart,
                DemoBuffer.setBit buf cursor (negative (Vector.z vector)))
          else
            match setFromFloat this buf (Vector.z vector) (cursor - cursorStart) with
            | Throw e => Throw e
            | Ok (n, buf) => Ok (cursor + n - cursorStart, buf)
            end
      end
  end.

(** [value.charCodeAt(i) || 0] for a string of bytes. *)
Definition charCodeAt (value : string) (i : nat) : Z :=
  match String.get i value with
  | Some c => Z.of_nat (nat_of_ascii c)
  | None => 0
  end.

(** The loop of [setFromString] writes at [9 + i * 8], whatever the
    address of the field. *)
Fixpoint setFromString_loop (value : string) (n : nat) (i : nat) (buf : DemoBuffer.t)
    : DemoBuffer.t :=
  match n with
  | O => buf
  | S n' =>
      setFromString_loop value n' (S i)
        (DemoBuffer.setInt buf (9 + Z.of_nat i * 8) 8 (charCodeAt value i))
  end.

Definition setFromString (this : EntityProperty.t) (buf : DemoBuffer.t) (value : string)
    (localOffset : Z) : res (Z * DemoBuffer.t) :=
  let start := EntityProperty.bufferFrom this + localOffset in
  match DemoBuffer.getInt buf start 9 with
  | None => Throw rangeError
  | Some length =>
      Ok (length * 8 + 9, setFromString_loop value (Z.to_nat length) 0 buf)
  end.

(** [setValue]: the type of the property selects the writer, and a value
    of another shape, or a property of another type, ends in the [throw]
    after the [switch]. *)
Definition setValue (this : EntityProperty.t) (buf : DemoBuffer.t)
    (value : EntityProperty.value) : res DemoBuffer.t :=
  let ty := DataTableProperty.type
              (FlatProperty.baseProperty (EntityProperty.property this)) in
  let unsupported : res DemoBuffer.t :=
    Throw (ValueNotSupported value (FlatProperty.name (EntityProperty.property this))) in
  let written (r : res (Z * DemoBuffer.t)) : res DemoBuffer.t :=
    match r with Ok (_, buf) => Ok buf | Throw e => Throw e end in
  if ty =? DataTablePropertyType.Int then
    match value with
    | EntityProperty.VNumber n => Ok (snd (setFromInt this buf n 0))
    | _ => unsupported
    end
  else if ty =? DataTablePropertyType.Float then
    match value with
    | EntityProperty.VNumber n => written (setFromFloat this buf n 0)
    | _ => unsupported
    end
  else if (ty =? DataTablePropertyType.Vector2) || (ty =? DataTablePropertyType.Vector3) then
    match value with
    | EntityProperty.VVector v => written (setFromVector this buf v 0)
    | _ => unsupported
    end
  else if ty =? DataTablePropertyType.String then
    match value with
    | EntityProperty.VString s => written (setFromString this buf s 0)
    | _ => unsupported
    end
  else unsupported.

(** [this.properties.find(p => p && p.property.name === name)] *)
Definition findProperty (e : Entity.t) (name : string) : option EntityProperty.t :=
  mjoin (List.find
           (fun p => match p with
                     | Some p => String.eqb (FlatProperty.name (EntityProperty.property p)) name
                     | None => false
                     end)
           (Entity.properties e)).

(** [Entity.GetProperty] *)
Definition GetProperty (e : Entity.t) (name : string) : option EntityProperty.value :=
  EntityProperty.value_ <$> findProperty e name.

(** [Entity.SetProperty]: the boolean returned and the session it leaves,
    or what is thrown. *)
Definition SetProperty (e : Entity.t) (name : string) (value : EntityProperty.value)
    : M bool :=
  fun d =>
    match findProperty e name with
    | None =>
        Ok (false, Demo.warn d ("Property " ++ EntityStore.quote ++ name
                                ++ EntityStore.quote ++ " does not exist on entity "
                                ++ pretty (Entity.index e) ++ ".")%string)
    | Some property =>
        if negb (Entity.source e) then
          Ok (false, Demo.warn d ("Cannot write properties of artificial entity "
                                  ++ pretty (Entity.index e) ++ ".")%string)
        else
          match setValue property (Demo.buf d) value with
          | Throw ex => Throw ex
          | Ok buf => Ok (true, Demo.setBuf d buf)
          end
    end.

(** *** Vocabulary of the statements about [SetProperty] *)

(** Two blobs of the same length, with the cursor at the same place. *)
Definition sameShape (buf buf' : DemoBuffer.t) : Prop :=
  length (DemoBuffer.bytes buf') = length (DemoBuffer.bytes buf) /\
  DemoBuffer.cursor buf' = DemoBuffer.cursor buf.

(** The shape of value that the [switch] of [setValue] lets through for a
    property of type [ty]. *)
Definition shapeFits (ty : Z) (value : EntityProperty.value) : bool :=
  match value with
  | EntityProperty.VNumber _ =>
      (ty =? DataTablePropertyType.Int) || (ty =? DataTablePropertyType.Float)
  | EntityProperty.VVector _ =>
      (ty =? DataTablePropertyType.Vector2) || (ty =? DataTablePropertyType.Vector3)
  | EntityProperty.VString _ => ty =? DataTablePropertyType.String
  | _ => false
  end.

End PropertyWriter.

(** ** Entity.ts: handles and the lookups of [Entity] and [Entities]

    An entity object is known by its address in the heap of the session:
    the methods that compare objects take the address of [this]. *)

Module EntityApi.
Import EntityStore.

(** [Entity.parseHandle]: [{index, serial}]. *)
Definition parseHandle (handle : Z) : Z * Z :=
  (JS.and handle (JS.shl 1 11 - 1), JS.sar handle 11).

(** [getHandle] *)
Definition getHandle (e : Entity.t) : Z :=
  JS.or (JS.shl (Entity.serial e) 11) (Entity.index e).

Definition GetProperty := PropertyWriter.GetProperty.

(** [GetName], [GetClassname], [GetHealth], [GetTeam]: the property when
    it has the type asked for, and a default otherwise. *)
Definition GetName (e : Entity.t) : string :=
  match GetProperty e "m_iName" with
  | Some (EntityProperty.VString targetname) => targetname
  | _ => EmptyString
  end.

Definition GetClassname (e : Entity.t) : string :=
  match GetProperty e "m_iSignifierName" with
  | Some (EntityProperty.VString classname) => classname
  | _ => ServerClass.className (Entity.serverClass e)
  end.

Definition GetHealth (e : Entity.t) : float :=
  match GetProperty e "m_iHealth" with
  | Some (EntityProperty.VNumber health) => health
  | _ => (-1)%float
  end.

Definition GetTeam (e : Entity.t) : float :=
  match GetProperty e "m_iTeamNum" with
  | Some (EntityProperty.VNumber team) => team
  | _ => (-1)%float
  end.

(** [this.source?.state.entities] *)
Definition entitiesOf (d : Demo.t) (e : Entity.t) : option (list (option nat)) :=
  if Entity.source e then Demo.entities d else None.

(** The entity a handle-valued property names: [entities[index] || null]
    for the index of the handle. *)
Definition byHandle (d : Demo.t) (e : Entity.t) (name : string)
    : option (nat * Entity.t) :=
  match entitiesOf d e with
  | None => None
  | Some entities =>
      match GetProperty e name with
      | Some (EntityProperty.VNumber handle) =>
          occupant d entities (fst (parseHandle (JSNumber.truncZ handle)))
      | _ => None
      end
  end.

Definition GetMoveParent (d : Demo.t) (e : Entity.t) : option (nat * Entity.t) :=
  byHandle d e "moveparent".

Definition GetOwner (d : Demo.t) (e : Entity.t) : option (nat * Entity.t) :=
  byHandle d e "m_hOwnerEntity".

(** [GetRootMoveParent]: [while (nextParent = this.GetMoveParent()) output
    = nextParent;] asks [this] at every turn; [fuel] bounds the turns and
    [None] stands for the loop that does not end. *)
Fixpoint GetRootMoveParent_loop (fuel : nat) (d : Demo.t) (e : Entity.t)
    (output : option (nat * Entity.t)) : option (option (nat * Entity.t)) :=
  match fuel with
  | O => None
  | S fuel' =>
      match GetMoveParent d e with
      | Some nextParent => GetRootMoveParent_loop fuel' d e (Some nextParent)
      | None => Some output
      end
  end.

Definition GetRootMoveParent (fuel : nat) (d : Demo.t) (e : Entity.t)
    : option (option (nat * Entity.t)) :=
  GetRootMoveParent_loop fuel d e None.

(** [IsValid]: [entities[this.index] === this], for the entity at address
    [this]. *)
Definition IsValid (d : Demo.t) (this : nat) : bool :=
  match Demo.heap d !! this with
  | None => false
  | Some e =>
      match entitiesOf d e with
      | None => false
      | Some entities =>
          match JS.arrayGet entities (Entity.index e) with
          | Some loc => bool_decide (loc = this)
          | None => false
          end
      end
  end.

Definition entindex (e : Entity.t) : Z := Entity.index e.

End EntityApi.

Module Entities.
Import EntityStore.

(** The loop of [FindByCallback]: [for (let i = startIndex; i <
    this.length; i++)]; [n] bounds the turns left. *)
Fixpoint FindByCallback_loop (d : Demo.t) (entities : list (option nat))
    (callback : nat -> Entity.t -> bool) (n : nat) (i : Z)
    : option (nat * Entity.t) :=
  match n with
  | O => None
  | S n' =>
      if i <? Z.of_nat (length entities) then
        match occupant d entities i with
        | None => FindByCallback_loop d entities callback n' (i + 1)
        | Some (loc, current) =>
            if callback loc current then Some (loc, current)
            else FindByCallback_loop d entities callback n' (i + 1)
        end
      else None
  end.

(** [FindByCallback (start, callback)]: the callback is given the entity
    and, for the callbacks that compare objects, its address. *)
Definition FindByCallback (d : Demo.t) (entities : list (option nat))
    (start : option Entity.t) (callback : nat -> Entity.t -> bool)
    : option (nat * Entity.t) :=
  let startIndex :=
    match start with
    | Some start => Entity.index start + 1
    | None => 0
    end in
  FindByCallback_loop d entities callback
    (Z.to_nat (Z.of_nat (length entities) - startIndex)) startIndex.

(** [First]: [for (const entity of this) if (entity) return entity]. *)
Fixpoint First_loop (d : Demo.t) (slots : list (option nat)) : option (nat * Entity.t) :=
  match slots with
  | [] => None
  | slot :: slots' =>
      match slot ≫= (fun loc => (fun e => (loc, e)) <$> Demo.heap d !! loc) with
      | Some entity => Some entity
      | None => First_loop d slots'
      end
  end.

Definition First (d : Demo.t) (entities : list (option nat)) : option (nat * Entity.t) :=
  First_loop d entities.

Definition Next (d : Demo.t) (entities : list (option nat)) (start : option Entity.t)
    : option (nat * Entity.t) :=
  FindByCallback d entities start (fun _ _ => true).

(** [properties.some(p => p && p.property.name === key && p.value ===
    value)] for a string [value]. *)
Definition hasStringProperty (e : Entity.t) (key value : string) : bool :=
  existsb
    (fun p =>
       match p with
       | Some p =>
           String.eqb (FlatProperty.name (EntityProperty.property p)) key
           && match EntityProperty.value_ p with
              | EntityProperty.VString s => String.eqb s value
              | _ => false
              end
       | None => false
       end)
    (Entity.properties e).

(** The callback of [FindByClassname] and [FindByClassnameAll]. *)
Definition ofClass (classname : string) (e : Entity.t) : bool :=
  String.eqb (ServerClass.className (Entity.serverClass e)) classname
  || hasStringProperty e "m_iSignifierName" classname.

Definition FindByClassname (d : Demo.t) (entities : list (option nat))
    (start : option Entity.t) (classname : string) : option (nat * Entity.t) :=
  FindByCallback d entities start (fun _ current => ofClass classname current).

(** [new Entities(this.filter(e => e && ...))]: the entities kept, in a
    new array without holes. *)
Definition filterEntities (d : Demo.t) (entities : list (option nat))
    (keep : Entity.t -> bool) : list (option nat) :=
  omap (fun slot =>
          match slot ≫= (fun loc => (fun e => (loc, e)) <$> Demo.heap d !! loc) with
          | Some (loc, e) => if keep e then Some (Some loc) else None
          | None => None
          end)
       entities.

Definition FindByClassnameAll (d : Demo.t) (entities : list (option nat))
    (classname : string) : list (option nat) :=
  filterEntities d entities (ofClass classname).

(** [FindByName] and [FindByNameAll]: [FindByProperty] with the key
    [m_iName] and a string. *)
Definition FindByName (d : Demo.t) (entities : list (option nat))
    (start : option Entity.t) (targetname : string) : option (nat * Entity.t) :=
  FindByCallback d entities start
    (fun _ current => hasStringProperty current "m_iName" targetname).

Definition FindByNameAll (d : Demo.t) (entities : list (option nat))
    (targetname : string) : list (option nat) :=
  filterEntities d entities (fun e => hasStringProperty e "m_iName" targetname).

End Entities.

(** ** StringTable.ts: the entries of a string table *)

Module StringTableEntryCodec.
Local Open Scope js_scope.

(** [string.slice(0, string.indexOf('\0'))]: without a null character
    [indexOf] is [-1] and the slice drops the last character. *)
Fixpoint indexOfNull (s : string) : option nat :=
  match s with
  | EmptyString => None
  | String c s' =>
      if (nat_of_ascii c =? 0)%nat then Some O else S <$> indexOfNull s'
  end.

Definition trim (s : string) : string :=
  match indexOfNull s with
  | Some k => substring 0 k s
  | None => substring 0 (String.length s - 1) s
  end.

Definition nextTrimmedString (size : Z) : M string :=
  s <- nextString size ;; ret (trim s).

(** [parseInt(entryName)]: leading white space, a sign, then the longest
    run of digits, in base 16 after [0x]; [None] is [NaN]. *)
Definition digitValue (c : ascii) : option Z :=
  let n := Z.of_nat (nat_of_ascii c) in
  if (48 <=? n) && (n <=? 57) then Some (n - 48)
  else if (97 <=? n) && (n <=? 122) then Some (n - 87)
  else if (65 <=? n) && (n <=? 90) then Some (n - 55)
  else None.

Fixpoint parseDigits (radix : Z) (s : string) (acc : option Z) : option Z :=
  match s with
  | EmptyString => acc
  | String c s' =>
      match digitValue c with
      | Some v =>
          if v <? radix then parseDigits radix s' (Some (default 0 acc * radix + v))
          else acc
      | None => acc
      end
  end.

Definition isWhiteSpace (c : ascii) : bool :=
  let n := nat_of_ascii c in
  ((9 <=? n) && (n <=? 13) || (n =? 32) || (n =? 160))%nat.

Fixpoint skipWhiteSpace (s : string) : string :=
  match s with
  | String c s' => if isWhiteSpace c then skipWhiteSpace s' else s
  | EmptyString => s
  end.

Definition parseInt (s : string) : option Z :=
  let s := skipWhiteSpace s in
  let '(negative, s) :=
    match s with
    | String "-" s' => (true, s')
    | String "+" s' => (false, s')
    | _ => (false, s)
    end in
  let magnitude :=
    match s with
    | String "0" (String "x" s') | String "0" (String "X" s') => parseDigits 16 s' None
    | _ => parseDigits 10 s None
    end in
  (fun m => if negative then - m else m) <$> magnitude.

(** [new DataView(bytes.buffer).getBigUint64(0)]: big-endian. *)
Definition bigEndian (bytes : list Z) : Z := foldl (fun acc b => acc * 256 + b) 0 bytes.

Definition PlayerInfo : M StringTableEntry.data :=
  steamIDBuffer <- nextBytes 64 ;;
  let steamID := bigEndian steamIDBuffer in
  name <- nextTrimmedString (32 * 8) ;;
  userID <- nextSignedInt 32 ;;
  GUID <- nextTrimmedString (33 * 8) ;;
  nextInt (3 * 8) ;;;
  friendsID <- nextInt 32 ;;
  friendsName <- nextTrimmedString (32 * 8) ;;
  fakePlayer <- nextByte ;;
  isHLTV <- nextByte ;;
  nextInt (2 * 8) ;;;
  customFilesCRC <- PropertyCodec.repeatM 4 (nextInt 32) ;;
  filesDownloaded <- nextByte ;;
  ret (StringTableEntry.PlayerInfo steamID name userID GUID friendsID friendsName
         (JS.truthy fakePlayer) (JS.truthy isHLTV) customFilesCRC filesDownloaded).

Definition InstanceBaseline (entryName : string) : M StringTableEntry.data :=
  d <- get ;;
  match Demo.parserClasses d with
  | None =>
      warn "Received InstanceBaseline before DataTables." ;;;
      ret (StringTableEntry.InstanceBaseline None None)
  | Some parserClasses =>
      let invalid := Message ("Name " ++ EntityStore.quote ++ entryName
                              ++ EntityStore.quote
                              ++ " is not a valid server class index.")%string in
      match parseInt entryName with
      | None => throw invalid
      | Some index =>
          if (index <? 0) || (Z.of_nat (length parserClasses) <=? index) then throw invalid
          else
            match JS.index parserClasses index with
            | None =>
                throw ("Could not find parsed entity class at index " ++ pretty index
                       ++ ".")%string
            | Some parserClass =>
                let serverClass := ParserClass.serverClass parserClass in
                let flatProperties := ParserClass.flatProperties parserClass in
                entityProperties <- PropertyCodec.readProperties flatProperties ;;
                EntityStore.updateBaseline serverClass entityProperties
                  (Z.of_nat (length flatProperties)) ;;;
                ret (StringTableEntry.InstanceBaseline (Some serverClass)
                       (Some entityProperties))
            end
      end
  end.

(** [StringTableEntry.fromDemo] *)
Definition fromDemo (tableName entryName : string) : M StringTableEntry.t :=
  data <-
    (if String.eqb tableName "userinfo" then PlayerInfo
     else if String.eqb tableName "server_query_info" then
       port <- nextInt 32 ;; ret (StringTableEntry.QueryPort port)
     else if String.eqb tableName "instancebaseline" then InstanceBaseline entryName
     else if String.eqb tableName "GameRulesCreation"
             || String.eqb tableName "InfoPanel" then
       s <- nextNullTerminatedString ;; ret (StringTableEntry.StringEntryData s)
     else if String.eqb tableName "lightstyles" then
       s <- nextNullTerminatedString ;; ret (StringTableEntry.LightStyle s)
     else if String.eqb tableName "modelprecache"
             || String.eqb tableName "genericprecache"
             || String.eqb tableName "soundprecache"
             || String.eqb tableName "decalprecache" then
       flags <- nextInt 2 ;; ret (StringTableEntry.PrecacheData flags)
     else ret StringTableEntry.Plain) ;;
  ret (StringTableEntry.mk tableName entryName data).

End StringTableEntryCodec.

(** ** NetSvcMessage.ts: [SvcUpdateStringTable] *)

Module SvcUpdateStringTable.
Local Open Scope js_scope.

Record t := mk { tableID : Z; changedEntries : Z }.

(** How the entry loop is left. *)
Inductive exit := Completed | Returned.

(** [console.warn(msg); demo.buf.cursor = dataEnd; return;] *)
Definition giveUp {A} (dataEnd : Z) (msg : string) (a : A) : M (exit * A) :=
  warn msg ;;; setCursor dataEnd ;;; ret (Returned, a).

(** [Array.from(demo.stringTables.values())[tableID]] *)
Definition tableAt (d : Demo.t) (tableID : Z) : option StringTable.t :=
  snd <$> JS.index (Demo.stringTables d) tableID.

(** The table, being an object of the map, is changed in place: the new
    [entries] array of the table at [tableID]. *)
Definition setEntries (tableID : Z) (entries : list StringTableEntry.t) : M unit :=
  fun d =>
    match JS.index (Demo.stringTables d) tableID with
    | None => Ok (tt, d)
    | Some (key, table) =>
        Ok (tt, Demo.setStringTables d
                  (<[Z.to_nat tableID :=
                       (key, StringTable.mk (StringTable.name table) entries
                               (StringTable.classes table) (StringTable.maxEntries table)
                               (StringTable.userDataSize table)
                               (StringTable.userDataSizeBits table))]>
                     (Demo.stringTables d)))
    end.

(** [if (history.length === 32) history.shift(); history.push(entryName)] *)
Definition pushHistory (history : list string) (entryName : string) : list string :=
  (if (length history =? 32)%nat then drop 1 history else history) ++ [entryName].

(** Lines 322-348: the name of the entry. *)
Definition readEntryName (dataEnd : Z) (history : list string) : M (exit * string) :=
  named <- nextBit ;;
  if JS.truthy named then
    compressed <- nextBit ;;
    if JS.truthy compressed then
      historyIndex <- nextInt 5 ;;
      match JS.index history historyIndex with
      | Some (String c rest as historyItem) =>
          substringLength <- nextInt 5 ;;
          if Z.of_nat (String.length historyItem) <? substringLength then
            giveUp dataEnd "String table update entry substring longer than entry name."
              EmptyString
          else
            suffix <- nextNullTerminatedString ;;
            ret (Completed,
                 (substring 0 (Z.to_nat substringLength) historyItem ++ suffix)%string)
      | _ =>
          giveUp dataEnd
            "Tried to retrieve non-existent entry from string table update history."
            EmptyString
      end
    else
      entryName <- nextNullTerminatedString ;;
      ret (Completed, entryName)
  else ret (Completed, EmptyString).

(** The body of the loop for one changed entry: the new [entryIndex] and
    [history]. *)
Definition changedEntry (tableID dataEnd : Z) (table : StringTable.t)
    (entryIndex : Z) (history : list string) : M (exit * (Z * list string)) :=
  next <- nextBit ;;
  entryIndex <-
    (if JS.truthy next then ret (entryIndex + 1)
     else nextInt (DemoBuffer.highestBitIndex (default 0 (StringTable.maxEntries table)))) ;;
  d <- get ;;
  let entries := default [] (StringTable.entries <$> tableAt d tableID) in
  if Z.of_nat (length entries) <? entryIndex then
    giveUp dataEnd "Overflowed string table size when parsing update." (entryIndex, history)
  else
    r <- readEntryName dataEnd history ;;
    match r with
    | (Returned, _) => ret (Returned, (entryIndex, history))
    | (Completed, entryName) =>
        let history := pushHistory history entryName in
        hasData <- nextBit ;;
        if negb (JS.truthy hasData) then ret (Completed, (entryIndex, history))
        else
          entryDataLength <-
            (if JS.truthy (StringTable.userDataSizeBits table)
             then ret (StringTable.userDataSizeBits table)
             else n <- nextInt 14 ;; ret (n * 8)) ;;
          if negb (JS.truthy entryDataLength) then ret (Completed, (entryIndex, history))
          else
            cursor <- getCursor ;;
            let entryDataEnd := cursor + entryDataLength in
            newEntry <- StringTableEntryCodec.fromDemo (StringTable.name table) entryName ;;
            d <- get ;;
            let entries := default [] (StringTable.entries <$> tableAt d tableID) in
            setEntries tableID
              (if entryIndex <? Z.of_nat (length entries)
               then JS.store entries entryIndex newEntry
               else entries ++ [newEntry]) ;;;
            setCursor entryDataEnd ;;;
            ret (Completed, (entryIndex, history))
    end.

(** [for (let i = 0; i < this.changedEntries; i ++)] *)
Fixpoint entriesLoop (tableID dataEnd : Z) (table : StringTable.t) (n : nat)
    (entryIndex : Z) (history : list string) : M exit :=
  match n with
  | O => ret Completed
  | S n' =>
      r <- changedEntry tableID dataEnd table entryIndex history ;;
      match r with
      | (Returned, _) => ret Returned
      | (Completed, (entryIndex, history)) =>
          entriesLoop tableID dataEnd table n' entryIndex history
      end
  end.

(** The head of the message: the table, the number of changed entries
    and [dataEnd], the bit at which the message ends. *)
Definition header : M (Z * Z * Z) :=
  tableID <- nextInt 5 ;;
  some <- nextBit ;;
  changedEntries <- (if JS.truthy some then nextInt 16 else ret 1) ;;
  dataLength <- nextInt 20 ;;
  cursor <- getCursor ;;
  ret (tableID, changedEntries, cursor + dataLength).

(** The constructor, after the head. *)
Definition body (tableID changedEntries dataEnd : Z) : M t :=
  let message := mk tableID changedEntries in
  d <- get ;;
  match tableAt d tableID with
  | None =>
      warn "Tried to update non-existent string table." ;;;
      setCursor dataEnd ;;; ret message
  | Some table =>
      match StringTable.maxEntries table with
      | None =>
          warn "Got SvcUpdateStringTable before SvcCreateStringTable." ;;;
          setCursor dataEnd ;;; ret message
      | Some _ =>
          dictionaryEnabled <- nextBit ;;
          if JS.truthy dictionaryEnabled then
            warn "Unsupported string table update with dictionary." ;;;
            setCursor dataEnd ;;; ret message
          else
            r <- entriesLoop tableID dataEnd table (Z.to_nat changedEntries) (-1) [] ;;
            match r with
            | Returned => ret message
            | Completed => setCursor dataEnd ;;; ret message
            end
      end
  end.

(** The constructor. *)
Definition new : M t :=
  h <- header ;;
  let '(tableID, changedEntries, dataEnd) := h in
  body tableID changedEntries dataEnd.

(** *** Vocabulary of the statements about the update *)

(** The string tables other than the one at [tableID] are as before. *)
Definition otherTables (tableID : Z) (d d' : Demo.t) : Prop :=
  length (Demo.stringTables d') = length (Demo.stringTables d) /\
  forall k : nat, Z.of_nat k <> tableID ->
    Demo.stringTables d' !! k = Demo.stringTables d !! k.

(** The entries of the table at [tableID]. *)
Definition entriesOf (d : Demo.t) (tableID : Z) : list StringTableEntry.t :=
  default [] (StringTable.entries <$> tableAt d tableID).

(** The index an entry gives: the one after the last, or an index sent in
    full. *)
Definition readIndex (table : StringTable.t) (entryIndex : Z) : M Z :=
  next <- nextBit ;;
  if JS.truthy next then ret (entryIndex + 1)
  else nextInt (DemoBuffer.highestBitIndex (default 0 (StringTable.maxEntries table))).

(** The two bits that announce a name compressed against the history,
    and the slot of the history it refers to. *)
Definition compressedAgainst (d : Demo.t) (historyIndex : Z) (d' : Demo.t) : Prop :=
  exists named d1 compressed d2,
    nextBit d = Ok (named, d1) /\ JS.truthy named = true /\
    nextBit d1 = Ok (compressed, d2) /\ JS.truthy compressed = true /\
    nextInt 5 d2 = Ok (historyIndex, d').

(** The entry sent at the cursor of [d] is malformed: its index
    overflows the table, or its name refers to a slot of the history that
    holds no name, or shares more characters with the name of the slot
    than that name has.  [d'] is the session once the defect is read and
    [msg] the warning it earns. *)
Inductive malformed (tableID : Z) (table : StringTable.t) (entryIndex : Z)
    (history : list string) (d : Demo.t) : Demo.t -> string -> Prop :=
| IndexOverflow i d1 :
    readIndex table entryIndex d = Ok (i, d1) ->
    Z.of_nat (length (entriesOf d tableID)) < i ->
    malformed tableID table entryIndex history d d1
      "Overflowed string table size when parsing update."
| MissingHistory i d1 historyIndex d2 :
    readIndex table entryIndex d = Ok (i, d1) ->
    i <= Z.of_nat (length (entriesOf d tableID)) ->
    compressedAgainst d1 historyIndex d2 ->
    default EmptyString (JS.index history historyIndex) = EmptyString ->
    malformed tableID table entryIndex history d d2
      "Tried to retrieve non-existent entry from string table update history."
| SubstringTooLong i d1 historyIndex d2 historyItem substringLength d3 :
    readIndex table entryIndex d = Ok (i, d1) ->
    i <= Z.of_nat (length (entriesOf d tableID)) ->
    compressedAgainst d1 historyIndex d2 ->
    JS.index history historyIndex = Some historyItem ->
    historyItem <> EmptyString ->
    nextInt 5 d2 = Ok (substringLength, d3) ->
    Z.of_nat (String.length historyItem) < substringLength ->
    malformed tableID table entryIndex history d d3
      "String table update entry substring longer than entry name.".

(** The first [k] entries sent from the cursor of [d] are applied, and
    leave the index [i], the history [h] and the session [d']. *)
Inductive applied (tableID dataEnd : Z) (table : StringTable.t)
    : nat -> Z -> list string -> Demo.t -> Z -> list string -> Demo.t -> Prop :=
| applied_none entryIndex history d :
    applied tableID dataEnd table 0 entryIndex history d entryIndex history d
| applied_next k entryIndex history d i1 h1 d1 i h d' :
    changedEntry tableID dataEnd table entryIndex history d = Ok ((Completed, (i1, h1)), d1) ->
    applied tableID dataEnd table k i1 h1 d1 i h d' ->
    applied tableID dataEnd table (S k) entryIndex history d i h d'.

End SvcUpdateStringTable.

(** ** NetSvcMessage.ts: [SvcPacketEntities] *)

Module SvcPacketEntities.
Import EntityStore.
Local Open Scope js_scope.

Record t := mk {
  maxEntries : Z;
  isDelta : bool;
  deltaFrom : option Z;
  baselineIndex : Z;
  updatedEntries : Z;
  updateBaseline : bool;
  updates : list EntityUpdate
}.

(** How the update loop is left: it ran to its end, or a [return] inside
    it left the constructor. *)
Inductive exit := Completed | Returned.

(** [console.warn(msg); demo.buf.cursor = dataEnd; return;] *)
Definition giveUp {A} (dataEnd : Z) (msg : string) (a : A) : M (exit * A) :=
  warn msg ;;; setCursor dataEnd ;;; ret (Returned, a).

(** [const isNew = !entity || entity.serial !== serial] *)
Definition isNewEntity (entity : option (nat * Entity.t)) (serial : Z) : bool :=
  match entity with
  | None => true
  | Some (_, e) => negb (Entity.serial e =? serial)
  end.

(** The body of the loop for one update: the new running index and the
    update applied. *)
Definition entityUpdate (dataEnd : Z) (serverClasses : list ServerClass.t)
    (parserClasses : list ParserClass.t) (index : Z)
    : M (exit * option (Z * EntityUpdate)) :=
  delta <- nextBitInt ;;
  let index := index + (delta + 1) in
  d <- get ;;
  match Demo.entities d with
  | None => throw "Cannot read properties of null"
  | Some entities =>
      if (index <? 0) || (Z.of_nat (length entities) <? index) then
        giveUp dataEnd "Entity update index overflowed." None
      else
        updateType <- nextInt 2 ;;
        if updateType =? 0 then
          match occupant d entities index with
          | None => giveUp dataEnd "Tried to apply delta to non-existent entity." None
          | Some (_, entity) =>
              let tableID := ServerClass.tableID (Entity.serverClass entity) in
              match JS.index parserClasses tableID with
              | None =>
                  giveUp dataEnd
                    ("Missing parser class for entity " ++ quote
                     ++ ServerClass.className (Entity.serverClass entity) ++ quote
                     ++ ".")%string None
              | Some parserClass =>
                  entityProperties <-
                    PropertyCodec.readProperties (ParserClass.flatProperties parserClass) ;;
                  applyDelta index entityProperties ;;;
                  ret (Completed,
                       Some (index, EntityDelta (ParserClass.serverClass parserClass)
                                      index entityProperties))
              end
          end
        else if updateType =? 2 then
          let idBits :=
            DemoBuffer.highestBitIndex (Z.of_nat (length serverClasses)) + 1 in
          tableID <- nextInt idBits ;;
          serial <- nextInt 10 ;;
          match JS.index parserClasses tableID with
          | None =>
              giveUp dataEnd
                ("Missing parser class for new entity, serial " ++ pretty serial
                 ++ ".")%string None
          | Some parserClass =>
              let isNew := isNewEntity (occupant d entities index) serial in
              entityProperties <-
                PropertyCodec.readProperties (ParserClass.flatProperties parserClass) ;;
              enterPVS (ParserClass.serverClass parserClass) index entityProperties
                serial isNew ;;;
              ret (Completed,
                   Some (index, EntityEnterPVS (ParserClass.serverClass parserClass)
                                  index entityProperties serial isNew))
          end
        else if (updateType =? 1) || (updateType =? 3) then
          match occupant d entities index with
          | None => giveUp dataEnd "Tried to delete non-existent entity." None
          | Some (_, entity) =>
              let doDelete := updateType =? 3 in
              leavePVS index doDelete ;;;
              ret (Completed,
                   Some (index, EntityLeavePVS (Entity.serverClass entity) index doDelete))
          end
        else
          giveUp dataEnd
            ("Unknown entity update type: " ++ pretty updateType ++ ".")%string None
  end.

(** [for (let i = 0; i < this.updatedEntries; i ++)] *)
Fixpoint updatesLoop (dataEnd : Z) (serverClasses : list ServerClass.t)
    (parserClasses : list ParserClass.t) (n : nat) (index : Z)
    (updates : list EntityUpdate) : M (exit * list EntityUpdate) :=
  match n with
  | O => ret (Completed, updates)
  | S n' =>
      r <- entityUpdate dataEnd serverClasses parserClasses index ;;
      match r with
      | (Completed, Some (index, update)) =>
          updatesLoop dataEnd serverClasses parserClasses n' index (updates ++ [update])
      | _ => ret (Returned, updates)
      end
  end.

(** [while (demo.buf.nextBit())]: the explicit deletions of a delta.  Each
    turn reads 12 bits and the bits beyond the blob are zero, so the loop
    ends within the [n] turns given. *)
Fixpoint deletionsLoop (n : nat) (updates : list EntityUpdate) : M (list EntityUpdate) :=
  match n with
  | O => ret updates
  | S n' =>
      more <- nextBit ;;
      if JS.truthy more then
        index <- nextInt 11 ;;
        d <- get ;;
        match Demo.entities d with
        | None => throw "Cannot read properties of null"
        | Some entities =>
            match occupant d entities index with
            | None => deletionsLoop n' updates
            | Some (_, entity) =>
                leavePVS index true ;;;
                deletionsLoop n'
                  (updates ++ [EntityLeavePVS (Entity.serverClass entity) index true])
            end
        end
      else ret updates
  end.

(** [new Entities(2048)] *)
Definition newEntities : list (option nat) := replicate 2048 None.

(** The head of the message: its fields, but for the updates, and
    [dataEnd], the bit at which the message ends. *)
Definition header : M ((list EntityUpdate -> t) * Z) :=
  maxEntries <- nextInt 11 ;;
  b <- nextBit ;;
  let isDelta := JS.truthy b in
  deltaFrom <- (if isDelta then x <- nextSignedInt 32 ;; ret (Some x) else ret None) ;;
  baselineIndex <- nextBit ;;
  updatedEntries <- nextInt 11 ;;
  dataLength <- nextInt 20 ;;
  b <- nextBit ;;
  let updateBaseline := JS.truthy b in
  cursor <- getCursor ;;
  ret (mk maxEntries isDelta deltaFrom baselineIndex updatedEntries updateBaseline,
       cursor + dataLength).

(** The constructor, after the head. *)
Definition body (message : list EntityUpdate -> t) (dataEnd : Z) : M t :=
  let isDelta := isDelta (message []) in
  let deltaFrom := deltaFrom (message []) in
  let updatedEntries := updatedEntries (message []) in
  d <- get ;;
  match Demo.dataTables d, Demo.serverClasses d, Demo.parserClasses d with
  | Some _, Some serverClasses, Some parserClasses =>
      let fromFuture :=
        match deltaFrom with
        | Some x => JS.truthy x && (Demo.tick d <? x)
        | None => false
        end in
      if fromFuture then
        warn ("Received entity delta from the future (" ++ pretty (default 0 deltaFrom)
              ++ " > " ++ pretty (Demo.tick d) ++ ").")%string ;;;
        setCursor dataEnd ;;; ret (message [])
      else
        (if isDelta then ret tt else put (Demo.setEntities d (Some newEntities))) ;;;
        d <- get ;;
        match Demo.entities d with
        | None =>
            warn "Received entity delta before a full snapshot." ;;;
            setCursor dataEnd ;;; ret (message [])
        | Some _ =>
            r <- updatesLoop dataEnd serverClasses parserClasses
                   (Z.to_nat updatedEntries) (-1) [] ;;
            match r with
            | (Returned, updates) => ret (message updates)
            | (Completed, updates) =>
                updates <-
                  (if isDelta then
                     d <- get ;;
                     deletionsLoop (S (Z.to_nat (DemoBuffer.bitLength (Demo.buf d)))) updates
                   else ret updates) ;;
                setCursor dataEnd ;;; ret (message updates)
            end
        end
  | _, _, _ =>
      warn "Tried to parse SvcPacketEntities before DataTables." ;;;
      setCursor dataEnd ;;; ret (message [])
  end.

(** The constructor. *)
Definition new : M t :=
  h <- header ;;
  body (fst h) (snd h).

End SvcPacketEntities.

(** ** A small schema used to run the resolver *)

Module ExampleSchema.
Import ParserClass.
Open Scope string_scope.

(** A demo that holds only a byte blob. *)
Definition blob (bytes : list Z) : Demo.t :=
  Demo.mk (DemoBuffer.mk bytes 0) None None [] None [] 0 [] None [].

(** A blob made of fields [(width, value)] written one after the other
    with the buffer's own [setInt]. *)
Definition pack (fields : list (Z * Z)) : list Z :=
  let total := foldr (fun f acc => fst f + acc) 0 fields in
  let zero := DemoBuffer.mk (replicate (Z.to_nat (JS.ceildiv total 8)) 0) 0 in
  DemoBuffer.bytes
    (fst (foldl (fun st f => (DemoBuffer.setInt (fst st) (snd st) (fst f) (snd f),
                              snd st + fst f))
                (zero, 0) fields)).

(** The fields of a null-terminated string. *)
Definition chars (s : string) : list (Z * Z) :=
  map (fun c => (8, Z.of_nat (nat_of_ascii c))) (list_ascii_of_string s) ++ [(8, 0)].

(** A float property with the given flags, range and width. *)
Definition floatProp (fl : Z) (lo hi : float) (b : Z) : DataTableProperty.t :=
  DataTableProperty.mk DataTablePropertyType.Float "m_f" fl 0 None
    (Some (DataTableProperty.mkRange lo hi b)) None.

Definition leaf (n : string) (ty fl pr : Z) : DataTableProperty.t :=
  DataTableProperty.mk ty n fl pr None None None.
Definition nested (n tableName : string) (fl : Z) : DataTableProperty.t :=
  DataTableProperty.mk DataTablePropertyType.DataTable n fl 0 (Some tableName) None None.

(** [DT_Base] starts with an array that has nothing before it, holds an
    array [m_xs] after its element [m_x], a float excluded by [DT_Sub], a
    nested table and a collapsible one. *)
Definition DT_Base : DataTable.t :=
  DataTable.mk false "DT_Base"
    [ leaf "arr0" DataTablePropertyType.Array 0 0;
      leaf "m_x" DataTablePropertyType.Int 256 0;
      leaf "m_xs" DataTablePropertyType.Array 0 0;
      leaf "m_y" DataTablePropertyType.Float 0 0;
      nested "local" "DT_Local" 0;
      nested "base" "DT_Sub" 2048 ].
Definition DT_Local : DataTable.t :=
  DataTable.mk false "DT_Local"
    [ leaf "m_a" DataTablePropertyType.Int 0 0;
      leaf "m_arr" DataTablePropertyType.Array 0 0 ].
Definition DT_Sub : DataTable.t :=
  DataTable.mk false "DT_Sub"
    [ leaf "m_c" DataTablePropertyType.String 0 0;
      DataTableProperty.mk DataTablePropertyType.Int "m_y" 64 0 (Some "DT_Base")
        None None ].

Definition dataTables : tables :=
  <["DT_Base" := DT_Base]> (<["DT_Local" := DT_Local]> (<["DT_Sub" := DT_Sub]> ∅)).

Definition CBase : ServerClass.t := ServerClass.mk 0 "CBase" "DT_Base".

(** Three properties, the last of which belongs to the lowest bucket. *)
Definition prop (n : string) (pr : Z) (changesOften : bool) : FlatProperty.t :=
  FlatProperty.mk n (leaf n DataTablePropertyType.Int (if changesOften then 262144 else 0) pr)
    None.

(** A session with two string tables, the first of which holds two
    entries, and the blob of an update of the first. *)
Definition table (n : string) (entries : list StringTableEntry.t) : StringTable.t :=
  StringTable.mk n entries [] (Some 64) 0 0.
Definition entry (n : string) : StringTableEntry.t :=
  StringTableEntry.mk "soundprecache" n (StringTableEntry.PrecacheData 0).
Definition withTables (bytes : list Z) : Demo.t :=
  Demo.mk (DemoBuffer.mk bytes 0) None None
    [("soundprecache", table "soundprecache" [entry "a"; entry "b"]);
     ("other", table "other" [entry "c"])]
    None [] 0 [] None [].

(** The head of an update of table 0 with two changed entries, 200 bits
    of data and no dictionary. *)
Definition updateHead : list (Z * Z) := [(5, 0); (1, 1); (16, 2); (20, 200); (1, 0)].

(** Entry 0 becomes [hello] with flags 3; the next entry is
    substring-compressed against slot 5 of the history, which holds only
    one name. *)
Definition updateMissingHistory : list Z :=
  pack (updateHead
        ++ [(1, 1); (1, 1); (1, 0)] ++ chars "hello" ++ [(1, 1); (14, 1); (2, 3); (6, 0)]
        ++ [(1, 1); (1, 1); (1, 1); (5, 5); (5, 3)] ++ chars "p!"
        ++ [(1, 1); (14, 1); (2, 1); (6, 0)]).

(** Entry 0 is sent without a name and without data; the next entry is
    substring-compressed against slot 0 of the history, with a shared
    prefix of length 0 and the suffix [xy]. *)
Definition updateEmptyHistoryName : list Z :=
  pack (updateHead
        ++ [(1, 1); (1, 0); (1, 0)]
        ++ [(1, 1); (1, 1); (1, 1); (5, 0); (5, 0)] ++ chars "xy"
        ++ [(1, 1); (14, 1); (2, 1); (6, 0)]).

(** A session after its data tables, with one class whose baseline is
    blank, and the given entity objects and slots. *)
Definition parserClass : ParserClass.t := ParserClass.mk CBase [].
Definition withEntities (bytes : list Z) (heap : list Entity.t)
    (entities : option (list (option nat))) : Demo.t :=
  Demo.mk (DemoBuffer.mk bytes 0) (Some ∅) (Some [CBase]) [] (Some [parserClass])
    [Some (StaticBaseline.mk CBase [])] 0 heap entities [].

(** The head of a snapshot with one update and 100 bits of data: a full
    one, and a delta from tick 0. *)
Definition snapshotHead : list (Z * Z) :=
  [(11, 1); (1, 0); (1, 0); (11, 1); (20, 100); (1, 0)].
Definition deltaHead : list (Z * Z) :=
  [(11, 1); (1, 1); (32, 0); (1, 0); (11, 1); (20, 100); (1, 0)].

(** The index of an update, [gap] slots after the last one: below 16,
    and through the one-byte form. *)
Definition near (gap : Z) : list (Z * Z) := [(4, gap); (2, 0)].
Definition far (gap : Z) : list (Z * Z) := [(4, gap `mod` 16); (2, 2); (8, gap / 16)].

(** An entity of class 0 enters with the given serial and no property;
    a delta with no property; a deletion. *)
Definition noProperties : list (Z * Z) :=
  [(1, 1); (1, 0); (1, 0); (5, 31); (2, 3); (7, 127)].
Definition enter (serial : Z) : list (Z * Z) :=
  [(2, 2); (1, 0); (10, serial)] ++ noProperties.
Definition delta : list (Z * Z) := (2, 0) :: noProperties.
Definition delete : list (Z * Z) := [(2, 3)].

(** An entity with a hole and an 8-bit integer property [m_x] stored at
    bit 0 of the blob. *)
Definition intProperty : EntityProperty.t :=
  EntityProperty.mk 1
    (FlatProperty.mk "m_x"
       (leaf "m_x" DataTablePropertyType.Int DataTablePropertyFlag.Unsigned 0) None)
    0 8 (EntityProperty.VNumber (JSNumber.ofZ 3)).
Definition writable : Entity.t :=
  Entity.mk CBase [None; Some intProperty] 7 4 true true.

(** An entity with an unsigned 8-bit counter [m_n] stored at bit 3 of the
    blob. *)
Definition counterProperty : EntityProperty.t :=
  EntityProperty.mk 0
    (FlatProperty.mk "m_n"
       (DataTableProperty.mk DataTablePropertyType.Int "m_n" 1 0 None
          (Some (DataTableProperty.mkRange 0 0 8)) None)
       None)
    3 8 (EntityProperty.VNumber (JSNumber.ofZ 0)).
Definition counted : Entity.t :=
  Entity.mk CBase [Some counterProperty] 7 4 true true.


(** A name alone: sent in full, and substring-compressed against slot
    [i] of the history with a shared prefix of [len] characters. *)
Definition plainName (name : string) : list Z :=
  pack ([(1, 1); (1, 0)] ++ chars name).
Definition compressedName (i len : Z) (suffix : string) : list Z :=
  pack ([(1, 1); (1, 1); (5, i); (5, len)] ++ chars suffix).

(** The wire form of an unsigned 8-bit integer definition [m_n], of the
    table [DT] that holds it alone, and the definition itself. *)
Definition counterField : list (Z * Z) :=
  [(5, 0)] ++ chars "m_n" ++ [(19, 1); (8, 0); (32, 0); (32, 0); (7, 8)].
Definition tableBlob : list Z :=
  pack ([(1, 0)] ++ chars "DT" ++ [(10, 1)] ++ counterField).
Definition parsedCounter : DataTableProperty.t :=
  DataTableProperty.mk DataTablePropertyType.Int "m_n" 1 0 None
    (Some (DataTableProperty.mkRange 0 0 8)) None.

End ExampleSchema.

(** * Properties *)

(** ** Facts about the 32-bit operators *)

Module JSFacts.
Import JS.

Lemma ToInt32_small x : - 2 ^ 31 <= x < 2 ^ 31 -> ToInt32 x = x.
Proof. intros H. unfold ToInt32. rewrite Z.mod_small; lia. Qed.

Lemma ToUint32_small x : 0 <= x < 2 ^ 32 -> ToUint32 x = x.
Proof. intros H. unfold ToUint32. apply Z.mod_small; lia. Qed.

Lemma ToInt32_range x : - 2 ^ 31 <= ToInt32 x < 2 ^ 31.
Proof.
  unfold ToInt32. pose proof (Z.mod_pos_bound (x + 2 ^ 31) (2 ^ 32)). lia.
Qed.

Lemma ToInt32_mod x : ToInt32 x mod 2 ^ 32 = x mod 2 ^ 32.
Proof.
  unfold ToInt32.
  rewrite Zminus_mod, Z.mod_mod by lia.
  rewrite <- Zminus_mod. f_equal. lia.
Qed.

Lemma ToInt32_testbit x i : 0 <= i < 32 -> Z.testbit (ToInt32 x) i = Z.testbit x i.
Proof.
  intros H.
  rewrite <- (Z.mod_pow2_bits_low (ToInt32 x) 32 i) by lia.
  rewrite ToInt32_mod. apply Z.mod_pow2_bits_low. lia.
Qed.

Lemma shcount_small b : 0 <= b < 32 -> shcount b = b.
Proof.
  intros H. unfold shcount, ToUint32.
  rewrite (Z.mod_small b (2 ^ 32)) by lia. apply Z.mod_small. lia.
Qed.

Lemma pow2_lt_31 k : 0 <= k < 31 -> 0 < 2 ^ k < 2 ^ 31.
Proof.
  intros H. split; [apply Z.pow_pos_nonneg; lia|].
  apply Z.pow_lt_mono_r; lia.
Qed.

Lemma shl_1_small k : 0 <= k < 31 -> shl 1 k = 2 ^ k.
Proof.
  intros H. unfold shl. rewrite shcount_small by lia.
  rewrite (ToInt32_small 1) by lia.
  rewrite Z.shiftl_1_l. apply ToInt32_small.
  pose proof (pow2_lt_31 k H). lia.
Qed.

Lemma shl_1_31 : shl 1 31 = - 2 ^ 31.
Proof. reflexivity. Qed.

Lemma shl_1_32 : shl 1 32 = 1.
Proof. reflexivity. Qed.

Lemma and_small a b :
  0 <= a < 2 ^ 31 -> 0 <= b < 2 ^ 31 -> and a b = Z.land a b.
Proof. intros Ha Hb. unfold and. rewrite !ToInt32_small by lia. reflexivity. Qed.

Lemma or_small a b :
  0 <= a < 2 ^ 31 -> 0 <= b < 2 ^ 31 -> or a b = Z.lor a b.
Proof. intros Ha Hb. unfold or. rewrite !ToInt32_small by lia. reflexivity. Qed.

Lemma sar_small a b :
  0 <= a < 2 ^ 31 -> 0 <= b < 32 -> sar a b = Z.shiftr a b.
Proof.
  intros Ha Hb. unfold sar.
  rewrite ToInt32_small, shcount_small by lia. reflexivity.
Qed.

Lemma shr_small a b :
  0 <= a < 2 ^ 32 -> 0 <= b < 32 -> shr a b = Z.shiftr a b.
Proof.
  intros Ha Hb. unfold shr.
  rewrite ToUint32_small, shcount_small by lia. reflexivity.
Qed.

Lemma shl_small a b :
  0 <= a -> 0 <= b < 32 -> a * 2 ^ b < 2 ^ 31 -> shl a b = Z.shiftl a b.
Proof.
  intros Ha Hb Hlt. unfold shl. rewrite shcount_small by lia.
  assert (0 < 2 ^ b) by (apply Z.pow_pos_nonneg; lia).
  assert (a < 2 ^ 31) by nia.
  rewrite (ToInt32_small a) by lia.
  rewrite Z.shiftl_mul_pow2 by lia. apply ToInt32_small. nia.
Qed.

(** A non-negative number below [2 ^ n] has no bit at or above [n]. *)
Lemma testbit_above a n i : 0 <= a < 2 ^ n -> n <= i -> Z.testbit a i = false.
Proof.
  intros Ha Hi. destruct (Z.eq_dec a 0) as [->|Hne]; [apply Z.bits_0|].
  apply Z.bits_above_log2; [lia|].
  assert (0 <= n).
  { destruct (Z.le_gt_cases 0 n); [assumption|].
    rewrite Z.pow_neg_r in Ha by lia. lia. }
  assert (Z.log2 a < n) by (apply Z.log2_lt_pow2; lia). lia.
Qed.

Lemma bits_range a n :
  0 <= n -> 0 <= a ->
  (forall i, n <= i -> Z.testbit a i = false) -> a < 2 ^ n.
Proof.
  intros Hn Ha Hbits.
  destruct (Z.eq_dec a 0) as [->|Hne]; [apply Z.pow_pos_nonneg; lia|].
  apply Z.log2_lt_pow2; [lia|].
  destruct (Z.lt_ge_cases (Z.log2 a) n) as [|Hge]; [assumption|].
  specialize (Hbits (Z.log2 a) Hge). rewrite Z.bit_log2 in Hbits by lia.
  discriminate Hbits.
Qed.

(** The test [value & (1 << i)] of [setInt] reads bit [i] of the value's
    32-bit pattern, also at [i = 31] where [1 << 31] is negative. *)
Lemma truthy_and_bit v i :
  0 <= i < 32 -> truthy (and v (shl 1 i)) = Z.testbit v i.
Proof.
  intros Hi. unfold truthy, and.
  rewrite <- (ToInt32_testbit v i) by lia.
  pose proof (ToInt32_range v) as Hv. set (a := ToInt32 v) in *.
  assert (Hs : ToInt32 (shl 1 i) = Z.shiftl 1 i \/ (i = 31 /\ ToInt32 (shl 1 i) = - 2 ^ 31)).
  { destruct (Z.eq_dec i 31) as [->|Hne]; [right; split; reflexivity|].
    left. rewrite shl_1_small by lia.
    rewrite Z.shiftl_1_l. apply ToInt32_small.
    pose proof (pow2_lt_31 i). lia. }
  destruct Hs as [-> | [-> ->]].
  - destruct (Z.testbit a i) eqn:Hb.
    + apply negb_true_iff, Z.eqb_neq. intros H0.
      assert (Z.testbit (Z.land a (Z.shiftl 1 i)) i = true).
      { rewrite Z.land_spec, Hb, Z.shiftl_spec, Z.sub_diag by lia. reflexivity. }
      rewrite H0, Z.bits_0 in H. discriminate.
    + apply negb_false_iff, Z.eqb_eq. apply Z.bits_inj'. intros j Hj.
      rewrite Z.land_spec, Z.bits_0.
      destruct (Z.eq_dec j i) as [->|Hne]; [rewrite Hb; reflexivity|].
      rewrite Z.shiftl_spec by lia.
      destruct (Z.ltb_spec j i).
      * rewrite (Z.testbit_neg_r 1) by lia. apply andb_false_r.
      * rewrite (testbit_above 1 1) by lia. apply andb_false_r.
  - destruct (Z.testbit a 31) eqn:Hb.
    + apply negb_true_iff, Z.eqb_neq. intros H0.
      assert (Z.testbit (Z.land a (- 2 ^ 31)) 31 = true).
      { rewrite Z.land_spec, Hb. reflexivity. }
      rewrite H0, Z.bits_0 in H. discriminate.
    + apply negb_false_iff, Z.eqb_eq.
      assert (0 <= a).
      { destruct (Z.lt_ge_cases a 0) as [Hneg|]; [|assumption].
        assert (Z.testbit (a mod 2 ^ 32) 31 = true).
        { apply Z.testbit_true; [lia|].
          replace (a mod 2 ^ 32) with (a + 2 ^ 32).
          - replace ((a + 2 ^ 32) / 2 ^ 31) with 1; [reflexivity|].
            apply Z.div_unique with (r := a + 2 ^ 31); lia.
          - apply Z.mod_unique with (q := -1); lia. }
        rewrite Z.mod_pow2_bits_low in H by lia. congruence. }
      apply Z.bits_inj'. intros j Hj. rewrite Z.land_spec, Z.bits_0.
      destruct (Z.ltb_spec j 31).
      * replace (- 2 ^ 31) with (Z.shiftl (-1) 31) by reflexivity.
        rewrite Z.shiftl_spec_low by lia. apply andb_false_r.
      * rewrite (testbit_above a 31) by lia. reflexivity.
Qed.

(** [JSNumber.nearest] is the rounding of binary64: on integers short
    and long, on ties and off them, it is what the conversion to a
    binary64 number and back gives. *)
Example nearest_is_binary64 :
  Forall (fun z => JSNumber.truncZ (JSNumber.ofZ z) = JSNumber.nearest z)
    [0; 1; -1; 2 ^ 53 - 1; 2 ^ 53; 2 ^ 53 + 1; 2 ^ 53 + 2; 2 ^ 53 + 3; 2 ^ 54 + 2;
     2 ^ 54 + 6; 2 ^ 54 + 7; 2 ^ 56 - 1; 2 ^ 64 - 1; 2 ^ 64 - 1024; 2 ^ 64 - 1025;
     2 ^ 127 - 1; - (2 ^ 53 + 1); - (2 ^ 53 + 3); - (2 ^ 64 - 1); 2 ^ 1000 + 2 ^ 947;
     2 ^ 1000 + 2 ^ 946; 72057594037927935 * 256 + 255].
Proof. repeat constructor. Qed.

End JSFacts.

(** ** The bitstream buffer *)

Module DemoBufferFacts.
Import JS JSFacts DemoBuffer.

Ltac divmod := Z.div_mod_to_equations; lia.

Lemma byte_range buf k : wf buf -> 0 <= default 0 (bytes buf !! k) < 256.
Proof.
  intros Hwf. destruct (bytes buf !! k) as [b|] eqn:Hk; simpl; [|lia].
  unfold wf in Hwf. rewrite Forall_forall in Hwf.
  apply Hwf. apply list_elem_of_lookup. eauto.
Qed.

Lemma index_nonneg {A} (l : list A) i : 0 <= i -> index l i = l !! Z.to_nat i.
Proof. intros H. unfold index. destruct (Z.ltb_spec i 0); [lia|reflexivity]. Qed.

Lemma rem8 a : 0 <= a -> rem a 8 = a mod 8.
Proof. intros H. unfold rem. apply Z.rem_mod_nonneg; lia. Qed.

Lemma testbit_255 j : 0 <= j -> Z.testbit 255 j = (j <? 8).
Proof.
  intros Hj. change 255 with (Z.ones 8).
  destruct (Z.ltb_spec j 8).
  - apply Z.ones_spec_low. lia.
  - apply Z.ones_spec_high. lia.
Qed.

Lemma bitAt_split buf a j :
  0 <= a -> 0 <= j < 8 ->
  bitAt buf (a + j) =
    if a mod 8 + j <? 8
    then Z.testbit (default 0 (bytes buf !! Z.to_nat (a / 8))) (a mod 8 + j)
    else Z.testbit (default 0 (bytes buf !! Z.to_nat (a / 8 + 1))) (a mod 8 + j - 8).
Proof.
  intros Ha Hj. unfold bitAt.
  destruct (Z.ltb_spec (a mod 8 + j) 8).
  - replace ((a + j) / 8) with (a / 8) by divmod.
    replace ((a + j) mod 8) with (a mod 8 + j) by divmod. reflexivity.
  - replace ((a + j) / 8) with (a / 8 + 1) by divmod.
    replace ((a + j) mod 8) with (a mod 8 + j - 8) by divmod. reflexivity.
Qed.

Lemma getBit_spec buf a :
  wf buf -> 0 <= a -> getBit buf a = Z.b2z (bitAt buf a).
Proof.
  intros Hwf Ha. unfold getBit, floordiv, orZero, bitAt.
  rewrite rem8, index_nonneg by divmod.
  pose proof (byte_range buf (Z.to_nat (a / 8)) Hwf) as Hb.
  set (b := default 0 _) in *.
  assert (0 <= a mod 8 < 8) by divmod.
  rewrite sar_small by lia.
  assert (0 <= Z.shiftr b (a mod 8) <= b).
  { rewrite Z.shiftr_div_pow2 by lia.
    assert (0 < 2 ^ (a mod 8)) by (apply Z.pow_pos_nonneg; lia).
    split; [apply Z.div_pos; lia|]. apply Z.div_le_upper_bound; nia. }
  rewrite and_small by lia.
  change 1 with (Z.ones 1). rewrite Z.land_ones by lia.
  change (2 ^ 1) with 2. rewrite <- Z.bit0_mod.
  rewrite Z.shiftr_spec by lia. reflexivity.
Qed.

Lemma getByte_eq buf a :
  wf buf -> 0 <= a ->
  let l := default 0 (bytes buf !! Z.to_nat (a / 8)) in
  let r := default 0 (bytes buf !! Z.to_nat (a / 8 + 1)) in
  getByte buf a =
    if a mod 8 =? 0 then l
    else Z.lor (Z.shiftr l (a mod 8)) (Z.land (Z.shiftl r (8 - a mod 8)) 255).
Proof.
  intros Hwf Ha l r. unfold getByte, floordiv, orZero.
  rewrite rem8, !index_nonneg by divmod. fold l r.
  pose proof (byte_range buf (Z.to_nat (a / 8)) Hwf) as Hl.
  pose proof (byte_range buf (Z.to_nat (a / 8 + 1)) Hwf) as Hr.
  fold l in Hl. fold r in Hr.
  assert (Ho : 0 <= a mod 8 < 8) by divmod.
  destruct (Z.eqb_spec (a mod 8) 0) as [H0|H0]; [reflexivity|].
  set (o := a mod 8) in *.
  assert (0 < 2 ^ o) by (apply Z.pow_pos_nonneg; lia).
  assert (0 < 2 ^ (8 - o) <= 2 ^ 7).
  { split; [apply Z.pow_pos_nonneg; lia|]. apply Z.pow_le_mono_r; lia. }
  rewrite shr_small by lia.
  rewrite shl_small by nia.
  assert (0 <= Z.shiftr l o <= l).
  { rewrite Z.shiftr_div_pow2 by lia.
    split; [apply Z.div_pos; lia|]. apply Z.div_le_upper_bound; nia. }
  assert (0 <= Z.shiftl r (8 - o) < 2 ^ 31).
  { rewrite Z.shiftl_mul_pow2 by lia. nia. }
  rewrite (and_small (Z.shiftl r (8 - o)) 255) by lia.
  assert (0 <= Z.land (Z.shiftl r (8 - o)) 255 < 256).
  { change 255 with (Z.ones 8). rewrite Z.land_ones by lia.
    apply Z.mod_pos_bound. lia. }
  rewrite or_small by lia. reflexivity.
Qed.

Lemma getByte_bits buf a j :
  wf buf -> 0 <= a -> 0 <= j ->
  Z.testbit (getByte buf a) j = if j <? 8 then bitAt buf (a + j) else false.
Proof.
  intros Hwf Ha Hj. rewrite getByte_eq by assumption.
  pose proof (byte_range buf (Z.to_nat (a / 8)) Hwf) as Hl.
  pose proof (byte_range buf (Z.to_nat (a / 8 + 1)) Hwf) as Hr.
  assert (Ho : 0 <= a mod 8 < 8) by divmod.
  destruct (Z.eqb_spec (a mod 8) 0) as [H0|H0].
  - destruct (Z.ltb_spec j 8).
    + rewrite bitAt_split by lia. rewrite H0, Z.add_0_l.
      destruct (Z.ltb_spec j 8); [|lia]. reflexivity.
    + apply (testbit_above _ 8); lia.
  - set (l := default 0 (bytes buf !! Z.to_nat (a / 8))) in *.
    set (r := default 0 (bytes buf !! Z.to_nat (a / 8 + 1))) in *.
    set (o := a mod 8) in *.
    rewrite Z.lor_spec, Z.land_spec, Z.shiftr_spec, Z.shiftl_spec, testbit_255 by lia.
    destruct (Z.ltb_spec j 8).
    + rewrite bitAt_split by lia. fold l r o.
      destruct (Z.ltb_spec (o + j) 8).
      * rewrite (Z.testbit_neg_r r) by lia. simpl.
        rewrite orb_false_r. f_equal. lia.
      * rewrite (testbit_above l 8) by lia. simpl.
        rewrite andb_true_r. f_equal. lia.
    + rewrite (testbit_above l 8) by lia. rewrite andb_false_r. reflexivity.
Qed.

Lemma getByte_range buf a : wf buf -> 0 <= a -> 0 <= getByte buf a < 256.
Proof.
  intros Hwf Ha.
  assert (Hnn : 0 <= getByte buf a).
  { rewrite getByte_eq by assumption.
    pose proof (byte_range buf (Z.to_nat (a / 8)) Hwf) as Hl.
    destruct (Z.eqb_spec (a mod 8) 0); [lia|].
    apply Z.lor_nonneg. split.
    - apply Z.shiftr_nonneg. lia.
    - apply Z.land_nonneg. right. lia. }
  split; [assumption|].
  apply (bits_range _ 8); [lia|assumption|].
  intros i Hi. rewrite getByte_bits by (assumption || lia).
  destruct (Z.ltb_spec i 8); [lia|reflexivity].
Qed.

Lemma u8store_lookup l i v (k : nat) :
  0 <= i -> 0 <= v < 256 ->
  u8store l i v !! k =
    if decide (Z.to_nat i = k /\ (k < length l)%nat) then Some v else l !! k.
Proof.
  intros Hi Hv. unfold u8store. destruct (Z.ltb_spec i 0); [lia|].
  rewrite Z.mod_small by lia.
  destruct (decide (Z.to_nat i = k /\ (k < length l)%nat)) as [[<- Hlt]|Hn].
  - apply list_lookup_insert_eq. assumption.
  - destruct (decide (Z.to_nat i = k)) as [<-|Hne].
    + rewrite list_insert_ge by lia. reflexivity.
    + apply list_lookup_insert_ne. assumption.
Qed.

Lemma u8store_length l i v : length (u8store l i v) = length l.
Proof.
  unfold u8store. destruct (i <? 0); [reflexivity|apply length_insert].
Qed.

Lemma getBitSlice_loop_length buf from to n : forall i out,
  length (getBitSlice_loop buf from to n i out) = length out.
Proof.
  induction n as [|n IH]; intros i out; simpl; [reflexivity|].
  destruct (i <? to); [|reflexivity]. rewrite IH. apply u8store_length.
Qed.

Lemma getBitSlice_loop_lookup buf from to n : forall (k0 : nat) out (k : nat),
  wf buf -> 0 <= from ->
  length out = (k0 + n)%nat ->
  Z.of_nat (k0 + n) = ceildiv (to - from) 8 ->
  getBitSlice_loop buf from to n (from + 8 * Z.of_nat k0) out !! k =
    if decide (k0 <= k < k0 + n)%nat
    then Some (getByte buf (from + 8 * Z.of_nat k)) else out !! k.
Proof.
  induction n as [|n IH]; intros k0 out k Hwf Hfrom Hlen Hceil; simpl.
  - destruct (decide _); [lia|reflexivity].
  - assert (Hlt : from + 8 * Z.of_nat k0 < to) by (unfold ceildiv in Hceil; divmod).
    destruct (Z.ltb_spec (from + 8 * Z.of_nat k0) to); [|lia].
    replace (from + 8 * Z.of_nat k0 + 8) with (from + 8 * Z.of_nat (S k0)) by lia.
    rewrite IH; try assumption.
    + unfold floordiv.
      replace ((from + 8 * Z.of_nat k0 - from) / 8) with (Z.of_nat k0) by divmod.
      rewrite u8store_lookup by (try apply getByte_range; try assumption; lia).
      rewrite Nat2Z.id.
      destruct (decide (S k0 <= k < S k0 + n)%nat);
        destruct (decide (k0 <= k < k0 + S n)%nat); try lia; try reflexivity.
      * destruct (decide _) as [[-> _]|Hn]; [reflexivity|lia].
      * destruct (decide _) as [[-> _]|Hn]; [lia|reflexivity].
    + rewrite u8store_length. lia.
    + rewrite <- Hceil. lia.
Qed.

Lemma getBitSlice_length buf from to :
  length (getBitSlice_filled buf from to) = Z.to_nat (ceildiv (to - from) 8).
Proof.
  unfold getBitSlice_filled.
  destruct (negb _); rewrite ?u8store_length, getBitSlice_loop_length, length_replicate;
    reflexivity.
Qed.

Lemma ceildiv_nonneg d : 0 <= d -> 0 <= ceildiv d 8.
Proof. intros H. unfold ceildiv. divmod. Qed.

(** Byte [k] of a slice holds the bits [from + 8k ..] of the buffer, cut
    at [to]. *)
Lemma getBitSlice_lookup buf from to (k : nat) :
  wf buf -> 0 <= from <= to ->
  getBitSlice_filled buf from to !! k =
    if decide (Z.of_nat k < ceildiv (to - from) 8) then
      Some (if decide (Z.of_nat k = ceildiv (to - from) 8 - 1 /\ (to - from) mod 8 <> 0)
            then (getByte buf (from + 8 * Z.of_nat k)) mod 2 ^ ((to - from) mod 8)
            else getByte buf (from + 8 * Z.of_nat k))
    else None.
Proof.
  intros Hwf Hft.
  pose proof (ceildiv_nonneg (to - from) ltac:(lia)) as Hc.
  set (n := Z.to_nat (ceildiv (to - from) 8)).
  assert (Hloop : forall k : nat,
    getBitSlice_loop buf from to n from (replicate n 0) !! k =
      if decide (k < n)%nat then Some (getByte buf (from + 8 * Z.of_nat k)) else None).
  { intros k'. replace from with (from + 8 * Z.of_nat 0) at 2 by lia.
    rewrite getBitSlice_loop_lookup; try assumption; try lia.
    - destruct (decide (0 <= k' < 0 + n)%nat); destruct (decide (k' < n)%nat); try lia;
        [reflexivity|].
      apply lookup_ge_None. rewrite length_replicate. lia.
    - rewrite length_replicate. lia. }
  unfold getBitSlice_filled. fold n.
  set (out := getBitSlice_loop buf from to n from (replicate n 0)) in *.
  assert (Hlen : length out = n).
  { unfold out. rewrite getBitSlice_loop_length, length_replicate. reflexivity. }
  rewrite rem8 by lia.
  destruct (Z.eqb_spec ((to - from) mod 8) 0) as [H0|H0]; simpl.
  - rewrite Hloop.
    destruct (decide (k < n)%nat); destruct (decide (Z.of_nat k < _)); try lia;
      [|reflexivity].
    destruct (decide _) as [[_ ?]|]; [lia|reflexivity].
  - assert (Hn : (0 < n)%nat) by (unfold n, ceildiv; divmod).
    assert (Hlast : last out = Some (getByte buf (from + 8 * Z.of_nat (n - 1)))).
    { rewrite last_lookup, Hlen.
      replace (Nat.pred n) with (n - 1)%nat by lia.
      rewrite Hloop. destruct (decide (n - 1 < n)%nat); [reflexivity|lia]. }
    rewrite Hlast. unfold orZero. simpl.
    assert (Ho : 0 < (to - from) mod 8 < 8) by divmod.
    set (o := (to - from) mod 8) in *.
    pose proof (getByte_range buf (from + 8 * Z.of_nat (n - 1)) Hwf ltac:(lia)) as Hr.
    rewrite shl_1_small by lia.
    assert (0 < 2 ^ o <= 2 ^ 7).
    { split; [apply Z.pow_pos_nonneg; lia|]. apply Z.pow_le_mono_r; lia. }
    rewrite and_small by lia.
    replace (2 ^ o - 1) with (Z.ones o) by (rewrite Z.ones_equiv; lia).
    rewrite Z.land_ones by lia.
    pose proof (Z.mod_pos_bound (getByte buf (from + 8 * Z.of_nat (n - 1))) (2 ^ o) ltac:(lia)).
    rewrite u8store_lookup by lia.
    rewrite Hlen, Hloop.
    destruct (decide (Z.to_nat (Z.of_nat n - 1) = k /\ (k < n)%nat)) as [[Hk Hkn]|Hk].
    + destruct (decide (Z.of_nat k < _)); [|lia].
      destruct (decide _) as [_|Hn']; [|lia].
      do 3 f_equal. lia.
    + destruct (decide (k < n)%nat); destruct (decide (Z.of_nat k < _)); try lia;
        [|reflexivity].
      destruct (decide _) as [[? _]|]; [lia|reflexivity].
Qed.

Lemma getBitSlice_wf buf from to :
  wf buf -> 0 <= from <= to ->
  Forall (fun b => 0 <= b < 256) (getBitSlice_filled buf from to).
Proof.
  intros Hwf Hft. apply Forall_lookup. intros k b Hk.
  rewrite getBitSlice_lookup in Hk by assumption.
  destruct (decide _); [|discriminate]. injection Hk as <-.
  pose proof (getByte_range buf (from + 8 * Z.of_nat k) Hwf ltac:(lia)) as Hr.
  destruct (decide _) as [[_ Ho]|]; [|exact Hr].
  assert (0 < 2 ^ ((to - from) mod 8) <= 2 ^ 8).
  { split; [apply Z.pow_pos_nonneg; divmod|]. apply Z.pow_le_mono_r; divmod. }
  pose proof (Z.mod_pos_bound (getByte buf (from + 8 * Z.of_nat k))
                (2 ^ ((to - from) mod 8)) ltac:(lia)). lia.
Qed.

(** The little-endian sum of [field] puts bit [j] of byte [k] at
    position [8k + j]. *)
Lemma le_sum_testbit (bs : list Z) i :
  Forall (fun b => 0 <= b < 256) bs -> 0 <= i ->
  Z.testbit (foldr (fun b output => output * 256 + b) 0 bs) i =
    Z.testbit (default 0 (bs !! Z.to_nat (i / 8))) (i mod 8).
Proof.
  intros Hbs. revert i. induction Hbs as [|b bs Hb Hbs IH]; intros i Hi; simpl.
  - rewrite !Z.bits_0. reflexivity.
  - set (rest := foldr _ 0 bs) in *.
    destruct (Z.ltb_spec i 8).
    + replace (i / 8) with 0 by divmod. replace (i mod 8) with i by divmod. simpl.
      rewrite <- (Z.mod_pow2_bits_low _ 8) by lia.
      replace ((rest * 256 + b) mod 2 ^ 8) with b; [reflexivity|].
      apply Z.mod_unique with (q := rest); lia.
    + replace i with ((i - 8) + 8) at 1 by lia.
      rewrite <- Z.div_pow2_bits by lia.
      replace ((rest * 256 + b) / 2 ^ 8) with rest
        by (apply Z.div_unique with (r := b); lia).
      rewrite IH by lia.
      replace (Z.to_nat (i / 8)) with (S (Z.to_nat ((i - 8) / 8))) by divmod.
      replace ((i - 8) mod 8) with (i mod 8) by divmod. reflexivity.
Qed.

Lemma le_sum_nonneg (bs : list Z) :
  Forall (fun b => 0 <= b < 256) bs ->
  0 <= foldr (fun b output => output * 256 + b) 0 bs.
Proof. induction 1; simpl; lia. Qed.

(** [field] reads the [size] bits from [from] on, least significant
    first. *)
Lemma field_bits buf from size i :
  wf buf -> 0 <= from -> 0 <= size -> 0 <= i ->
  Z.testbit (field buf from size) i = (i <? size) && bitAt buf (from + i).
Proof.
  intros Hwf Hfrom Hsize Hi. unfold field.
  rewrite le_sum_testbit by (try apply getBitSlice_wf; try assumption; lia).
  rewrite getBitSlice_lookup by (assumption || lia).
  replace (from + size - from) with size by lia.
  assert (Hk : Z.of_nat (Z.to_nat (i / 8)) = i / 8) by divmod.
  rewrite Hk.
  assert (Hj : 0 <= i mod 8 < 8) by divmod.
  destruct (decide (i / 8 < ceildiv size 8)) as [Hin|Hout]; simpl.
  - replace (bitAt buf (from + i)) with (bitAt buf (from + 8 * (i / 8) + i mod 8))
      by (f_equal; divmod).
    destruct (decide _) as [[Hlast Ho]|Hn].
    + destruct (Z.ltb_spec (i mod 8) (size mod 8)).
      * rewrite Z.mod_pow2_bits_low by lia.
        rewrite getByte_bits by (assumption || lia).
        destruct (Z.ltb_spec (i mod 8) 8); [|lia].
        destruct (Z.ltb_spec i size); [reflexivity|].
        unfold ceildiv in *. divmod.
      * rewrite Z.mod_pow2_bits_high by divmod.
        destruct (Z.ltb_spec i size); [|reflexivity].
        unfold ceildiv in *. divmod.
    + rewrite getByte_bits by (assumption || lia).
      destruct (Z.ltb_spec (i mod 8) 8); [|lia].
      destruct (Z.ltb_spec i size); [reflexivity|].
      unfold ceildiv in *. divmod.
  - rewrite Z.bits_0.
    destruct (Z.ltb_spec i size); [|reflexivity].
    unfold ceildiv in *. divmod.
Qed.

Lemma field_range buf from size :
  wf buf -> 0 <= from -> 0 <= size -> 0 <= field buf from size < 2 ^ size.
Proof.
  intros Hwf Hfrom Hsize.
  assert (0 <= field buf from size).
  { apply le_sum_nonneg, getBitSlice_wf; [assumption|lia]. }
  split; [assumption|].
  apply bits_range; [assumption..|].
  intros i Hi. rewrite field_bits by (assumption || lia).
  destruct (Z.ltb_spec i size); [lia|reflexivity].
Qed.

(** Whatever the address, a slice is made of bytes: each is stored into a
    [Uint8Array]. *)
Lemma u8store_bytes l i v :
  Forall (fun b => 0 <= b < 256) l -> Forall (fun b => 0 <= b < 256) (u8store l i v).
Proof.
  intros Hl. unfold u8store. destruct (i <? 0); [assumption|].
  apply Forall_insert; [assumption|]. apply Z.mod_pos_bound. lia.
Qed.

Lemma getBitSlice_loop_bytes buf from to n : forall i out,
  Forall (fun b => 0 <= b < 256) out ->
  Forall (fun b => 0 <= b < 256) (getBitSlice_loop buf from to n i out).
Proof.
  induction n as [|n IH]; intros i out Hout; simpl; [assumption|].
  destruct (i <? to); [|assumption]. apply IH, u8store_bytes, Hout.
Qed.

Lemma getBitSlice_bytes buf from to :
  Forall (fun b => 0 <= b < 256) (getBitSlice_filled buf from to).
Proof.
  unfold getBitSlice_filled.
  assert (H : Forall (fun b => 0 <= b < 256)
                (getBitSlice_loop buf from to (Z.to_nat (ceildiv (to - from) 8)) from
                   (replicate (Z.to_nat (ceildiv (to - from) 8)) 0))).
  { apply getBitSlice_loop_bytes. apply Forall_replicate. lia. }
  destruct (negb _); [apply u8store_bytes|]; exact H.
Qed.

(** The bytes of a little-endian number whose last byte is below [m]. *)
Lemma le_sum_bound (bs : list Z) m :
  Forall (fun b => 0 <= b < 256) bs -> 0 < m <= 256 ->
  (forall b, last bs = Some b -> b < m) ->
  foldr (fun b output => output * 256 + b) 0 bs < 256 ^ (Z.of_nat (length bs) - 1) * m
  \/ bs = [].
Proof.
  intros Hbs Hm. induction Hbs as [|b bs Hb Hbs IH]; intros Hlast; [right; reflexivity|].
  left. simpl foldr. destruct bs as [|b' bs'].
  - simpl. specialize (Hlast b eq_refl). lia.
  - assert (Hl : forall x, last (b' :: bs') = Some x -> x < m).
    { intros x Hx. apply Hlast. rewrite last_cons, Hx. reflexivity. }
    destruct (IH Hl) as [IH'|IH']; [|discriminate].
    replace (Z.of_nat (length (b :: b' :: bs')) - 1)
      with (1 + (Z.of_nat (length (b' :: bs')) - 1)) by (simpl length; lia).
    rewrite Z.pow_add_r by (simpl length; lia).
    change (256 ^ 1) with 256.
    set (v := foldr (fun b output => output * 256 + b) 0 (b' :: bs')) in *.
    set (p := 256 ^ (Z.of_nat (length (b' :: bs')) - 1) * m) in *.
    replace (256 * 256 ^ (Z.of_nat (length (b' :: bs')) - 1) * m) with (256 * p)
      by (subst p; ring).
    lia.
Qed.

(** A field read is a number of [size] bits, at any address and for any
    blob. *)
Lemma field_bounds buf from size : 0 <= size -> 0 <= field buf from size < 2 ^ size.
Proof.
  intros Hsize. unfold field.
  pose proof (getBitSlice_bytes buf from (from + size)) as Hbytes.
  split; [apply le_sum_nonneg, Hbytes|].
  pose proof (getBitSlice_length buf from (from + size)) as Hlen.
  replace (from + size - from) with size in Hlen by lia.
  destruct (Z.eq_dec size 0) as [->|Hpos].
  { destruct (getBitSlice_filled buf from (from + 0)); [simpl; lia|discriminate Hlen]. }
  destruct (Z.eq_dec (size mod 8) 0) as [Hz|Hnz].
  - destruct (le_sum_bound (getBitSlice_filled buf from (from + size)) 256 Hbytes ltac:(lia))
      as [H|H].
    + intros b Hb. rewrite Forall_forall in Hbytes.
      apply Hbytes. apply last_Some_elem_of, Hb.
    + rewrite Hlen in H. rewrite Z2Nat.id in H by (unfold ceildiv; divmod).
      replace (256 ^ (ceildiv size 8 - 1) * 256) with (2 ^ size) in H; [exact H|].
      assert (Hc : ceildiv size 8 = size / 8) by (unfold ceildiv; divmod).
      rewrite Hc. change 256 with (2 ^ 8). rewrite <- Z.pow_mul_r by divmod.
      rewrite <- Z.pow_add_r by divmod. f_equal. divmod.
    + rewrite H. simpl. apply Z.pow_pos_nonneg; lia.
  - set (r := size mod 8) in *.
    assert (Hr : 0 < r < 8) by (subst r; divmod).
    destruct (le_sum_bound (getBitSlice_filled buf from (from + size)) (2 ^ r) Hbytes) as [H|H].
    + split; [apply Z.pow_pos_nonneg; lia|].
      change 256 with (2 ^ 8). apply Z.pow_le_mono_r; lia.
    + intros b Hb. unfold getBitSlice_filled in Hb.
      replace (from + size - from) with size in Hb by lia.
      rewrite rem8 in Hb by assumption. fold r in Hb.
      destruct (Z.eqb_spec r 0) as [|_]; [lia|]. simpl in Hb.
      set (out := getBitSlice_loop _ _ _ _ _ _) in Hb.
      assert (Hout : Forall (fun b => 0 <= b < 256) out).
      { apply getBitSlice_loop_bytes, Forall_replicate. lia. }
      assert (Hmask : 0 <= and (orZero (last out)) (shl 1 r - 1) < 2 ^ r).
      { assert (Hx : 0 <= orZero (last out) < 256).
        { unfold orZero. destruct (last out) as [x|] eqn:Hx; simpl; [|lia].
          rewrite Forall_forall in Hout. apply Hout.
          apply last_Some_elem_of, Hx. }
        rewrite shl_1_small by lia.
        assert (2 ^ r <= 2 ^ 7) by (apply Z.pow_le_mono_r; lia).
        assert (0 < 2 ^ r) by (apply Z.pow_pos_nonneg; lia).
        rewrite and_small by lia.
        change (2 ^ r - 1) with (Z.pred (2 ^ r)). rewrite <- Z.ones_equiv.
        rewrite Z.land_ones by lia. apply Z.mod_pos_bound. lia. }
      unfold u8store in Hb. destruct (_ <? 0) eqn:Hneg.
      * apply Z.ltb_lt in Hneg. destruct out; [discriminate Hb|simpl in Hneg; lia].
      * rewrite last_lookup in Hb. rewrite length_insert in Hb.
        destruct out as [|o out']; [discriminate Hb|].
        replace (Z.to_nat (Z.of_nat (length (o :: out')) - 1))
          with (Init.Nat.pred (length (o :: out'))) in Hb by (simpl; lia).
        rewrite list_lookup_insert_eq in Hb by (simpl; lia).
        injection Hb as <-. rewrite Z.mod_small; [apply Hmask|].
        assert (2 ^ r <= 2 ^ 8) by (apply Z.pow_le_mono_r; lia). lia.
    + rewrite Hlen in H. rewrite Z2Nat.id in H by (unfold ceildiv; divmod).
      replace (256 ^ (ceildiv size 8 - 1) * 2 ^ r) with (2 ^ size) in H; [exact H|].
      assert (Hc : ceildiv size 8 - 1 = size / 8) by (unfold ceildiv; subst r; divmod).
      rewrite Hc. change 256 with (2 ^ 8). rewrite <- Z.pow_mul_r by divmod.
      rewrite <- Z.pow_add_r by (subst r; divmod). f_equal. subst r. divmod.
    + apply (f_equal length) in H. rewrite Hlen in H. simpl in H.
      assert (0 < ceildiv size 8) by (unfold ceildiv; subst r; divmod). lia.
Qed.

(** *** What the readers return *)

Lemma nearest_small z : Z.abs z < 2 ^ 53 -> JSNumber.nearest z = z.
Proof.
  intros H. unfold JSNumber.nearest. destruct (Z.ltb_spec (Z.abs z) (2 ^ 53)); [reflexivity|lia].
Qed.

(** A sum that fits 53 bits is not rounded on the way. *)
Lemma le_sum_exact (bs : list Z) :
  Forall (fun b => 0 <= b < 256) bs ->
  foldr (fun b output => output * 256 + b) 0 bs < 2 ^ 53 ->
  foldr (fun b output => JSNumber.nearest (output * 256 + b)) 0 bs
    = foldr (fun b output => output * 256 + b) 0 bs.
Proof.
  induction 1 as [|b bs Hb Hbs IH]; intros Hlt; simpl in *; [reflexivity|].
  pose proof (le_sum_nonneg bs Hbs) as Hnn.
  rewrite IH by lia. apply nearest_small. lia.
Qed.

Lemma getBitSlice_Some buf from to :
  -8 < to - from -> getBitSlice buf from to = Some (getBitSlice_filled buf from to).
Proof.
  intros H. unfold getBitSlice.
  destruct (Z.ltb_spec (ceildiv (to - from) 8) 0) as [Hneg|]; [|reflexivity].
  unfold ceildiv in Hneg. divmod.
Qed.

Lemma getBitSlice_None buf from to : to - from <= -8 -> getBitSlice buf from to = None.
Proof.
  intros H. unfold getBitSlice.
  destruct (Z.ltb_spec (ceildiv (to - from) 8) 0) as [|Hpos]; [reflexivity|].
  unfold ceildiv in Hpos. divmod.
Qed.

(** Up to 53 bits [getInt] returns the number the bits spell. *)
Lemma getInt_field buf from size :
  0 <= size <= 53 -> getInt buf from size = Some (field buf from size).
Proof.
  intros Hsize. unfold getInt, field.
  rewrite getBitSlice_Some by lia. simpl. f_equal.
  apply le_sum_exact; [apply getBitSlice_bytes|].
  pose proof (field_bounds buf from size ltac:(lia)) as Hb. unfold field in Hb.
  assert (2 ^ size <= 2 ^ 53) by (apply Z.pow_le_mono_r; lia). lia.
Qed.

Lemma getInt_None buf from size : size <= -8 -> getInt buf from size = None.
Proof. intros H. unfold getInt. rewrite getBitSlice_None by lia. reflexivity. Qed.

Lemma nextInt_field buf size :
  0 <= size <= 53 ->
  nextInt buf size = Some (field buf (cursor buf) size, advance buf size).
Proof. intros H. unfold nextInt. rewrite getInt_field by assumption. reflexivity. Qed.

(** *** Writers *)

Lemma setBit_bytes buf a v :
  wf buf -> 0 <= a ->
  exists nb,
    bytes (setBit buf a v) = u8store (bytes buf) (a / 8) nb /\
    cursor (setBit buf a v) = cursor buf /\
    0 <= nb < 256 /\
    forall j, 0 <= j ->
      Z.testbit nb j =
        if j =? a mod 8 then v
        else Z.testbit (default 0 (bytes buf !! Z.to_nat (a / 8))) j.
Proof.
  intros Hwf Ha. unfold setBit, floordiv, orZero.
  rewrite rem8, index_nonneg by divmod.
  pose proof (byte_range buf (Z.to_nat (a / 8)) Hwf) as Hb.
  set (b := default 0 _) in *.
  assert (Ho : 0 <= a mod 8 < 8) by divmod. set (o := a mod 8) in *.
  rewrite shl_1_small by lia.
  assert (0 < 2 ^ o <= 2 ^ 7).
  { split; [apply Z.pow_pos_nonneg; lia|]. apply Z.pow_le_mono_r; lia. }
  destruct v; simpl.
  - rewrite or_small by lia.
    assert (Hbits : forall j, 0 <= j ->
      Z.testbit (Z.lor b (2 ^ o)) j = if j =? o then true else Z.testbit b j).
    { intros j Hj. rewrite Z.lor_spec, Z.pow2_bits_eqb by lia.
      rewrite (Z.eqb_sym o j). destruct (j =? o); [apply orb_true_r|apply orb_false_r]. }
    exists (Z.lor b (2 ^ o)). repeat split; try assumption.
    + apply Z.lor_nonneg. lia.
    + apply (bits_range _ 8); [lia|apply Z.lor_nonneg; lia|].
      intros i Hi. rewrite Hbits by lia.
      destruct (Z.eqb_spec i o); [lia|]. apply (testbit_above b 8); lia.
  - assert (Hnot : not (2 ^ o) = Z.lnot (2 ^ o)).
    { unfold not. rewrite ToInt32_small by lia. reflexivity. }
    rewrite Hnot. unfold and.
    rewrite (ToInt32_small b) by lia.
    rewrite (ToInt32_small (Z.lnot (2 ^ o))) by (unfold Z.lnot; lia).
    assert (Hbits : forall j, 0 <= j ->
      Z.testbit (Z.land b (Z.lnot (2 ^ o))) j = if j =? o then false else Z.testbit b j).
    { intros j Hj. rewrite Z.land_spec, Z.lnot_spec, Z.pow2_bits_eqb by lia.
      rewrite (Z.eqb_sym o j). destruct (j =? o); [apply andb_false_r|apply andb_true_r]. }
    assert (0 <= Z.land b (Z.lnot (2 ^ o))) by (apply Z.land_nonneg; lia).
    exists (Z.land b (Z.lnot (2 ^ o))). repeat split; try assumption.
    apply (bits_range _ 8); [lia|assumption|].
    intros i Hi. rewrite Hbits by lia.
    destruct (Z.eqb_spec i o); [reflexivity|]. apply (testbit_above b 8); lia.
Qed.

Lemma setBit_length buf a v :
  length (bytes (setBit buf a v)) = length (bytes buf).
Proof. unfold setBit. destruct v; simpl; apply u8store_length. Qed.

Lemma setBit_bitLength buf a v : bitLength (setBit buf a v) = bitLength buf.
Proof. unfold bitLength. rewrite setBit_length. reflexivity. Qed.

Lemma setBit_wf buf a v : wf buf -> 0 <= a -> wf (setBit buf a v).
Proof.
  intros Hwf Ha. destruct (setBit_bytes buf a v Hwf Ha) as (nb & Hb & _ & Hr & _).
  unfold wf. rewrite Hb. apply Forall_lookup. intros k x Hk.
  rewrite u8store_lookup in Hk by (assumption || divmod).
  destruct (decide _).
  - injection Hk as <-. assumption.
  - pose proof (byte_range buf k Hwf) as Hx. rewrite Hk in Hx. exact Hx.
Qed.

(** [setBit] changes the addressed bit, when it lies inside the blob, and
    nothing else. *)
Lemma setBit_bitAt buf a v k :
  wf buf -> 0 <= a -> 0 <= k ->
  bitAt (setBit buf a v) k =
    if decide (k = a /\ a < bitLength buf) then v else bitAt buf k.
Proof.
  intros Hwf Ha Hk. destruct (setBit_bytes buf a v Hwf Ha) as (nb & Hb & _ & Hr & Hbits).
  unfold bitAt, bitLength. rewrite Hb.
  rewrite u8store_lookup by (assumption || divmod).
  assert (0 <= k mod 8 < 8) by divmod.
  destruct (decide (Z.to_nat (a / 8) = Z.to_nat (k / 8) /\ _)) as [[He Hl]|Hn]; simpl.
  - rewrite Hbits by lia. rewrite He.
    destruct (Z.eqb_spec (k mod 8) (a mod 8)).
    + destruct (decide _) as [_|Hn]; [reflexivity|]. exfalso. apply Hn. divmod.
    + destruct (decide _) as [[-> _]|_]; [congruence|reflexivity].
  - destruct (decide _) as [[-> Hlt]|_]; [|reflexivity].
    exfalso. apply Hn. split; [reflexivity|]. divmod.
Qed.

Lemma setInt_loop_spec from value n : forall i buf,
  wf buf -> 0 <= from -> 0 <= i -> i + Z.of_nat n <= 32 ->
  let buf' := setInt_loop from value n i buf in
  wf buf' /\ bitLength buf' = bitLength buf /\ cursor buf' = cursor buf /\
  forall k, 0 <= k ->
    bitAt buf' k =
      if decide (from + i <= k < from + i + Z.of_nat n /\ k < bitLength buf)
      then Z.testbit value (k - from) else bitAt buf k.
Proof.
  induction n as [|n IH]; intros i buf Hwf Hfrom Hi Hn; simpl.
  - repeat split; try assumption; try reflexivity.
    intros k Hk. destruct (decide _); [lia|reflexivity].
  - set (b1 := setBit buf (from + i) (truthy (and value (shl 1 i)))).
    assert (Hwf1 : wf b1) by (apply setBit_wf; [assumption|lia]).
    destruct (IH (i + 1) b1 Hwf1 Hfrom ltac:(lia) ltac:(lia)) as (Hw & Hl & Hc & Hb).
    subst b1. rewrite setBit_bitLength in Hl, Hb.
    repeat split; try assumption.
    + rewrite Hc. unfold setBit. destruct (truthy _); reflexivity.
    + intros k Hk. rewrite Hb by assumption.
      rewrite setBit_bitAt by (assumption || lia).
      rewrite truthy_and_bit by lia.
      destruct (decide (from + (i + 1) <= k < _ /\ _));
        destruct (decide (from + i <= k < _ /\ _)); try lia; try reflexivity.
      * destruct (decide (k = from + i /\ _)) as [[-> _]|Hne].
        -- f_equal. lia.
        -- exfalso. clear IH Hb Hw Hl Hc. lia.
      * destruct (decide (k = from + i /\ _)) as [[-> Hlt]|Hne]; [|reflexivity].
        exfalso. clear IH Hb Hw Hl Hc. lia.
Qed.

Lemma setInt_spec buf from size value :
  wf buf -> 0 <= from -> 0 <= size <= 32 ->
  let buf' := setInt buf from size value in
  wf buf' /\ bitLength buf' = bitLength buf /\ cursor buf' = cursor buf /\
  forall k, 0 <= k ->
    bitAt buf' k =
      if decide (from <= k < from + size /\ k < bitLength buf)
      then Z.testbit value (k - from) else bitAt buf k.
Proof.
  intros Hwf Hfrom Hsize. unfold setInt.
  destruct (setInt_loop_spec from value (Z.to_nat size) 0 buf Hwf Hfrom ltac:(lia) ltac:(lia))
    as (Hw & Hl & Hc & Hb).
  repeat split; try assumption.
  intros k Hk. rewrite Hb by assumption.
  rewrite Z2Nat.id, Z.add_0_r by lia. reflexivity.
Qed.

(** Writing [size] bits inside the blob and reading them back gives the
    value written, reduced to [size] bits. *)
Lemma getInt_setInt buf from size value :
  wf buf -> 0 <= from -> 0 <= size <= 32 -> from + size <= bitLength buf ->
  0 <= value < 2 ^ size ->
  field (setInt buf from size value) from size = value.
Proof.
  intros Hwf Hfrom Hsize Hfit Hv.
  destruct (setInt_spec buf from size value Hwf Hfrom Hsize) as (Hw & Hl & Hc & Hb).
  apply Z.bits_inj'. intros i Hi.
  rewrite field_bits by (assumption || lia).
  destruct (Z.ltb_spec i size); simpl.
  - rewrite Hb by lia. destruct (decide _); [f_equal; lia|lia].
  - symmetry. apply (testbit_above value size); lia.
Qed.

(** Up to 52 bits the subtraction of [getSignedInt] is exact. *)
Lemma getSignedInt_field buf from size :
  0 <= size <= 52 ->
  getSignedInt buf from size
    = Some (let value := field buf from size in
            if truthy (and value (shl 1 (size - 1))) then value - shl 1 size else value).
Proof.
  intros Hsize. unfold getSignedInt. rewrite getInt_field by lia. simpl.
  destruct (truthy _); [|reflexivity]. f_equal. apply nearest_small.
  pose proof (field_bounds buf from size ltac:(lia)) as Hb.
  assert (2 ^ size <= 2 ^ 52) by (apply Z.pow_le_mono_r; lia).
  pose proof (ToInt32_range (Z.shiftl (ToInt32 1) (shcount size))) as Hr.
  unfold shl. change (2 ^ 52) with 4503599627370496 in *.
  change (2 ^ 53) with 9007199254740992. change (2 ^ 31) with 2147483648 in Hr. lia.
Qed.

Lemma getSignedInt_setSignedInt buf from size value :
  wf buf -> 0 <= from -> 1 <= size <= 32 -> from + size <= bitLength buf ->
  - 2 ^ (size - 1) <= value < 2 ^ (size - 1) ->
  size <= 30 \/ 0 <= value ->
  getSignedInt (setSignedInt buf from size value) from size = Some value.
Proof.
  intros Hwf Hfrom Hsize Hfit Hv Hcase.
  assert (Hpow : 2 ^ size = 2 * 2 ^ (size - 1)).
  { replace size with (Z.succ (size - 1)) at 1 by lia. apply Z.pow_succ_r. lia. }
  assert (0 < 2 ^ (size - 1)) by (apply Z.pow_pos_nonneg; lia).
  rewrite getSignedInt_field by lia. cbv zeta. f_equal. unfold setSignedInt.
  rewrite truthy_and_bit by lia.
  destruct (Z.ltb_spec value 0).
  - destruct Hcase as [Hs|]; [|lia].
    rewrite shl_1_small by lia.
    rewrite getInt_setInt by (assumption || lia).
    replace (Z.testbit (2 ^ size + value) (size - 1)) with true; [lia|].
    symmetry. apply Z.testbit_true; [lia|].
    replace ((2 ^ size + value) / 2 ^ (size - 1)) with 1; [reflexivity|].
    apply Z.div_unique with (r := 2 ^ (size - 1) + value); lia.
  - rewrite getInt_setInt by (assumption || lia).
    rewrite (testbit_above value (size - 1)) by lia. reflexivity.
Qed.

(** *** Reading at and beyond the end of the blob *)

Lemma bitAt_beyond buf k : bitLength buf <= k -> bitAt buf k = false.
Proof.
  intros Hk. unfold bitAt, bitLength in *.
  rewrite lookup_ge_None_2 by divmod. apply Z.bits_0.
Qed.

Lemma getByte_beyond buf a : wf buf -> 0 <= a -> bitLength buf <= a -> getByte buf a = 0.
Proof.
  intros Hwf Ha Hk. apply Z.bits_inj'. intros j Hj.
  rewrite getByte_bits, Z.bits_0 by assumption.
  destruct (j <? 8); [|reflexivity]. apply bitAt_beyond. lia.
Qed.

Lemma getSignedInt_zero buf a size :
  getInt buf a size = Some 0 -> getSignedInt buf a size = Some 0.
Proof. intros H. unfold getSignedInt. rewrite H. reflexivity. Qed.

Lemma getBitSlice_bits buf from to (k : nat) j :
  wf buf -> 0 <= from <= to -> 0 <= j ->
  Z.testbit (default 0 (getBitSlice_filled buf from to !! k)) j =
    (j <? 8) && (8 * Z.of_nat k + j <? to - from)
    && bitAt buf (from + 8 * Z.of_nat k + j).
Proof.
  intros Hwf Hft Hj. rewrite getBitSlice_lookup by assumption.
  destruct (decide (Z.of_nat k < _)) as [Hin|Hout]; simpl.
  - destruct (decide _) as [[Hlast Ho]|Hn].
    + destruct (Z.ltb_spec j ((to - from) mod 8)).
      * rewrite Z.mod_pow2_bits_low by lia.
        rewrite getByte_bits by (assumption || lia).
        destruct (Z.ltb_spec j 8); [|divmod].
        destruct (Z.ltb_spec (8 * Z.of_nat k + j) (to - from)); [reflexivity|].
        unfold ceildiv in *. divmod.
      * rewrite Z.mod_pow2_bits_high by divmod.
        destruct (Z.ltb_spec (8 * Z.of_nat k + j) (to - from));
          [|rewrite andb_false_r; reflexivity].
        unfold ceildiv in *. divmod.
    + rewrite getByte_bits by (assumption || lia).
      destruct (Z.ltb_spec j 8); [|reflexivity].
      destruct (Z.ltb_spec (8 * Z.of_nat k + j) (to - from)); [reflexivity|].
      unfold ceildiv in *. divmod.
  - rewrite Z.bits_0.
    destruct (Z.ltb_spec j 8); [|reflexivity].
    destruct (Z.ltb_spec (8 * Z.of_nat k + j) (to - from)); [|reflexivity].
    unfold ceildiv in *. divmod.
Qed.

Lemma getBitSlice_beyond buf a size :
  wf buf -> 0 <= a -> 0 <= size -> bitLength buf <= a ->
  getBitSlice_filled buf a (a + size) = replicate (Z.to_nat (ceildiv size 8)) 0.
Proof.
  intros Hwf Ha Hs Hk. apply list_eq. intros k.
  pose proof (getBitSlice_length buf a (a + size)) as Hlen.
  replace (a + size - a) with size in Hlen by lia.
  destruct (decide (k < Z.to_nat (ceildiv size 8))%nat) as [Hin|Hout].
  - rewrite lookup_replicate_2 by assumption.
    destruct (getBitSlice_filled buf a (a + size) !! k) as [b|] eqn:Hb.
    + f_equal. apply Z.bits_inj'. intros j Hj.
      pose proof (getBitSlice_bits buf a (a + size) k j Hwf ltac:(lia) Hj) as Hbits.
      rewrite Hb in Hbits. simpl in Hbits. rewrite Hbits, Z.bits_0.
      rewrite bitAt_beyond by lia. apply andb_false_r.
    + apply lookup_ge_None in Hb. lia.
  - rewrite !lookup_ge_None_2; [reflexivity|rewrite length_replicate; lia|lia].
Qed.

(** Zero bytes add up to zero, at any width. *)
Lemma le_sum_zeros n :
  foldr (fun b output => JSNumber.nearest (output * 256 + b)) 0 (replicate n 0) = 0.
Proof. induction n as [|n IH]; simpl; [reflexivity|]. rewrite IH. reflexivity. Qed.

Lemma getInt_beyond buf a size :
  wf buf -> 0 <= a -> 0 <= size -> bitLength buf <= a -> getInt buf a size = Some 0.
Proof.
  intros Hwf Ha Hs Hk. unfold getInt. rewrite getBitSlice_Some by lia. simpl.
  rewrite getBitSlice_beyond by assumption. rewrite le_sum_zeros. reflexivity.
Qed.

(** *** The claims about the buffer *)

(** The absolute-address readers return for every non-negative address
    and width: a typed-array read outside the blob is [undefined] and is
    replaced by [0], so every bit [getBit], [getByte] and [getBitSlice]
    deliver, and every bit of a [getInt] of up to 53 bits, is the stored
    bit inside the blob and zero at or beyond [bytes.length * 8]; a read
    wholly beyond the end returns zero at any width, and the cursor-based
    variants return the same values and advance the cursor by the width
    read. *)
Lemma reads_beyond_end_are_zero (buf : t) (a size : Z) :
  wf buf -> 0 <= a -> 0 <= size ->
  exists slice value signed,
    getBitSlice buf a (a + size) = Some slice /\
    getInt buf a size = Some value /\
    getSignedInt buf a size = Some signed /\
    (forall k, bitLength buf <= k -> bitAt buf k = false) /\
    getBit buf a = Z.b2z (bitAt buf a) /\
    (forall j, 0 <= j ->
       Z.testbit (getByte buf a) j = (j <? 8) && bitAt buf (a + j)) /\
    (size <= 53 -> forall j, 0 <= j ->
       Z.testbit value j = (j <? size) && bitAt buf (a + j)) /\
    (length slice = Z.to_nat (ceildiv size 8) /\
     forall (k : nat) j, 0 <= j ->
       Z.testbit (default 0 (slice !! k)) j =
         (j <? 8) && (8 * Z.of_nat k + j <? size)
         && bitAt buf (a + 8 * Z.of_nat k + j)) /\
    (bitLength buf <= a ->
       getBit buf a = 0 /\ getByte buf a = 0 /\ value = 0 /\ signed = 0 /\
       slice = replicate (Z.to_nat (ceildiv size 8)) 0) /\
    (cursor buf = a ->
       nextBit buf = (getBit buf a, seek buf (a + 1)) /\
       nextByte buf = (getByte buf a, seek buf (a + 8)) /\
       nextInt buf size = Some (value, seek buf (a + size)) /\
       nextSignedInt buf size = Some (signed, seek buf (a + size)) /\
       nextBytes buf size = Some (slice, seek buf (a + size))).
Proof.
  intros Hwf Ha Hs.
  pose proof (getBitSlice_Some buf a (a + size) ltac:(lia)) as Hslice.
  assert (Hint : exists value, getInt buf a size = Some value)
    by (unfold getInt; rewrite Hslice; simpl; eauto).
  destruct Hint as [value Hvalue].
  assert (Hsigned : exists signed, getSignedInt buf a size = Some signed)
    by (unfold getSignedInt; rewrite Hvalue; simpl; destruct (truthy _); eauto).
  destruct Hsigned as [signed Hsigned].
  exists (getBitSlice_filled buf a (a + size)), value, signed.
  split; [exact Hslice|]. split; [exact Hvalue|]. split; [exact Hsigned|].
  repeat apply conj.
  - apply bitAt_beyond.
  - apply getBit_spec; assumption.
  - intros j Hj. rewrite getByte_bits by assumption. destruct (j <? 8); reflexivity.
  - intros Hw j Hj. rewrite getInt_field in Hvalue by lia. injection Hvalue as <-.
    apply field_bits; assumption.
  - rewrite getBitSlice_length. do 2 f_equal. lia.
  - intros k j Hj. rewrite getBitSlice_bits by (assumption || lia).
    do 3 f_equal. lia.
  - intros Hk.
    pose proof (getInt_beyond buf a size Hwf Ha Hs Hk) as Hz.
    pose proof (getSignedInt_zero buf a size Hz) as Hsz.
    repeat apply conj.
    + rewrite getBit_spec, bitAt_beyond by assumption. reflexivity.
    + apply getByte_beyond; assumption.
    + congruence.
    + congruence.
    + apply getBitSlice_beyond; assumption.
  - intros <-. unfold nextInt, nextSignedInt, nextBytes.
    rewrite Hslice, Hvalue, Hsigned. repeat apply conj; reflexivity.
Qed.

Example reads_beyond_end_are_zero_example :
  let buf := mk [255; 129] 16 in
  getInt buf 12 9 = Some 8 /\ getInt buf 16 32 = Some 0 /\
  getSignedInt buf 40 7 = Some 0 /\ nextByte buf = (0, seek buf 24).
Proof. vm_compute. repeat split. Qed.

(** Eight bytes [0xFF] read as one field are [2 ^ 64], and as two halves
    [2 ^ 64 - 1]: beyond 53 bits the sum is rounded. *)
Example getInt_rounds_beyond_53_bits :
  let buf := mk [255; 255; 255; 255; 255; 255; 255; 255] 0 in
  getInt buf 0 64 = Some (2 ^ 64) /\
  getInt buf 0 32 = Some (2 ^ 32 - 1) /\ getInt buf 32 32 = Some (2 ^ 32 - 1) /\
  getInt buf 0 53 = Some (2 ^ 53 - 1) /\ getInt buf 0 54 = Some (2 ^ 54).
Proof. vm_compute. repeat split. Qed.

(** An inverted range of a whole byte or more is a [RangeError]. *)
Example getBitSlice_inverted_range :
  getBitSlice (mk [255; 129] 0) 16 8 = None /\ getInt (mk [255; 129] 0) 0 (-8) = None.
Proof. split; reflexivity. Qed.


(** Claim C2, as amended.  For a width [size] in 1..32 and a field that
    lies inside the blob ([from + size <= bytes.length * 8]): [setInt]
    followed by [getInt] returns every [v] in [0, 2^size), and
    [setSignedInt] followed by [getSignedInt] returns every [w] in
    [-2^(size-1), 2^(size-1)) when [size <= 30] or [w] is not negative. *)
Theorem setInt_getInt_roundtrip (buf : t) (from size v w : Z) :
  wf buf -> 0 <= from -> 1 <= size <= 32 ->
  from + size <= bitLength buf ->
  0 <= v < 2 ^ size ->
  - 2 ^ (size - 1) <= w < 2 ^ (size - 1) ->
  size <= 30 \/ 0 <= w ->
  getInt (setInt buf from size v) from size = Some v /\
  getSignedInt (setSignedInt buf from size w) from size = Some w.
Proof.
  intros Hwf Hfrom Hsize Hfit Hv Hw Hcase. split.
  - rewrite getInt_field by lia. f_equal. apply getInt_setInt; (assumption || lia).
  - apply getSignedInt_setSignedInt; assumption.
Qed.

Lemma setInt_getInt_roundtrip_witness :
  let buf := mk [0; 255; 0; 255] 0 in
  getInt (setInt buf 3 13 5000) 3 13 = Some 5000 /\
  getSignedInt (setSignedInt buf 3 13 (-5)) 3 13 = Some (-5).
Proof.
  intros buf.
  apply (setInt_getInt_roundtrip buf 3 13 5000 (-5)).
  - repeat constructor; lia.
  - lia.
  - lia.
  - vm_compute. discriminate.
  - lia.
  - lia.
  - left. lia.
Defined.

(** Claim C2 as stated, for every bit address, fails: a write outside the
    blob is dropped (the writers never grow the buffer), so the value
    does not come back. *)
Lemma setInt_getInt_outside_blob :
  ~ (forall (buf : t) (a w v : Z),
       wf buf -> 0 <= a -> 1 <= w <= 32 -> 0 <= v < 2 ^ w ->
       getInt (setInt buf a w v) a w = Some v).
Proof.
  intros H.
  specialize (H (mk [0] 0) 8 8 1 ltac:(repeat constructor; lia)
                ltac:(lia) ltac:(lia) ltac:(lia)).
  vm_compute in H. discriminate H.
Qed.

(** At the two widest fields the signed pair misses negative values:
    [1 << 32] is [1] and [1 << 31] is negative in JavaScript. *)
Example signed_width_32 :
  let buf := mk [0; 0; 0; 0] 0 in
  getSignedInt (setSignedInt buf 0 32 (-5)) 0 32 = Some 4294967291 /\
  getSignedInt (mk [251; 255; 255; 255] 0) 0 32 = Some 4294967290 /\
  getSignedInt (mk [251; 255; 255; 127] 0) 0 31 = Some 4294967291.
Proof. vm_compute. repeat split. Qed.

End DemoBufferFacts.

(** ** The schema resolver *)

Module ParserClassFacts.
Import ParserClass.

(** *** The bucket list: ascending and without repetition *)

Lemma insertSorted_perm x l : insertSorted x l ≡ₚ x :: l.
Proof.
  induction l as [|y l IH]; simpl; [reflexivity|].
  destruct (x <=? y); [reflexivity|]. rewrite IH. apply Permutation_swap.
Qed.

Lemma sortNumeric_perm l : sortNumeric l ≡ₚ l.
Proof.
  induction l as [|x l IH]; simpl; [reflexivity|].
  rewrite insertSorted_perm, IH. reflexivity.
Qed.

Lemma insertSorted_sorted x l :
  StronglySorted Z.le l -> StronglySorted Z.le (insertSorted x l).
Proof.
  induction 1 as [|y l Hl IH Hy]; simpl.
  - repeat constructor.
  - destruct (Z.leb_spec x y).
    + constructor; [constructor; assumption|].
      constructor; [assumption|].
      eapply Forall_impl; [exact Hy|]. intros z Hz. simpl in Hz. lia.
    + constructor; [assumption|].
      rewrite insertSorted_perm. constructor; [lia|assumption].
Qed.

Lemma sortNumeric_sorted l : StronglySorted Z.le (sortNumeric l).
Proof.
  induction l as [|x l IH]; simpl; [constructor|].
  apply insertSorted_sorted, IH.
Qed.

Lemma setOfArray_from_spec l : forall seen,
  StronglySorted Z.lt seen ->
  StronglySorted Z.le l ->
  (forall a b, a ∈ seen -> b ∈ l -> a <= b) ->
  let r := foldl (fun seen x => if bool_decide (x ∈ seen) then seen else seen ++ [x])
                 seen l in
  StronglySorted Z.lt r /\ forall x, x ∈ r <-> x ∈ seen \/ x ∈ l.
Proof.
  induction l as [|y l IH]; intros seen Hseen Hl Hle; simpl.
  - split; [assumption|]. intros x. rewrite elem_of_nil. tauto.
  - apply StronglySorted_cons in Hl as [Hy Hl].
    destruct (bool_decide_reflect (y ∈ seen)) as [Hin|Hnin].
    + destruct (IH seen Hseen Hl) as [Hs Hm].
      { intros a b Ha Hb. apply Hle; [assumption|]. apply elem_of_cons. tauto. }
      split; [assumption|]. intros x. rewrite Hm, elem_of_cons.
      split; [tauto|]. intros [?|[-> | ?]]; tauto.
    + destruct (IH (seen ++ [y])) as [Hs Hm].
      * apply StronglySorted_app. repeat split; try assumption.
        -- intros a b Ha Hb. apply list_elem_of_singleton in Hb as ->.
           assert (a <= y) by (apply Hle; [assumption|apply elem_of_cons; tauto]).
           assert (a <> y) by (intros ->; contradiction). lia.
        -- repeat constructor.
      * assumption.
      * intros a b Ha Hb. apply elem_of_app in Ha as [Ha|Ha].
        -- apply Hle; [assumption|]. apply elem_of_cons. tauto.
        -- apply list_elem_of_singleton in Ha as ->.
           rewrite Forall_forall in Hy. apply Hy. assumption.
      * split; [assumption|]. intros x.
        rewrite Hm, elem_of_app, list_elem_of_singleton, elem_of_cons. tauto.
Qed.

Lemma setOfArray_spec l :
  StronglySorted Z.le l ->
  StronglySorted Z.lt (setOfArray l) /\ forall x, x ∈ setOfArray l <-> x ∈ l.
Proof.
  intros Hl. destruct (setOfArray_from_spec l [] ltac:(constructor) Hl) as [Hs Hm].
  { intros a b Ha. apply elem_of_nil in Ha as []. }
  split; [exact Hs|]. intros x. unfold setOfArray. rewrite Hm, elem_of_nil. tauto.
Qed.

Lemma prioritySet_sorted l : StronglySorted Z.lt (prioritySet l).
Proof. apply setOfArray_spec, sortNumeric_sorted. Qed.

Lemma prioritySet_elem l x :
  x ∈ prioritySet l <->
  x = 64 \/ exists fp, fp ∈ l /\ x = DataTableProperty.priority (FlatProperty.baseProperty fp).
Proof.
  unfold prioritySet.
  rewrite (proj2 (setOfArray_spec _ (sortNumeric_sorted _))).
  rewrite sortNumeric_perm, elem_of_app, list_elem_of_singleton.
  rewrite list_elem_of_fmap. split.
  - intros [(fp & -> & Hfp) | ->]; [right; eauto|left; reflexivity].
  - intros [->|(fp & Hfp & ->)]; [right; reflexivity|left; eauto].
Qed.

Lemma bucket_in_prioritySet l fp : fp ∈ l -> bucket fp ∈ prioritySet l.
Proof.
  intros Hfp. apply prioritySet_elem. unfold bucket.
  destruct (_ && _); [left; reflexivity|right; eauto].
Qed.

(** Among the properties not yet placed, whose buckets are not below the
    one being filled, the test of the loop selects exactly that bucket. *)
Lemma inBucket_bucket p fp :
  p <= bucket fp -> (inBucket p fp = true <-> bucket fp = p).
Proof.
  unfold inBucket, bucket.
  destruct (DataTableProperty.hasFlag _ _); simpl.
  - destruct (Z.ltb_spec 64 (DataTableProperty.priority (FlatProperty.baseProperty fp)));
      intros Hp; rewrite orb_true_iff, !Z.eqb_eq; lia.
  - intros _. rewrite orb_false_r, Z.eqb_eq. tauto.
Qed.

(** *** One pass of the inner loop *)

(** The exchange [flatProperties[i] = other; flatProperties[start] =
    flatProperty] on an array cut at [start] and [i]. *)
Lemma exchange {A} (done ms todo : list A) (m x : A) :
  <[length done := x]>
    (<[length (done ++ m :: ms) := m]> (done ++ (m :: ms) ++ x :: todo)) =
  (done ++ [x]) ++ (ms ++ [m]) ++ todo.
Proof.
  rewrite insert_app_r_alt by (rewrite length_app; lia).
  replace (length (done ++ m :: ms) - length done)%nat with (S (length ms))
    by (rewrite length_app; simpl; lia).
  simpl. replace (length ms) with (length ms + 0)%nat by lia.
  rewrite insert_app_r. simpl.
  replace (length done) with (length done + 0)%nat at 1 by lia.
  rewrite insert_app_r. simpl.
  rewrite <- !app_assoc. reflexivity.
Qed.

(** With the array cut into the part already placed, the properties
    passed over in this pass and the part still to scan, a pass appends
    the members of the bucket to the placed part in scan order and leaves
    the others behind, rotated by the exchanges. *)
Lemma sortProperties_scan_spec p n : forall done mid todo,
  (length todo <= n)%nat ->
  Forall (fun x => inBucket p x = false) mid ->
  exists rest,
    sortProperties_scan p n (length (done ++ mid)) (done ++ mid ++ todo, length done) =
      (done ++ filter (fun x => inBucket p x = true) todo ++ rest,
       length (done ++ filter (fun x => inBucket p x = true) todo)) /\
    rest ≡ₚ mid ++ filter (fun x => inBucket p x = false) todo /\
    (filter (fun x => inBucket p x = true) todo = [] -> rest = mid ++ todo).
Proof.
  induction n as [|n IH]; intros done mid todo Hn Hmid.
  - destruct todo; [|simpl in Hn; lia]. simpl.
    exists mid. rewrite !filter_nil. repeat rewrite app_nil_r. repeat split; reflexivity.
  - simpl. destruct todo as [|x todo].
    + rewrite !filter_nil. repeat rewrite app_nil_r.
      destruct (Nat.ltb_spec (length (done ++ mid)) (length (done ++ mid))); [lia|].
      exists mid. repeat rewrite app_nil_r. repeat split; reflexivity.
    + assert (Hlt : (length (done ++ mid) < length (done ++ mid ++ x :: todo))%nat).
      { rewrite !length_app. simpl. lia. }
      destruct (Nat.ltb_spec (length (done ++ mid)) (length (done ++ mid ++ x :: todo)));
        [|lia].
      assert (Hx : (done ++ mid ++ x :: todo) !! length (done ++ mid) = Some x).
      { rewrite app_assoc. apply list_lookup_middle. reflexivity. }
      rewrite Hx. simpl in Hn.
      destruct (inBucket p x) eqn:Hb; simpl.
      * (* a member of the bucket *)
        rewrite filter_cons_True by assumption.
        rewrite (filter_cons_False (fun x => inBucket p x = false)) by congruence.
        destruct mid as [|m ms].
        -- rewrite app_nil_r. rewrite Nat.eqb_refl. simpl.
           destruct (IH (done ++ [x]) [] todo ltac:(lia) ltac:(constructor))
             as (rest & Heq & Hperm & Hnil).
           rewrite app_nil_r in Heq.
           replace (length (done ++ [x])) with (S (length done)) in Heq
             by (rewrite length_app; simpl; lia).
           simpl in Heq. rewrite <- !app_assoc in Heq. simpl in Heq.
           exists rest. split; [|split].
           ++ rewrite Heq. reflexivity.
           ++ exact Hperm.
           ++ intros Hf. discriminate Hf.
        -- destruct (Nat.eqb_spec (length done) (length (done ++ m :: ms))) as [He|_].
           { rewrite length_app in He. simpl in He. lia. }
           simpl.
           assert (Hm : (done ++ m :: ms ++ x :: todo) !! length done = Some m).
           { apply list_lookup_middle. reflexivity. }
           pose proof (exchange done ms todo m x) as Hex. simpl in Hex.
           rewrite Hm, Hex.
           apply Forall_cons in Hmid as [Hm0 Hms].
           destruct (IH (done ++ [x]) (ms ++ [m]) todo ltac:(lia)) as (rest & Heq & Hperm & Hnil).
           { apply Forall_app. split; [assumption|]. repeat constructor. assumption. }
           replace (S (length (done ++ m :: ms))) with (length ((done ++ [x]) ++ ms ++ [m]))
             by (rewrite !length_app; simpl; lia).
           replace (S (length done)) with (length (done ++ [x]))
             by (rewrite length_app; simpl; lia).
           rewrite Heq. exists rest. split; [|split].
           ++ rewrite <- !app_assoc. reflexivity.
           ++ rewrite Hperm. rewrite <- app_assoc. simpl.
              rewrite <- Permutation_middle. reflexivity.
           ++ intros Hf. discriminate Hf.
      * (* passed over *)
        rewrite filter_cons_False by congruence.
        rewrite (filter_cons_True (fun x => inBucket p x = false)) by assumption.
        destruct (IH done (mid ++ [x]) todo ltac:(lia)) as (rest & Heq & Hperm & Hnil).
        { apply Forall_app. split; [assumption|]. repeat constructor. assumption. }
        replace (S (length (done ++ mid))) with (length (done ++ mid ++ [x]))
          by (rewrite !length_app; simpl; lia).
        replace (done ++ mid ++ x :: todo) with (done ++ (mid ++ [x]) ++ todo)
          by (rewrite <- !app_assoc; reflexivity).
        rewrite Heq. exists rest. split; [reflexivity|split].
        -- rewrite Hperm, <- app_assoc. reflexivity.
        -- intros Hf. rewrite (Hnil Hf), <- app_assoc. reflexivity.
Qed.

Lemma sortProperties_pass p n fps start :
  (start <= length fps)%nat -> (length fps <= n)%nat ->
  exists rest,
    sortProperties_scan p n start (fps, start) =
      (take start fps ++ filter (fun x => inBucket p x = true) (drop start fps) ++ rest,
       (start + length (filter (fun x => inBucket p x = true) (drop start fps)))%nat) /\
    rest ≡ₚ filter (fun x => inBucket p x = false) (drop start fps) /\
    (filter (fun x => inBucket p x = true) (drop start fps) = [] ->
     rest = drop start fps).
Proof.
  intros Hstart Hn.
  destruct (sortProperties_scan_spec p n (take start fps) [] (drop start fps))
    as (rest & Heq & Hperm & Hnil).
  { rewrite length_drop. lia. }
  { constructor. }
  rewrite app_nil_r in Heq. simpl in Heq, Hperm, Hnil.
  rewrite take_drop, length_app, length_take in Heq.
  replace (length fps `min` start)%nat with start in Heq by lia.
  replace (start `min` length fps)%nat with start in Heq by lia.
  exists rest. auto.
Qed.

(** *** All passes *)

Lemma filter_bool_complement {A} (f : A -> bool) (l : list A) :
  filter (fun x => f x = true) l ++ filter (fun x => f x = false) l ≡ₚ l.
Proof.
  induction l as [|x l IH]; [reflexivity|].
  destruct (f x) eqn:Hf.
  - rewrite filter_cons_True, (filter_cons_False (fun x => f x = false)) by congruence.
    simpl. rewrite IH. reflexivity.
  - rewrite filter_cons_False, (filter_cons_True (fun x => f x = false)) by congruence.
    rewrite <- Permutation_middle, IH. reflexivity.
Qed.

Lemma filter_iff_in {A} (P1 P2 : A -> Prop)
    `{!forall x, Decision (P1 x), !forall x, Decision (P2 x)} (l : list A) :
  (forall x, x ∈ l -> P1 x <-> P2 x) -> filter P1 l = filter P2 l.
Proof.
  induction l as [|a l IH]; intros Hiff; [reflexivity|].
  assert (Ha : P1 a <-> P2 a) by (apply Hiff; left).
  assert (Hl : filter P1 l = filter P2 l).
  { apply IH. intros x Hx. apply Hiff. right. assumption. }
  destruct (decide (P1 a)).
  - rewrite !filter_cons_True by tauto. rewrite Hl. reflexivity.
  - rewrite !filter_cons_False by tauto. exact Hl.
Qed.

Lemma filter_none {A} (P : A -> Prop) `{!forall x, Decision (P x)} (l : list A) :
  (forall x, x ∈ l -> ~ P x) -> filter P l = [].
Proof.
  induction l as [|a l IH]; intros Hn; [reflexivity|].
  rewrite filter_cons_False by (apply Hn; left).
  apply IH. intros x Hx. apply Hn. right. assumption.
Qed.

Lemma pass_placed p ps n fps start :
  Forall (Z.lt p) ps -> placed (p :: ps) fps start -> (length fps <= n)%nat ->
  let matched := filter (fun x => bucket x = p) (drop start fps) in
  exists rest,
    sortProperties_scan p n start (fps, start) =
      (take start fps ++ matched ++ rest, (start + length matched)%nat) /\
    (matched = [] -> rest = drop start fps) /\
    take start fps ++ matched ++ rest ≡ₚ fps /\
    placed ps (take start fps ++ matched ++ rest) (start + length matched).
Proof.
  intros Hp (Hstart & Hsorted & Hlow & Hrest) Hn matched.
  destruct (sortProperties_pass p n fps start Hstart Hn) as (rest & Heq & Hperm & Hnil).
  assert (Hge : forall x, x ∈ drop start fps -> p <= bucket x).
  { intros x Hx. specialize (Hrest x Hx). apply elem_of_cons in Hrest as [->|Hq]; [lia|].
    rewrite Forall_forall in Hp. specialize (Hp _ Hq). lia. }
  assert (Hm : filter (fun x => inBucket p x = true) (drop start fps) = matched).
  { apply filter_iff_in. intros x Hx. apply inBucket_bucket, Hge, Hx. }
  rewrite Hm in Heq, Hnil.
  assert (Hmatched : forall x, x ∈ matched -> bucket x = p).
  { intros x Hx. apply list_elem_of_filter in Hx as [Hb _]. exact Hb. }
  set (fps' := take start fps ++ matched ++ rest) in *.
  assert (Hfps' : fps' ≡ₚ fps).
  { unfold fps'. rewrite Hperm, <- Hm.
    rewrite filter_bool_complement, take_drop. reflexivity. }
  assert (Hlen : (start + length matched)%nat = length (take start fps ++ matched)).
  { rewrite length_app, length_take. lia. }
  assert (Htake : take (start + length matched) fps' = take start fps ++ matched).
  { unfold fps'. rewrite app_assoc, Hlen. apply take_app_length. }
  assert (Hdrop : drop (start + length matched) fps' = rest).
  { unfold fps'. rewrite app_assoc, Hlen. apply drop_app_length. }
  exists rest. split; [exact Heq|]. split; [exact Hnil|]. split; [exact Hfps'|].
  unfold placed. fold fps'. rewrite Htake, Hdrop. repeat split.
  - unfold fps'. rewrite !length_app, length_take. lia.
  - rewrite map_app. apply StronglySorted_app. repeat split.
    + intros a b Ha Hb.
      apply list_elem_of_fmap in Ha as (x & -> & Hx).
      apply list_elem_of_fmap in Hb as (y & -> & Hy).
      rewrite (Hmatched y Hy).
      specialize (Hlow x p Hx ltac:(left)). lia.
    + assumption.
    + clear - Hmatched. induction matched as [|y l IHl]; simpl; constructor.
      * apply IHl. intros x Hx. apply Hmatched. right. assumption.
      * apply Forall_forall. intros z Hz.
        apply list_elem_of_fmap in Hz as (x & -> & Hx).
        rewrite (Hmatched y ltac:(left)), (Hmatched x ltac:(right; assumption)). lia.
  - intros x q Hx Hq. apply elem_of_app in Hx as [Hx|Hx].
    + apply Hlow; [assumption|right; assumption].
    + rewrite (Hmatched x Hx). rewrite Forall_forall in Hp. apply Hp. assumption.
  - intros x Hx. rewrite Hperm in Hx.
    apply list_elem_of_filter in Hx as [Hb Hx].
    specialize (Hrest x Hx). apply elem_of_cons in Hrest as [Hq|Hq]; [|assumption].
    apply inBucket_bucket in Hq; [congruence|]. apply Hge. assumption.
Qed.

Lemma sortProperties_passes ps : StronglySorted Z.lt ps -> forall n fps start,
  placed ps fps start -> (length fps <= n)%nat ->
  let r := foldl (fun st p => sortProperties_scan p n (snd st) st) (fps, start) ps in
  fst r ≡ₚ fps /\ StronglySorted Z.le (map bucket (fst r)) /\
  take start (fst r) = take start fps.
Proof.
  induction 1 as [|p ps Hps IH Hp]; intros n fps start Hplaced Hn; simpl.
  - destruct Hplaced as (Hstart & Hsorted & Hlow & Hrest).
    assert (Hnil : drop start fps = []).
    { destruct (drop start fps) as [|x rest] eqn:Hd; [reflexivity|].
      specialize (Hrest x ltac:(left)). apply elem_of_nil in Hrest as []. }
    assert (Hfull : take start fps = fps).
    { rewrite <- (take_drop start fps) at 2. rewrite Hnil, app_nil_r. reflexivity. }
    rewrite Hfull in Hsorted. auto.
  - destruct (pass_placed p ps n fps start Hp Hplaced Hn) as (rest & Heq & _ & Hperm & Hpl).
    rewrite Heq. simpl.
    set (matched := filter (fun x => bucket x = p) (drop start fps)) in *.
    set (fps' := take start fps ++ matched ++ rest) in *.
    destruct (IH n fps' (start + length matched)%nat Hpl) as (Hr1 & Hr2 & Hr3).
    { rewrite Hperm. assumption. }
    split; [rewrite Hr1; assumption|]. split; [assumption|].
    replace start with (start `min` (start + length matched))%nat at 1 by lia.
    rewrite <- take_take, Hr3.
    destruct Hplaced as (Hstart & _).
    assert (Htk : take (start + length matched) fps' = take start fps ++ matched).
    { unfold fps'. rewrite app_assoc. apply take_app_length'.
      rewrite length_app, length_take. lia. }
    rewrite Htk, take_app_le by (rewrite length_take; lia).
    apply take_idemp.
Qed.

(** The lowest bucket is filled first, from the untouched input: it keeps
    the input order. *)
Lemma sortProperties_first_bucket ps : StronglySorted Z.lt ps -> forall n fps start b,
  placed ps fps start -> (length fps <= n)%nat ->
  (forall x, x ∈ drop start fps -> b <= bucket x) ->
  let r := foldl (fun st p => sortProperties_scan p n (snd st) st) (fps, start) ps in
  let first := filter (fun x => bucket x = b) (drop start fps) in
  take (start + length first) (fst r) = take start fps ++ first.
Proof.
  induction 1 as [|p ps Hps IH Hp]; intros n fps start b Hplaced Hn Hb r first.
  - destruct Hplaced as (Hstart & Hsorted & Hlow & Hrest).
    assert (Hnil : drop start fps = []).
    { destruct (drop start fps) as [|x rest] eqn:Hd; [reflexivity|].
      specialize (Hrest x ltac:(left)). apply elem_of_nil in Hrest as []. }
    unfold first, r. rewrite Hnil. simpl. rewrite app_nil_r. f_equal. lia.
  - pose proof (sortProperties_passes (p :: ps) ltac:(constructor; assumption)
                  n fps start Hplaced Hn) as (_ & _ & Hkeep).
    fold r in Hkeep.
    destruct (pass_placed p ps n fps start Hp Hplaced Hn) as (rest & Heq & Hnil & Hperm & Hpl).
    set (matched := filter (fun x => bucket x = p) (drop start fps)) in *.
    assert (Hge : forall x, x ∈ drop start fps -> p <= bucket x).
    { destruct Hplaced as (_ & _ & _ & Hrest).
      intros x Hx. specialize (Hrest x Hx). apply elem_of_cons in Hrest as [->|Hq]; [lia|].
      rewrite Forall_forall in Hp. specialize (Hp _ Hq). lia. }
    destruct (Z.lt_trichotomy p b) as [Hlt|[->|Hgt]].
    + (* an empty pass before the lowest bucket *)
      assert (Hm : matched = []).
      { apply filter_none. intros x Hx. specialize (Hb x Hx). lia. }
      rewrite Hm in *. specialize (Hnil eq_refl). subst rest.
      simpl in Heq, Hpl. rewrite take_drop, Nat.add_0_r in Heq, Hpl.
      unfold r. simpl. rewrite Heq. simpl.
      apply (IH n fps start b Hpl Hn Hb).
    + (* the pass of the lowest bucket *)
      unfold r. simpl. rewrite Heq. simpl.
      set (fps' := take start fps ++ matched ++ rest) in *.
      pose proof (sortProperties_passes ps Hps n fps' (start + length matched)%nat Hpl
                    ltac:(rewrite Hperm; assumption)) as (_ & _ & Hk).
      unfold first. fold matched. rewrite Hk. unfold fps'.
      rewrite app_assoc. apply take_app_length'.
      rewrite length_app, length_take. destruct Hplaced as (Hstart & _). lia.
    + (* no property in a bucket below the first one visited *)
      assert (Hf : first = []).
      { apply filter_none. intros x Hx. specialize (Hge x Hx). lia. }
      rewrite Hf, app_nil_r. simpl. rewrite Nat.add_0_r. exact Hkeep.
Qed.

Lemma placed_initial l : placed (prioritySet l) l 0.
Proof.
  unfold placed. rewrite take_0, drop_0. repeat split.
  - lia.
  - constructor.
  - intros x q Hx. apply elem_of_nil in Hx as [].
  - apply bucket_in_prioritySet.
Qed.

Lemma sortProperties_perm l : sortProperties l ≡ₚ l.
Proof.
  unfold sortProperties.
  apply (sortProperties_passes (prioritySet l) (prioritySet_sorted l)
           (length l) l 0%nat (placed_initial l)). lia.
Qed.

(** *** Flattening: arrays are paired by position *)

Section Pairing.
Context (dataTables : tables).

Let inv (parsedTable : list t) : Prop :=
  Forall (fun pc => Forall (pairedByPosition dataTables) (flatProperties pc)) parsedTable.

Let preserving
    (iterate : list t -> DataTable.t -> list FlatProperty.t -> string ->
               option resolverState) : Prop :=
  forall pt table fps prefix pt' fps' tableName,
    dataTables !! tableName = Some table ->
    inv pt -> Forall (pairedByPosition dataTables) fps ->
    iterate pt table fps prefix = Some (pt', fps') ->
    inv pt' /\ Forall (pairedByPosition dataTables) fps'.

Lemma index_Some {A} (l : list A) i x :
  JS.index l i = Some x -> 0 <= i /\ l !! Z.to_nat i = Some x.
Proof. unfold JS.index. destruct (Z.ltb_spec i 0); [discriminate|auto]. Qed.

Lemma flatLeaf_paired tableName table prefix i property fp :
  dataTables !! tableName = Some table ->
  JS.index (DataTable.properties table) i = Some property ->
  flatLeaf prefix (DataTable.properties table) i property = Some fp ->
  pairedByPosition dataTables fp.
Proof.
  intros Htable Hi Hleaf. unfold flatLeaf in Hleaf. unfold pairedByPosition.
  destruct (DataTableProperty.type property =? DataTablePropertyType.Array) eqn:Harr;
    simpl in Hleaf.
  - destruct (JS.index (DataTable.properties table) (i - 1)) as [element|] eqn:He;
      [|discriminate].
    injection Hleaf as <-. simpl. rewrite Harr.
    apply index_Some in Hi as [_ Hi]. apply index_Some in He as [Hge He].
    exists tableName, table, (Z.to_nat (i - 1)), element.
    replace (S (Z.to_nat (i - 1))) with (Z.to_nat i) by lia. auto.
  - injection Hleaf as <-. simpl. rewrite Harr. reflexivity.
Qed.

Lemma inv_insert pt k sc fps :
  inv pt -> Forall (pairedByPosition dataTables) fps -> inv (<[k := mk sc fps]> pt).
Proof.
  intros Hpt Hfps. unfold inv. apply Forall_insert; assumption.
Qed.

Lemma inv_lookup pt k pc :
  inv pt -> JS.index pt k = Some pc ->
  Forall (pairedByPosition dataTables) (flatProperties pc).
Proof.
  intros Hpt Hk. apply index_Some in Hk as [_ Hk].
  unfold inv in Hpt. rewrite Forall_lookup in Hpt. eapply Hpt, Hk.
Qed.

Lemma gatherProperties_with_paired iterate pt table serverClass prefix pt' tableName :
  preserving iterate ->
  dataTables !! tableName = Some table -> inv pt ->
  gatherProperties_with iterate pt table serverClass prefix = Some pt' ->
  inv pt'.
Proof.
  intros Hiter Htable Hpt Hg. unfold gatherProperties_with in Hg.
  destruct (iterate pt table [] prefix) as [[pt1 fps1]|] eqn:Hit; [|discriminate].
  destruct (Hiter _ _ _ _ _ _ _ Htable Hpt ltac:(constructor) Hit) as [Hpt1 Hfps1].
  set (pt2 := if ServerClass.tableID serverClass =? Z.of_nat (length pt1)
              then pt1 ++ [mk serverClass []] else pt1) in *.
  assert (Hpt2 : inv pt2).
  { unfold pt2. destruct (_ =? _); [|assumption].
    apply Forall_app. split; [assumption|]. repeat constructor. }
  destruct (JS.index pt2 (ServerClass.tableID serverClass)) as [pc|] eqn:Hpc.
  - injection Hg as <-. apply inv_insert; [assumption|].
    apply Forall_app. split; [|assumption]. eapply inv_lookup; eassumption.
  - injection Hg as <-. assumption.
Qed.

Lemma iterateProperties_loop_paired iterate excludes serverClass table prefix tableName n :
  preserving iterate ->
  dataTables !! tableName = Some table ->
  forall i pt fps pt' fps',
    inv pt -> Forall (pairedByPosition dataTables) fps ->
    iterateProperties_loop iterate dataTables excludes serverClass table prefix n i (pt, fps)
      = Some (pt', fps') ->
    inv pt' /\ Forall (pairedByPosition dataTables) fps'.
Proof.
  intros Hiter Htable. induction n as [|n IH]; intros i pt fps pt' fps' Hpt Hfps Hloop.
  - simpl in Hloop. injection Hloop as <- <-. auto.
  - simpl in Hloop.
    destruct (JS.index (DataTable.properties table) i) as [property|] eqn:Hi;
      [|eapply IH; eassumption].
    destruct (skipped excludes table property); [eapply IH; eassumption|].
    destruct (DataTableProperty.type property =? DataTablePropertyType.DataTable).
    + destruct (DataTableProperty.excludeName property) as [excludeName|];
        [|eapply IH; eassumption].
      destruct (String.length excludeName =? 0)%nat; [eapply IH; eassumption|].
      destruct (dataTables !! excludeName) as [excludeTable|] eqn:Hex;
        [|eapply IH; eassumption].
      destruct (DataTableProperty.hasFlag property DataTablePropertyFlag.Collapsible).
      * destruct (iterate pt excludeTable fps prefix) as [[pt1 fps1]|] eqn:Hit;
          [|discriminate].
        destruct (Hiter _ _ _ _ _ _ _ Hex Hpt Hfps Hit) as [Hpt1 Hfps1].
        eapply IH; eassumption.
      * destruct (gatherProperties_with iterate pt excludeTable serverClass _)
          as [pt1|] eqn:Hg; [|discriminate].
        eapply IH; [| |exact Hloop]; [|assumption].
        eapply gatherProperties_with_paired; eassumption.
    + destruct (flatLeaf prefix (DataTable.properties table) i property)
        as [newProperty|] eqn:Hleaf; [|eapply IH; eassumption].
      eapply IH; [| |exact Hloop]; [assumption|].
      apply Forall_app. split; [assumption|]. repeat constructor.
      eapply flatLeaf_paired; eassumption.
Qed.

Lemma iterateProperties_paired fuel excludes serverClass :
  preserving (iterateProperties fuel dataTables excludes serverClass).
Proof.
  induction fuel as [|fuel IH]; intros pt table fps prefix pt' fps' tableName
    Htable Hpt Hfps Hit; simpl in Hit; [discriminate|].
  eapply iterateProperties_loop_paired; eassumption.
Qed.

Lemma fromDemo_paired fuel serverClasses parsed :
  fromDemo fuel dataTables serverClasses = Some parsed -> inv parsed.
Proof.
  unfold fromDemo.
  assert (Hacc : forall pt, Some ([] : list t) = Some pt -> inv pt).
  { intros pt [= <-]. constructor. }
  revert Hacc. generalize (Some ([] : list t)) as acc. revert parsed.
  induction serverClasses as [|sc scs IH]; intros parsed acc Hacc Hfold; simpl in Hfold.
  - apply Hacc. assumption.
  - eapply IH; [|exact Hfold]. clear IH Hfold. intros pt Hstep.
    destruct acc as [pt0|]; [|discriminate].
    specialize (Hacc pt0 eq_refl).
    destruct (dataTables !! ServerClass.tableName sc) as [table|] eqn:Htable.
    2:{ injection Hstep as <-. assumption. }
    destruct (gatherExcludes fuel dataTables table) as [excludes|]; [|discriminate].
    destruct (gatherProperties fuel dataTables pt0 excludes table sc "")
      as [pt1|] eqn:Hg; [|discriminate].
    assert (Hpt1 : inv pt1).
    { eapply gatherProperties_with_paired; [|exact Htable|exact Hacc|exact Hg].
      apply iterateProperties_paired. }
    destruct (JS.index pt1 (ServerClass.tableID sc)) as [pc|] eqn:Hpc.
    + injection Hstep as <-. apply inv_insert; [assumption|].
      pose proof (inv_lookup _ _ _ Hpt1 Hpc) as Hfps.
      rewrite sortProperties_perm. assumption.
    + injection Hstep as <-. assumption.
Qed.

End Pairing.

(** *** The claim about [sortProperties] *)

(** Claim C1, as amended.  [sortProperties] permutes the list into
    ascending bucket order, where a property's bucket is its declared
    priority, except that a changes-often property with a declared
    priority above 64 falls in bucket 64; the properties of the lowest
    bucket come first, in their input order. *)
Theorem sortProperties_ascending_buckets (l : list FlatProperty.t) :
  sortProperties l ≡ₚ l /\
  StronglySorted Z.le (map bucket (sortProperties l)) /\
  forall b, (forall x, x ∈ l -> b <= bucket x) ->
    filter (fun x => bucket x = b) l `prefix_of` sortProperties l.
Proof.
  unfold sortProperties.
  pose proof (sortProperties_passes (prioritySet l) (prioritySet_sorted l)
                (length l) l 0%nat (placed_initial l) ltac:(lia)) as (Hperm & Hsorted & _).
  split; [exact Hperm|]. split; [exact Hsorted|].
  intros b Hb.
  pose proof (sortProperties_first_bucket (prioritySet l) (prioritySet_sorted l)
                (length l) l 0%nat b (placed_initial l) ltac:(lia)) as Hfirst.
  rewrite drop_0, take_0 in Hfirst. simpl in Hfirst.
  rewrite <- (Hfirst Hb). apply prefix_take.
Qed.

Lemma sortProperties_ascending_buckets_witness :
  let l := [ExampleSchema.prop "a" 2 false; ExampleSchema.prop "b" 2 false;
            ExampleSchema.prop "c" 1 false; ExampleSchema.prop "d" 1 true]%string in
  [ExampleSchema.prop "c" 1 false; ExampleSchema.prop "d" 1 true]%string
    `prefix_of` sortProperties l.
Proof.
  intros l.
  destruct (sortProperties_ascending_buckets l) as (_ & _ & Hfirst).
  apply (Hfirst 1).
  intros x Hx. unfold l in Hx.
  repeat (apply elem_of_cons in Hx as [->|Hx]; [vm_compute; discriminate|]).
  apply elem_of_nil in Hx as [].
Defined.

(** Claim C1 as stated fails twice: a property moved into place trades
    position with the first property not yet placed, so a later bucket
    need not keep the input order; and a changes-often property with a
    declared priority below 64 stays in the bucket of that priority. *)
Lemma sortProperties_not_stable :
  let fp := ExampleSchema.prop in
  map FlatProperty.name
    (sortProperties [fp "a" 2 false; fp "b" 2 false; fp "c" 1 false])
    = ["c"; "b"; "a"]%string /\
  map FlatProperty.name
    (specSortProperties [fp "a" 2 false; fp "b" 2 false; fp "c" 1 false])
    = ["c"; "a"; "b"]%string /\
  map FlatProperty.name (sortProperties [fp "p" 1 true; fp "q" 2 false])
    = ["p"; "q"]%string /\
  map FlatProperty.name (specSortProperties [fp "p" 1 true; fp "q" 2 false])
    = ["q"; "p"]%string /\
  ~ (forall l, sortProperties l = specSortProperties l).
Proof.
  intros fp. repeat split; try reflexivity.
  intros H. specialize (H [fp "a" 2 false; fp "b" 2 false; fp "c" 1 false]%string).
  vm_compute in H. discriminate H.
Qed.

(** *** The claim about array properties *)

(** Claim C6.  In [iterateProperties] an array-typed property found at
    index [i] of a table is emitted with the definition at index [i - 1]
    of the same table as its element type, whatever the names, and is
    skipped when nothing stands before it; so every array-typed flattened
    property of every class returned by [fromDemo] is paired with the
    definition just before its own in a table of the schema. *)
Theorem array_paired_with_preceding_definition (dataTables : tables) :
  (forall prefix props p,
     DataTableProperty.type p = DataTablePropertyType.Array ->
     flatLeaf prefix props 0 p = None) /\
  (forall prefix props (j : nat) p element,
     DataTableProperty.type p = DataTablePropertyType.Array ->
     props !! j = Some element ->
     flatLeaf prefix props (Z.of_nat (S j)) p =
       Some (FlatProperty.mk (prefix ++ DataTableProperty.name p) p (Some element))) /\
  (forall fuel serverClasses parsed,
     fromDemo fuel dataTables serverClasses = Some parsed ->
     Forall (fun pc => Forall (pairedByPosition dataTables) (flatProperties pc)) parsed).
Proof.
  repeat apply conj.
  - intros prefix props p Hp. unfold flatLeaf. rewrite Hp. reflexivity.
  - intros prefix props j p element Hp Hj. unfold flatLeaf, JS.index. rewrite Hp. simpl.
    destruct (Z.ltb_spec (Z.of_nat (S j) - 1) 0); [lia|].
    replace (Z.to_nat (Z.of_nat (S j) - 1)) with j by lia.
    rewrite Hj. reflexivity.
  - intros fuel serverClasses parsed. apply fromDemo_paired.
Qed.

Lemma array_paired_with_preceding_definition_witness :
  exists parsed,
    fromDemo 5 ExampleSchema.dataTables [ExampleSchema.CBase] = Some parsed /\
    map FlatProperty.name (concat (map flatProperties parsed))
      = ["local.m_a"; "local.m_arr"; "m_xs"; "m_c"]%string /\
    Forall (fun pc => Forall (pairedByPosition ExampleSchema.dataTables) (flatProperties pc))
      parsed /\
    flatLeaf "" (DataTable.properties ExampleSchema.DT_Base) 0
      (ExampleSchema.leaf "arr0" DataTablePropertyType.Array 0 0) = None.
Proof.
  destruct (array_paired_with_preceding_definition ExampleSchema.dataTables)
    as (Hskip & _ & Hall).
  eexists. split; [vm_compute; reflexivity|]. split; [reflexivity|]. split.
  - apply (Hall 5%nat [ExampleSchema.CBase]). vm_compute. reflexivity.
  - apply Hskip. reflexivity.
Defined.

End ParserClassFacts.

(** ** The readers run at the cursor of the demo *)

Module ReaderFacts.

Lemma tryBuf_Some {A} (f : DemoBuffer.t -> option (A * DemoBuffer.t)) d a b :
  f (Demo.buf d) = Some (a, b) -> tryBuf f d = Ok (a, Demo.setBuf d b).
Proof. intros H. unfold tryBuf. rewrite H. reflexivity. Qed.

Lemma tryBuf_inv {A} (f : DemoBuffer.t -> option (A * DemoBuffer.t)) d a d' :
  tryBuf f d = Ok (a, d') ->
  exists b, f (Demo.buf d) = Some (a, b) /\ d' = Demo.setBuf d b.
Proof.
  unfold tryBuf. intros H. destruct (f (Demo.buf d)) as [[a0 b]|]; [|discriminate].
  injection H as <- <-. eauto.
Qed.

(** A read of up to 53 bits returns the number the bits at the cursor
    spell and moves the cursor by the width. *)
Lemma nextInt_run size d :
  0 <= size <= 53 ->
  nextInt size d
    = Ok (DemoBuffer.field (Demo.buf d) (DemoBuffer.cursor (Demo.buf d)) size,
          Demo.setBuf d (DemoBuffer.advance (Demo.buf d) size)).
Proof.
  intros H. unfold nextInt. apply tryBuf_Some.
  apply DemoBufferFacts.nextInt_field, H.
Qed.

Lemma nextInt_inv size d n d' :
  0 <= size <= 53 -> nextInt size d = Ok (n, d') ->
  n = DemoBuffer.field (Demo.buf d) (DemoBuffer.cursor (Demo.buf d)) size /\
  d' = Demo.setBuf d (DemoBuffer.advance (Demo.buf d) size).
Proof. intros H Hn. rewrite nextInt_run in Hn by assumption. injection Hn as <- <-. auto. Qed.

(** The cursor-based readers leave the bytes alone. *)
Lemma nextInt_bytes b size v b' :
  DemoBuffer.nextInt b size = Some (v, b') -> DemoBuffer.bytes b' = DemoBuffer.bytes b.
Proof.
  unfold DemoBuffer.nextInt. intros H.
  destruct (DemoBuffer.getInt _ _ _); simpl in H; [|discriminate].
  injection H as _ <-. reflexivity.
Qed.

Lemma nextSignedInt_bytes b size v b' :
  DemoBuffer.nextSignedInt b size = Some (v, b') -> DemoBuffer.bytes b' = DemoBuffer.bytes b.
Proof.
  unfold DemoBuffer.nextSignedInt. intros H.
  destruct (DemoBuffer.getSignedInt _ _ _); simpl in H; [|discriminate].
  injection H as _ <-. reflexivity.
Qed.

Lemma nextFloat_bytes b v b' :
  DemoBuffer.nextFloat b = Some (v, b') -> DemoBuffer.bytes b' = DemoBuffer.bytes b.
Proof.
  unfold DemoBuffer.nextFloat. intros H.
  destruct (DemoBuffer.getFloat _ _); simpl in H; [|discriminate].
  injection H as _ <-. reflexivity.
Qed.

Lemma nextBytes_bytes b size v b' :
  DemoBuffer.nextBytes b size = Some (v, b') -> DemoBuffer.bytes b' = DemoBuffer.bytes b.
Proof.
  unfold DemoBuffer.nextBytes. intros H.
  destruct (DemoBuffer.getBitSlice _ _ _); simpl in H; [|discriminate].
  injection H as _ <-. reflexivity.
Qed.

Lemma nextString_bytes b size v b' :
  DemoBuffer.nextString b size = Some (v, b') -> DemoBuffer.bytes b' = DemoBuffer.bytes b.
Proof.
  unfold DemoBuffer.nextString. intros H.
  destruct (DemoBuffer.getString _ _ _); simpl in H; [|discriminate].
  injection H as _ <-. reflexivity.
Qed.

(** Takes the reads of a run of the buffer apart, keeping for each the
    fact that it left the bytes alone. *)
Ltac reads_inv H :=
  repeat match type of H with
         | context [DemoBuffer.nextInt ?b ?n] =>
             let E := fresh "E" in
             destruct (DemoBuffer.nextInt b n) as [[? ?]|] eqn:E; simpl in H;
             [apply nextInt_bytes in E; simpl in E|discriminate]
         | context [if ?c then _ else _] => destruct c; simpl in H
         end.

Lemma nextBitInt_bytes b v b' :
  DemoBuffer.nextBitInt b = Some (v, b') -> DemoBuffer.bytes b' = DemoBuffer.bytes b.
Proof.
  unfold DemoBuffer.nextBitInt. intros H. reads_inv H;
    injection H as _ <-; simpl; congruence.
Qed.

Lemma nextPropertyIndex_bytes b i ns v b' :
  DemoBuffer.nextPropertyIndex b i ns = Some (v, b') ->
  DemoBuffer.bytes b' = DemoBuffer.bytes b.
Proof.
  unfold DemoBuffer.nextPropertyIndex. simpl. intros H.
  destruct ns; simpl in H; reads_inv H; injection H as _ <-; simpl; congruence.
Qed.

End ReaderFacts.

(** ** The property codec *)

Module PropertyCodecFacts.
Import PropertyCodec DataTablePropertyFlag.

(** Up to 30 bits the decoder does what claim C5 says.  A float
    definition without special flags and with a width [bits] of at most 30
    is decoded by reading exactly [bits] unsigned bits as a raw value [r]
    and interpolating: the result is
    [low + (high - low) * (r / (2^bits - 1))] in binary64 arithmetic, and
    the cursor has moved by [bits]. *)
Lemma decodeFloat_interpolates (d : Demo.t) (p : DataTableProperty.t)
    (v : DataTableProperty.range) :
  DataTableProperty.value p = Some v ->
  plainFloat p ->
  0 <= DataTableProperty.bits v <= 30 ->
  let buf := Demo.buf d in
  let r := DemoBuffer.field buf (DemoBuffer.cursor buf) (DataTableProperty.bits v) in
  decodeFloat p d =
    Ok (interpolate v r, Demo.setBuf d (DemoBuffer.advance buf (DataTableProperty.bits v))).
Proof.
  intros Hv (H1 & H2 & H3 & H4 & H5 & H6 & H7 & H8 & H9) Hbits buf r.
  unfold decodeFloat. rewrite Hv, H1, H2, H3, H4, H5, H6, H7, H8, H9. simpl.
  unfold bind. rewrite ReaderFacts.nextInt_run by lia.
  unfold ret, interpolate. fold buf. fold r.
  destruct (Z.eq_dec (DataTableProperty.bits v) 30) as [->|Hne]; [reflexivity|].
  rewrite JSFacts.shl_1_small by lia. reflexivity.
Qed.

Example decodeFloat_interpolates_example :
  let x := 0x1.9191919191919p+5%float in
  decodeFloat (ExampleSchema.floatProp 0 0 100 8) (ExampleSchema.blob [128]) =
    Ok (x, Demo.setBuf (ExampleSchema.blob [128]) (DemoBuffer.mk [128] 8)) /\
  x = (ofZ 128 / ofZ 255 * 100)%float /\
  PrimFloat.ltb (PrimFloat.abs (x - ofZ 50196 / ofZ 1000)) (1 / ofZ 1000) = true.
Proof.
  intros x. split; [|split; reflexivity].
  rewrite (decodeFloat_interpolates (ExampleSchema.blob [128])
             (ExampleSchema.floatProp 0 0 100 8)
             (DataTableProperty.mkRange 0 100 8)).
  - reflexivity.
  - reflexivity.
  - repeat split.
  - simpl. lia.
Qed.

(** Claim C5 fails on the code at the widths 31 and 32: the divisor is
    computed as [(1 << bits) - 1], and the shift is a 32-bit one.  For a
    32-bit field [(1 << 32) - 1] is [0], so the raw value [1] decodes to
    [Infinity] where the claim gives [1 / (2^32 - 1)]; for a 31-bit field
    [(1 << 31) - 1] is [-2147483649], so the raw value [1] decodes to a
    negative number where the claim gives [1 / (2^31 - 1)]. *)
Theorem decodeFloat_width_32 :
  let p := ExampleSchema.floatProp 0 0 1 32 in
  let q := ExampleSchema.floatProp 0 0 1 31 in
  let d := ExampleSchema.blob [1; 0; 0; 0] in
  plainFloat p /\ plainFloat q /\
  DemoBuffer.getInt (Demo.buf d) 0 32 = Some 1 /\
  DemoBuffer.getInt (Demo.buf d) 0 31 = Some 1 /\
  JS.shl 1 32 - 1 = 0 /\ JS.shl 1 31 - 1 = -2147483649 /\
  decodeFloat p d = Ok (PrimFloat.infinity, Demo.setBuf d (DemoBuffer.mk [1; 0; 0; 0] 32)) /\
  interpolate (DataTableProperty.mkRange 0 1 32) 1 = (1 / ofZ 4294967295)%float /\
  decodeFloat q d
    = Ok ((1 / ofZ (-2147483649))%float, Demo.setBuf d (DemoBuffer.mk [1; 0; 0; 0] 31)) /\
  interpolate (DataTableProperty.mkRange 0 1 31) 1 = (1 / ofZ 2147483647)%float.
Proof. intros p q d. repeat split; vm_compute; reflexivity. Qed.

End PropertyCodecFacts.

(** ** What the codec leaves alone *)

Module FrameFacts.
Import PropertyCodec.

(** A bind whose first call is known. *)
Lemma bind_ok {A B} (m : M A) (k : A -> M B) d a d1 :
  m d = Ok (a, d1) -> bind m k d = k a d1.
Proof. intros H. unfold bind. rewrite H. reflexivity. Qed.

Lemma bind_inv {A B} (m : M A) (k : A -> M B) d b d' :
  bind m k d = Ok (b, d') -> exists a d1, m d = Ok (a, d1) /\ k a d1 = Ok (b, d').
Proof.
  unfold bind. destruct (m d) as [[a d1]|]; [|discriminate].
  intros H. exists a, d1. split; [reflexivity|exact H].
Qed.

Lemma frame_refl d : frame d d.
Proof. repeat split. Qed.

Lemma frame_trans d1 d2 d3 : frame d1 d2 -> frame d2 d3 -> frame d1 d3.
Proof.
  unfold frame, sameTables, sameEntities, sameSchema.
  intros (? & (? & ?) & (? & ? & ? & ?) & ?) (? & (? & ?) & (? & ? & ? & ?) & ?).
  repeat split; congruence.
Qed.

Lemma preserves_ret {A} (a : A) : preserves frame (ret a).
Proof. intros d a' d' [= _ <-]. apply frame_refl. Qed.

Lemma preserves_throw {A} e : preserves frame (@throw A e).
Proof. intros d a d' H. discriminate H. Qed.

Lemma preserves_bind {A B} (m : M A) (k : A -> M B) :
  preserves frame m -> (forall a, preserves frame (k a)) -> preserves frame (bind m k).
Proof.
  intros Hm Hk d b d' H. unfold bind in H.
  destruct (m d) as [[a d1]|] eqn:Hmd; [|discriminate].
  eapply frame_trans; [eapply Hm; eassumption|eapply Hk; eassumption].
Qed.

(** A relation coarser than [frame] is kept by whatever keeps [frame],
    and by a sequence of calls that keep it. *)
Section Coarser.
Context (R : Demo.t -> Demo.t -> Prop).
Hypothesis R_trans : forall d1 d2 d3, R d1 d2 -> R d2 d3 -> R d1 d3.
Hypothesis R_frame : forall d d', frame d d' -> R d d'.

Lemma preserves_coarser {A} (m : M A) : preserves frame m -> preserves R m.
Proof. intros Hm d a d' H. eapply R_frame, Hm, H. Qed.

Lemma preserves_bind_coarser {A B} (m : M A) (k : A -> M B) :
  preserves R m -> (forall a, preserves R (k a)) -> preserves R (bind m k).
Proof.
  intros Hm Hk d b d' H. unfold bind in H.
  destruct (m d) as [[a d1]|] eqn:Hmd; [|discriminate].
  eapply R_trans; [eapply Hm; eassumption|eapply Hk; eassumption].
Qed.

End Coarser.

Lemma preserves_warn msg : preserves frame (warn msg).
Proof. intros d a d' [= _ <-]. repeat split. Qed.

Lemma preserves_getCursor : preserves frame getCursor.
Proof. intros d a d' [= _ <-]. apply frame_refl. Qed.

Lemma preserves_get : preserves frame get.
Proof. intros d a d' [= _ <-]. apply frame_refl. Qed.

Lemma preserves_setCursor c : preserves frame (setCursor c).
Proof. intros d a d' [= _ <-]. repeat split. Qed.

(** The readers move the cursor and nothing else. *)
Lemma preserves_onBuf {A} (f : DemoBuffer.t -> A * DemoBuffer.t) :
  (forall b, DemoBuffer.bytes (snd (f b)) = DemoBuffer.bytes b) ->
  preserves frame (onBuf f).
Proof.
  intros Hf d a d' H. unfold onBuf in H.
  specialize (Hf (Demo.buf d)). destruct (f (Demo.buf d)) as [a' b].
  injection H as _ <-. repeat split. exact Hf.
Qed.

Lemma preserves_tryBuf {A} (f : DemoBuffer.t -> option (A * DemoBuffer.t)) :
  (forall b a b', f b = Some (a, b') -> DemoBuffer.bytes b' = DemoBuffer.bytes b) ->
  preserves frame (tryBuf f).
Proof.
  intros Hf d a d' H. apply ReaderFacts.tryBuf_inv in H as (b & Hb & ->).
  repeat split. simpl. eapply Hf, Hb.
Qed.

Lemma preserves_nextBit : preserves frame nextBit.
Proof. apply preserves_onBuf. reflexivity. Qed.
Lemma preserves_nextByte : preserves frame nextByte.
Proof. apply preserves_onBuf. reflexivity. Qed.
Lemma preserves_nextInt n : preserves frame (nextInt n).
Proof. apply preserves_tryBuf. intros b a b'. apply ReaderFacts.nextInt_bytes. Qed.
Lemma preserves_nextSignedInt n : preserves frame (nextSignedInt n).
Proof. apply preserves_tryBuf. intros b a b'. apply ReaderFacts.nextSignedInt_bytes. Qed.
Lemma preserves_nextFloat : preserves frame nextFloat.
Proof. apply preserves_tryBuf. intros b a b'. apply ReaderFacts.nextFloat_bytes. Qed.
Lemma preserves_nextBytes n : preserves frame (nextBytes n).
Proof. apply preserves_tryBuf. intros b a b'. apply ReaderFacts.nextBytes_bytes. Qed.
Lemma preserves_nextString n : preserves frame (nextString n).
Proof. apply preserves_tryBuf. intros b a b'. apply ReaderFacts.nextString_bytes. Qed.
Lemma preserves_nextNullTerminatedString : preserves frame nextNullTerminatedString.
Proof.
  intros d a d' H. unfold nextNullTerminatedString in H. simpl in H.
  injection H as _ <-. destruct (DemoBuffer.getNullTerminatedString_warns _ _); repeat split.
Qed.
Lemma preserves_nextBitInt : preserves frame nextBitInt.
Proof. apply preserves_tryBuf. intros b a b'. apply ReaderFacts.nextBitInt_bytes. Qed.
Lemma preserves_nextPropertyIndex i ns : preserves frame (nextPropertyIndex i ns).
Proof. apply preserves_tryBuf. intros b a b'. apply ReaderFacts.nextPropertyIndex_bytes. Qed.

Create HintDb frame.

#[export] Hint Resolve preserves_ret preserves_throw preserves_warn preserves_getCursor
  preserves_get preserves_setCursor preserves_nextBit preserves_nextByte preserves_nextInt
  preserves_nextSignedInt preserves_nextFloat preserves_nextBytes preserves_nextString
  preserves_nextNullTerminatedString preserves_nextBitInt preserves_nextPropertyIndex
  : frame.

(** Follows the shape of a monadic term: binds, branches, and the calls
    registered in the [frame] database. *)
Ltac frame_step :=
  lazymatch goal with
  | |- preserves frame (bind _ _) => apply preserves_bind; [|intros ?]
  | |- preserves frame (if ?c then _ else _) => destruct c
  | |- preserves frame (match ?x with _ => _ end) => destruct x
  | |- preserves frame _ => solve [auto with frame]
  end.
Ltac frame_tac := repeat frame_step.

Lemma preserves_decodeInt p : preserves frame (decodeInt p).
Proof. unfold decodeInt. frame_tac. Qed.

Lemma preserves_decodeFloat p : preserves frame (decodeFloat p).
Proof. unfold decodeFloat. frame_tac. Qed.

#[export] Hint Resolve preserves_decodeInt preserves_decodeFloat : frame.

Lemma preserves_decodeVector3 p : preserves frame (decodeVector3 p).
Proof. unfold decodeVector3. frame_tac. Qed.

Lemma preserves_decodeVector2 p : preserves frame (decodeVector2 p).
Proof. unfold decodeVector2. frame_tac. Qed.

Lemma preserves_decodeString p : preserves frame (decodeString p).
Proof. unfold decodeString. frame_tac. Qed.

Lemma preserves_repeatM {A} n (m : M A) : preserves frame m -> preserves frame (repeatM n m).
Proof. intros Hm. induction n as [|n IH]; simpl; frame_tac. Qed.

#[export] Hint Resolve preserves_decodeVector3 preserves_decodeVector2 preserves_decodeString
  preserves_repeatM : frame.

Lemma preserves_decodeArray p q : preserves frame (decodeArray p q).
Proof. unfold decodeArray. frame_tac. Qed.

#[export] Hint Resolve preserves_decodeArray : frame.

Lemma preserves_fromDemo i fp : preserves frame (fromDemo i fp).
Proof. unfold fromDemo. frame_tac. Qed.

#[export] Hint Resolve preserves_fromDemo : frame.

Lemma preserves_readProperties_loop fps ns n : forall i acc,
  preserves frame (readProperties_loop fps ns n i acc).
Proof. induction n as [|n IH]; intros i acc; simpl; frame_tac. Qed.

Lemma preserves_readProperties fps : preserves frame (readProperties fps).
Proof.
  unfold readProperties. apply preserves_bind; [auto with frame|intros ?].
  apply preserves_readProperties_loop.
Qed.

Lemma preserves_updateBaseline sc props n :
  preserves frame (EntityStore.updateBaseline sc props n).
Proof.
  intros d a d' H. unfold EntityStore.updateBaseline in H.
  destruct (foldl _ _ _); [|discriminate]. injection H as _ <-. repeat split.
Qed.

#[export] Hint Resolve preserves_readProperties preserves_updateBaseline : frame.

Lemma preserves_entryFromDemo tableName entryName :
  preserves frame (StringTableEntryCodec.fromDemo tableName entryName).
Proof.
  unfold StringTableEntryCodec.fromDemo, StringTableEntryCodec.PlayerInfo,
    StringTableEntryCodec.InstanceBaseline, StringTableEntryCodec.nextTrimmedString.
  frame_tac.
Qed.

#[export] Hint Resolve preserves_entryFromDemo : frame.

(** The readers are quiet. *)
Lemma quiet_refl d : quiet d d.
Proof. split; [apply frame_refl|split; reflexivity]. Qed.

Lemma quiet_trans d1 d2 d3 : quiet d1 d2 -> quiet d2 d3 -> quiet d1 d3.
Proof.
  intros (Hf & Hb & Hl) (Hf' & Hb' & Hl').
  split; [eapply frame_trans; eassumption|split; congruence].
Qed.

Lemma quiet_onBuf {A} (f : DemoBuffer.t -> A * DemoBuffer.t) d a d' :
  (forall b, DemoBuffer.bytes (snd (f b)) = DemoBuffer.bytes b) ->
  onBuf f d = Ok (a, d') -> quiet d d'.
Proof.
  intros Hf H. split; [eapply (preserves_onBuf f Hf), H|].
  unfold onBuf in H. destruct (f (Demo.buf d)). injection H as _ <-. split; reflexivity.
Qed.

Lemma quiet_tryBuf {A} (f : DemoBuffer.t -> option (A * DemoBuffer.t)) d a d' :
  (forall b a b', f b = Some (a, b') -> DemoBuffer.bytes b' = DemoBuffer.bytes b) ->
  tryBuf f d = Ok (a, d') -> quiet d d'.
Proof.
  intros Hf H. split; [eapply (preserves_tryBuf f Hf), H|].
  apply ReaderFacts.tryBuf_inv in H as (b & _ & ->). split; reflexivity.
Qed.

Lemma quiet_nextBitInt d a d' : nextBitInt d = Ok (a, d') -> quiet d d'.
Proof. apply quiet_tryBuf. intros b x b'. apply ReaderFacts.nextBitInt_bytes. Qed.

Lemma quiet_nextInt n d a d' : nextInt n d = Ok (a, d') -> quiet d d'.
Proof. apply quiet_tryBuf. intros b x b'. apply ReaderFacts.nextInt_bytes. Qed.

Lemma quiet_nextBit d a d' : nextBit d = Ok (a, d') -> quiet d d'.
Proof. apply quiet_onBuf. reflexivity. Qed.

(** Takes the next call of a run apart. *)
Tactic Notation "inv_bind" hyp(H) "as" ident(a) ident(d) ident(Hm) :=
  apply bind_inv in H as (a & d & Hm & H); cbv beta in H.
Tactic Notation "inv_bind" hyp(H) :=
  let a := fresh "a" in
  let d := fresh "d" in
  let Hm := fresh "Hm" in
  apply bind_inv in H as (a & d & Hm & H); cbv beta in H.

End FrameFacts.

(** ** The updates of a string table *)

Module SvcUpdateStringTableFacts.
Import SvcUpdateStringTable FrameFacts.
Local Open Scope js_scope.

Lemma otherTables_refl tableID d : otherTables tableID d d.
Proof. split; [reflexivity|intros; reflexivity]. Qed.

Lemma otherTables_trans tableID d1 d2 d3 :
  otherTables tableID d1 d2 -> otherTables tableID d2 d3 -> otherTables tableID d1 d3.
Proof.
  intros [Hl1 H1] [Hl2 H2]. split; [congruence|].
  intros k Hk. rewrite H2, H1 by assumption. reflexivity.
Qed.

Lemma frame_otherTables tableID d d' : frame d d' -> otherTables tableID d d'.
Proof. intros (Ht & _). unfold sameTables in Ht. split; rewrite Ht; reflexivity. Qed.

Lemma setEntries_otherTables tableID entries :
  preserves (otherTables tableID) (setEntries tableID entries).
Proof.
  intros d a d' H. unfold setEntries, JS.index in H.
  destruct (tableID <? 0) eqn:Hneg; [injection H as _ <-; apply otherTables_refl|].
  destruct (Demo.stringTables d !! Z.to_nat tableID) as [[key table]|];
    injection H as _ <-; [|apply otherTables_refl].
  split; simpl.
  - apply length_insert.
  - intros k Hk. apply list_lookup_insert_ne. lia.
Qed.

Ltac others_step tableID :=
  lazymatch goal with
  | |- preserves _ (bind _ _) =>
      apply (preserves_bind_coarser _ (otherTables_trans tableID)); [|intros ?]
  | |- preserves _ (if ?c then _ else _) => destruct c
  | |- preserves _ (match ?x with _ => _ end) => destruct x
  | |- preserves _ (setEntries _ _) => apply setEntries_otherTables
  | |- preserves _ _ =>
      apply (preserves_coarser _ (frame_otherTables tableID));
      solve [auto with frame]
  end.

Lemma readEntryName_frame dataEnd history : preserves frame (readEntryName dataEnd history).
Proof. unfold readEntryName, giveUp. frame_tac. Qed.

#[local] Hint Resolve readEntryName_frame : frame.

Lemma changedEntry_otherTables tableID dataEnd table entryIndex history :
  preserves (otherTables tableID) (changedEntry tableID dataEnd table entryIndex history).
Proof.
  unfold changedEntry, giveUp. repeat others_step tableID.
Qed.

Lemma entriesLoop_otherTables tableID dataEnd table n : forall entryIndex history,
  preserves (otherTables tableID) (entriesLoop tableID dataEnd table n entryIndex history).
Proof.
  induction n as [|n IH]; intros entryIndex history; simpl.
  - others_step tableID.
  - apply (preserves_bind_coarser _ (otherTables_trans tableID));
      [apply changedEntry_otherTables|].
    intros [[] [i h]]; [apply IH|others_step tableID].
Qed.

Lemma body_otherTables tableID changedEntries dataEnd :
  preserves (otherTables tableID) (body tableID changedEntries dataEnd).
Proof.
  unfold body.
  apply (preserves_bind_coarser _ (otherTables_trans tableID)); [others_step tableID|].
  intros d0. destruct (tableAt d0 tableID) as [table|]; [|repeat others_step tableID].
  destruct (StringTable.maxEntries table); [|repeat others_step tableID].
  apply (preserves_bind_coarser _ (otherTables_trans tableID)); [others_step tableID|].
  intros b. destruct (JS.truthy b); [repeat others_step tableID|].
  apply (preserves_bind_coarser _ (otherTables_trans tableID));
    [apply entriesLoop_otherTables|].
  intros []; repeat others_step tableID.
Qed.

Lemma header_frame : preserves frame header.
Proof. unfold header. frame_tac. Qed.

(** A message changes no string table but the one it names. *)
Lemma new_otherTables d m d' :
  new d = Ok (m, d') -> otherTables (tableID m) d d'.
Proof.
  unfold new, bind at 1. intros H.
  destruct (header d) as [[[[tid ce] dataEnd] d0]|] eqn:Hh; [|discriminate].
  assert (tableID m = tid) as ->.
  { unfold body in H. unfold bind, get, warn, setCursor, ret in H.
    repeat match type of H with
           | context [match ?x with _ => _ end] => destruct x; try discriminate
           end; injection H as <- _; reflexivity. }
  eapply otherTables_trans.
  - apply frame_otherTables. eapply header_frame, Hh.
  - eapply body_otherTables, H.
Qed.


Lemma gaveUp_intro dataEnd msg d d1 :
  frame d d1 -> Demo.baselines d1 = Demo.baselines d -> Demo.log d1 = Demo.log d ->
  gaveUp dataEnd d (Demo.seek (Demo.warn d1 msg) dataEnd).
Proof.
  intros (Ht & (Hh & He) & (H1 & H2 & H3 & H4) & Hb) Hbl Hl.
  repeat split; simpl; try assumption. exists msg. rewrite Hl. reflexivity.
Qed.

Lemma giveUp_after {A} dataEnd msg (x : A) d0 d r d' :
  quiet d0 d -> giveUp dataEnd msg x d = Ok (r, d') ->
  r = (Returned, x) /\ gaveUp dataEnd d0 d'.
Proof.
  intros (Hf & Hb & Hl). unfold giveUp, bind, warn, setCursor, ret.
  intros [= <- <-]. split; [reflexivity|apply gaveUp_intro; assumption].
Qed.

Lemma readEntryName_gaveUp dataEnd history d name d' :
  readEntryName dataEnd history d = Ok ((Returned, name), d') -> gaveUp dataEnd d d'.
Proof.
  unfold readEntryName. intros H.
  inv_bind H as named d1 H1. apply quiet_nextBit in H1.
  destruct (JS.truthy named); [|discriminate H].
  inv_bind H as compressed d2 H2. apply quiet_nextBit in H2.
  pose proof (quiet_trans _ _ _ H1 H2) as Hq2.
  destruct (JS.truthy compressed).
  - inv_bind H as historyIndex d3 H3. apply quiet_nextInt in H3.
    pose proof (quiet_trans _ _ _ Hq2 H3) as Hq3.
    destruct (JS.index history historyIndex) as [[|c rest]|].
    + eapply giveUp_after; eassumption.
    + inv_bind H as substringLength d4 H4. apply quiet_nextInt in H4.
      pose proof (quiet_trans _ _ _ Hq3 H4) as Hq4.
      destruct (_ <? _).
      * eapply giveUp_after; eassumption.
      * inv_bind H as suffix d5 H5. discriminate H.
    + eapply giveUp_after; eassumption.
  - inv_bind H as entryName d3 H3. discriminate H.
Qed.


Lemma gaveUp_after dataEnd d d1 d' :
  frame d d1 -> Demo.baselines d1 = Demo.baselines d -> Demo.log d1 = Demo.log d ->
  gaveUp dataEnd d1 d' -> gaveUp dataEnd d d'.
Proof.
  intros Hf Hb Hl (Hf' & Hb' & Hc & msg & Hl').
  split; [eapply frame_trans; eassumption|].
  split; [congruence|]. split; [assumption|]. exists msg. congruence.
Qed.

Lemma changedEntry_gaveUp tableID dataEnd table entryIndex history d x d' :
  changedEntry tableID dataEnd table entryIndex history d = Ok ((Returned, x), d') ->
  gaveUp dataEnd d d'.
Proof.
  unfold changedEntry. intros H.
  inv_bind H as next d1 H1. apply quiet_nextBit in H1.
  inv_bind H as i d2 H2.
  assert (Hq : quiet d d2).
  { eapply quiet_trans; [exact H1|].
    destruct (JS.truthy next); [injection H2 as _ <-; apply quiet_refl|].
    eapply quiet_nextInt, H2. }
  inv_bind H as d0 d0' Hg. injection Hg as <- <-. cbv zeta in H.
  destruct (_ <? i).
  - eapply giveUp_after; eassumption.
  - inv_bind H as r d3 Hn. destruct r as [[] name].
    + inv_bind H as hasData d4 H4. destruct (negb _); [discriminate H|].
      inv_bind H as entryDataLength d5 H5. destruct (negb _); [discriminate H|].
      inv_bind H as cursor d6 H6. inv_bind H as newEntry d7 H7.
      inv_bind H as d8 d8' H8. inv_bind H as u1 d9 H9. inv_bind H as u2 d10 H10.
      discriminate H.
    + injection H as _ <-. destruct Hq as (Hf & Hb & Hl).
      eapply gaveUp_after; try eassumption.
      eapply readEntryName_gaveUp, Hn.
Qed.


(** The three malformed entries of an update are given up on. *)
Lemma changedEntry_overflow tableID dataEnd table entryIndex history d d1 :
  nextBit d = Ok (1, d1) ->
  Z.of_nat (length (entriesOf d tableID)) < entryIndex + 1 ->
  changedEntry tableID dataEnd table entryIndex history d
    = Ok ((Returned, (entryIndex + 1, history)),
          Demo.seek (Demo.warn d1 "Overflowed string table size when parsing update.")
            dataEnd).
Proof.
  intros H1 Hlen. unfold changedEntry.
  rewrite (bind_ok _ _ _ _ _ H1). simpl.
  unfold nextBit, onBuf in H1. simpl in H1. injection H1 as _ <-.
  unfold entriesOf, tableAt in Hlen. unfold bind, ret, get, tableAt. simpl.
  destruct (_ <? _) eqn:Hlt; [reflexivity|lia].
Qed.

Lemma readEntryName_missing_history dataEnd history d d1 d2 d3 historyIndex :
  nextBit d = Ok (1, d1) -> nextBit d1 = Ok (1, d2) ->
  nextInt 5 d2 = Ok (historyIndex, d3) ->
  JS.index history historyIndex = None ->
  readEntryName dataEnd history d
    = Ok ((Returned, EmptyString),
          Demo.seek
            (Demo.warn d3
               "Tried to retrieve non-existent entry from string table update history.")
            dataEnd).
Proof.
  intros H1 H2 H3 Hi. unfold readEntryName.
  rewrite (bind_ok _ _ _ _ _ H1). simpl.
  rewrite (bind_ok _ _ _ _ _ H2). simpl.
  rewrite (bind_ok _ _ _ _ _ H3), Hi. reflexivity.
Qed.

Lemma readEntryName_substring_too_long dataEnd history d d1 d2 d3 d4 historyIndex
    historyItem substringLength :
  nextBit d = Ok (1, d1) -> nextBit d1 = Ok (1, d2) ->
  nextInt 5 d2 = Ok (historyIndex, d3) ->
  JS.index history historyIndex = Some historyItem ->
  nextInt 5 d3 = Ok (substringLength, d4) ->
  Z.of_nat (String.length historyItem) < substringLength ->
  exists d', readEntryName dataEnd history d = Ok ((Returned, EmptyString), d').
Proof.
  intros H1 H2 H3 Hi H4 Hlen. unfold readEntryName.
  rewrite (bind_ok _ _ _ _ _ H1). simpl.
  rewrite (bind_ok _ _ _ _ _ H2). simpl.
  rewrite (bind_ok _ _ _ _ _ H3), Hi.
  destruct historyItem as [|c rest]; [eexists; reflexivity|].
  rewrite (bind_ok _ _ _ _ _ H4).
  destruct (_ <? _) eqn:Hlt; [eexists; reflexivity|lia].
Qed.

(** The index of an entry is read without a word or a change. *)
Lemma readIndex_quiet table entryIndex d i d1 :
  readIndex table entryIndex d = Ok (i, d1) -> quiet d d1.
Proof.
  unfold readIndex. intros H. inv_bind H as next d0 H0. apply quiet_nextBit in H0.
  eapply quiet_trans; [exact H0|].
  destruct (JS.truthy next); [injection H as _ <-; apply quiet_refl|].
  eapply quiet_nextInt, H.
Qed.

Lemma quiet_entriesOf tableID d d1 : quiet d d1 -> entriesOf d1 tableID = entriesOf d tableID.
Proof.
  intros ((Ht & _) & _). unfold sameTables in Ht. unfold entriesOf, tableAt.
  rewrite Ht. reflexivity.
Qed.

(** [changedEntry] after its index is read. *)
Lemma changedEntry_readIndex tableID dataEnd table entryIndex history d i d1 :
  readIndex table entryIndex d = Ok (i, d1) ->
  changedEntry tableID dataEnd table entryIndex history d
    = (if Z.of_nat (length (entriesOf d tableID)) <? i then
         giveUp dataEnd "Overflowed string table size when parsing update." (i, history)
       else
         r <- readEntryName dataEnd history ;;
         match r with
         | (Returned, _) => ret (Returned, (i, history))
         | (Completed, entryName) =>
             let history := pushHistory history entryName in
             hasData <- nextBit ;;
             if negb (JS.truthy hasData) then ret (Completed, (i, history))
             else
               entryDataLength <-
                 (if JS.truthy (StringTable.userDataSizeBits table)
                  then ret (StringTable.userDataSizeBits table)
                  else n <- nextInt 14 ;; ret (n * 8)) ;;
               if negb (JS.truthy entryDataLength) then ret (Completed, (i, history))
               else
                 cursor <- getCursor ;;
                 let entryDataEnd := cursor + entryDataLength in
                 newEntry <- StringTableEntryCodec.fromDemo (StringTable.name table) entryName ;;
                 d <- get ;;
                 let entries := default [] (StringTable.entries <$> tableAt d tableID) in
                 setEntries tableID
                   (if i <? Z.of_nat (length entries)
                    then JS.store entries i newEntry
                    else entries ++ [newEntry]) ;;;
                 setCursor entryDataEnd ;;;
                 ret (Completed, (i, history))
         end) d1.
Proof.
  intros H. pose proof (quiet_entriesOf tableID _ _ (readIndex_quiet _ _ _ _ _ H)) as He.
  unfold readIndex in H. inv_bind H as next d0 H0.
  unfold changedEntry. rewrite (bind_ok _ _ _ _ _ H0). rewrite (bind_ok _ _ _ _ _ H).
  unfold bind at 1, get. cbv zeta. fold (entriesOf d1 tableID). rewrite He. reflexivity.
Qed.

(** A malformed entry is given up on: a warning, the cursor at the end of
    the message, and until then nothing but reads. *)
Lemma malformed_gives_up tableID dataEnd table entryIndex history d d1 msg :
  malformed tableID table entryIndex history d d1 msg ->
  quiet d d1 /\
  exists x,
    changedEntry tableID dataEnd table entryIndex history d
      = Ok ((Returned, x), Demo.seek (Demo.warn d1 msg) dataEnd).
Proof.
  intros [i d0 Hi Hover
         |i d0 historyIndex d2 Hi Hfit (named & a & compressed & b & H1 & Hn & H2 & Hc & H3) Hmiss
         |i d0 historyIndex d2 historyItem substringLength d3 Hi Hfit
            (named & a & compressed & b & H1 & Hn & H2 & Hc & H3) Hitem Hne H4 Hlong].
  - split; [eapply readIndex_quiet, Hi|].
    rewrite (changedEntry_readIndex _ _ _ _ _ _ _ _ Hi).
    destruct (Z.ltb_spec (Z.of_nat (length (entriesOf d tableID))) i); [|lia].
    eexists. reflexivity.
  - split.
    { eapply quiet_trans; [eapply readIndex_quiet, Hi|].
      eapply quiet_trans; [eapply quiet_nextBit, H1|].
      eapply quiet_trans; [eapply quiet_nextBit, H2|eapply quiet_nextInt, H3]. }
    rewrite (changedEntry_readIndex _ _ _ _ _ _ _ _ Hi).
    destruct (Z.ltb_spec (Z.of_nat (length (entriesOf d tableID))) i); [lia|].
    assert (Hname : readEntryName dataEnd history d0
              = Ok ((Returned, EmptyString),
                    Demo.seek (Demo.warn d2
                      "Tried to retrieve non-existent entry from string table update history.")
                      dataEnd)).
    { unfold readEntryName. rewrite (bind_ok _ _ _ _ _ H1), Hn.
      rewrite (bind_ok _ _ _ _ _ H2), Hc. rewrite (bind_ok _ _ _ _ _ H3).
      destruct (JS.index history historyIndex) as [[|c rest]|]; try reflexivity.
      discriminate Hmiss. }
    rewrite (bind_ok _ _ _ _ _ Hname). eexists. reflexivity.
  - split.
    { eapply quiet_trans; [eapply readIndex_quiet, Hi|].
      eapply quiet_trans; [eapply quiet_nextBit, H1|].
      eapply quiet_trans; [eapply quiet_nextBit, H2|].
      eapply quiet_trans; [eapply quiet_nextInt, H3|eapply quiet_nextInt, H4]. }
    rewrite (changedEntry_readIndex _ _ _ _ _ _ _ _ Hi).
    destruct (Z.ltb_spec (Z.of_nat (length (entriesOf d tableID))) i); [lia|].
    assert (Hname : readEntryName dataEnd history d0
              = Ok ((Returned, EmptyString),
                    Demo.seek (Demo.warn d3
                      "String table update entry substring longer than entry name.")
                      dataEnd)).
    { unfold readEntryName. rewrite (bind_ok _ _ _ _ _ H1), Hn.
      rewrite (bind_ok _ _ _ _ _ H2), Hc. rewrite (bind_ok _ _ _ _ _ H3), Hitem.
      destruct historyItem as [|c rest]; [contradiction|].
      rewrite (bind_ok _ _ _ _ _ H4).
      destruct (Z.ltb_spec (Z.of_nat (String.length (String c rest))) substringLength);
        [reflexivity|lia]. }
    rewrite (bind_ok _ _ _ _ _ Hname). eexists. reflexivity.
Qed.

(** Claim C8, amended: when the entry that follows [k] applied entries of
    an update is malformed (its index, sent in full or as the next one,
    overflows the table; its name refers to a slot of the history that
    holds no name; or it shares more characters with that name than the
    name has), the update stops there: the string tables are as the [k]
    entries before made them, which are not taken back, the cursor is at
    the end of the message and the log has one more warning.  No string
    table other than the one updated differs from what it was before the
    first entry. *)
Theorem malformed_update_keeps_earlier_entries tableID dataEnd table n k entryIndex history
    d i h d1 d2 msg :
  (k < n)%nat ->
  applied tableID dataEnd table k entryIndex history d i h d1 ->
  malformed tableID table i h d1 d2 msg ->
  let d' := Demo.seek (Demo.warn d2 msg) dataEnd in
  entriesLoop tableID dataEnd table n entryIndex history d = Ok (Returned, d') /\
  Demo.stringTables d' = Demo.stringTables d1 /\
  DemoBuffer.cursor (Demo.buf d') = dataEnd /\
  Demo.log d' = Demo.log d1 ++ [msg] /\
  otherTables tableID d d'.
Proof.
  intros Hk Happlied Hmal d'.
  assert (Hrun : entriesLoop tableID dataEnd table n entryIndex history d = Ok (Returned, d')).
  { revert n Hk. induction Happlied as [entryIndex history d|k entryIndex history d i1 h1 d1' i h d1 Hc _ IH];
      intros n Hk; (destruct n as [|n]; [lia|]); simpl.
    - destruct (malformed_gives_up _ dataEnd _ _ _ _ _ _ Hmal) as (_ & x & Hx).
      rewrite (bind_ok _ _ _ _ _ Hx). reflexivity.
    - rewrite (bind_ok _ _ _ _ _ Hc). apply IH; [assumption|lia]. }
  split; [exact Hrun|].
  destruct (malformed_gives_up _ dataEnd _ _ _ _ _ _ Hmal) as (((Ht & _) & _ & Hl) & _).
  split; [exact Ht|]. split; [reflexivity|]. split; [simpl; rewrite Hl; reflexivity|].
  eapply entriesLoop_otherTables, Hrun.
Qed.

Lemma malformed_update_keeps_earlier_entries_witness :
  let d := Demo.seek (ExampleSchema.withTables ExampleSchema.updateMissingHistory) 43 in
  let table := ExampleSchema.table "soundprecache" [] in
  exists d1 d',
    map StringTableEntry.entryName (entriesOf d 0) = ["a"; "b"]%string /\
    map StringTableEntry.entryName (entriesOf d1 0) = ["hello"; "b"]%string /\
    entriesLoop 0 242 table 2 (-1) [] d = Ok (Returned, d') /\
    Demo.stringTables d' = Demo.stringTables d1 /\
    DemoBuffer.cursor (Demo.buf d') = 242 /\
    Demo.log d'
      = Demo.log d1
        ++ ["Tried to retrieve non-existent entry from string table update history."]
           %string /\
    otherTables 0 d d'.
Proof.
  intros d table.
  pose (d1 := match changedEntry 0 242 table (-1) [] d with
              | Ok (_, d1) => d1
              | Throw _ => d
              end).
  assert (Hfirst : changedEntry 0 242 table (-1) [] d
                   = Ok ((Completed, (0, ["hello"%string])), d1))
    by (vm_compute; reflexivity).
  exists d1. eexists. split; [reflexivity|]. split; [vm_compute; reflexivity|].
  eapply (malformed_update_keeps_earlier_entries 0 242 table 2 1 (-1) [] d 0
            ["hello"%string] d1).
  - lia.
  - eapply applied_next; [exact Hfirst|apply applied_none].
  - eapply (MissingHistory 0 table 0 ["hello"%string] d1 1 _ 5).
    + vm_compute. reflexivity.
    + vm_compute. discriminate.
    + eexists _, _, _, _. repeat split; vm_compute; reflexivity.
    + reflexivity.
Defined.

(** An index sent in full that overflows the table is given up on as
    well. *)
Example explicit_index_overflow :
  let table := ExampleSchema.table "soundprecache" [] in
  let d :=
    ExampleSchema.withTables (ExampleSchema.pack [(1, 0); (6, 7); (1, 1); (1, 0)]) in
  exists d1,
    malformed 0 table (-1) [] d d1 "Overflowed string table size when parsing update." /\
    entriesLoop 0 242 table 1 (-1) [] d
      = Ok (Returned,
            Demo.seek (Demo.warn d1 "Overflowed string table size when parsing update.")
              242) /\
    DemoBuffer.cursor (Demo.buf d1) = 7.
Proof.
  intros table d. eexists. split; [|split].
  - eapply (IndexOverflow 0 table (-1) [] d 7). + vm_compute. reflexivity. + vm_compute. reflexivity.
  - vm_compute. reflexivity.
  - reflexivity.
Qed.

(** Claim C8 as stated fails: the first entry of the update is applied,
    the second refers to a slot of the history that holds nothing, and the
    table keeps the first entry. *)
Lemma update_not_rolled_back :
  let d := ExampleSchema.withTables ExampleSchema.updateMissingHistory in
  (exists m d',
     new d = Ok (m, d') /\
     Demo.log d'
       = ["Tried to retrieve non-existent entry from string table update history."]
         %string /\
     DemoBuffer.cursor (Demo.buf d') = 242 /\
     map StringTableEntry.entryName (entriesOf d 0) = ["a"; "b"]%string /\
     map StringTableEntry.entryName (entriesOf d' 0) = ["hello"; "b"]%string /\
     map StringTableEntry.entryName (entriesOf d' 1) = ["c"]%string) /\
  ~ (forall tableID dataEnd table n entryIndex history d d',
       entriesLoop tableID dataEnd table n entryIndex history d = Ok (Returned, d') ->
       Demo.stringTables d' = Demo.stringTables d).
Proof.
  split.
  - eexists _, _. split; [vm_compute; reflexivity|]. vm_compute. repeat split.
  - intros H.
    specialize (H 0 242 (ExampleSchema.table "soundprecache" []) 2%nat (-1) []
                  (Demo.seek (ExampleSchema.withTables ExampleSchema.updateMissingHistory)
                     43)).
    specialize (H _ ltac:(vm_compute; reflexivity)). vm_compute in H. discriminate H.
Qed.

(** The history of an update: at most 32 names, the oldest leaving first. *)
Lemma pushHistory_room history entryName :
  (length history < 32)%nat -> pushHistory history entryName = history ++ [entryName].
Proof.
  intros H. unfold pushHistory.
  destruct (Nat.eqb_spec (length history) 32); [lia|reflexivity].
Qed.

Lemma pushHistory_full oldest history entryName :
  length (oldest :: history) = 32%nat ->
  pushHistory (oldest :: history) entryName = history ++ [entryName].
Proof.
  intros H. unfold pushHistory.
  destruct (Nat.eqb_spec (length (oldest :: history)) 32); [reflexivity|contradiction].
Qed.

Lemma pushHistory_length history entryName :
  (length history <= 32)%nat -> (length (pushHistory history entryName) <= 32)%nat.
Proof.
  intros H. unfold pushHistory.
  destruct (Nat.eqb_spec (length history) 32) as [He|Hne];
    rewrite length_app; simpl; [rewrite length_drop|]; lia.
Qed.

(** A name sent in full, and a name compressed against a name of the
    history that is not the empty name. *)
Lemma readEntryName_plain dataEnd history d d1 d2 d3 entryName :
  nextBit d = Ok (1, d1) -> nextBit d1 = Ok (0, d2) ->
  nextNullTerminatedString d2 = Ok (entryName, d3) ->
  readEntryName dataEnd history d = Ok ((Completed, entryName), d3).
Proof.
  intros H1 H2 H3. unfold readEntryName.
  rewrite (bind_ok _ _ _ _ _ H1). simpl.
  rewrite (bind_ok _ _ _ _ _ H2). simpl.
  rewrite (bind_ok _ _ _ _ _ H3). reflexivity.
Qed.

(** A name compressed against a name of the history that is not the
    empty name decodes to the shared prefix of that name followed by the
    suffix sent. *)
Lemma readEntryName_compressed dataEnd history d d1 d2 d3 d4 d5 historyIndex historyItem
    substringLength suffix :
  nextBit d = Ok (1, d1) -> nextBit d1 = Ok (1, d2) ->
  nextInt 5 d2 = Ok (historyIndex, d3) ->
  JS.index history historyIndex = Some historyItem ->
  historyItem <> EmptyString ->
  nextInt 5 d3 = Ok (substringLength, d4) ->
  substringLength <= Z.of_nat (String.length historyItem) ->
  nextNullTerminatedString d4 = Ok (suffix, d5) ->
  readEntryName dataEnd history d
    = Ok ((Completed,
           (substring 0 (Z.to_nat substringLength) historyItem ++ suffix)%string), d5).
Proof.
  intros H1 H2 H3 Hi Hne H4 Hlen H5. unfold readEntryName.
  rewrite (bind_ok _ _ _ _ _ H1). simpl.
  rewrite (bind_ok _ _ _ _ _ H2). simpl.
  rewrite (bind_ok _ _ _ _ _ H3), Hi.
  destruct historyItem as [|c rest]; [contradiction|].
  rewrite (bind_ok _ _ _ _ _ H4).
  destruct (_ <? _) eqn:Hlt; [lia|].
  rewrite (bind_ok _ _ _ _ _ H5). reflexivity.
Qed.

(** Claim C7 on the empty name: an entry sent without a name puts the
    empty name into the history; a later name compressed against it, with
    a shared prefix of length 0 and the suffix [xy], is not decoded to
    [xy], as the same name sent in full is: the update is given up on as
    if the history held nothing there. *)
Lemma empty_history_name_not_decoded :
  let warning :=
    "Tried to retrieve non-existent entry from string table update history."%string in
  pushHistory [] EmptyString = [EmptyString] /\
  JS.index [EmptyString] 0 = Some EmptyString /\
  (exists d',
     readEntryName 100 [EmptyString]
       (ExampleSchema.blob (ExampleSchema.compressedName 0 0 "xy"))
       = Ok ((Returned, EmptyString), d') /\
     Demo.log d' = [warning]) /\
  (exists d',
     readEntryName 100 [EmptyString] (ExampleSchema.blob (ExampleSchema.plainName "xy"))
       = Ok ((Completed, "xy"%string), d') /\
     Demo.log d' = []) /\
  (exists m d',
     new (ExampleSchema.withTables ExampleSchema.updateEmptyHistoryName) = Ok (m, d') /\
     Demo.log d' = [warning] /\
     map StringTableEntry.entryName (entriesOf d' 0) = ["a"; "b"]%string).
Proof.
  repeat split.
  - eexists. split; [vm_compute; reflexivity|reflexivity].
  - eexists. split; [vm_compute; reflexivity|reflexivity].
  - eexists _, _. split; [vm_compute; reflexivity|]. split; reflexivity.
Qed.

End SvcUpdateStringTableFacts.

(** ** Entering visibility *)

Module EntityStoreFacts.
Import EntityStore FrameFacts.
Local Open Scope js_scope.

Lemma arrayGet_arrayStore {A} (l : list (option A)) i (v : A) :
  0 <= i -> JS.arrayGet (JS.arrayStore l i v) i = Some v.
Proof.
  intros Hi. unfold JS.arrayGet, JS.arrayStore, JS.index.
  destruct (Z.ltb_spec i 0); [lia|].
  destruct (Nat.ltb_spec (Z.to_nat i) (length l)) as [Hlt|Hge].
  - rewrite list_lookup_insert_eq by assumption. reflexivity.
  - rewrite lookup_app_r by lia. rewrite lookup_app_r by (rewrite length_replicate; lia).
    rewrite length_replicate, Nat.sub_diag. reflexivity.
Qed.

Lemma arrayGet_arrayStore_ne {A} (l : list (option A)) i j (v : A) :
  0 <= i -> 0 <= j -> i <> j -> JS.arrayGet (JS.arrayStore l i v) j = JS.arrayGet l j.
Proof.
  intros Hi Hj Hne. unfold JS.arrayGet, JS.arrayStore, JS.index.
  destruct (Z.ltb_spec i 0); [lia|]. destruct (Z.ltb_spec j 0); [lia|].
  destruct (Nat.ltb_spec (Z.to_nat i) (length l)) as [Hlt|Hge].
  - rewrite list_lookup_insert_ne by lia. reflexivity.
  - destruct (Nat.lt_ge_cases (Z.to_nat j) (length l)) as [Hjl|Hjl].
    + rewrite lookup_app_l by assumption. reflexivity.
    + rewrite (lookup_ge_None_2 l) by assumption.
      rewrite lookup_app_r by assumption.
      destruct (Nat.lt_ge_cases (Z.to_nat j) (Z.to_nat i)) as [Hji|Hji].
      * rewrite lookup_app_l by (rewrite length_replicate; lia).
        rewrite lookup_replicate_2 by lia. reflexivity.
      * rewrite lookup_app_r by (rewrite length_replicate; lia).
        rewrite length_replicate.
        destruct (Z.to_nat j - length l - (Z.to_nat i - length l))%nat as [|n] eqn:Hn;
          [lia|reflexivity].
Qed.

(** The entity of [fromBaseline] bears the serial, the index and the
    class it is given. *)
Lemma fromBaseline_fields serverClass serial index d entity d0 :
  fromBaseline serverClass serial index d = Ok (entity, d0) ->
  Entity.serverClass entity = serverClass /\ Entity.serial entity = serial /\
  Entity.index entity = index /\ Entity.inPVS entity = true /\
  Demo.heap d0 = Demo.heap d /\ Demo.entities d0 = Demo.entities d.
Proof.
  unfold fromBaseline. intros H.
  destruct (JS.arrayGet (Demo.baselines d) _) as [baseline|] eqn:Hb;
    destruct (foldl _ _ _) as [props|]; try discriminate H;
    injection H as <- <-; repeat split.
Qed.

(** [applyDelta] on the entity at address [loc] of the slot. *)
Lemma applyDelta_occupant index properties d entities loc entity props :
  Demo.entities d = Some entities ->
  occupant d entities index = Some (loc, entity) ->
  applyDelta_properties (Entity.properties entity) properties = Ok props ->
  applyDelta index properties d
    = Ok (tt, Demo.setHeap d (<[loc := withProperties entity props]> (Demo.heap d))).
Proof.
  intros He Ho Hp. unfold applyDelta. rewrite He, Ho, Hp. reflexivity.
Qed.

Lemma occupant_heap d entities index loc entity :
  occupant d entities index = Some (loc, entity) ->
  JS.arrayGet entities index = Some loc /\ Demo.heap d !! loc = Some entity.
Proof.
  unfold occupant. destruct (JS.arrayGet entities index) as [l|]; [|discriminate].
  destruct (Demo.heap d !! l) eqn:Hl; [|discriminate].
  intros [= <- <-]. split; [reflexivity|assumption].
Qed.

Lemma copyArrayProperty_same p :
  isArrayProperty p = true -> copyArrayProperty p = Ok p.
Proof.
  unfold isArrayProperty, copyArrayProperty. intros ->. destruct p; reflexivity.
Qed.

(** The copy loop of [fromBaseline] rebuilds the array it goes over. *)
Lemma fromBaseline_copy_same props : forall acc,
  foldl (fun (acc : res (list (option EntityProperty.t))) property =>
           match acc with
           | Throw e => Throw e
           | Ok newProperties =>
               match property with
               | Some p =>
                   if isArrayProperty p then
                     match copyArrayProperty p with
                     | Ok c => Ok (newProperties ++ [Some c])
                     | Throw e => Throw e
                     end
                   else Ok (newProperties ++ [property])
               | None => Ok (newProperties ++ [property])
               end
           end) (Ok acc) props = Ok (acc ++ props).
Proof.
  induction props as [|p props IH]; intros acc; simpl; [rewrite app_nil_r; reflexivity|].
  replace (acc ++ p :: props) with ((acc ++ [p]) ++ props)
    by (rewrite <- app_assoc; reflexivity).
  destruct p as [p|]; [|apply IH].
  destruct (isArrayProperty p) eqn:Harr; [|apply IH].
  rewrite (copyArrayProperty_same p Harr). apply IH.
Qed.

(** With a baseline for its class, an entity starts from the properties of
    the baseline. *)
Lemma fromBaseline_stored serverClass serial index d baseline :
  JS.arrayGet (Demo.baselines d) (ServerClass.tableID serverClass) = Some baseline ->
  fromBaseline serverClass serial index d
    = Ok (Entity.mk serverClass (StaticBaseline.entityProperties baseline)
            serial index true true, d).
Proof.
  intros Hget. unfold fromBaseline. rewrite Hget.
  rewrite fromBaseline_copy_same. reflexivity.
Qed.

(** One turn of the loop of [applyDelta] stores at the index of the
    property. *)
Lemma applyDelta_step props p props1 :
  applyDelta_properties props [p] = Ok props1 ->
  exists q, props1 = JS.arrayStore props (EntityProperty.index p) q /\
            (isArrayProperty p = false -> q = p).
Proof.
  unfold applyDelta_properties. simpl. intros H.
  destruct (isArrayProperty p) eqn:Harr.
  - destruct (JS.arrayGet props (EntityProperty.index p)) as [old|].
    + destruct (updateArrayProperty p old) as [o|]; [|discriminate].
      injection H as <-. eexists. split; [reflexivity|discriminate].
    + destruct (copyArrayProperty p) as [c|]; [|discriminate].
      injection H as <-. eexists. split; [reflexivity|discriminate].
  - injection H as <-. eexists. split; reflexivity.
Qed.

Lemma applyDelta_properties_app props delta1 delta2 :
  applyDelta_properties props (delta1 ++ delta2)
    = match applyDelta_properties props delta1 with
      | Ok props1 => applyDelta_properties props1 delta2
      | Throw e => Throw e
      end.
Proof.
  unfold applyDelta_properties. rewrite foldl_app.
  destruct (foldl _ (Ok props) delta1) as [props1|e]; [reflexivity|].
  induction delta2 as [|p delta2 IH]; [reflexivity|exact IH].
Qed.

Lemma applyDelta_properties_cons props p delta :
  applyDelta_properties props (p :: delta)
    = match applyDelta_properties props [p] with
      | Ok props1 => applyDelta_properties props1 delta
      | Throw e => Throw e
      end.
Proof. apply (applyDelta_properties_app props [p] delta). Qed.







(** The scenario of claim C3, through the messages: an entity enters
    slot 4 with serial 7; an entity then enters slot 4 with serial 9.  The
    second update is a new entity, at an address of its own, and the
    entity of serial 7 is as it was. *)
Lemma enter_slot_4_serial_7_then_9 :
  let message head serial :=
    DemoBuffer.mk
      (ExampleSchema.pack (head ++ ExampleSchema.near 4 ++ ExampleSchema.enter serial)) 0 in
  let d :=
    Demo.setBuf (ExampleSchema.withEntities [] [] None)
      (message ExampleSchema.snapshotHead 7) in
  exists m1 d1 m2 d2 entities2,
    SvcPacketEntities.new d = Ok (m1, d1) /\
    Demo.heap d1 = [Entity.mk ExampleSchema.CBase [] 7 4 true true] /\
    SvcPacketEntities.new (Demo.setBuf d1 (message ExampleSchema.deltaHead 9))
      = Ok (m2, d2) /\
    SvcPacketEntities.updates m2 = [EntityEnterPVS ExampleSchema.CBase 4 [] 9 true] /\
    Demo.heap d2 = Demo.heap d1 ++ [Entity.mk ExampleSchema.CBase [] 9 4 true true] /\
    Demo.entities d2 = Some entities2 /\
    occupant d2 entities2 4 = Some (1%nat, Entity.mk ExampleSchema.CBase [] 9 4 true true).
Proof.
  eexists _, _, _, _, _. split; [vm_compute; reflexivity|].
  split; [reflexivity|]. split; [vm_compute; reflexivity|]. repeat split.
Qed.

End EntityStoreFacts.

(** ** The entity updates of a snapshot *)

Module SvcPacketEntitiesFacts.
Import EntityStore SvcPacketEntities FrameFacts.
Local Open Scope js_scope.

Lemma giveUp_gaveUp {A} dataEnd msg (x : A) d0 d r d' :
  quiet d0 d -> giveUp dataEnd msg x d = Ok (r, d') ->
  r = (Returned, x) /\ gaveUp dataEnd d0 d'.
Proof.
  intros (Hf & Hb & Hl) H. injection H as <- <-. split; [reflexivity|].
  destruct Hf as (Ht & (Hh & He) & (H1 & H2 & H3 & H4) & Hbytes).
  repeat split; simpl; try assumption. eexists. rewrite Hl. reflexivity.
Qed.

(** An update either completes with the update it applied, or gives up. *)
Lemma entityUpdate_cases dataEnd serverClasses parserClasses index d r d' :
  entityUpdate dataEnd serverClasses parserClasses index d = Ok (r, d') ->
  (exists i u, r = (Completed, Some (i, u))) \/
  (r = (Returned, None) /\ gaveUp dataEnd d d').
Proof.
  unfold entityUpdate. intros H. cbv zeta in H.
  inv_bind H as delta d1 H1. apply quiet_nextBitInt in H1.
  inv_bind H as d0 d1' H0. injection H0 as <- <-.
  destruct (Demo.entities d1) as [entities|]; [|discriminate].
  destruct (_ || _); [right; eapply giveUp_gaveUp; eassumption|].
  inv_bind H as updateType d2 H2. apply quiet_nextInt in H2.
  assert (Hq : quiet d d2) by (eapply quiet_trans; eassumption).
  destruct (updateType =? 0).
  { destruct (occupant _ entities _) as [[loc entity]|];
      [|right; eapply giveUp_gaveUp; eassumption].
    destruct (JS.index parserClasses _) as [parserClass|];
      [|right; eapply giveUp_gaveUp; eassumption].
    inv_bind H. inv_bind H. injection H as <- _. left. eexists _, _. reflexivity. }
  destruct (updateType =? 2).
  { inv_bind H as tableID d3 H3. apply quiet_nextInt in H3.
    inv_bind H as serial d4 H4. apply quiet_nextInt in H4.
    destruct (JS.index parserClasses _) as [parserClass|].
    - inv_bind H. inv_bind H. injection H as <- _. left. eexists _, _. reflexivity.
    - right. eapply giveUp_gaveUp; [|eassumption].
      eauto using quiet_trans. }
  destruct (_ || _); [|right; eapply giveUp_gaveUp; eassumption].
  destruct (occupant _ entities _) as [[loc entity]|];
    [|right; eapply giveUp_gaveUp; eassumption].
  inv_bind H. injection H as <- _. left. eexists _, _. reflexivity.
Qed.


(** A loop that is left gave up on one update, after the updates before
    it were applied. *)
Lemma updatesLoop_returned dataEnd serverClasses parserClasses n : forall index updates d us d',
  updatesLoop dataEnd serverClasses parserClasses n index updates d
    = Ok ((Returned, us), d') ->
  exists (k : nat) d1,
    (k < n)%nat /\
    updatesLoop dataEnd serverClasses parserClasses k index updates d
      = Ok ((Completed, us), d1) /\
    gaveUp dataEnd d1 d'.
Proof.
  induction n as [|n IH]; intros index updates d us d' H; simpl in H; [discriminate|].
  inv_bind H as r d1 Hr.
  destruct (entityUpdate_cases _ _ _ _ _ _ _ Hr) as [(i & u & ->)|[-> Hg]].
  - destruct (IH _ _ _ _ _ H) as (k & d2 & Hk & Hl & Hg).
    exists (S k), d2. split; [lia|]. split; [|exact Hg].
    simpl. rewrite (bind_ok _ _ _ _ _ Hr). exact Hl.
  - injection H as <- <-. exists O, d. split; [lia|]. split; [reflexivity|exact Hg].
Qed.

(** However the constructor returns, the cursor is at the end of the
    message. *)
Lemma body_cursor message dataEnd d m d' :
  body message dataEnd d = Ok (m, d') -> DemoBuffer.cursor (Demo.buf d') = dataEnd.
Proof.
  assert (Hend : forall (x : t) d0,
            (setCursor dataEnd ;;; ret x) d0 = Ok (m, d') ->
            DemoBuffer.cursor (Demo.buf d') = dataEnd).
  { intros x d0 H. injection H as _ <-. reflexivity. }
  assert (Hwarn : forall msg (x : t) d0,
            (warn msg ;;; setCursor dataEnd ;;; ret x) d0 = Ok (m, d') ->
            DemoBuffer.cursor (Demo.buf d') = dataEnd).
  { intros msg x d0 H. injection H as _ <-. reflexivity. }
  unfold body. intros H. cbv zeta in H.
  inv_bind H as d0 d0' H0. injection H0 as <- <-.
  destruct (Demo.dataTables d); [|eapply Hwarn, H].
  destruct (Demo.serverClasses d) as [serverClasses|]; [|eapply Hwarn, H].
  destruct (Demo.parserClasses d) as [parserClasses|]; [|eapply Hwarn, H].
  destruct (match deltaFrom (message []) with Some _ => _ | None => _ end);
    [eapply Hwarn, H|].
  inv_bind H as u d1 H1. inv_bind H as d1' d1'' H1'. injection H1' as <- <-.
  destruct (Demo.entities d1); [|eapply Hwarn, H].
  inv_bind H as r d2 H2. destruct r as [[] updates].
  - inv_bind H as updates' d3 H3. eapply Hend, H.
  - injection H as _ <-.
    destruct (updatesLoop_returned _ _ _ _ _ _ _ _ _ H2) as (k & d3 & _ & _ & Hg).
    apply Hg.
Qed.

(** An update whose index falls below 0 or above the number of slots is
    given up on: a warning, the cursor at the end of the message, and
    nothing else. *)
Lemma entityUpdate_out_of_range dataEnd serverClasses parserClasses index d delta d1
    entities :
  nextBitInt d = Ok (delta, d1) ->
  Demo.entities d = Some entities ->
  index + (delta + 1) < 0 \/ Z.of_nat (length entities) < index + (delta + 1) ->
  entityUpdate dataEnd serverClasses parserClasses index d
    = Ok ((Returned, None),
          Demo.seek (Demo.warn d1 "Entity update index overflowed.") dataEnd).
Proof.
  intros H1 He Hrange. unfold entityUpdate.
  rewrite (bind_ok _ _ _ _ _ H1). cbv zeta. unfold bind at 1, get.
  destruct (quiet_nextBitInt _ _ _ H1) as ((_ & (_ & He1) & _) & _). rewrite He1, He.
  destruct (_ || _) eqn:Hc; [reflexivity|].
  apply orb_false_iff in Hc as [Hc1 Hc2]. lia.
Qed.

(** A delta for a slot that holds no entity is given up on. *)
Lemma entityUpdate_delta_absent dataEnd serverClasses parserClasses index d delta d1 d2
    entities :
  nextBitInt d = Ok (delta, d1) ->
  Demo.entities d = Some entities ->
  0 <= index + (delta + 1) <= Z.of_nat (length entities) ->
  nextInt 2 d1 = Ok (0, d2) ->
  occupant d entities (index + (delta + 1)) = None ->
  entityUpdate dataEnd serverClasses parserClasses index d
    = Ok ((Returned, None),
          Demo.seek (Demo.warn d2 "Tried to apply delta to non-existent entity.") dataEnd).
Proof.
  intros H1 He Hrange H2 Ho. unfold entityUpdate.
  rewrite (bind_ok _ _ _ _ _ H1). cbv zeta. unfold bind at 1, get.
  destruct (quiet_nextBitInt _ _ _ H1) as ((_ & (Hh1 & He1) & _) & _). rewrite He1, He.
  destruct (_ || _) eqn:Hc; [apply orb_true_iff in Hc as [Hc|Hc]; lia|].
  rewrite (bind_ok _ _ _ _ _ H2). simpl.
  unfold occupant in *. rewrite Hh1. rewrite Ho. reflexivity.
Qed.

(** A slot removed by a deletion is empty. *)
Lemma leavePVS_delete_empties index d d' :
  leavePVS index true d = Ok (tt, d') ->
  exists entities', Demo.entities d' = Some entities' /\ occupant d' entities' index = None.
Proof.
  unfold leavePVS. intros H. inv_bind H as d0 d0' H0. injection H0 as <- <-.
  destruct (Demo.entities d) as [entities|]; [|discriminate].
  injection H as <-. eexists. split; [reflexivity|].
  unfold occupant, JS.arrayGet, JS.arrayDelete, JS.index.
  destruct (index <? 0); [reflexivity|].
  destruct (Nat.lt_ge_cases (Z.to_nat index) (length entities)).
  - rewrite list_lookup_insert_eq by assumption. reflexivity.
  - rewrite lookup_ge_None_2 by (rewrite length_insert; assumption). reflexivity.
Qed.

(** The two bits of the update type are one of the four types: the
    [default] branch of the [switch] is never taken. *)
Lemma updateType_known d updateType d' :
  DemoBuffer.wf (Demo.buf d) -> 0 <= DemoBuffer.cursor (Demo.buf d) ->
  nextInt 2 d = Ok (updateType, d') ->
  updateType = 0 \/ updateType = 1 \/ updateType = 2 \/ updateType = 3.
Proof.
  intros Hwf Hc H. apply ReaderFacts.nextInt_inv in H as [-> _]; [|lia].
  pose proof (DemoBufferFacts.field_range (Demo.buf d) _ 2 Hwf Hc ltac:(lia)). lia.
Qed.


(** A deletion of slot 4 in one message, a delta against slot 4 in the
    next: the delta is given up on with a warning, and the constructor
    returns with the cursor at the end of the message. *)
Lemma delta_after_delete_reported :
  let occupant7 := Entity.mk ExampleSchema.CBase [] 7 4 true true in
  let message fields := DemoBuffer.mk (ExampleSchema.pack (ExampleSchema.deltaHead ++ fields)) 0 in
  let d :=
    Demo.setBuf
      (ExampleSchema.withEntities [] [occupant7] (Some (JS.arrayStore newEntities 4 0%nat)))
      (message (ExampleSchema.near 4 ++ ExampleSchema.delete)) in
  exists m1 d1 m2 d2,
    new d = Ok (m1, d1) /\
    updates m1 = [EntityLeavePVS ExampleSchema.CBase 4 true] /\
    new (Demo.setBuf d1 (message (ExampleSchema.near 4 ++ ExampleSchema.delta)))
      = Ok (m2, d2) /\
    updates m2 = [] /\
    Demo.log d2 = ["Tried to apply delta to non-existent entity."]%string /\
    DemoBuffer.cursor (Demo.buf d2) = 177.
Proof.
  eexists _, _, _, _. split; [vm_compute; reflexivity|].
  split; [reflexivity|]. split; [vm_compute; reflexivity|]. repeat split.
Qed.

(** Claim C4 on an index one past the last slot: a full snapshot makes
    2048 slots, numbered from 0; an enter-visibility update whose index is
    2048 is not given up on: no warning is issued, the update is applied
    and the slots grow to 2049.  The index 2049 is given up on. *)
Lemma index_one_past_last_slot_accepted :
  let snapshot gap :=
    ExampleSchema.withEntities
      (ExampleSchema.pack
         (ExampleSchema.snapshotHead ++ ExampleSchema.far gap ++ ExampleSchema.enter 7))
      [] None in
  length newEntities = 2048%nat /\
  (exists m d',
     new (snapshot 2048) = Ok (m, d') /\
     updates m = [EntityEnterPVS ExampleSchema.CBase 2048 [] 7 true] /\
     Demo.log d' = [] /\
     length <$> Demo.entities d' = Some 2049%nat /\
     DemoBuffer.cursor (Demo.buf d') = 145) /\
  (exists m d',
     new (snapshot 2049) = Ok (m, d') /\
     updates m = [] /\
     Demo.log d' = ["Entity update index overflowed."]%string /\
     length <$> Demo.entities d' = Some 2048%nat /\
     DemoBuffer.cursor (Demo.buf d') = 145).
Proof.
  split; [reflexivity|]. split.
  - eexists _, _. split; [vm_compute; reflexivity|]. repeat split.
  - eexists _, _. split; [vm_compute; reflexivity|]. repeat split.
Qed.

End SvcPacketEntitiesFacts.

(** ** Writing a property *)

Module PropertyWriterFacts.
Import PropertyWriter DataTablePropertyFlag.

(** *** The writers patch in place *)

Lemma sameShape_refl buf : sameShape buf buf.
Proof. split; reflexivity. Qed.

Lemma sameShape_setBit buf b a v : sameShape buf b -> sameShape buf (DemoBuffer.setBit b a v).
Proof.
  intros [Hl Hc]. split.
  - rewrite DemoBufferFacts.setBit_length. assumption.
  - unfold DemoBuffer.setBit. destruct v; simpl; assumption.
Qed.

Lemma sameShape_setInt_loop buf from value n : forall i b,
  sameShape buf b -> sameShape buf (DemoBuffer.setInt_loop from value n i b).
Proof.
  induction n as [|n IH]; intros i b Hb; simpl; [assumption|].
  apply IH, sameShape_setBit, Hb.
Qed.

Lemma sameShape_bufferSetInt buf b from size value :
  sameShape buf b -> sameShape buf (DemoBuffer.setInt b from size value).
Proof. apply sameShape_setInt_loop. Qed.

Lemma sameShape_setInt buf b from size value :
  sameShape buf b -> sameShape buf (setInt b from size value).
Proof. apply sameShape_bufferSetInt. Qed.

Lemma sameShape_setSignedInt buf b from size value :
  sameShape buf b -> sameShape buf (setSignedInt b from size value).
Proof. apply sameShape_setInt. Qed.

Lemma sameShape_setFloat buf b from value :
  sameShape buf b -> sameShape buf (DemoBuffer.setFloat b from value).
Proof. apply sameShape_bufferSetInt. Qed.

Create HintDb shape.
#[export] Hint Resolve sameShape_refl sameShape_setBit sameShape_setInt
  sameShape_setSignedInt sameShape_setFloat sameShape_bufferSetInt : shape.

Lemma sameShape_setFromInt this buf b value localOffset :
  sameShape buf b -> sameShape buf (snd (setFromInt this b value localOffset)).
Proof.
  intros Hb. unfold setFromInt. destruct (hasFlag _ _); simpl; auto with shape.
Qed.

Lemma sameShape_setFromFloat this buf b value localOffset n b' :
  sameShape buf b -> setFromFloat this b value localOffset = Ok (n, b') ->
  sameShape buf b'.
Proof.
  intros Hb. unfold setFromFloat.
  destruct (DataTableProperty.value _); [|discriminate]. cbv zeta.
  repeat match goal with
         | |- context [if ?c then _ else _] => destruct c
         end;
    intros [= _ <-]; auto 10 with shape.
Qed.

Lemma sameShape_setFromVector this buf b vector localOffset n b' :
  sameShape buf b -> setFromVector this b vector localOffset = Ok (n, b') ->
  sameShape buf b'.
Proof.
  intros Hb. unfold setFromVector. cbv zeta.
  destruct (setFromFloat this b (Vector.x vector) 0) as [[n1 b1]|] eqn:H1; [|discriminate].
  apply (sameShape_setFromFloat _ _ _ _ _ _ _ Hb) in H1.
  match goal with |- context [setFromFloat this b1 ?x ?o] =>
    destruct (setFromFloat this b1 x o) as [[n2 b2]|] eqn:H2; [|discriminate] end.
  apply (sameShape_setFromFloat _ _ _ _ _ _ _ H1) in H2.
  destruct (_ =? _); [intros [= _ <-]; assumption|].
  destruct (hasFlag _ _); [intros [= _ <-]; auto with shape|].
  match goal with |- context [setFromFloat this b2 ?x ?o] =>
    destruct (setFromFloat this b2 x o) as [[n3 b3]|] eqn:H3; [|discriminate] end.
  apply (sameShape_setFromFloat _ _ _ _ _ _ _ H2) in H3.
  intros [= _ <-]. assumption.
Qed.

Lemma sameShape_setFromString_loop buf value n : forall i b,
  sameShape buf b -> sameShape buf (setFromString_loop value n i b).
Proof.
  induction n as [|n IH]; intros i b Hb; simpl; [assumption|].
  apply IH. auto with shape.
Qed.

(** A read at an address does not depend on the cursor. *)
Lemma field_seek buf c from size :
  DemoBuffer.field (DemoBuffer.seek buf c) from size = DemoBuffer.field buf from size.
Proof.
  assert (Hloop : forall to n i out,
            DemoBuffer.getBitSlice_loop (DemoBuffer.seek buf c) from to n i out
              = DemoBuffer.getBitSlice_loop buf from to n i out).
  { intros to n. induction n as [|n IH]; intros i out; simpl; [reflexivity|].
    destruct (i <? to); [|reflexivity]. apply IH. }
  unfold DemoBuffer.field, DemoBuffer.getBitSlice_filled. rewrite Hloop. reflexivity.
Qed.

(** The field read after a write holds the low bits of the integer. *)
Lemma written_field buf from size value :
  DemoBuffer.wf buf -> 0 <= from -> 0 <= size <= 32 ->
  from + size <= DemoBuffer.bitLength buf ->
  DemoBuffer.field (DemoBuffer.setInt buf from size value) from size = value mod 2 ^ size.
Proof.
  intros Hwf Hfrom Hsize Hfit.
  destruct (DemoBufferFacts.setInt_spec buf from size value Hwf Hfrom Hsize)
    as (_ & _ & _ & Hb).
  destruct (DemoBufferFacts.setInt_spec buf from size (value mod 2 ^ size) Hwf Hfrom Hsize)
    as (Hw' & Hl' & _ & Hb').
  rewrite <- (DemoBufferFacts.getInt_setInt buf from size (value mod 2 ^ size));
    try assumption; [|apply Z.mod_pos_bound, Z.pow_pos_nonneg; lia].
  apply Z.bits_inj'. intros i Hi.
  assert (Hw : DemoBuffer.wf (DemoBuffer.setInt buf from size value)).
  { apply (DemoBufferFacts.setInt_spec buf from size value Hwf Hfrom Hsize). }
  rewrite !DemoBufferFacts.field_bits by (assumption || lia).
  destruct (Z.ltb_spec i size); [|reflexivity]. simpl.
  rewrite Hb, Hb' by lia. destruct (decide _); [|reflexivity].
  rewrite Z.mod_pow2_bits_low by lia. reflexivity.
Qed.

Lemma setFromString_returns this buf value localOffset :
  setFromString this buf value localOffset
    = Ok (DemoBuffer.field buf (EntityProperty.bufferFrom this + localOffset) 9 * 8 + 9,
          setFromString_loop value
            (Z.to_nat (DemoBuffer.field buf (EntityProperty.bufferFrom this + localOffset) 9))
            0 buf).
Proof.
  unfold setFromString. rewrite DemoBufferFacts.getInt_field by lia. reflexivity.
Qed.

Lemma sameShape_setValue this buf value buf' :
  setValue this buf value = Ok buf' -> sameShape buf buf'.
Proof.
  unfold setValue. cbv zeta. intros Hset.
  repeat match type of Hset with
         | context [if ?c then _ else _] => destruct c
         end;
    destruct value; try discriminate Hset.
  - injection Hset as <-. apply sameShape_setFromInt, sameShape_refl.
  - destruct (setFromFloat _ _ _ _) as [[k b1]|] eqn:H1; [|discriminate].
    injection Hset as <-. eapply sameShape_setFromFloat; [apply sameShape_refl|exact H1].
  - destruct (setFromVector _ _ _ _) as [[k b1]|] eqn:H1; [|discriminate].
    injection Hset as <-. eapply sameShape_setFromVector; [apply sameShape_refl|exact H1].
  - rewrite setFromString_returns in Hset. injection Hset as <-.
    apply sameShape_setFromString_loop, sameShape_refl.
Qed.

(** *** What [setValue] returns *)


Lemma setFromFloat_returns this buf value localOffset v :
  DataTableProperty.value (FlatProperty.baseProperty (EntityProperty.property this)) = Some v ->
  exists n buf', setFromFloat this buf value localOffset = Ok (n, buf').
Proof.
  intros Hv. unfold setFromFloat. rewrite Hv.
  repeat match goal with |- context [if ?c then _ else _] => destruct c end;
    eexists _, _; reflexivity.
Qed.

Lemma setFromVector_returns this buf vector localOffset v :
  DataTableProperty.value (FlatProperty.baseProperty (EntityProperty.property this)) = Some v ->
  exists n buf', setFromVector this buf vector localOffset = Ok (n, buf').
Proof.
  intros Hv. unfold setFromVector.
  destruct (setFromFloat_returns this buf (Vector.x vector) 0 v Hv) as (n1 & b1 & ->).
  destruct (setFromFloat_returns this b1 (Vector.y vector)
              (EntityProperty.bufferFrom this + localOffset + n1
               - (EntityProperty.bufferFrom this + localOffset)) v Hv) as (n2 & b2 & H2).
  cbv zeta. rewrite H2.
  destruct (_ =? _); [eexists _, _; reflexivity|].
  destruct (DataTableProperty.hasFlag _ _); [eexists _, _; reflexivity|].
  match goal with |- context [setFromFloat this b2 ?x ?o] =>
    destruct (setFromFloat_returns this b2 x o v Hv) as (n3 & b3 & ->) end.
  eexists _, _; reflexivity.
Qed.

(** A value of a shape that does not fit the type of the property is
    thrown back. *)
Lemma setValue_wrong_shape this buf value :
  shapeFits (DataTableProperty.type
               (FlatProperty.baseProperty (EntityProperty.property this))) value = false ->
  setValue this buf value
    = Throw (ValueNotSupported value (FlatProperty.name (EntityProperty.property this))).
Proof.
  unfold shapeFits, setValue. cbv zeta. intros H.
  destruct value; simpl in H;
    repeat match goal with |- context [if ?c then _ else _] => destruct c eqn:? end;
    simpl in *; try reflexivity; try discriminate.
Qed.

Lemma setValue_returns this buf value :
  let base := FlatProperty.baseProperty (EntityProperty.property this) in
  shapeFits (DataTableProperty.type base) value = true ->
  DataTableProperty.value base <> None \/
  DataTableProperty.type base = DataTablePropertyType.Int \/
  DataTableProperty.type base = DataTablePropertyType.String ->
  exists buf', setValue this buf value = Ok buf'.
Proof.
  intros base Hfit Hdef. unfold setValue. cbv zeta. fold base.
  assert (Hfloat : forall x o, DataTableProperty.type base <> DataTablePropertyType.Int ->
            DataTableProperty.type base <> DataTablePropertyType.String ->
            exists n b, setFromFloat this buf x o = Ok (n, b)).
  { intros x o H1 H2. destruct Hdef as [Hdef|[Hdef|Hdef]]; try contradiction.
    destruct (DataTableProperty.value base) as [v|] eqn:Hv; [|contradiction].
    eapply setFromFloat_returns, Hv. }
  assert (Hvector : forall x o, DataTableProperty.type base <> DataTablePropertyType.Int ->
            DataTableProperty.type base <> DataTablePropertyType.String ->
            exists n b, setFromVector this buf x o = Ok (n, b)).
  { intros x o H1 H2. destruct Hdef as [Hdef|[Hdef|Hdef]]; try contradiction.
    destruct (DataTableProperty.value base) as [v|] eqn:Hv; [|contradiction].
    eapply setFromVector_returns, Hv. }
  destruct value as [x|s|v| | |]; simpl in Hfit; try discriminate Hfit.
  - apply orb_true_iff in Hfit as [H|H]; apply Z.eqb_eq in H; rewrite H in *; simpl.
    + eexists; reflexivity.
    + destruct (Hfloat x 0) as (n & b & ->); [discriminate..|]. eexists; reflexivity.
  - apply Z.eqb_eq in Hfit. rewrite Hfit. simpl. rewrite setFromString_returns.
    eexists; reflexivity.
  - apply orb_true_iff in Hfit as [H|H]; apply Z.eqb_eq in H; rewrite H in *; simpl;
      destruct (Hvector v 0) as (n & b & ->); try discriminate; eexists; reflexivity.
Qed.

(** An integer property takes the number through [ToInt32] into its
    field. *)
Lemma setValue_Int this buf n :
  DataTableProperty.type (FlatProperty.baseProperty (EntityProperty.property this))
    = DataTablePropertyType.Int ->
  setValue this buf (EntityProperty.VNumber n)
    = Ok ((if hasFlag (FlatProperty.baseProperty (EntityProperty.property this)) Unsigned
           then setInt else setSignedInt)
            buf (EntityProperty.bufferFrom this) (EntityProperty.bufferSize this) n).
Proof.
  intros Htype. unfold setValue. cbv zeta. rewrite Htype. simpl.
  unfold setFromInt. rewrite Z.add_0_r. destruct (hasFlag _ _); reflexivity.
Qed.

(** Claim C9, amended: [SetProperty] returns [false], with a warning,
    when the entity has no property of that name or no session behind it.
    When the value has the shape the type of the property asks for (a
    float or vector property needing its range) it patches the blob in
    place and returns [true]; for an integer property the patch is the
    number, taken through [ToInt32], written into the [bufferSize] bits
    at [bufferFrom], and [getInt] reads it back from an unsigned field
    that lies inside the blob.  A value of another shape is not reported
    through the boolean: what [setValue] throws leaves [SetProperty]
    uncaught. *)
Theorem SetProperty_outcomes e name value d :
  match findProperty e name with
  | None => exists msg, SetProperty e name value d = Ok (false, Demo.warn d msg)
  | Some property =>
      let base := FlatProperty.baseProperty (EntityProperty.property property) in
      let from := EntityProperty.bufferFrom property in
      let size := EntityProperty.bufferSize property in
      if negb (Entity.source e) then
        exists msg, SetProperty e name value d = Ok (false, Demo.warn d msg)
      else if shapeFits (DataTableProperty.type base) value then
        DataTableProperty.value base <> None \/
        DataTableProperty.type base = DataTablePropertyType.Int \/
        DataTableProperty.type base = DataTablePropertyType.String ->
        exists buf,
          SetProperty e name value d = Ok (true, Demo.setBuf d buf) /\
          sameShape (Demo.buf d) buf /\
          forall n,
            value = EntityProperty.VNumber n ->
            DataTableProperty.type base = DataTablePropertyType.Int ->
            buf = (if hasFlag base Unsigned then setInt else setSignedInt)
                    (Demo.buf d) from size n /\
            (hasFlag base Unsigned = true ->
             DemoBuffer.wf (Demo.buf d) -> 0 <= from -> 0 <= size <= 32 ->
             from + size <= DemoBuffer.bitLength (Demo.buf d) ->
             DemoBuffer.getInt buf from size = Some (JSNumber.toInt32 n mod 2 ^ size))
      else
        SetProperty e name value d
          = Throw (ValueNotSupported value
                     (FlatProperty.name (EntityProperty.property property)))
  end.
Proof.
  unfold SetProperty.
  destruct (findProperty e name) as [property|]; [|eexists; reflexivity].
  cbv zeta. destruct (negb (Entity.source e)); [eexists; reflexivity|].
  destruct (shapeFits _ value) eqn:Hfit.
  - intros Hdef.
    destruct (setValue_returns property (Demo.buf d) value Hfit Hdef) as (buf & Hset).
    rewrite Hset. exists buf. split; [reflexivity|].
    split; [eapply sameShape_setValue, Hset|].
    intros n -> Htype. rewrite (setValue_Int _ _ _ Htype) in Hset. injection Hset as <-.
    split; [reflexivity|].
    intros Hunsigned Hwf Hfrom Hsize Hin. rewrite Hunsigned. unfold setInt.
    rewrite DemoBufferFacts.getInt_field by lia. f_equal.
    apply written_field; assumption.
  - rewrite (setValue_wrong_shape _ _ _ Hfit). reflexivity.
Qed.

Lemma SetProperty_outcomes_witness :
  let d := ExampleSchema.blob [255; 255] in
  exists buf,
    SetProperty ExampleSchema.counted "m_n" (EntityProperty.VNumber (JSNumber.ofZ 300)) d
      = Ok (true, Demo.setBuf d buf) /\
    sameShape (Demo.buf d) buf /\
    DemoBuffer.bytes buf = [103; 249] /\
    DemoBuffer.getInt buf 3 8 = Some 44.
Proof.
  intros d.
  destruct (SetProperty_outcomes ExampleSchema.counted "m_n"
              (EntityProperty.VNumber (JSNumber.ofZ 300)) d
              ltac:(right; left; reflexivity)) as (buf & Hset & Hshape & Hint).
  destruct (Hint _ eq_refl eq_refl) as [Hbuf Hread].
  exists buf. split; [exact Hset|]. split; [exact Hshape|]. split.
  - rewrite Hbuf. reflexivity.
  - apply Hread; try reflexivity; try (simpl; lia).
    + repeat constructor; lia.
    + unfold DemoBuffer.bitLength. simpl. lia.
Defined.

(** Claim C9 as stated fails: a string written to the integer property
    [m_x] is thrown back, and no boolean is returned. *)
Lemma SetProperty_throws_on_wrong_shape :
  let d := ExampleSchema.blob [0; 0] in
  GetProperty ExampleSchema.writable "m_x" = Some (EntityProperty.VNumber (JSNumber.ofZ 3)) /\
  SetProperty ExampleSchema.writable "m_x" (EntityProperty.VString "five") d
    = Throw (ValueNotSupported (EntityProperty.VString "five") "m_x") /\
  SetProperty ExampleSchema.writable "m_x" (EntityProperty.VNumber (JSNumber.ofZ 5)) d
    = Ok (true, Demo.setBuf d (DemoBuffer.mk [5; 0] 0)) /\
  (exists msg,
     SetProperty ExampleSchema.writable "m_y" (EntityProperty.VNumber (JSNumber.ofZ 5)) d
       = Ok (false, Demo.warn d msg)) /\
  ~ (forall e name value d, exists b d', SetProperty e name value d = Ok (b, d')).
Proof.
  repeat split.
  - eexists. reflexivity.
  - intros H.
    destruct (H ExampleSchema.writable "m_x"%string (EntityProperty.VString "five")
                (ExampleSchema.blob [0; 0])) as (b & d' & Hb).
    discriminate Hb.
Qed.

(** The string writer takes the length of the string from the 9 bits at
    [bufferFrom] and writes the characters from bit 9 of the blob on,
    wherever the property lies: here the string [a] read at bit 16 is
    written over with [z], which lands in bits 9 to 16, and the property
    reads as the empty string afterwards. *)
Example setFromString_absolute_offsets :
  let property :=
    FlatProperty.mk "m_c" (ExampleSchema.leaf "m_c" DataTablePropertyType.String 0 0) None in
  let this := EntityProperty.mk 0 property 16 17 (EntityProperty.VString "a") in
  let d := ExampleSchema.blob [0; 0; 1; 194; 0; 0] in
  let d' := ExampleSchema.blob [0; 244; 0; 194; 0; 0] in
  PropertyCodec.fromDemo 0 property (Demo.seek d 16) = Ok (this, Demo.seek d 33) /\
  setValue this (Demo.buf d) (EntityProperty.VString "z") = Ok (Demo.buf d') /\
  PropertyCodec.fromDemo 0 property (Demo.seek d' 16)
    = Ok (EntityProperty.mk 0 property 16 9 (EntityProperty.VString ""), Demo.seek d' 25).
Proof. repeat split; vm_compute; reflexivity. Qed.

End PropertyWriterFacts.

(** ** More on the fields of the buffer *)

Module BufferFieldFacts.
Import JS DemoBuffer JSFacts DemoBufferFacts.

Lemma add_shift_testbit x y a i :
  0 <= a -> 0 <= x < 2 ^ a -> 0 <= i ->
  Z.testbit (x + 2 ^ a * y) i = if i <? a then Z.testbit x i else Z.testbit y (i - a).
Proof.
  intros Ha Hx Hi. destruct (Z.ltb_spec i a).
  - rewrite <- (Z.mod_pow2_bits_low (x + 2 ^ a * y) a i) by lia.
    rewrite (Z.mul_comm (2 ^ a) y), Z.mod_add by lia.
    rewrite Z.mod_small by lia. reflexivity.
  - replace i with ((i - a) + a) at 1 by lia.
    rewrite <- Z.div_pow2_bits by lia.
    rewrite (Z.mul_comm (2 ^ a) y), Z.div_add by lia.
    rewrite Z.div_small by lia. reflexivity.
Qed.

(** A field of at most 53 bits read in one call is the two halves read
    one after the other, the first half being the low bits. *)
Theorem getInt_split buf from a b :
  wf buf -> 0 <= from -> 0 <= a -> 0 <= b -> a + b <= 53 ->
  exists lo hi,
    getInt buf from a = Some lo /\ getInt buf (from + a) b = Some hi /\
    getInt buf from (a + b) = Some (lo + 2 ^ a * hi).
Proof.
  intros Hwf Hfrom Ha Hb Hab.
  exists (field buf from a), (field buf (from + a) b).
  rewrite !getInt_field by lia. repeat split. f_equal.
  apply Z.bits_inj'. intros i Hi.
  rewrite add_shift_testbit by (try apply field_range; assumption || lia).
  rewrite !field_bits by (assumption || lia).
  destruct (Z.ltb_spec i a).
  - destruct (Z.ltb_spec i (a + b)); [reflexivity|lia].
  - rewrite field_bits by (assumption || lia).
    replace (from + a + (i - a)) with (from + i) by lia.
    destruct (Z.ltb_spec i (a + b)), (Z.ltb_spec (i - a) b); try lia; reflexivity.
Qed.

Lemma getInt_split_witness :
  let buf := mk [172; 93; 7] 0 in
  exists lo hi,
    getInt buf 3 5 = Some lo /\ getInt buf 8 8 = Some hi /\
    getInt buf 3 13 = Some (lo + 2 ^ 5 * hi).
Proof.
  intros buf. apply (getInt_split buf 3 5 8); [|lia..].
  repeat constructor; lia.
Defined.

(** Two blobs that agree on the bits of a range give the same slice. *)
Lemma getBitSlice_filled_ext buf buf' from to :
  wf buf -> wf buf' -> 0 <= from <= to ->
  (forall k, from <= k < to -> bitAt buf' k = bitAt buf k) ->
  getBitSlice_filled buf' from to = getBitSlice_filled buf from to.
Proof.
  intros Hwf Hwf' Hft Hbits. apply list_eq. intros k.
  pose proof (getBitSlice_length buf from to) as Hl.
  pose proof (getBitSlice_length buf' from to) as Hl'.
  destruct (getBitSlice_filled buf from to !! k) as [x|] eqn:Hx.
  - destruct (getBitSlice_filled buf' from to !! k) as [x'|] eqn:Hx'.
    + f_equal. apply Z.bits_inj'. intros j Hj.
      pose proof (getBitSlice_bits buf from to k j Hwf Hft Hj) as H1.
      pose proof (getBitSlice_bits buf' from to k j Hwf' Hft Hj) as H2.
      rewrite Hx in H1. rewrite Hx' in H2. simpl in H1, H2. rewrite H1, H2.
      destruct (Z.ltb_spec j 8); [|reflexivity].
      destruct (Z.ltb_spec (8 * Z.of_nat k + j) (to - from)); [|reflexivity].
      simpl. apply Hbits. lia.
    + apply lookup_ge_None in Hx'. apply lookup_lt_Some in Hx. lia.
  - apply lookup_ge_None in Hx. apply lookup_ge_None. lia.
Qed.

(** [setInt] writes its field and nothing else: the blob keeps its
    length, the cursor stays, and a field that does not overlap the one
    written reads as before. *)
Theorem setInt_keeps_other_fields buf from size value a w :
  wf buf -> 0 <= from -> 0 <= size <= 32 -> 0 <= a -> 0 <= w ->
  a + w <= from \/ from + size <= a ->
  let buf' := setInt buf from size value in
  length (bytes buf') = length (bytes buf) /\ cursor buf' = cursor buf /\
  getInt buf' a w = getInt buf a w.
Proof.
  intros Hwf Hfrom Hsize Ha Hw Hdisjoint buf'.
  destruct (setInt_spec buf from size value Hwf Hfrom Hsize) as (Hw' & Hl & Hc & Hb).
  fold buf' in Hw', Hl, Hc, Hb.
  split; [unfold bitLength in Hl; lia|]. split; [assumption|].
  unfold getInt. rewrite !getBitSlice_Some by lia. simpl. do 2 f_equal.
  apply getBitSlice_filled_ext; try assumption; [lia|].
  intros k Hk. rewrite Hb by lia. destruct (decide _); [lia|reflexivity].
Qed.

Lemma setInt_keeps_other_fields_witness :
  let buf := mk [172; 93; 7] 5 in
  let buf' := setInt buf 6 7 100 in
  length (bytes buf') = 3%nat /\ cursor buf' = 5 /\ getInt buf' 13 11 = getInt buf 13 11.
Proof.
  intros buf. apply (setInt_keeps_other_fields buf 6 7 100 13 11); try lia.
  repeat constructor; lia.
Defined.

(** Whatever integer is given to [setInt], the field holds its [size] low
    bits in two's complement. *)
Theorem setInt_truncates buf from size value :
  wf buf -> 0 <= from -> 0 <= size <= 32 -> from + size <= bitLength buf ->
  getInt (setInt buf from size value) from size = Some (value mod 2 ^ size).
Proof.
  intros Hwf Hfrom Hsize Hfit.
  destruct (setInt_spec buf from size value Hwf Hfrom Hsize) as (Hw & Hl & Hc & Hb).
  rewrite getInt_field by lia. f_equal.
  apply Z.bits_inj'. intros i Hi.
  rewrite field_bits by (assumption || lia).
  destruct (Z.ltb_spec i size); simpl.
  - rewrite Z.mod_pow2_bits_low by lia.
    rewrite Hb by lia. destruct (decide _); [f_equal; lia|lia].
  - rewrite Z.mod_pow2_bits_high by lia. reflexivity.
Qed.

Lemma setInt_truncates_witness :
  getInt (setInt (mk [0; 0] 0) 3 4 (-3)) 3 4 = Some 13.
Proof.
  apply (setInt_truncates (mk [0; 0] 0) 3 4 (-3)); try (unfold bitLength; simpl; lia).
  repeat constructor; lia.
Defined.

(** Up to 30 bits, [getSignedInt] is the two's complement reading of the
    field: it lies in the signed range of the width and differs from the
    unsigned reading by a multiple of [2 ^ size]. *)
Theorem getSignedInt_twos_complement buf from size :
  wf buf -> 0 <= from -> 1 <= size <= 30 ->
  exists u s,
    getInt buf from size = Some u /\ getSignedInt buf from size = Some s /\
    - 2 ^ (size - 1) <= s < 2 ^ (size - 1) /\
    s = (if 2 ^ (size - 1) <=? u then u - 2 ^ size else u).
Proof.
  intros Hwf Hfrom Hsize.
  set (u := field buf from size).
  pose proof (field_range buf from size Hwf Hfrom ltac:(lia)) as Hu. fold u in Hu.
  assert (Hpow : 2 ^ size = 2 * 2 ^ (size - 1)).
  { replace size with (1 + (size - 1)) at 1 by lia. rewrite Z.pow_add_r by lia. reflexivity. }
  exists u, (if 2 ^ (size - 1) <=? u then u - 2 ^ size else u).
  split; [apply getInt_field; lia|]. split.
  - rewrite getSignedInt_field by lia. cbv zeta. fold u. f_equal.
    rewrite truthy_and_bit by lia. rewrite shl_1_small by lia.
    destruct (Z.leb_spec (2 ^ (size - 1)) u) as [Hge|Hlt].
    + assert (Z.testbit u (size - 1) = true) as ->; [|reflexivity].
      rewrite Z.testbit_true by lia.
      assert (u / 2 ^ (size - 1) = 1) as ->; [|reflexivity].
      symmetry. apply (Z.div_unique u (2 ^ (size - 1)) 1 (u - 2 ^ (size - 1))); lia.
    + rewrite (testbit_above u (size - 1)) by lia. reflexivity.
  - split; [|reflexivity]. destruct (Z.leb_spec (2 ^ (size - 1)) u); lia.
Qed.

Lemma getSignedInt_twos_complement_witness :
  let buf := mk [251; 255] 0 in
  exists u s,
    getInt buf 0 13 = Some u /\ getSignedInt buf 0 13 = Some s /\
    - 2 ^ 12 <= s < 2 ^ 12 /\
    s = (if 2 ^ 12 <=? u then u - 2 ^ 13 else u).
Proof.
  apply (getSignedInt_twos_complement (mk [251; 255] 0) 0 13); try lia.
  repeat constructor; lia.
Defined.


(** The scan of [highestBitIndex] from bit [j] down: the bits above [j]
    are clear, and it stops at the first bit set. *)
Lemma highestBitIndex_loop_spec i n : forall j,
  Z.of_nat n = j + 1 -> j <= 31 ->
  let r := highestBitIndex_loop i n j in
  -1 <= r <= j /\
  (0 <= r -> Z.testbit i r = true) /\
  (forall k, r < k <= j -> Z.testbit i k = false).
Proof.
  induction n as [|n IH]; intros j Hn Hj; simpl.
  - split; [lia|]. split; [lia|]. intros k Hk. lia.
  - assert (H0 : 0 <= j) by lia. destruct (Z.leb_spec 0 j); [|lia]. simpl.
    assert (Hbit : (and i (shl 1 j) =? 0) = negb (Z.testbit i j)).
    { rewrite <- truthy_and_bit by lia. unfold truthy. rewrite negb_involutive. reflexivity. }
    rewrite Hbit. destruct (Z.testbit i j) eqn:Hij; simpl.
    + split; [lia|]. split; [auto|]. intros k Hk. lia.
    + destruct (IH (j - 1) ltac:(lia) ltac:(lia)) as (Hr & Hset & Hclear).
      split; [lia|]. split; [assumption|].
      intros k Hk. destruct (Z.eq_dec k j) as [->|Hne]; [assumption|].
      apply Hclear. lia.
Qed.

(** [highestBitIndex] is the position of the highest bit set, that is
    the integer logarithm in base 2, and [-1] for [0]. *)
Theorem highestBitIndex_log2 i :
  0 <= i < 2 ^ 32 ->
  highestBitIndex i = if i =? 0 then -1 else Z.log2 i.
Proof.
  intros Hi. unfold highestBitIndex.
  destruct (highestBitIndex_loop_spec i 32 31 eq_refl ltac:(lia)) as (Hr & Hset & Hclear).
  set (r := highestBitIndex_loop i 32 31) in *.
  destruct (Z.eqb_spec i 0) as [->|Hne].
  - destruct (Z.eq_dec r (-1)) as [|Hr']; [assumption|].
    specialize (Hset ltac:(lia)). rewrite Z.bits_0 in Hset. discriminate.
  - assert (Hpos : 0 <= r).
    { destruct (Z.le_gt_cases 0 r) as [|Hneg]; [assumption|]. exfalso. apply Hne.
      apply Z.bits_inj'. intros k Hk. rewrite Z.bits_0.
      destruct (Z.le_gt_cases k 31); [apply Hclear; lia|].
      apply (testbit_above i 32); lia. }
    symmetry. apply Z.log2_unique; [assumption|].
    assert (Habove : forall k, r < k -> Z.testbit i k = false).
    { intros k Hk. destruct (Z.le_gt_cases k 31); [apply Hclear; lia|].
      apply (testbit_above i 32); lia. }
    split.
    + destruct (Z.le_gt_cases (2 ^ r) i) as [|Hlt]; [assumption|].
      specialize (Hset Hpos). rewrite (testbit_above i r r) in Hset by lia. discriminate.
    + apply bits_range; [lia|lia|]. intros k Hk. apply Habove. lia.
Qed.

Lemma highestBitIndex_log2_witness :
  highestBitIndex 2048 = 11 /\ highestBitIndex 0 = -1 /\ highestBitIndex 4294967295 = 31.
Proof.
  split; [|split].
  - apply (highestBitIndex_log2 2048). lia.
  - apply (highestBitIndex_log2 0). lia.
  - apply (highestBitIndex_log2 4294967295). lia.
Defined.


Lemma getNullTerminatedString_loop_spec buf from n : forall off,
  wf buf -> 0 <= from -> 0 <= off ->
  let s := getNullTerminatedString_loop buf from n off in
  (String.length s <= n)%nat /\
  (forall i c, String.get i s = Some c ->
     getByte buf (from + off + 8 * Z.of_nat i) = Z.of_nat (nat_of_ascii c) /\
     c <> Ascii.zero) /\
  ((String.length s < n)%nat ->
   getByte buf (from + off + 8 * Z.of_nat (String.length s)) = 0).
Proof.
  induction n as [|n IH]; intros off Hwf Hfrom Hoff; simpl.
  - split; [lia|]. split; [discriminate|lia].
  - destruct (Z.eqb_spec (getByte buf (from + off)) 0) as [Hz|Hnz]; simpl.
    + split; [lia|]. split; [discriminate|]. intros _.
      rewrite Z.add_0_r. replace (from + off + 0) with (from + off) by lia. exact Hz.
    + destruct (IH (off + 8) Hwf Hfrom ltac:(lia)) as (Hlen & Hchars & Hend).
      pose proof (getByte_range buf (from + off) Hwf ltac:(lia)) as Hrange.
      split; [lia|]. split.
      * intros [|i] c Hget.
        -- injection Hget as <-. unfold fromCharCode.
           rewrite nat_ascii_embedding by lia.
           replace (from + off + 8 * Z.of_nat 0) with (from + off) by lia.
           split; [lia|].
           intros Heq. apply (f_equal nat_of_ascii) in Heq.
           rewrite nat_ascii_embedding in Heq by lia.
           change (nat_of_ascii Ascii.zero) with 0%nat in Heq. lia.
        -- replace (from + off + 8 * Z.of_nat (S i))
             with (from + (off + 8) + 8 * Z.of_nat i) by lia.
           apply Hchars. exact Hget.
      * intros Hlt.
        replace (from + off + 8 * Z.of_nat (S (String.length
                   (getNullTerminatedString_loop buf from n (off + 8)))))
          with (from + (off + 8) + 8 * Z.of_nat (String.length
                   (getNullTerminatedString_loop buf from n (off + 8)))) by lia.
        apply Hend. lia.
Qed.

(** [getNullTerminatedString] returns the characters stored from [from]
    up to the first zero byte: each character is the byte at its place
    and none is the null character, the string is no longer than the
    blob, and when it is shorter the byte after it is zero. *)
Theorem getNullTerminatedString_stops_at_zero buf from :
  wf buf -> 0 <= from ->
  let s := getNullTerminatedString buf from in
  (String.length s <= length (bytes buf))%nat /\
  (forall i c, String.get i s = Some c ->
     getByte buf (from + 8 * Z.of_nat i) = Z.of_nat (nat_of_ascii c) /\
     c <> Ascii.zero) /\
  ((String.length s < length (bytes buf))%nat ->
   getByte buf (from + 8 * Z.of_nat (String.length s)) = 0).
Proof.
  intros Hwf Hfrom.
  pose proof (getNullTerminatedString_loop_spec buf from (length (bytes buf)) 0
                Hwf Hfrom ltac:(lia)) as H.
  cbv zeta in H. fold (getNullTerminatedString buf from) in H.
  destruct H as (Hlen & Hchars & Hend). cbv zeta.
  split; [exact Hlen|]. split.
  - intros i c Hget. destruct (Hchars i c Hget) as [Hbyte Hc].
    rewrite Z.add_0_r in Hbyte. split; assumption.
  - intros Hlt. specialize (Hend Hlt). rewrite Z.add_0_r in Hend. exact Hend.
Qed.

Lemma getNullTerminatedString_stops_at_zero_witness :
  let buf := mk [0; 208; 82; 2; 0] 0 in
  getNullTerminatedString buf 11 = "ZJ"%string /\
  getByte buf (11 + 8 * 2) = 0.
Proof.
  intros buf. split; [reflexivity|].
  apply (getNullTerminatedString_stops_at_zero buf 11); [|lia|simpl; lia].
  repeat constructor; lia.
Defined.

End BufferFieldFacts.

(** ** Reads at any address, and the indices of the properties read *)

Module BufferBoundsFacts.
Import JS DemoBuffer JSFacts DemoBufferFacts.

Lemma lor_bound a b n : 0 <= n -> 0 <= a < 2 ^ n -> 0 <= b < 2 ^ n -> 0 <= Z.lor a b < 2 ^ n.
Proof.
  intros Hn Ha Hb. split; [apply Z.lor_nonneg; lia|].
  apply bits_range; [assumption|apply Z.lor_nonneg; lia|].
  intros i Hi. rewrite Z.lor_spec.
  rewrite (testbit_above a n), (testbit_above b n) by lia. reflexivity.
Qed.

(** The payload of a property index with [k] high bits: below [2^(5+k)]. *)
Lemma or_shl_bound ret x k :
  0 <= k <= 7 -> 0 <= ret < 2 ^ 5 -> 0 <= x < 2 ^ k ->
  0 <= or ret (shl x 5) < 2 ^ 12.
Proof.
  intros Hk Hret Hx.
  assert (Hx' : x < 2 ^ 7).
  { assert (2 ^ k <= 2 ^ 7) by (apply Z.pow_le_mono_r; lia). lia. }
  rewrite shl_small by lia. rewrite Z.shiftl_mul_pow2 by lia.
  rewrite or_small by lia. apply lor_bound; lia.
Qed.

(** Bounds every field read that the goal mentions. *)
Ltac bound_reads :=
  repeat match goal with
         | |- context [field ?b ?c ?n] =>
             lazymatch goal with
             | H : 0 <= field b c n < _ |- _ => fail
             | _ => pose proof (field_bounds b c n ltac:(lia))
             end
         end.

(** [nextPropertyIndex] either ends the list with [-1] or moves on to an
    index above the last one. *)
Lemma nextPropertyIndex_grows buf lastIndex newScheme :
  -1 <= lastIndex ->
  exists r buf',
    nextPropertyIndex buf lastIndex newScheme = Some (r, buf') /\
    (r = -1 \/ lastIndex < r).
Proof.
  intros Hlast. unfold nextPropertyIndex, nextBit. cbv zeta.
  destruct (newScheme && truthy _); [eexists _, _; split; [reflexivity|right; lia]|].
  set (buf1 := if newScheme then _ else buf).
  destruct (newScheme && truthy (getBit buf1 _)).
  - rewrite nextInt_field by lia. simpl. bound_reads.
    destruct (_ =? 4095); eexists _, _; (split; [reflexivity|]);
      [left; reflexivity|right; lia].
  - set (buf2 := if newScheme then _ else buf1).
    repeat (rewrite nextInt_field by lia; simpl).
    destruct (_ =? 0) eqn:H0; simpl.
    + bound_reads.
      destruct (_ =? 4095); eexists _, _; (split; [reflexivity|]);
        [left; reflexivity|right; lia].
    + destruct (_ =? 1) eqn:H1; [|destruct (_ =? 2) eqn:H2];
        try (rewrite nextInt_field by lia); simpl; bound_reads;
        match goal with
        | Hret : 0 <= field ?b ?c 5 < _, Hx : 0 <= field ?b' ?c' ?k < _
          |- context [or (field ?b ?c 5) (shl (field ?b' ?c' ?k) 5)] =>
            pose proof (or_shl_bound _ _ k ltac:(lia) Hret Hx);
            set (or (field b c 5) (shl (field b' c' k) 5)) in *
        end;
        destruct (_ =? 4095); eexists _, _; (split; [reflexivity|]);
          try (left; reflexivity); right; lia.
Qed.


End BufferBoundsFacts.

Module PropertyReadFacts.
Import PropertyCodec FrameFacts.
Local Open Scope js_scope.

Lemma nextPropertyIndex_run lastIndex newScheme d r d1 :
  -1 <= lastIndex ->
  nextPropertyIndex lastIndex newScheme d = Ok (r, d1) -> r = -1 \/ lastIndex < r.
Proof.
  intros Hlast H. unfold nextPropertyIndex in H.
  apply ReaderFacts.tryBuf_inv in H as (b & Hb & _).
  destruct (BufferBoundsFacts.nextPropertyIndex_grows (Demo.buf d) lastIndex newScheme Hlast)
    as (r' & b' & Hr & Hg).
  rewrite Hr in Hb. injection Hb as <- _. exact Hg.
Qed.

(** A property read by [fromDemo] bears the index and the definition it
    was read for, and the place of its field: from the cursor before the
    read to the cursor after it. *)
Lemma fromDemo_fields index flatProperty d p d' :
  fromDemo index flatProperty d = Ok (p, d') ->
  EntityProperty.index p = index /\ EntityProperty.property p = flatProperty.
Proof.
  unfold fromDemo. intros H.
  inv_bind H as bufferFrom d0 H0. cbv zeta in H. inv_bind H as value d1 H1.
  inv_bind H as c d2 H2. injection H as <- _. split; reflexivity.
Qed.

(** The place a property records is the span of the blob its value was
    read from: [bufferFrom] is the cursor before the read and
    [bufferFrom + bufferSize] the cursor after it, whatever the type of
    the property. *)
Theorem fromDemo_records_field index flatProperty d p d' :
  fromDemo index flatProperty d = Ok (p, d') ->
  EntityProperty.index p = index /\
  EntityProperty.property p = flatProperty /\
  EntityProperty.bufferFrom p = DemoBuffer.cursor (Demo.buf d) /\
  EntityProperty.bufferFrom p + EntityProperty.bufferSize p = DemoBuffer.cursor (Demo.buf d').
Proof.
  unfold fromDemo. intros H.
  inv_bind H as bufferFrom d0 H0. injection H0 as <- <-.
  cbv zeta in H. inv_bind H as value d1 H1. inv_bind H as c d2 H2.
  injection H2 as <- <-. injection H as <- <-. simpl. repeat split. lia.
Qed.


Lemma gathered_weaken flatProperties i j properties :
  i <= j -> gathered flatProperties i properties -> gathered flatProperties j properties.
Proof.
  intros Hij [Hs Hf]. split; [assumption|].
  eapply Forall_impl; [exact Hf|]. intros p [Hp Hi]. split; [lia|assumption].
Qed.

Lemma gathered_snoc flatProperties i j properties p :
  i < j -> 0 <= j ->
  gathered flatProperties i properties ->
  EntityProperty.index p = j ->
  JS.index flatProperties j = Some (EntityProperty.property p) ->
  gathered flatProperties j (properties ++ [p]).
Proof.
  intros Hij Hj [Hs Hf] Hp Hfp. split.
  - rewrite map_app. simpl. clear Hfp. induction properties as [|q qs IH]; simpl.
    + repeat constructor.
    + apply StronglySorted_inv in Hs as [Hs Hq].
      apply Forall_cons in Hf as [[Hqi _] Hf].
      constructor; [apply IH; assumption|].
      apply Forall_app. split; [assumption|]. repeat constructor. lia.
  - apply Forall_app. split.
    + eapply Forall_impl; [exact Hf|]. intros q [Hq Hi]. split; [lia|assumption].
    + repeat constructor; [lia|lia|]. rewrite Hp. assumption.
Qed.

Lemma readProperties_loop_gathered flatProperties newScheme n :
  forall i acc d properties d',
    -1 <= i -> gathered flatProperties i acc ->
    readProperties_loop flatProperties newScheme n i acc d = Ok (properties, d') ->
    exists j, gathered flatProperties j properties.
Proof.
  induction n as [|n IH]; intros i acc d properties d' Hi Hacc H; simpl in H.
  - injection H as <- _. eauto.
  - inv_bind H as i' d1 H1.
    destruct (i' =? -1); [injection H as <- _; eauto|].
    destruct (_ || _) eqn:Hrange; [inv_bind H; injection H as <- _; eauto|].
    apply orb_false_iff in Hrange as [Hneg _]. apply Z.ltb_ge in Hneg.
    destruct (JS.index flatProperties i') as [flatProperty|] eqn:Hfp;
      [|inv_bind H; injection H as <- _; eauto].
    inv_bind H as p d2 H2.
    destruct (nextPropertyIndex_run _ _ _ _ _ Hi H1) as [->|Hgrow]; [lia|].
    destruct (fromDemo_fields i' flatProperty d1 p d2 H2) as [Hpi Hpp].
    eapply (IH i'); [lia| |exact H].
    eapply gathered_snoc; try eassumption. rewrite Hpp. assumption.
Qed.

Lemma sorted_length (l : list Z) lo hi :
  StronglySorted Z.lt l -> Forall (fun x => lo <= x < hi) l ->
  Z.of_nat (length l) <= Z.max 0 (hi - lo).
Proof.
  intros Hs. revert lo. induction Hs as [|x l Hs IH Hx]; intros lo Hl; simpl length.
  - lia.
  - apply Forall_cons in Hl as [Hxr Hl].
    specialize (IH (x + 1)).
    assert (Forall (fun y => x + 1 <= y < hi) l) as Hl'.
    { rewrite Forall_forall in *. intros y Hy. specialize (Hx y Hy).
      specialize (Hl y Hy). lia. }
    specialize (IH Hl'). lia.
Qed.

(** [readProperties] returns properties whose indices grow strictly,
    each within the list of definitions and bearing the definition found
    at its index; so it returns no more properties than there are
    definitions. *)
Theorem readProperties_indices flatProperties d properties d' :
  readProperties flatProperties d = Ok (properties, d') ->
  StronglySorted Z.lt (map EntityProperty.index properties) /\
  Forall (fun p => JS.index flatProperties (EntityProperty.index p)
                     = Some (EntityProperty.property p)) properties /\
  (length properties <= length flatProperties)%nat.
Proof.
  unfold readProperties. intros H. inv_bind H as b d1 H1. cbv zeta in H.
  destruct (readProperties_loop_gathered flatProperties (JS.truthy b) _ (-1) [] d1
              properties d' ltac:(lia) ltac:(split; constructor) H)
    as (j & Hs & Hf).
  split; [assumption|]. split.
  - eapply Forall_impl; [exact Hf|]. intros p [_ Hp]. exact Hp.
  - pose proof (sorted_length (map EntityProperty.index properties) 0
                  (Z.of_nat (length flatProperties)) Hs) as Hlen.
    rewrite length_map in Hlen.
    assert (Z.of_nat (length properties) <= Z.max 0 (Z.of_nat (length flatProperties) - 0));
      [|lia].
    apply Hlen. apply Forall_map. eapply Forall_impl; [exact Hf|].
    intros p [Hp Hi]. simpl. unfold JS.index in Hi.
    destruct (_ <? 0); [discriminate|].
    apply lookup_lt_Some in Hi. lia.
Qed.


Lemma readProperties_loop_turns flatProperties newScheme n : forall m i acc d,
  -1 <= i < Z.of_nat (length flatProperties) ->
  Z.of_nat (length flatProperties) - i <= Z.of_nat n ->
  readProperties_loop flatProperties newScheme (n + m) i acc d
    = readProperties_loop flatProperties newScheme n i acc d.
Proof.
  induction n as [|n IH]; intros m i acc d Hi Hn; [lia|].
  simpl. unfold bind.
  destruct (nextPropertyIndex i newScheme d) as [[i' d1]|] eqn:H1; [|reflexivity].
  destruct (i' =? -1) eqn:Hend; [reflexivity|].
  destruct (_ || _) eqn:Hrange; [reflexivity|].
  apply orb_false_iff in Hrange as [Hneg Hlt].
  apply Z.ltb_ge in Hneg. apply Z.leb_gt in Hlt.
  destruct (JS.index flatProperties i'); [|reflexivity].
  destruct (fromDemo i' t d1) as [[p d2]|]; [|reflexivity].
  destruct (nextPropertyIndex_run i newScheme d i' d1 ltac:(lia) H1) as [->|Hgrow];
    [simpl in Hend; discriminate|].
  apply IH; lia.
Qed.

(** The loop of [readProperties] ends within [flatProperties.length + 1]
    reads of an index, on every blob: more turns change nothing. *)
Theorem readProperties_turns_suffice flatProperties newScheme m d :
  readProperties_loop flatProperties newScheme (S (length flatProperties) + m) (-1) [] d
    = readProperties_loop flatProperties newScheme (S (length flatProperties)) (-1) [] d.
Proof.
  destruct flatProperties as [|fp fps].
  - simpl. unfold bind.
    destruct (nextPropertyIndex (-1) newScheme d) as [[i' d1]|] eqn:H1; [|reflexivity].
    destruct (i' =? -1) eqn:Hend; [reflexivity|].
    destruct (_ || _) eqn:Hrange; [reflexivity|].
    apply orb_false_iff in Hrange as [Hneg Hlt].
    apply Z.ltb_ge in Hneg. apply Z.leb_gt in Hlt. simpl in Hlt. lia.
  - apply readProperties_loop_turns; simpl length; lia.
Qed.

Lemma fromDemo_records_field_witness :
  let fp := FlatProperty.mk "m_f" (ExampleSchema.floatProp 0 0 1 8) None in
  let d := Demo.seek (ExampleSchema.blob [0; 128; 1]) 7 in
  exists p d',
    fromDemo 3 fp d = Ok (p, d') /\
    EntityProperty.index p = 3 /\ EntityProperty.property p = fp /\
    EntityProperty.bufferFrom p = 7 /\
    EntityProperty.bufferFrom p + EntityProperty.bufferSize p
      = DemoBuffer.cursor (Demo.buf d').
Proof.
  intros fp d. eexists _, _. split; [vm_compute; reflexivity|].
  eapply (fromDemo_records_field 3 fp d). vm_compute. reflexivity.
Defined.

Lemma readProperties_indices_witness :
  let fp := FlatProperty.mk "m_f" (ExampleSchema.floatProp 0 0 1 8) None in
  let d :=
    ExampleSchema.blob
      (ExampleSchema.pack ([(1, 1); (1, 0); (1, 1); (3, 1); (8, 255); (1, 1); (8, 0)]
                           ++ [(1, 0); (1, 0); (5, 31); (2, 3); (7, 127)])) in
  exists properties d',
    readProperties [fp; fp; fp; fp] d = Ok (properties, d') /\
    map EntityProperty.index properties = [1; 2] /\
    StronglySorted Z.lt (map EntityProperty.index properties) /\
    Forall (fun p => JS.index [fp; fp; fp; fp] (EntityProperty.index p)
                       = Some (EntityProperty.property p)) properties /\
    (length properties <= 4)%nat.
Proof.
  intros fp d. eexists _, _. split; [vm_compute; reflexivity|].
  split; [reflexivity|].
  eapply (readProperties_indices [fp; fp; fp; fp] d). vm_compute. reflexivity.
Defined.

End PropertyReadFacts.

(** ** Baselines, deltas and the life of an entity *)

Module EntityLifeFacts.
Import EntityStore FrameFacts EntityStoreFacts.
Local Open Scope js_scope.

(** [Entity.fromBaseline] never throws.  With a baseline for the class,
    the entity starts from the properties of the baseline and the session
    is left as it was; without one, a blank baseline is stored for the
    class, a warning is issued and the entity has no property. *)
Theorem fromBaseline_copies_baseline serverClass serial index d :
  match JS.arrayGet (Demo.baselines d) (ServerClass.tableID serverClass) with
  | Some baseline =>
      fromBaseline serverClass serial index d
        = Ok (Entity.mk serverClass (StaticBaseline.entityProperties baseline)
                serial index true true, d)
  | None =>
      exists msg,
        fromBaseline serverClass serial index d
          = Ok (Entity.mk serverClass [] serial index true true,
                Demo.setBaselines (Demo.warn d msg)
                  (JS.arrayStore (Demo.baselines d) (ServerClass.tableID serverClass)
                     (StaticBaseline.mk serverClass [])))
  end.
Proof.
  destruct (JS.arrayGet (Demo.baselines d) (ServerClass.tableID serverClass))
    as [baseline|] eqn:Hget.
  - apply fromBaseline_stored, Hget.
  - unfold fromBaseline. rewrite Hget. eexists. simpl. reflexivity.
Qed.


(** An entity that leaves visibility without being deleted and enters
    again with its own serial and an empty delta is the same object, with
    the same properties: the session is as before the two updates. *)
Theorem leave_then_enter_restores serverClass index d entities loc entity :
  Demo.entities d = Some entities ->
  Demo.baselines d <> [] ->
  occupant d entities index = Some (loc, entity) ->
  Entity.inPVS entity = true ->
  exists d1,
    leavePVS index false d = Ok (tt, d1) /\
    occupant d1 entities index = Some (loc, withInPVS entity false) /\
    SvcPacketEntities.isNewEntity (occupant d1 entities index) (Entity.serial entity)
      = false /\
    enterPVS serverClass index [] (Entity.serial entity) false d1 = Ok (tt, d).
Proof.
  intros He Hb Ho Hpvs.
  destruct (EntityStoreFacts.occupant_heap _ _ _ _ _ Ho) as [Hslot Hheap].
  pose proof (lookup_lt_Some _ _ _ Hheap) as Hlt.
  eexists. split; [|split; [|split]].
  - unfold leavePVS, bind, get, put. rewrite He, Ho. reflexivity.
  - unfold occupant. simpl. rewrite Hslot.
    rewrite list_lookup_insert_eq by assumption. reflexivity.
  - unfold occupant. simpl. rewrite Hslot.
    rewrite list_lookup_insert_eq by assumption. simpl.
    rewrite Z.eqb_refl. reflexivity.
  - unfold enterPVS, bind, get, put, ret. simpl.
    destruct (Demo.baselines d) eqn:Hbl; [contradiction|]. simpl. rewrite He.
    unfold occupant at 1. simpl. rewrite Hslot.
    rewrite list_lookup_insert_eq by assumption.
    unfold applyDelta. simpl. rewrite He. unfold occupant. simpl. rewrite Hslot.
    rewrite list_lookup_insert_eq by (rewrite length_insert; assumption).
    simpl. rewrite !list_insert_insert_eq.
    replace (withProperties (withInPVS (withInPVS entity false) true)
               (Entity.properties entity)) with entity
      by (destruct entity; simpl in *; subst; reflexivity).
    rewrite (list_insert_id _ _ _ Hheap). destruct d; reflexivity.
Qed.

Lemma leave_then_enter_restores_witness :
  let e := Entity.mk ExampleSchema.CBase [] 7 4 true true in
  let entities := JS.arrayStore SvcPacketEntities.newEntities 4 0%nat in
  let d := ExampleSchema.withEntities [] [e] (Some entities) in
  exists d1,
    leavePVS 4 false d = Ok (tt, d1) /\
    occupant d1 entities 4 = Some (0%nat, withInPVS e false) /\
    SvcPacketEntities.isNewEntity (occupant d1 entities 4) 7 = false /\
    enterPVS ExampleSchema.CBase 4 [] 7 false d1 = Ok (tt, d).
Proof.
  intros e entities d.
  apply (leave_then_enter_restores ExampleSchema.CBase 4 d entities 0%nat e);
    try reflexivity.
  discriminate.
Defined.

(** A deletion frees its slot and no other, and leaves every entity
    object as it was: a later enter-visibility update of the slot, even
    with the serial of the entity deleted, is a new entity. *)
Theorem leavePVS_delete_frees_slot index d entities serial :
  Demo.entities d = Some entities ->
  exists d' entities',
    leavePVS index true d = Ok (tt, d') /\
    Demo.entities d' = Some entities' /\
    Demo.heap d' = Demo.heap d /\
    occupant d' entities' index = None /\
    (forall j, j <> index -> occupant d' entities' j = occupant d entities j) /\
    SvcPacketEntities.isNewEntity (occupant d' entities' index) serial = true.
Proof.
  intros He.
  exists (Demo.setEntities d (Some (JS.arrayDelete entities index))),
    (JS.arrayDelete entities index).
  split; [|split; [reflexivity|split; [reflexivity|]]].
  { unfold leavePVS, bind, get, put. rewrite He. reflexivity. }
  assert (Hnone : occupant (Demo.setEntities d (Some (JS.arrayDelete entities index)))
                    (JS.arrayDelete entities index) index = None).
  { unfold occupant, JS.arrayGet, JS.arrayDelete, JS.index.
    destruct (index <? 0); [reflexivity|].
    destruct (Nat.lt_ge_cases (Z.to_nat index) (length entities)).
    - rewrite list_lookup_insert_eq by assumption. reflexivity.
    - rewrite lookup_ge_None_2 by (rewrite length_insert; assumption). reflexivity. }
  split; [exact Hnone|]. split; [|rewrite Hnone; reflexivity].
  intros j Hj. unfold occupant, JS.arrayGet, JS.arrayDelete, JS.index. simpl.
  destruct (Z.ltb_spec index 0); [reflexivity|].
  destruct (Z.ltb_spec j 0); [reflexivity|].
  rewrite list_lookup_insert_ne by lia. reflexivity.
Qed.

Lemma leavePVS_delete_frees_slot_witness :
  let e := Entity.mk ExampleSchema.CBase [] 7 4 true true in
  let d :=
    ExampleSchema.withEntities [] [e]
      (Some (JS.arrayStore SvcPacketEntities.newEntities 4 0%nat)) in
  exists d' entities',
    leavePVS 4 true d = Ok (tt, d') /\
    Demo.entities d' = Some entities' /\
    Demo.heap d' = [e] /\
    occupant d' entities' 4 = None /\
    (forall j, j <> 4 -> occupant d' entities' j
                         = occupant d (JS.arrayStore SvcPacketEntities.newEntities 4 0%nat) j) /\
    SvcPacketEntities.isNewEntity (occupant d' entities' 4) 7 = true.
Proof.
  intros e d.
  apply (leavePVS_delete_frees_slot 4 d
           (JS.arrayStore SvcPacketEntities.newEntities 4 0%nat) 7).
  reflexivity.
Defined.


Lemma arrayStore_length {A} (l : list (option A)) i (v : A) :
  (length l <= length (JS.arrayStore l i v))%nat.
Proof.
  unfold JS.arrayStore. destruct (i <? 0); [lia|].
  destruct (_ <? _)%nat; [rewrite length_insert; lia|].
  rewrite length_app. lia.
Qed.

(** A delta changes only the slots it names, and never shortens the
    property array; the last property of the delta, when it is not an
    array, is the one its slot holds afterwards. *)
Theorem applyDelta_changes_named_slots delta : forall props props',
  applyDelta_properties props delta = Ok props' ->
  (length props <= length props')%nat /\
  (forall i, 0 <= i -> (forall p, p ∈ delta -> EntityProperty.index p <> i) ->
     JS.arrayGet props' i = JS.arrayGet props i) /\
  (forall p, last delta = Some p -> isArrayProperty p = false ->
     0 <= EntityProperty.index p ->
     JS.arrayGet props' (EntityProperty.index p) = Some p).
Proof.
  induction delta as [|p delta IH]; intros props props' H.
  - injection H as <-. split; [lia|]. split; [reflexivity|discriminate].
  - rewrite applyDelta_properties_cons in H.
    destruct (applyDelta_properties props [p]) as [props1|] eqn:H1; [|discriminate].
    destruct (applyDelta_step _ _ _ H1) as (q & -> & Hq).
    destruct (IH _ _ H) as (Hlen & Hother & Hlast).
    split; [pose proof (arrayStore_length props (EntityProperty.index p) q); lia|].
    split.
    + intros i Hi Hnot. rewrite Hother.
      * destruct (Z.ltb_spec (EntityProperty.index p) 0) as [Hneg|Hpos].
        -- unfold JS.arrayStore. destruct (Z.ltb_spec (EntityProperty.index p) 0);
             [reflexivity|lia].
        -- apply EntityStoreFacts.arrayGet_arrayStore_ne; try assumption.
           apply Hnot. left.
      * assumption.
      * intros p' Hp'. apply Hnot. right. assumption.
    + intros p' Hp' Harr Hidx. destruct delta as [|p2 delta'].
      * injection Hp' as <-. injection H as <-. rewrite (Hq Harr).
        apply EntityStoreFacts.arrayGet_arrayStore. assumption.
      * apply Hlast; try assumption.
Qed.

Lemma applyDelta_changes_named_slots_witness :
  let p := ExampleSchema.intProperty in
  exists props',
    applyDelta_properties [None; None; None] [p] = Ok props' /\
    (3 <= length props')%nat /\
    JS.arrayGet props' 2 = JS.arrayGet [None; None; None] 2 /\
    JS.arrayGet props' 1 = Some p.
Proof.
  intros p. eexists. split; [reflexivity|].
  destruct (applyDelta_changes_named_slots [p] [None; None; None] _ eq_refl)
    as (Hlen & Hother & Hlast).
  split; [exact Hlen|]. split.
  - apply Hother; [lia|]. intros q Hq. apply list_elem_of_singleton in Hq as ->.
    discriminate.
  - apply (Hlast p); [reflexivity|reflexivity|simpl; lia].
Defined.


(** A baseline stored by [updateBaseline] is the one [fromBaseline] finds
    for the class afterwards: the entity starts from the stored
    properties, no warning is issued, the baselines of the other classes
    are untouched, and the last property given, when it is not an array,
    is held at its index. *)
Theorem updateBaseline_then_fromBaseline serverClass props n d d1 serial index :
  0 <= ServerClass.tableID serverClass ->
  updateBaseline serverClass props n d = Ok (tt, d1) ->
  exists baseline,
    JS.arrayGet (Demo.baselines d1) (ServerClass.tableID serverClass) = Some baseline /\
    fromBaseline serverClass serial index d1
      = Ok (Entity.mk serverClass (StaticBaseline.entityProperties baseline)
              serial index true true, d1) /\
    (forall j, 0 <= j -> j <> ServerClass.tableID serverClass ->
       JS.arrayGet (Demo.baselines d1) j = JS.arrayGet (Demo.baselines d) j) /\
    (forall p, last props = Some p -> isArrayProperty p = false ->
       0 <= EntityProperty.index p ->
       JS.arrayGet (StaticBaseline.entityProperties baseline) (EntityProperty.index p)
         = Some p).
Proof.
  intros Hid H. unfold updateBaseline in H.
  set (baseLine := match JS.arrayGet (Demo.baselines d) _ with
                   | Some b => b | None => _ end) in H.
  set (step := fun (acc : res (list (option EntityProperty.t))) from => _) in H.
  destruct (foldl step (Ok (StaticBaseline.entityProperties baseLine)) props)
    as [stored|] eqn:Hfold; [|discriminate].
  injection H as <-.
  exists (StaticBaseline.mk (StaticBaseline.serverClass baseLine) stored).
  assert (Hget : JS.arrayGet
                   (Demo.baselines
                      (Demo.setBaselines d
                         (JS.arrayStore (Demo.baselines d)
                            (ServerClass.tableID serverClass)
                            (StaticBaseline.mk (StaticBaseline.serverClass baseLine) stored))))
                   (ServerClass.tableID serverClass)
                 = Some (StaticBaseline.mk (StaticBaseline.serverClass baseLine) stored)).
  { simpl. apply EntityStoreFacts.arrayGet_arrayStore. assumption. }
  split; [exact Hget|]. split; [|split].
  - apply fromBaseline_stored, Hget.
  - intros j Hj Hne. simpl. apply EntityStoreFacts.arrayGet_arrayStore_ne; auto.
  - intros p Hlast Harr Hidx. simpl.
    apply last_Some in Hlast as [ps ->]. rewrite foldl_app in Hfold. simpl in Hfold.
    destruct (foldl step (Ok (StaticBaseline.entityProperties baseLine)) ps)
      as [props0|]; [|discriminate Hfold].
    subst step. cbv beta iota zeta in Hfold. revert Hfold.
    destruct (JS.arrayGet props0 (EntityProperty.index p)) as [to|].
    + destruct (isArrayProperty to) eqn:Hto; intros Hfold.
      * unfold updateArrayProperty in Hfold. unfold isArrayProperty in Harr.
        rewrite Harr in Hfold. simpl in Hfold. discriminate Hfold.
      * rewrite Harr in Hfold. injection Hfold as <-.
        apply EntityStoreFacts.arrayGet_arrayStore. assumption.
    + intros Hfold. rewrite Harr in Hfold. injection Hfold as <-.
      apply EntityStoreFacts.arrayGet_arrayStore. assumption.
Qed.

Lemma updateBaseline_then_fromBaseline_witness :
  let p := ExampleSchema.intProperty in
  let d := ExampleSchema.withEntities [] [] None in
  exists d1 baseline,
    updateBaseline ExampleSchema.CBase [p] 2 d = Ok (tt, d1) /\
    JS.arrayGet (Demo.baselines d1) 0 = Some baseline /\
    fromBaseline ExampleSchema.CBase 9 4 d1
      = Ok (Entity.mk ExampleSchema.CBase (StaticBaseline.entityProperties baseline)
              9 4 true true, d1) /\
    JS.arrayGet (StaticBaseline.entityProperties baseline) 1 = Some p.
Proof.
  intros p d. eexists.
  destruct (updateBaseline_then_fromBaseline ExampleSchema.CBase [p] 2 d _ 9 4
              ltac:(simpl; lia) eq_refl) as (baseline & Hget & Hfrom & _ & Hlast).
  exists baseline. split; [reflexivity|]. split; [exact Hget|]. split; [exact Hfrom|].
  apply (Hlast p); [reflexivity|reflexivity|simpl; lia].
Defined.

End EntityLifeFacts.

(** ** Handles and the lookups of the entity store *)

Module EntityApiFacts.
Import EntityStore EntityApi Entities JSFacts.

(** A handle made by [getHandle] is taken apart by [parseHandle] into the
    index and the serial it was made of, for an index of 11 bits and a
    serial of at most 20 bits. *)
Theorem parseHandle_getHandle e :
  0 <= Entity.index e < 2 ^ 11 -> 0 <= Entity.serial e < 2 ^ 20 ->
  parseHandle (getHandle e) = (Entity.index e, Entity.serial e).
Proof.
  intros Hi Hs. unfold parseHandle, getHandle.
  set (i := Entity.index e) in *. set (s := Entity.serial e) in *.
  assert (Hshl : JS.shl s 11 = Z.shiftl s 11) by (apply shl_small; lia).
  assert (Hsh : 0 <= Z.shiftl s 11 < 2 ^ 31).
  { rewrite Z.shiftl_mul_pow2 by lia. lia. }
  rewrite Hshl. rewrite or_small by lia.
  assert (Hh : 0 <= Z.lor (Z.shiftl s 11) i < 2 ^ 31).
  { split; [apply Z.lor_nonneg; lia|].
    apply bits_range; [lia|apply Z.lor_nonneg; lia|].
    intros k Hk. rewrite Z.lor_spec.
    rewrite (testbit_above (Z.shiftl s 11) 31), (testbit_above i 11) by lia.
    reflexivity. }
  f_equal.
  - rewrite shl_1_small by lia. rewrite and_small by lia.
    apply Z.bits_inj'. intros k Hk. rewrite Z.land_spec, Z.lor_spec.
    change (2 ^ 11 - 1) with (Z.ones 11).
    destruct (Z.ltb_spec k 11).
    + rewrite Z.ones_spec_low, Z.shiftl_spec_low by lia.
      simpl. apply andb_true_r.
    + rewrite Z.ones_spec_high by lia. rewrite andb_false_r.
      symmetry. apply (testbit_above i 11); lia.
  - rewrite sar_small by lia.
    apply Z.bits_inj'. intros k Hk. rewrite Z.shiftr_spec, Z.lor_spec by lia.
    rewrite Z.shiftl_spec by lia. replace (k + 11 - 11) with k by lia.
    rewrite (testbit_above i 11) by lia. apply orb_false_r.
Qed.

Lemma parseHandle_getHandle_witness :
  let e := Entity.mk ExampleSchema.CBase [] 1023 2047 true true in
  getHandle e = 2097151 /\ parseHandle (getHandle e) = (2047, 1023).
Proof.
  intros e. split; [reflexivity|].
  apply (parseHandle_getHandle e); simpl; lia.
Defined.

(** [GetRootMoveParent] asks the same entity for its parent at every
    turn: it returns, with [null], only for an entity that has no parent,
    and for an entity that has one the loop does not end. *)
Theorem GetRootMoveParent_only_without_parent fuel d e :
  GetRootMoveParent (S fuel) d e
    = match GetMoveParent d e with
      | Some _ => None
      | None => Some None
      end.
Proof.
  unfold GetRootMoveParent.
  assert (H : forall output, GetMoveParent d e <> None ->
            GetRootMoveParent_loop fuel d e output = None).
  { induction fuel as [|fuel IH]; intros output Hp; simpl; [reflexivity|].
    destruct (GetMoveParent d e); [apply IH; assumption|contradiction]. }
  simpl. destruct (GetMoveParent d e) eqn:Hp; [|reflexivity].
  apply H. discriminate.
Qed.


Lemma occupant_outside d entities i :
  i < 0 \/ Z.of_nat (length entities) <= i -> occupant d entities i = None.
Proof.
  intros H. unfold occupant, JS.arrayGet, JS.index.
  destruct (Z.ltb_spec i 0); [reflexivity|].
  rewrite lookup_ge_None_2 by lia. reflexivity.
Qed.

Lemma FindByCallback_loop_first d entities callback n : forall i,
  Z.of_nat (length entities) - i <= Z.of_nat n ->
  match FindByCallback_loop d entities callback n i with
  | Some (loc, e) =>
      exists k, i <= k /\ occupant d entities k = Some (loc, e) /\
                callback loc e = true /\
                forall j loc' e', i <= j < k ->
                  occupant d entities j = Some (loc', e') -> callback loc' e' = false
  | None =>
      forall j loc' e', i <= j ->
        occupant d entities j = Some (loc', e') -> callback loc' e' = false
  end.
Proof.
  induction n as [|n IH]; intros i Hn; simpl.
  - intros j loc' e' Hj Ho. rewrite occupant_outside in Ho by lia. discriminate.
  - destruct (Z.ltb_spec i (Z.of_nat (length entities))) as [Hlt|Hge].
    2:{ intros j loc' e' Hj Ho. rewrite occupant_outside in Ho by lia. discriminate. }
    assert (Hrest :
      (forall loc e, occupant d entities i = Some (loc, e) -> callback loc e = false) ->
      match FindByCallback_loop d entities callback n (i + 1) with
      | Some (loc, e) =>
          exists k, i <= k /\ occupant d entities k = Some (loc, e) /\
                    callback loc e = true /\
                    forall j loc' e', i <= j < k ->
                      occupant d entities j = Some (loc', e') -> callback loc' e' = false
      | None =>
          forall j loc' e', i <= j ->
            occupant d entities j = Some (loc', e') -> callback loc' e' = false
      end).
    { intros Hi. specialize (IH (i + 1) ltac:(lia)).
      destruct (FindByCallback_loop d entities callback n (i + 1)) as [[loc e]|].
      - destruct IH as (k & Hk & Ho & Hc & Hbefore).
        exists k. split; [lia|]. split; [assumption|]. split; [assumption|].
        intros j loc' e' Hj Hoj. destruct (Z.eq_dec j i) as [->|Hne].
        + eapply Hi, Hoj.
        + eapply Hbefore; [|exact Hoj]. lia.
      - intros j loc' e' Hj Hoj. destruct (Z.eq_dec j i) as [->|Hne].
        + eapply Hi, Hoj.
        + eapply IH; [|exact Hoj]. lia. }
    destruct (occupant d entities i) as [[loc current]|] eqn:Ho.
    + destruct (callback loc current) eqn:Hc.
      * exists i. split; [lia|]. split; [assumption|]. split; [assumption|]. intros; lia.
      * apply Hrest. intros loc0 e0 [= <- <-]. assumption.
    + apply Hrest. discriminate.
Qed.

(** [FindByCallback] returns the first entity after [start], in the
    order of the slots, that the callback accepts; it returns [null] only
    when the callback accepts no entity after [start]. *)
Theorem FindByCallback_first d entities start callback :
  let startIndex :=
    match start with
    | Some start => Entity.index start + 1
    | None => 0
    end in
  match FindByCallback d entities start callback with
  | Some (loc, e) =>
      exists k, startIndex <= k /\ occupant d entities k = Some (loc, e) /\
                callback loc e = true /\
                forall j loc' e', startIndex <= j < k ->
                  occupant d entities j = Some (loc', e') -> callback loc' e' = false
  | None =>
      forall j loc' e', startIndex <= j ->
        occupant d entities j = Some (loc', e') -> callback loc' e' = false
  end.
Proof.
  intros startIndex. unfold FindByCallback. fold startIndex.
  apply FindByCallback_loop_first. lia.
Qed.


Lemma occupant_app_head d prefix slot rest :
  occupant d (prefix ++ slot :: rest) (Z.of_nat (length prefix))
    = slot ≫= (fun loc => (fun e => (loc, e)) <$> Demo.heap d !! loc).
Proof.
  unfold occupant, JS.arrayGet, JS.index.
  destruct (Z.ltb_spec (Z.of_nat (length prefix)) 0); [lia|].
  rewrite Nat2Z.id, list_lookup_middle by reflexivity. simpl.
  destruct slot as [loc|]; simpl; [|reflexivity].
  destruct (Demo.heap d !! loc); reflexivity.
Qed.

Lemma FindByCallback_loop_suffix d keep suffix : forall prefix,
  FindByCallback_loop d (prefix ++ suffix) (fun _ e => keep e) (length suffix)
    (Z.of_nat (length prefix))
    = First_loop d (filterEntities d suffix keep).
Proof.
  induction suffix as [|slot rest IH]; intros prefix; [reflexivity|].
  simpl FindByCallback_loop.
  destruct (Z.ltb_spec (Z.of_nat (length prefix))
              (Z.of_nat (length (prefix ++ slot :: rest)))) as [_|Hge];
    [|rewrite length_app in Hge; simpl in Hge; lia].
  rewrite occupant_app_head. unfold filterEntities. simpl omap.
  specialize (IH (prefix ++ [slot])).
  rewrite <- app_assoc, length_app in IH. simpl in IH.
  replace (Z.of_nat (length prefix + 1)) with (Z.of_nat (length prefix) + 1) in IH by lia.
  destruct (slot ≫= _) as [[loc e]|] eqn:Hslot; [|exact IH].
  destruct (keep e); [|exact IH].
  simpl. destruct slot as [loc0|]; [|discriminate]. simpl in Hslot.
  destruct (Demo.heap d !! loc0) eqn:Hheap; [|discriminate].
  injection Hslot as <- <-. simpl. rewrite Hheap. reflexivity.
Qed.

Lemma First_loop_filter_all d slots :
  First_loop d (filterEntities d slots (fun _ => true)) = First_loop d slots.
Proof.
  induction slots as [|slot rest IH]; [reflexivity|].
  unfold filterEntities. simpl.
  destruct slot as [loc|]; simpl; [|exact IH].
  destruct (Demo.heap d !! loc) eqn:Hheap; simpl; [|exact IH].
  rewrite Hheap. reflexivity.
Qed.

(** Searching from the start finds the first of all the matches:
    [FindByClassname(null, c)] is the first entity of
    [FindByClassnameAll(c)], [FindByName(null, n)] the first of
    [FindByNameAll(n)], and [First()] is [Next(null)]. *)
Theorem find_from_start_is_first_of_all d entities name :
  FindByClassname d entities None name = First d (FindByClassnameAll d entities name) /\
  FindByName d entities None name = First d (FindByNameAll d entities name) /\
  Next d entities None = First d entities.
Proof.
  unfold FindByClassname, FindByName, Next, FindByCallback, First, FindByClassnameAll,
    FindByNameAll.
  rewrite Z.sub_0_r, Nat2Z.id.
  split; [|split].
  - apply (FindByCallback_loop_suffix d (ofClass name) entities []).
  - apply (FindByCallback_loop_suffix d
             (fun e => hasStringProperty e "m_iName" name) entities []).
  - etransitivity; [apply (FindByCallback_loop_suffix d (fun _ => true) entities [])|].
    apply First_loop_filter_all.
Qed.

(** An entity of the store whose [GetClassname] is [c] is among the
    entities [FindByClassnameAll(c)] returns. *)
Theorem FindByClassnameAll_has_classname d entities i loc e :
  occupant d entities i = Some (loc, e) ->
  Some loc ∈ FindByClassnameAll d entities (GetClassname e).
Proof.
  intros Ho.
  assert (Hclass : ofClass (GetClassname e) e = true).
  { unfold ofClass, GetClassname, GetProperty, PropertyWriter.GetProperty,
      PropertyWriter.findProperty.
    destruct (List.find _ (Entity.properties e)) as [[p|]|] eqn:Hfind; simpl;
      try (rewrite String.eqb_refl; reflexivity).
    destruct (EntityProperty.value_ p) as [x|s|v|l|l|l] eqn:Hv;
      try (rewrite String.eqb_refl; reflexivity).
    apply orb_true_iff. right. unfold hasStringProperty.
    apply existsb_exists. exists (Some p).
    apply find_some in Hfind as [Hin Hname].
    split; [assumption|]. rewrite Hname, Hv. apply String.eqb_refl. }
  unfold FindByClassnameAll, filterEntities. apply list_elem_of_omap.
  unfold occupant, JS.arrayGet, JS.index in Ho.
  destruct (i <? 0); [discriminate|].
  destruct (entities !! Z.to_nat i) as [slot|] eqn:Hslot; [|discriminate].
  exists slot. split; [eapply list_elem_of_lookup_2, Hslot|].
  simpl in Ho. destruct slot as [loc0|]; [|discriminate]. simpl.
  destruct (Demo.heap d !! loc0); [|discriminate].
  injection Ho as <- <-. simpl. rewrite Hclass. reflexivity.
Qed.

Lemma FindByClassnameAll_has_classname_witness :
  let e := Entity.mk ExampleSchema.CBase [] 7 4 true true in
  let entities := JS.arrayStore SvcPacketEntities.newEntities 4 0%nat in
  let d := ExampleSchema.withEntities [] [e] (Some entities) in
  GetClassname e = "CBase"%string /\
  Some 0%nat ∈ FindByClassnameAll d entities (GetClassname e).
Proof.
  intros e entities d. split; [reflexivity|].
  apply (FindByClassnameAll_has_classname d entities 4 0%nat e). reflexivity.
Defined.


Lemma arrayGet_arrayDelete {A} (l : list (option A)) i :
  JS.arrayGet (JS.arrayDelete l i) i = None.
Proof.
  unfold JS.arrayGet, JS.arrayDelete, JS.index.
  destruct (i <? 0); [reflexivity|].
  destruct (Nat.lt_ge_cases (Z.to_nat i) (length l)).
  - rewrite list_lookup_insert_eq by assumption. reflexivity.
  - rewrite lookup_ge_None_2 by (rewrite length_insert; assumption). reflexivity.
Qed.

(** The entity stored in a slot is valid, and is so no more once the
    slot is deleted: the object stays, the slot does not name it. *)
Theorem IsValid_until_deleted index d entities loc e :
  Demo.entities d = Some entities ->
  occupant d entities index = Some (loc, e) ->
  Entity.index e = index -> Entity.source e = true ->
  IsValid d loc = true /\
  exists d', leavePVS index true d = Ok (tt, d') /\
             Demo.heap d' !! loc = Some e /\ IsValid d' loc = false.
Proof.
  intros He Ho Hindex Hsource.
  destruct (EntityStoreFacts.occupant_heap _ _ _ _ _ Ho) as [Hslot Hheap].
  split.
  - unfold IsValid, entitiesOf. rewrite Hheap, Hsource, He, Hindex, Hslot.
    apply bool_decide_eq_true. reflexivity.
  - eexists. split; [|split].
    + unfold leavePVS, bind, get, put. rewrite He. reflexivity.
    + exact Hheap.
    + unfold IsValid, entitiesOf. simpl. rewrite Hheap, Hsource, Hindex.
      rewrite arrayGet_arrayDelete. reflexivity.
Qed.

Lemma IsValid_until_deleted_witness :
  let e := Entity.mk ExampleSchema.CBase [] 7 4 true true in
  let d :=
    ExampleSchema.withEntities [] [e]
      (Some (JS.arrayStore SvcPacketEntities.newEntities 4 0%nat)) in
  IsValid d 0 = true /\
  exists d', leavePVS 4 true d = Ok (tt, d') /\
             Demo.heap d' !! 0%nat = Some e /\ IsValid d' 0 = false.
Proof.
  intros e d.
  apply (IsValid_until_deleted 4 d (JS.arrayStore SvcPacketEntities.newEntities 4 0%nat)
           0%nat e); reflexivity.
Defined.

(** When an entity with another serial enters the slot of an entity, the
    entity that was there is valid no more and the new one is. *)
Theorem IsValid_after_replacement serverClass index properties serial d entities loc e
    entity d0 props :
  Demo.entities d = Some entities ->
  Demo.baselines d <> [] ->
  0 <= index ->
  occupant d entities index = Some (loc, e) ->
  Entity.index e = index -> Entity.source e = true ->
  fromBaseline serverClass serial index d = Ok (entity, d0) ->
  applyDelta_properties (Entity.properties entity) properties = Ok props ->
  exists d',
    enterPVS serverClass index properties serial true d = Ok (tt, d') /\
    IsValid d' loc = false /\
    IsValid d' (length (Demo.heap d)) = true.
Proof.
  intros He Hb Hi Ho Hindex Hsource Hfrom Hprops.
  destruct (EntityStoreFacts.occupant_heap _ _ _ _ _ Ho) as [Hslot Hheap].
  pose proof (lookup_lt_Some _ _ _ Hheap) as Hlt.
  destruct (EntityStoreFacts.fromBaseline_fields _ _ _ _ _ _ Hfrom)
    as (Hsc & Hser & Hidx & Hpvs & Hh0 & He0).
  assert (Hlen : (length (Demo.baselines d) =? 0)%nat = false).
  { destruct (Demo.baselines d); [contradiction|reflexivity]. }
  assert (Hfields : entity = Entity.mk serverClass (Entity.properties entity) serial index
                               true true).
  { unfold fromBaseline in Hfrom.
    destruct (JS.arrayGet _ _); destruct (foldl _ _ _); try discriminate Hfrom;
      injection Hfrom as <- _; reflexivity. }
  eexists. split; [|split].
  - unfold enterPVS. unfold bind at 1, get. rewrite Hlen, He.
    unfold bind at 1. unfold bind at 1. rewrite Hfrom.
    unfold bind at 1, get, bind at 1, put, ret. unfold bind, get, put.
    erewrite EntityStoreFacts.applyDelta_occupant; [reflexivity|reflexivity| |].
    + unfold occupant. simpl. rewrite EntityStoreFacts.arrayGet_arrayStore by assumption.
      rewrite list_lookup_insert_eq by (rewrite length_app; simpl; lia).
      reflexivity.
    + simpl. exact Hprops.
  - unfold IsValid, entitiesOf. simpl. rewrite Hh0.
    rewrite !list_lookup_insert_ne by lia.
    rewrite lookup_app_l by assumption. rewrite Hheap, Hsource, Hindex.
    rewrite EntityStoreFacts.arrayGet_arrayStore by assumption.
    apply bool_decide_eq_false. lia.
  - unfold IsValid, entitiesOf. simpl. rewrite Hh0.
    rewrite list_lookup_insert_eq by (rewrite length_insert, length_app; simpl; lia).
    rewrite Hfields. simpl.
    rewrite EntityStoreFacts.arrayGet_arrayStore by assumption.
    apply bool_decide_eq_true. reflexivity.
Qed.

Lemma IsValid_after_replacement_witness :
  let e := Entity.mk ExampleSchema.CBase [] 7 4 true true in
  let d :=
    ExampleSchema.withEntities [] [e]
      (Some (JS.arrayStore SvcPacketEntities.newEntities 4 0%nat)) in
  exists d',
    enterPVS ExampleSchema.CBase 4 [] 9 true d = Ok (tt, d') /\
    IsValid d' 0 = false /\ IsValid d' 1 = true.
Proof.
  intros e d.
  apply (IsValid_after_replacement ExampleSchema.CBase 4 [] 9 d
           (JS.arrayStore SvcPacketEntities.newEntities 4 0%nat) 0%nat e
           (Entity.mk ExampleSchema.CBase [] 9 4 true true) d []);
    try reflexivity; [discriminate|lia].
Defined.

End EntityApiFacts.

(** ** The two messages as wholes *)

Module MessageFacts.
Import FrameFacts.
Local Open Scope js_scope.

(** Whenever the constructor of [SvcPacketEntities] returns, the cursor
    is at the end the head of the message declares, whatever was read in
    between. *)
Theorem snapshot_ends_at_declared_end d message dataEnd d0 m d' :
  SvcPacketEntities.header d = Ok ((message, dataEnd), d0) ->
  SvcPacketEntities.new d = Ok (m, d') ->
  DemoBuffer.cursor (Demo.buf d') = dataEnd.
Proof.
  intros Hh H. unfold SvcPacketEntities.new in H.
  rewrite (bind_ok _ _ _ _ _ Hh) in H.
  eapply SvcPacketEntitiesFacts.body_cursor, H.
Qed.

Lemma snapshot_ends_at_declared_end_witness :
  let d :=
    ExampleSchema.withEntities
      (ExampleSchema.pack
         (ExampleSchema.snapshotHead ++ ExampleSchema.near 4 ++ ExampleSchema.enter 7))
      [] None in
  exists m d', SvcPacketEntities.new d = Ok (m, d') /\
               DemoBuffer.cursor (Demo.buf d') = 145.
Proof.
  intros d. eexists _, _. split; [vm_compute; reflexivity|].
  eapply (snapshot_ends_at_declared_end d); vm_compute; reflexivity.
Defined.

Lemma entriesLoop_returned_cursor tableID dataEnd table n : forall entryIndex history d d',
  SvcUpdateStringTable.entriesLoop tableID dataEnd table n entryIndex history d
    = Ok (SvcUpdateStringTable.Returned, d') ->
  DemoBuffer.cursor (Demo.buf d') = dataEnd.
Proof.
  induction n as [|n IH]; intros entryIndex history d d' H; simpl in H; [discriminate|].
  inv_bind H as r d1 Hr. destruct r as [[] [i h]].
  - eapply IH, H.
  - injection H as <-.
    apply SvcUpdateStringTableFacts.changedEntry_gaveUp in Hr as (_ & _ & Hc & _).
    exact Hc.
Qed.

(** Whenever the constructor of [SvcUpdateStringTable] returns, the
    cursor is at the end the head of the message declares. *)
Theorem update_ends_at_declared_end d tableID changedEntries dataEnd d0 m d' :
  SvcUpdateStringTable.header d = Ok ((tableID, changedEntries, dataEnd), d0) ->
  SvcUpdateStringTable.new d = Ok (m, d') ->
  DemoBuffer.cursor (Demo.buf d') = dataEnd.
Proof.
  intros Hh H. unfold SvcUpdateStringTable.new in H.
  rewrite (bind_ok _ _ _ _ _ Hh) in H. cbv beta iota in H.
  unfold SvcUpdateStringTable.body in H. cbv zeta in H.
  assert (Hwarn : forall msg (x : SvcUpdateStringTable.t) d1,
            (warn msg ;;; setCursor dataEnd ;;; ret x) d1 = Ok (m, d') ->
            DemoBuffer.cursor (Demo.buf d') = dataEnd).
  { intros msg x d1 Hx. injection Hx as _ <-. reflexivity. }
  inv_bind H as d1 d1' H1. injection H1 as <- <-.
  destruct (SvcUpdateStringTable.tableAt d0 tableID) as [table|]; [|eapply Hwarn, H].
  destruct (StringTable.maxEntries table); [|eapply Hwarn, H].
  inv_bind H as dictionaryEnabled d2 H2.
  destruct (JS.truthy dictionaryEnabled); [eapply Hwarn, H|].
  inv_bind H as r d3 H3. destruct r.
  - injection H as _ <-. reflexivity.
  - injection H as _ <-. eapply entriesLoop_returned_cursor, H3.
Qed.

Lemma update_ends_at_declared_end_witness :
  let d := ExampleSchema.withTables ExampleSchema.updateMissingHistory in
  exists m d', SvcUpdateStringTable.new d = Ok (m, d') /\
               DemoBuffer.cursor (Demo.buf d') = 242.
Proof.
  intros d. eexists _, _. split; [vm_compute; reflexivity|].
  eapply (update_ends_at_declared_end d); vm_compute; reflexivity.
Defined.


Lemma new_otherTables_witness :
  let d := ExampleSchema.withTables ExampleSchema.updateMissingHistory in
  exists m d',
    SvcUpdateStringTable.new d = Ok (m, d') /\
    SvcUpdateStringTable.tableID m = 0 /\
    SvcUpdateStringTable.otherTables 0 d d' /\
    Demo.stringTables d' !! 1%nat = Demo.stringTables d !! 1%nat.
Proof.
  intros d. eexists _, _. split; [vm_compute; reflexivity|]. split; [reflexivity|].
  pose proof (SvcUpdateStringTableFacts.new_otherTables d _ _
                ltac:(vm_compute; reflexivity)) as H.
  split; [exact H|]. apply H. discriminate.
Defined.

Lemma readEntryName_compressed_witness :
  let d := ExampleSchema.blob (ExampleSchema.compressedName 1 3 "p!") in
  exists d',
    SvcUpdateStringTable.readEntryName 100 ["a"; "hello"]%string d
      = Ok ((SvcUpdateStringTable.Completed, "help!"%string), d').
Proof.
  intros d. eexists.
  eapply (SvcUpdateStringTableFacts.readEntryName_compressed 100 ["a"; "hello"]%string d
            _ _ _ _ _ 1 "hello"%string 3 "p!"%string);
    try (vm_compute; reflexivity); [discriminate|simpl; lia].
Defined.

Lemma entityUpdate_out_of_range_witness :
  let d :=
    ExampleSchema.withEntities (ExampleSchema.pack (ExampleSchema.far 2049)) []
      (Some SvcPacketEntities.newEntities) in
  exists d',
    SvcPacketEntities.entityUpdate 100 [ExampleSchema.CBase] [ExampleSchema.parserClass]
      (-1) d = Ok ((SvcPacketEntities.Returned, None), d') /\
    Demo.log d' = ["Entity update index overflowed."]%string /\
    DemoBuffer.cursor (Demo.buf d') = 100.
Proof.
  intros d. eexists. split.
  - eapply (SvcPacketEntitiesFacts.entityUpdate_out_of_range 100 [ExampleSchema.CBase]
              [ExampleSchema.parserClass] (-1) d 2049 _ SvcPacketEntities.newEntities);
      [vm_compute; reflexivity|reflexivity|right; vm_compute; reflexivity].
  - split; reflexivity.
Defined.


Lemma frame_tables {A} (m : M A) d a d' :
  preserves frame m -> m d = Ok (a, d') -> Demo.stringTables d' = Demo.stringTables d.
Proof. intros Hm H. apply (Hm _ _ _ H). Qed.

Lemma setEntries_entriesOf tableID entries d d' :
  SvcUpdateStringTable.setEntries tableID entries d = Ok (tt, d') ->
  SvcUpdateStringTable.entriesOf d' tableID
    = match SvcUpdateStringTable.tableAt d tableID with
      | Some _ => entries
      | None => []
      end.
Proof.
  unfold SvcUpdateStringTable.setEntries, SvcUpdateStringTable.entriesOf,
    SvcUpdateStringTable.tableAt, JS.index.
  destruct (tableID <? 0) eqn:Hneg; [intros [= <-]; reflexivity|].
  destruct (Demo.stringTables d !! Z.to_nat tableID) as [[key table]|] eqn:Hk.
  - intros [= <-]. simpl.
    rewrite list_lookup_insert_eq by (eapply lookup_lt_Some, Hk). reflexivity.
  - intros [= <-]. simpl. rewrite Hk. reflexivity.
Qed.

Lemma changedEntry_keeps_entries tableID dataEnd table entryIndex history d r d' :
  SvcUpdateStringTable.changedEntry tableID dataEnd table entryIndex history d
    = Ok (r, d') ->
  (length (SvcUpdateStringTable.entriesOf d tableID)
   <= length (SvcUpdateStringTable.entriesOf d' tableID))%nat.
Proof.
  unfold SvcUpdateStringTable.changedEntry, SvcUpdateStringTable.giveUp. intros H.
  assert (Hsame : forall d1 d2, Demo.stringTables d2 = Demo.stringTables d1 ->
            SvcUpdateStringTable.entriesOf d2 tableID
              = SvcUpdateStringTable.entriesOf d1 tableID).
  { intros d1 d2 Heq. unfold SvcUpdateStringTable.entriesOf, SvcUpdateStringTable.tableAt.
    rewrite Heq. reflexivity. }
  assert (Hle : forall d2, Demo.stringTables d2 = Demo.stringTables d ->
            (length (SvcUpdateStringTable.entriesOf d tableID)
             <= length (SvcUpdateStringTable.entriesOf d2 tableID))%nat).
  { intros d2 Heq. rewrite (Hsame d d2 Heq). lia. }
  inv_bind H as next d1 H1. apply (frame_tables _ _ _ _ preserves_nextBit) in H1.
  inv_bind H as i d2 H2.
  assert (Ht2 : Demo.stringTables d2 = Demo.stringTables d).
  { destruct (JS.truthy next).
    - injection H2 as _ <-. assumption.
    - apply (frame_tables _ _ _ _ (preserves_nextInt _)) in H2. congruence. }
  inv_bind H as d2' d2'' H2'. injection H2' as <- <-.
  destruct (_ <? i); [injection H as _ <-; apply Hle; exact Ht2|].
  inv_bind H as rn d3 H3.
  apply (frame_tables _ _ _ _ (SvcUpdateStringTableFacts.readEntryName_frame _ _)) in H3.
  destruct rn as [[] entryName]; [|injection H as _ <-; apply Hle; congruence].
  inv_bind H as hasData d4 H4. apply (frame_tables _ _ _ _ preserves_nextBit) in H4.
  destruct (negb (JS.truthy hasData)); [injection H as _ <-; apply Hle; congruence|].
  inv_bind H as entryDataLength d5 H5.
  assert (Ht5 : Demo.stringTables d5 = Demo.stringTables d4).
  { destruct (JS.truthy (StringTable.userDataSizeBits table)).
    - injection H5 as _ <-. reflexivity.
    - inv_bind H5 as n d5' H5'. injection H5 as _ <-.
      apply (frame_tables _ _ _ _ (preserves_nextInt _)) in H5'. assumption. }
  destruct (negb (JS.truthy entryDataLength));
    [injection H as _ <-; apply Hle; congruence|].
  inv_bind H as c d6 H6. injection H6 as _ <-.
  inv_bind H as newEntry d7 H7.
  apply (frame_tables _ _ _ _ (preserves_entryFromDemo _ _)) in H7.
  inv_bind H as d7' d7'' H7'. injection H7' as <- <-.
  inv_bind H as u d8 H8. destruct u.
  apply setEntries_entriesOf in H8.
  inv_bind H as u d9 H9. injection H9 as _ <-. injection H as _ <-.
  assert (Hd : SvcUpdateStringTable.entriesOf d tableID
               = SvcUpdateStringTable.entriesOf d7 tableID).
  { symmetry. apply Hsame. congruence. }
  rewrite Hd.
  change (SvcUpdateStringTable.entriesOf (Demo.seek d8 (c + entryDataLength)) tableID)
    with (SvcUpdateStringTable.entriesOf d8 tableID).
  rewrite H8. unfold SvcUpdateStringTable.entriesOf.
  destruct (SvcUpdateStringTable.tableAt d7 tableID) as [t|]; simpl; [|lia].
  destruct (_ <? _); [|rewrite length_app; lia].
  unfold JS.store. destruct (_ <? 0); [|rewrite length_insert]; lia.
Qed.

(** An update never removes an entry of the table it names: entries are
    replaced in place or added at the end. *)
Theorem update_never_removes_entries d m d' :
  SvcUpdateStringTable.new d = Ok (m, d') ->
  (length (SvcUpdateStringTable.entriesOf d (SvcUpdateStringTable.tableID m))
   <= length (SvcUpdateStringTable.entriesOf d' (SvcUpdateStringTable.tableID m)))%nat.
Proof.
  assert (Hsame : forall tableID d1 d2, Demo.stringTables d2 = Demo.stringTables d1 ->
            SvcUpdateStringTable.entriesOf d2 tableID
              = SvcUpdateStringTable.entriesOf d1 tableID).
  { intros tableID d1 d2 Heq.
    unfold SvcUpdateStringTable.entriesOf, SvcUpdateStringTable.tableAt.
    rewrite Heq. reflexivity. }
  assert (Hloop : forall tableID dataEnd table n entryIndex history d1 r d2,
            SvcUpdateStringTable.entriesLoop tableID dataEnd table n entryIndex history d1
              = Ok (r, d2) ->
            (length (SvcUpdateStringTable.entriesOf d1 tableID)
             <= length (SvcUpdateStringTable.entriesOf d2 tableID))%nat).
  { intros tableID dataEnd table n.
    induction n as [|n IH]; intros entryIndex history d1 r d2 H; simpl in H.
    - injection H as _ <-. lia.
    - inv_bind H as rc d3 Hc. apply changedEntry_keeps_entries in Hc.
      destruct rc as [[] [i h]].
      + apply IH in H. lia.
      + injection H as _ <-. lia. }
  unfold SvcUpdateStringTable.new. intros H.
  inv_bind H as h d0 Hh. destruct h as [[tableID changedEntries] dataEnd].
  apply (frame_tables _ _ _ _ SvcUpdateStringTableFacts.header_frame) in Hh.
  unfold SvcUpdateStringTable.body in H. cbv zeta in H.
  assert (Hwarn : forall msg d1,
            (warn msg ;;; setCursor dataEnd ;;;
             ret (SvcUpdateStringTable.mk tableID changedEntries)) d1 = Ok (m, d') ->
            SvcUpdateStringTable.tableID m = tableID /\
            Demo.stringTables d' = Demo.stringTables d1).
  { intros msg d1 Hx. injection Hx as <- <-. split; reflexivity. }
  inv_bind H as d1 d1' H1. injection H1 as <- <-.
  destruct (SvcUpdateStringTable.tableAt d0 tableID) as [table|].
  2:{ destruct (Hwarn _ _ H) as [-> Ht]. rewrite (Hsame tableID d d'); [lia|congruence]. }
  destruct (StringTable.maxEntries table).
  2:{ destruct (Hwarn _ _ H) as [-> Ht]. rewrite (Hsame tableID d d'); [lia|congruence]. }
  inv_bind H as dictionaryEnabled d2 H2.
  apply (frame_tables _ _ _ _ preserves_nextBit) in H2.
  destruct (JS.truthy dictionaryEnabled).
  { destruct (Hwarn _ _ H) as [-> Ht]. rewrite (Hsame tableID d d'); [lia|congruence]. }
  inv_bind H as r d3 H3. apply Hloop in H3.
  assert (Hd : SvcUpdateStringTable.entriesOf d tableID
               = SvcUpdateStringTable.entriesOf d2 tableID).
  { symmetry. apply Hsame. congruence. }
  destruct r.
  - inv_bind H as u d4 H4. injection H4 as _ <-. injection H as <- <-. simpl.
    rewrite Hd. exact H3.
  - injection H as <- <-. simpl. rewrite Hd. exact H3.
Qed.

Lemma update_never_removes_entries_witness :
  let d := ExampleSchema.withTables ExampleSchema.updateMissingHistory in
  exists m d',
    SvcUpdateStringTable.new d = Ok (m, d') /\
    (length (SvcUpdateStringTable.entriesOf d 0)
     <= length (SvcUpdateStringTable.entriesOf d' 0))%nat.
Proof.
  intros d. eexists _, _. split; [vm_compute; reflexivity|].
  apply (update_never_removes_entries d
           (SvcUpdateStringTable.mk 0 2)). vm_compute. reflexivity.
Defined.

End MessageFacts.

(** ** The exclusion sets and the leaves of the schema *)

Module SchemaFacts.
Import ExcludePairSet ParserClass.

Lemma samePair_trans a b c : samePair a b = true -> samePair b c = true -> samePair a c = true.
Proof.
  unfold samePair. intros Hab Hbc.
  apply andb_true_iff in Hab as [H1 H2]. apply andb_true_iff in Hbc as [H3 H4].
  apply bool_decide_eq_true in H1, H2, H3, H4.
  apply andb_true_iff. split; apply bool_decide_eq_true; congruence.
Qed.

Lemma has_all elements e :
  has elements e None = existsb (fun curr => samePair curr e) elements.
Proof. unfold has. rewrite Nat2Z.id, firstn_all. reflexivity. Qed.

Lemma has_within elements e max :
  has elements e max = true -> has elements e None = true.
Proof.
  rewrite has_all. unfold has. intros H.
  apply existsb_exists in H as (x & Hin & Hx). apply existsb_exists.
  exists x. split; [|assumption].
  apply list_elem_of_In. apply list_elem_of_In in Hin.
  apply elem_of_take in Hin as (i & Hi & _). eapply list_elem_of_lookup_2, Hi.
Qed.

(** A pair is in the union of two sets exactly when it is in one of
    them, whatever prefix of the first set the loop compares with. *)
Theorem union_has elements other e :
  has (union elements other) e None = has elements e None || has other e None.
Proof.
  unfold union. generalize (Some (Z.of_nat (length elements))) as max. intros max.
  revert elements. induction other as [|x other IH]; intros elements; simpl foldl.
  - rewrite (has_all [] e). simpl. rewrite orb_false_r. reflexivity.
  - rewrite IH. rewrite (has_all (x :: other)). simpl existsb. rewrite <- has_all.
    destruct (has elements x max) eqn:Hx.
    + destruct (samePair x e) eqn:Hxe; [|reflexivity].
      apply has_within in Hx. rewrite has_all in Hx.
      apply existsb_exists in Hx as (y & Hin & Hy).
      assert (has elements e None = true) as ->; [|reflexivity].
      rewrite has_all. apply existsb_exists. exists y. split; [assumption|].
      eapply samePair_trans; eassumption.
    + rewrite (has_all (elements ++ [x])), existsb_app. simpl.
      rewrite <- has_all. rewrite orb_false_r, orb_assoc. reflexivity.
Qed.


Section Leaves.
Context (dataTables : tables).

Let leaves (parsedTable : list t) : Prop :=
  Forall (fun pc => Forall leafDefinition (flatProperties pc)) parsedTable.

Let keeping
    (iterate : list t -> DataTable.t -> list FlatProperty.t -> string ->
               option resolverState) : Prop :=
  forall pt table fps prefix pt' fps',
    leaves pt -> Forall leafDefinition fps ->
    iterate pt table fps prefix = Some (pt', fps') ->
    leaves pt' /\ Forall leafDefinition fps'.

Lemma flatLeaf_leaf excludes table prefix i property fp :
  skipped excludes table property = false ->
  (DataTableProperty.type property =? DataTablePropertyType.DataTable) = false ->
  flatLeaf prefix (DataTable.properties table) i property = Some fp ->
  leafDefinition fp.
Proof.
  intros Hskip Htype Hleaf.
  assert (Hbase : FlatProperty.baseProperty fp = property).
  { unfold flatLeaf in Hleaf. destruct (negb _); [injection Hleaf as <-; reflexivity|].
    destruct (JS.index _ _); [injection Hleaf as <-; reflexivity|discriminate]. }
  unfold leafDefinition. rewrite Hbase. unfold skipped in Hskip.
  apply orb_false_iff in Hskip as [Hskip _]. apply orb_false_iff in Hskip as [He Hi'].
  split; [apply Z.eqb_neq; assumption|]. split; assumption.
Qed.

Lemma gatherProperties_with_leaves iterate pt table serverClass prefix pt' :
  keeping iterate -> leaves pt ->
  gatherProperties_with iterate pt table serverClass prefix = Some pt' ->
  leaves pt'.
Proof.
  intros Hiter Hpt Hg. unfold gatherProperties_with in Hg.
  destruct (iterate pt table [] prefix) as [[pt1 fps1]|] eqn:Hit; [|discriminate].
  destruct (Hiter _ _ _ _ _ _ Hpt ltac:(constructor) Hit) as [Hpt1 Hfps1].
  set (pt2 := if ServerClass.tableID serverClass =? Z.of_nat (length pt1)
              then pt1 ++ [mk serverClass []] else pt1) in *.
  assert (Hpt2 : leaves pt2).
  { unfold pt2. destruct (_ =? _); [|assumption].
    apply Forall_app. split; [assumption|]. repeat constructor. }
  destruct (JS.index pt2 (ServerClass.tableID serverClass)) as [pc|] eqn:Hpc.
  - injection Hg as <-. apply Forall_insert; [assumption|].
    apply Forall_app. split; [|assumption].
    unfold JS.index in Hpc. destruct (_ <? 0); [discriminate|].
    unfold leaves in Hpt2. rewrite Forall_lookup in Hpt2. eapply Hpt2, Hpc.
  - injection Hg as <-. assumption.
Qed.

Lemma iterateProperties_loop_leaves iterate excludes serverClass table prefix n :
  keeping iterate ->
  forall i pt fps pt' fps',
    leaves pt -> Forall leafDefinition fps ->
    iterateProperties_loop iterate dataTables excludes serverClass table prefix n i (pt, fps)
      = Some (pt', fps') ->
    leaves pt' /\ Forall leafDefinition fps'.
Proof.
  intros Hiter. induction n as [|n IH]; intros i pt fps pt' fps' Hpt Hfps Hloop.
  - simpl in Hloop. injection Hloop as <- <-. auto.
  - simpl in Hloop.
    destruct (JS.index (DataTable.properties table) i) as [property|] eqn:Hi;
      [|eapply IH; eassumption].
    destruct (skipped excludes table property) eqn:Hskip; [eapply IH; eassumption|].
    destruct (DataTableProperty.type property =? DataTablePropertyType.DataTable) eqn:Hty.
    + destruct (DataTableProperty.excludeName property) as [excludeName|];
        [|eapply IH; eassumption].
      destruct (String.length excludeName =? 0)%nat; [eapply IH; eassumption|].
      destruct (dataTables !! excludeName) as [excludeTable|] eqn:Hex;
        [|eapply IH; eassumption].
      destruct (DataTableProperty.hasFlag property DataTablePropertyFlag.Collapsible).
      * destruct (iterate pt excludeTable fps prefix) as [[pt1 fps1]|] eqn:Hit;
          [|discriminate].
        destruct (Hiter _ _ _ _ _ _ Hpt Hfps Hit) as [Hpt1 Hfps1].
        eapply IH; eassumption.
      * destruct (gatherProperties_with iterate pt excludeTable serverClass _)
          as [pt1|] eqn:Hg; [|discriminate].
        eapply IH; [| |exact Hloop]; [|assumption].
        eapply gatherProperties_with_leaves; eassumption.
    + destruct (flatLeaf prefix (DataTable.properties table) i property)
        as [newProperty|] eqn:Hleaf; [|eapply IH; eassumption].
      eapply IH; [| |exact Hloop]; [assumption|].
      apply Forall_app. split; [assumption|]. constructor; [|constructor].
      eapply flatLeaf_leaf; eassumption.
Qed.

Lemma iterateProperties_leaves fuel excludes serverClass :
  keeping (iterateProperties fuel dataTables excludes serverClass).
Proof.
  induction fuel as [|fuel IH]; intros pt table fps prefix pt' fps' Hpt Hfps Hit;
    simpl in Hit; [discriminate|].
  eapply iterateProperties_loop_leaves; eassumption.
Qed.

(** Every flattened property of every parser class is a leaf of the
    schema: its definition is not a reference to a table, and carries
    neither the [Exclude] nor the [InsideArray] flag. *)
Theorem fromDemo_flattens_to_leaves fuel serverClasses parsed :
  fromDemo fuel dataTables serverClasses = Some parsed ->
  Forall (fun pc => Forall leafDefinition (flatProperties pc)) parsed.
Proof.
  unfold fromDemo. fold (leaves parsed).
  assert (Hacc : forall pt, Some ([] : list t) = Some pt -> leaves pt).
  { intros pt [= <-]. constructor. }
  revert Hacc. generalize (Some ([] : list t)) as acc. revert parsed.
  induction serverClasses as [|sc scs IH]; intros parsed acc Hacc Hfold; simpl in Hfold.
  - apply Hacc. assumption.
  - eapply IH; [|exact Hfold]. clear IH Hfold. intros pt Hstep.
    destruct acc as [pt0|]; [|discriminate].
    specialize (Hacc pt0 eq_refl).
    destruct (dataTables !! ServerClass.tableName sc) as [table|] eqn:Htable.
    2:{ injection Hstep as <-. assumption. }
    destruct (gatherExcludes fuel dataTables table) as [excludes|]; [|discriminate].
    destruct (gatherProperties fuel dataTables pt0 excludes table sc "")
      as [pt1|] eqn:Hg; [|discriminate].
    assert (Hpt1 : leaves pt1).
    { eapply gatherProperties_with_leaves; [|exact Hacc|exact Hg].
      apply iterateProperties_leaves. }
    destruct (JS.index pt1 (ServerClass.tableID sc)) as [pc|] eqn:Hpc.
    + injection Hstep as <-. apply Forall_insert; [assumption|]. simpl.
      rewrite ParserClassFacts.sortProperties_perm.
      unfold JS.index in Hpc. destruct (_ <? 0); [discriminate|].
      unfold leaves in Hpt1. rewrite Forall_lookup in Hpt1. eapply Hpt1, Hpc.
    + injection Hstep as <-. assumption.
Qed.

End Leaves.

Lemma fromDemo_flattens_to_leaves_witness :
  exists parsed,
    fromDemo 5 ExampleSchema.dataTables [ExampleSchema.CBase] = Some parsed /\
    map (fun pc => map FlatProperty.name (flatProperties pc)) parsed
      = [["local.m_a"; "local.m_arr"; "m_xs"; "m_c"]%string] /\
    Forall (fun pc => Forall leafDefinition (flatProperties pc)) parsed.
Proof.
  eexists. split; [vm_compute; reflexivity|]. split; [reflexivity|].
  apply (fromDemo_flattens_to_leaves ExampleSchema.dataTables 5 [ExampleSchema.CBase]).
  vm_compute. reflexivity.
Defined.

End SchemaFacts.

(** ** Writes through [SetProperty] *)

Module WriterFacts.
Import PropertyWriter DataTablePropertyFlag PropertyWriterFacts.

(** A write through [SetProperty] patches the blob in place: whatever
    the property and the value, the blob keeps its length and its cursor,
    and nothing of the session but the blob (and the log) changes. *)
Theorem SetProperty_patches_in_place e name value d b d' :
  SetProperty e name value d = Ok (b, d') ->
  sameShape (Demo.buf d) (Demo.buf d') /\
  Demo.heap d' = Demo.heap d /\ Demo.entities d' = Demo.entities d /\
  Demo.stringTables d' = Demo.stringTables d /\ Demo.baselines d' = Demo.baselines d.
Proof.
  unfold SetProperty.
  destruct (findProperty e name) as [property|];
    [|intros [= _ <-]; repeat split].
  destruct (negb (Entity.source e)); [intros [= _ <-]; repeat split|].
  destruct (setValue property (Demo.buf d) value) as [buf'|] eqn:Hset; [|discriminate].
  intros [= _ <-]. split; [|repeat split]. simpl.
  eapply sameShape_setValue, Hset.
Qed.

Lemma SetProperty_patches_in_place_witness :
  let d := ExampleSchema.blob [0; 0] in
  exists d',
    SetProperty ExampleSchema.writable "m_x" (EntityProperty.VNumber (JSNumber.ofZ 5)) d
      = Ok (true, d') /\
    sameShape (Demo.buf d) (Demo.buf d').
Proof.
  intros d. eexists. split; [reflexivity|].
  eapply (SetProperty_patches_in_place ExampleSchema.writable "m_x"
            (EntityProperty.VNumber (JSNumber.ofZ 5)) d). reflexivity.
Defined.


(** An unsigned integer written with [SetProperty] is what reading the
    property again from the patched blob gives: the property read at the
    place of the field bears the same place and the integer written,
    reduced to the width of the field. *)
Theorem SetProperty_then_fromDemo e name x d this v :
  let base := FlatProperty.baseProperty (EntityProperty.property this) in
  let from := EntityProperty.bufferFrom this in
  let bits := DataTableProperty.bits v in
  findProperty e name = Some this ->
  Entity.source e = true ->
  DataTableProperty.type base = DataTablePropertyType.Int ->
  hasFlag base Unsigned = true ->
  DataTableProperty.value base = Some v ->
  EntityProperty.bufferSize this = bits ->
  DemoBuffer.wf (Demo.buf d) -> 0 <= from -> 0 <= bits <= 32 ->
  from + bits <= DemoBuffer.bitLength (Demo.buf d) ->
  exists d1,
    SetProperty e name (EntityProperty.VNumber x) d = Ok (true, d1) /\
    PropertyCodec.fromDemo (EntityProperty.index this) (EntityProperty.property this)
      (Demo.seek d1 from)
      = Ok (EntityProperty.mk (EntityProperty.index this) (EntityProperty.property this)
              from bits
              (EntityProperty.VNumber (JSNumber.ofZ (JSNumber.toInt32 x mod 2 ^ bits))),
            Demo.seek d1 (from + bits)).
Proof.
  intros base from bits Hfind Hsource Htype Hunsigned Hvalue Hsize Hwf Hfrom Hbits Hfit.
  eexists. split.
  - unfold SetProperty. rewrite Hfind, Hsource. simpl. unfold setValue. cbv zeta.
    fold base. rewrite Htype. simpl. reflexivity.
  - unfold setFromInt. fold base. rewrite Hunsigned. simpl snd.
    unfold PropertyCodec.fromDemo, bind, getCursor, ret. simpl.
    fold base. rewrite Htype. simpl.
    unfold PropertyCodec.decodeInt. rewrite Hvalue, Hunsigned.
    unfold bind. rewrite ReaderFacts.nextInt_run by (fold bits; lia).
    unfold ret. simpl. fold from. fold bits. rewrite Hsize. unfold setInt.
    rewrite Z.add_0_r.
    rewrite field_seek.
    rewrite written_field by assumption.
    replace (from + bits - from) with bits by lia. reflexivity.
Qed.


Lemma SetProperty_then_fromDemo_witness :
  let d := ExampleSchema.blob [255; 255] in
  let this := ExampleSchema.counterProperty in
  exists d1,
    SetProperty ExampleSchema.counted "m_n" (EntityProperty.VNumber (JSNumber.ofZ 300)) d
      = Ok (true, d1) /\
    PropertyCodec.fromDemo 0 (EntityProperty.property this) (Demo.seek d1 3)
      = Ok (EntityProperty.mk 0 (EntityProperty.property this) 3 8
              (EntityProperty.VNumber (JSNumber.ofZ 44)),
            Demo.seek d1 11).
Proof.
  intros d this.
  apply (SetProperty_then_fromDemo ExampleSchema.counted "m_n" (JSNumber.ofZ 300) d this
           (DataTableProperty.mkRange 0 0 8));
    try reflexivity; try (simpl; lia); try (unfold DemoBuffer.bitLength; simpl; lia).
  repeat constructor; lia.
Defined.

End WriterFacts.

(** ** Reading the schema *)

Module SchemaReadFacts.
Import FrameFacts.
Local Open Scope js_scope.

Lemma nextInt_bounds size d n d' :
  0 <= size <= 53 -> nextInt size d = Ok (n, d') -> 0 <= n < 2 ^ size.
Proof.
  intros Hsize H. apply ReaderFacts.nextInt_inv in H as [-> _]; [|assumption].
  apply DemoBufferFacts.field_bounds. lia.
Qed.

Lemma property_wellShaped d p d' :
  DataTableCodec.property d = Ok (p, d') -> DataTableCodec.wellShaped p.
Proof.
  unfold DataTableCodec.property. intros H.
  inv_bind H as type d1 Htype. inv_bind H as name d2 Hname.
  inv_bind H as flags d3 Hflags. inv_bind H as priority d4 Hpriority.
  apply nextInt_bounds in Htype; [|lia]. apply nextInt_bounds in Hflags; [|lia].
  unfold DataTableCodec.wellShaped.
  destruct ((type =? DataTablePropertyType.DataTable) || _) eqn:Hexclude.
  - inv_bind H as excludeName d5 Hex. injection H as <- _. simpl.
    unfold DataTableProperty.hasFlag in *. simpl in *. rewrite Hexclude.
    repeat split; try lia; discriminate.
  - destruct (DataTableCodec.scalar type) eqn:Hscalar.
    + inv_bind H as low d5 Hlow. inv_bind H as high d6 Hhigh. inv_bind H as bits d7 Hbits.
      injection H as <- _. simpl.
      unfold DataTableProperty.hasFlag in *. simpl in *. rewrite Hexclude, Hscalar.
      apply nextInt_bounds in Hbits; [|lia].
      repeat split; try lia. eexists. split; [reflexivity|]. simpl. lia.
    + destruct (type =? DataTablePropertyType.Array) eqn:Harray; [|discriminate].
      inv_bind H as n d5 Hn. injection H as <- _. simpl.
      unfold DataTableProperty.hasFlag in *. simpl in *. rewrite Hexclude, Hscalar.
      apply nextInt_bounds in Hn; [|lia].
      repeat split; try lia. eexists. split; [reflexivity|]. lia.
Qed.

Lemma repeatM_Forall {A} (P : A -> Prop) (m : M A) :
  (forall d a d', m d = Ok (a, d') -> P a) ->
  forall n d l d', PropertyCodec.repeatM n m d = Ok (l, d') -> Forall P l /\ length l = n.
Proof.
  intros Hm. induction n as [|n IH]; intros d l d' H; simpl in H.
  - injection H as <- _. split; [constructor|reflexivity].
  - inv_bind H as a d1 Ha. inv_bind H as l1 d2 Hl. injection H as <- _.
    destruct (IH _ _ _ Hl) as [HF Hlen]. split; [constructor; eauto|simpl; lia].
Qed.

(** A table read from the demo has fewer than 1024 definitions, and
    each one carries exactly what its type calls for: the name of a table
    for a table reference or an excluded property, a range of fewer than
    128 bits for a scalar, a count below 1024 for an array. *)
Theorem table_wellShaped d t d' :
  DataTableCodec.table d = Ok (t, d') ->
  (length (DataTable.properties t) < 1024)%nat /\
  Forall DataTableCodec.wellShaped (DataTable.properties t).
Proof.
  unfold DataTableCodec.table. intros H.
  inv_bind H as needsDecoder d1 Hbit. inv_bind H as name d2 Hname.
  inv_bind H as count d3 Hcount. inv_bind H as properties d4 Hprops.
  injection H as <- _. simpl.
  apply nextInt_bounds in Hcount; [|lia].
  destruct (repeatM_Forall _ _ property_wellShaped _ _ _ _ Hprops) as [HF Hlen].
  split; [lia|exact HF].
Qed.


Lemma returns_ret {A} (a : A) : returns (ret a).
Proof. intros d. eexists _, _. reflexivity. Qed.
Lemma returns_onBuf {A} (f : DemoBuffer.t -> A * DemoBuffer.t) : returns (onBuf f).
Proof. intros d. unfold onBuf. destruct (f (Demo.buf d)) as [a b]. eexists _, _. reflexivity. Qed.
Lemma returns_getCursor : returns getCursor.
Proof. intros d. eexists _, _. reflexivity. Qed.
Lemma returns_bind {A B} (m : M A) (k : A -> M B) :
  returns m -> (forall a, returns (k a)) -> returns (bind m k).
Proof.
  intros Hm Hk d. destruct (Hm d) as (a & d1 & H1). destruct (Hk a d1) as (b & d2 & H2).
  exists b, d2. rewrite (bind_ok _ _ _ _ _ H1). exact H2.
Qed.
Lemma returns_if {A} (b : bool) (m1 m2 : M A) :
  returns m1 -> returns m2 -> returns (if b then m1 else m2).
Proof. destruct b; auto. Qed.

Lemma returns_tryBuf {A} (f : DemoBuffer.t -> option (A * DemoBuffer.t)) :
  (forall b, exists a b', f b = Some (a, b')) -> returns (tryBuf f).
Proof.
  intros Hf d. destruct (Hf (Demo.buf d)) as (a & b' & Hb).
  eexists _, _. apply ReaderFacts.tryBuf_Some, Hb.
Qed.

(** A read of a width that is not negative does not throw. *)
Lemma returns_nextInt size : -8 < size -> returns (nextInt size).
Proof.
  intros Hsize. apply returns_tryBuf. intros b.
  unfold DemoBuffer.nextInt, DemoBuffer.getInt.
  rewrite DemoBufferFacts.getBitSlice_Some by lia. eexists _, _. reflexivity.
Qed.

Lemma returns_nextSignedInt size : -8 < size -> returns (nextSignedInt size).
Proof.
  intros Hsize. apply returns_tryBuf. intros b.
  unfold DemoBuffer.nextSignedInt, DemoBuffer.getSignedInt, DemoBuffer.getInt.
  rewrite DemoBufferFacts.getBitSlice_Some by lia. simpl.
  destruct (JS.truthy _); eexists _, _; reflexivity.
Qed.

Lemma returns_nextFloat : returns nextFloat.
Proof.
  apply returns_tryBuf. intros b. unfold DemoBuffer.nextFloat, DemoBuffer.getFloat.
  rewrite DemoBufferFacts.getBitSlice_Some by lia. eexists _, _. reflexivity.
Qed.

Lemma returns_nextString size : -8 < size -> returns (nextString size).
Proof.
  intros Hsize. apply returns_tryBuf. intros b.
  unfold DemoBuffer.nextString, DemoBuffer.getString.
  rewrite DemoBufferFacts.getBitSlice_Some by lia. eexists _, _. reflexivity.
Qed.

Ltac returns_tac :=
  repeat first
    [ assumption | apply returns_ret | apply returns_getCursor
    | apply returns_onBuf
    | apply returns_nextFloat
    | apply returns_nextInt;
      repeat match goal with |- context [if ?c then _ else _] => destruct c end; lia
    | apply returns_nextSignedInt; lia
    | apply returns_bind; [|intros ?]
    | apply returns_if ].

Lemma returns_decodeInt p v :
  DataTableProperty.value p = Some v -> 0 <= DataTableProperty.bits v ->
  returns (PropertyCodec.decodeInt p).
Proof.
  intros Hv Hbits. unfold PropertyCodec.decodeInt. rewrite Hv. returns_tac.
Qed.

Lemma returns_decodeFloat p v :
  DataTableProperty.value p = Some v -> 0 <= DataTableProperty.bits v ->
  returns (PropertyCodec.decodeFloat p).
Proof.
  intros Hv Hbits. unfold PropertyCodec.decodeFloat. rewrite Hv.
  unfold nextBit. returns_tac.
Qed.

Lemma returns_decodeVector3 p v :
  DataTableProperty.value p = Some v -> 0 <= DataTableProperty.bits v ->
  returns (PropertyCodec.decodeVector3 p).
Proof.
  intros Hv Hbits. unfold PropertyCodec.decodeVector3.
  pose proof (returns_decodeFloat _ _ Hv Hbits). unfold nextBit. returns_tac; assumption.
Qed.

Lemma returns_decodeVector2 p v :
  DataTableProperty.value p = Some v -> 0 <= DataTableProperty.bits v ->
  returns (PropertyCodec.decodeVector2 p).
Proof.
  intros Hv Hbits. unfold PropertyCodec.decodeVector2.
  pose proof (returns_decodeFloat _ _ Hv Hbits). returns_tac; assumption.
Qed.

(** The length of a string is read as 9 bits: it is not negative. *)
Lemma returns_decodeString p : returns (PropertyCodec.decodeString p).
Proof.
  unfold PropertyCodec.decodeString. intros d.
  rewrite (bind_ok _ _ _ _ _ (ReaderFacts.nextInt_run 9 d ltac:(lia))).
  apply returns_nextString.
  pose proof (DemoBufferFacts.field_bounds (Demo.buf d) (DemoBuffer.cursor (Demo.buf d)) 9
                ltac:(lia)). lia.
Qed.

Lemma wellShaped_scalar p :
  DataTableCodec.wellShaped p ->
  DataTableCodec.scalar (DataTableProperty.type p) = true ->
  DataTableProperty.hasFlag p DataTablePropertyFlag.Exclude = false ->
  exists v, DataTableProperty.value p = Some v /\ 0 <= DataTableProperty.bits v.
Proof.
  intros (_ & _ & H) Hscalar Hexclude. rewrite Hexclude, Hscalar in H.
  destruct (DataTableProperty.type p =? DataTablePropertyType.DataTable) eqn:Ht.
  - apply Z.eqb_eq in Ht. rewrite Ht in Hscalar. discriminate.
  - simpl in H. destruct H as (_ & _ & v & Hv & Hb). exists v. split; [exact Hv|lia].
Qed.


(** A scalar definition read from the demo that is not excluded
    always decodes: [EntityProperty.fromDemo] returns a property for it
    whatever the blob holds at the cursor. *)
Theorem parsed_scalar_always_decodes d p d' index flatProperty d1 :
  DataTableCodec.property d = Ok (p, d') ->
  DataTableCodec.scalar (DataTableProperty.type p) = true ->
  DataTableProperty.hasFlag p DataTablePropertyFlag.Exclude = false ->
  FlatProperty.baseProperty flatProperty = p ->
  exists e d2, PropertyCodec.fromDemo index flatProperty d1 = Ok (e, d2).
Proof.
  intros Hp Hscalar Hexclude Hbase.
  destruct (wellShaped_scalar p (property_wellShaped _ _ _ Hp) Hscalar Hexclude)
    as (v & Hv & Hbits).
  assert (H : returns (PropertyCodec.fromDemo index flatProperty)).
  { unfold PropertyCodec.fromDemo. rewrite Hbase.
    pose proof (returns_decodeInt _ _ Hv Hbits).
    pose proof (returns_decodeFloat _ _ Hv Hbits).
    pose proof (returns_decodeVector3 _ _ Hv Hbits).
    pose proof (returns_decodeVector2 _ _ Hv Hbits).
    pose proof (returns_decodeString p).
    unfold DataTableCodec.scalar in Hscalar.
    repeat match goal with
           | |- context [?a =? ?b] => destruct (a =? b); try discriminate
           end; returns_tac. }
  apply H.
Qed.

Lemma table_wellShaped_witness :
  (length [ExampleSchema.parsedCounter] < 1024)%nat /\
  Forall DataTableCodec.wellShaped [ExampleSchema.parsedCounter].
Proof.
  eapply (table_wellShaped (ExampleSchema.blob ExampleSchema.tableBlob)
            (DataTable.mk false "DT" [ExampleSchema.parsedCounter])).
  vm_compute. reflexivity.
Defined.

Lemma parsed_scalar_always_decodes_witness :
  exists e d2,
    PropertyCodec.fromDemo 0 (FlatProperty.mk "m_n" ExampleSchema.parsedCounter None)
      (ExampleSchema.blob [7]) = Ok (e, d2).
Proof.
  eapply (parsed_scalar_always_decodes
            (ExampleSchema.blob (ExampleSchema.pack ExampleSchema.counterField))).
  - vm_compute. reflexivity.
  - reflexivity.
  - reflexivity.
  - reflexivity.
Defined.

End SchemaReadFacts.
